(** * tournabot: event discovery and extraction core (smoothcomp.py)

    A shallow embedding of [SmoothcompClient] and of the two value objects of
    [models.py], followed by the properties of the specification that were
    checked against it.

    Conventions of the embedding.
    - A Python [str] is a [list ascii]: the model covers text whose code
      points lie below 256. On that range [\s], [\d], [\w], [str.isdigit]
      and [str.lower] are those of Python ([\s] holds the no-break space,
      [str.isdigit] the superscript digits, [\w] and [str.lower] the Latin-1
      letters); [str.title] is modelled on the letters [A-Z] and [a-z].
    - The regular expressions of the source are written as [regex] values and
      run by a small backtracking matcher, [rmatch], that lists the possible
      remainders in the priority order of Python's [re] (greedy quantifiers,
      left alternative first).
    - [httpx], [BeautifulSoup], [urljoin] and [html.unescape] are external
      libraries: the interface [Externals] names what the client takes from
      them.
    - Code that can raise runs in the monad [M]: the state of the outside
      world is threaded through, and a result is [Ok] or [Raise]. *)

From Stdlib Require Import Ascii String ZArith NArith Lia Bool Arith List.
From Stdlib Require Import Sorting.Sorted Sorting.Permutation DecimalString.
Import ListNotations.

Open Scope string_scope.
Open Scope list_scope.

(* ================================================================== *)
(** * Python strings *)
(* ================================================================== *)

Abbreviation str := (list ascii).

Definition py (x : string) : str := list_ascii_of_string x.

Coercion py : string >-> list.

Definition code (c : ascii) : N := N_of_ascii c.

Definition in_range (lo hi : ascii) (c : ascii) : bool :=
  (code lo <=? code c)%N && (code c <=? code hi)%N.

Definition is_digit (c : ascii) : bool := in_range "0" "9" c.
Definition is_upper (c : ascii) : bool := in_range "A" "Z" c.
Definition is_lower (c : ascii) : bool := in_range "a" "z" c.
Definition is_alpha (c : ascii) : bool := is_upper c || is_lower c.

(** The alphanumeric characters from 128 to 255: the ordinal indicators,
    the superscript digits, the micro sign, the fractions and the Latin-1
    letters. *)
Definition is_latin1_alnum (c : ascii) : bool :=
  let n := code c in
  (n =? 170)%N || (n =? 178)%N || (n =? 179)%N || (n =? 181)%N
  || (n =? 185)%N || (n =? 186)%N
  || ((188 <=? n)%N && (n <=? 190)%N)
  || ((192 <=? n)%N && (n <=? 214)%N)
  || ((216 <=? n)%N && (n <=? 246)%N)
  || (248 <=? n)%N.

(** [\w] of [re] below code point 256. *)
Definition is_word (c : ascii) : bool :=
  is_alpha c || is_digit c || Ascii.eqb c "_" || is_latin1_alnum c.

(** [str.isspace] / [\s] below code point 256: TAB..CR, FS..US, the blank,
    NEL (133) and the no-break space (160). *)
Definition is_space (c : ascii) : bool :=
  ((9 <=? code c)%N && (code c <=? 13)%N)
  || ((28 <=? code c)%N && (code c <=? 32)%N)
  || (code c =? 133)%N || (code c =? 160)%N.

(** [str.lower] on one character: [A-Z], and the capital Latin-1 letters
    (192 to 222 but for the multiplication sign, 215). *)
Definition is_latin1_upper (c : ascii) : bool :=
  (192 <=? code c)%N && (code c <=? 222)%N && negb (code c =? 215)%N.

Definition lower_char (c : ascii) : ascii :=
  if is_upper c || is_latin1_upper c then ascii_of_N (code c + 32) else c.

Definition upper_char (c : ascii) : ascii :=
  if is_lower c then ascii_of_N (code c - 32) else c.

(** [s.lower()] *)
Definition lower (s : str) : str := map lower_char s.

Fixpoint str_eqb (a b : str) : bool :=
  match a, b with
  | [], [] => true
  | x :: a', y :: b' => Ascii.eqb x y && str_eqb a' b'
  | _, _ => false
  end.

(** [s.startswith(w)] *)
Fixpoint starts_with (w s : str) : bool :=
  match w, s with
  | [], _ => true
  | x :: w', y :: s' => Ascii.eqb x y && starts_with w' s'
  | _ :: _, [] => false
  end.

(** [w in s] *)
Fixpoint contains (w s : str) : bool :=
  starts_with w s || match s with [] => false | _ :: t => contains w t end.

Fixpoint drop_while (p : ascii -> bool) (s : str) : str :=
  match s with
  | [] => []
  | c :: t => if p c then drop_while p t else s
  end.

Definition lstrip_by (p : ascii -> bool) (s : str) : str := drop_while p s.
Definition rstrip_by (p : ascii -> bool) (s : str) : str :=
  rev (drop_while p (rev s)).

(** [s.strip()] and [s.rstrip("/")] *)
Definition strip (s : str) : str := rstrip_by is_space (lstrip_by is_space s).
Definition rstrip_slash (s : str) : str := rstrip_by (Ascii.eqb "/") s.

(** [s.split(sep, 1)[0]] for a one-character [sep]. *)
Fixpoint split1_head (sep : ascii) (s : str) : str :=
  match s with
  | [] => []
  | c :: t => if Ascii.eqb c sep then [] else c :: split1_head sep t
  end.

(** [s.rsplit(sep, 1)[-1]] for a one-character [sep]. *)
Definition rsplit1_last (sep : ascii) (s : str) : str :=
  rev (split1_head sep (rev s)).

(** A non-empty string of the decimal digits [0] to [9]: what [\d+] matches
    in full below code point 256. *)
Definition isdigit (s : str) : bool :=
  match s with [] => false | _ => forallb is_digit s end.

(** The characters [str.isdigit] accepts below code point 256: the decimal
    digits and the superscripts two, three (178, 179) and one (185). *)
Definition is_digit_char (c : ascii) : bool :=
  is_digit c || (code c =? 178)%N || (code c =? 179)%N || (code c =? 185)%N.

(** [s.isdigit()] *)
Definition str_isdigit (s : str) : bool :=
  match s with [] => false | _ => forallb is_digit_char s end.

(** [sep.join(parts)] *)
Fixpoint join (sep : str) (parts : list str) : str :=
  match parts with
  | [] => []
  | [p] => p
  | p :: rest => p ++ sep ++ join sep rest
  end.

(** [s.title()]: a letter that follows a letter is lowered, any other letter
    is raised. *)
Fixpoint title_from (prev_cased : bool) (s : str) : str :=
  match s with
  | [] => []
  | c :: t =>
      (if is_alpha c
       then (if prev_cased then lower_char c else upper_char c)
       else c) :: title_from (is_alpha c) t
  end.

Definition title (s : str) : str := title_from false s.

(** [a or b] on strings *)
Definition str_or (a b : str) : str :=
  match a with [] => b | _ => a end.

(** Comparison of strings, code point by code point, as [<=] on [str]. *)
Fixpoint str_compare (a b : str) : comparison :=
  match a, b with
  | [], [] => Eq
  | [], _ :: _ => Lt
  | _ :: _, [] => Gt
  | x :: a', y :: b' =>
      match N.compare (code x) (code y) with
      | Eq => str_compare a' b'
      | o => o
      end
  end.

(* ================================================================== *)
(** * Regular expressions: the fragment of [re] the client uses *)
(* ================================================================== *)

Inductive regex : Type :=
| Eps
| Cls (p : ascii -> bool)
| Cat (r1 r2 : regex)
| Alt (r1 r2 : regex)
| Rep (p : ascii -> bool) (lo : nat) (hi : option nat)
| Grp (r : regex)
| Eos
| Eow.

(** Greedy [p{lo,hi}]: the remainders, longest repetition first. *)
Fixpoint rep_rems (p : ascii -> bool) (lo : nat) (hi : option nat) (s : str)
  : list str :=
  let stop := match lo with O => [s] | S _ => [] end in
  match hi with
  | Some O => stop
  | _ =>
      match s with
      | c :: t =>
          if p c then rep_rems p (pred lo) (option_map pred hi) t ++ stop
          else stop
      | [] => stop
      end
  end.

(** The text a match consumed, from the subject and the remainder. *)
Definition consumed (s rest : str) : str := firstn (length s - length rest) s.

(** [rmatch r s]: every way [r] matches a prefix of [s], in the order in
    which a backtracking matcher tries them; each is given by the texts of
    the capture groups, in the order of their opening parentheses, and by
    what is left of [s]. (In the patterns of the client no group stands
    under an alternative, so the position of a text is its group number.)
    [Eos] is [$]; [Eow] is [\b] written after a word character. *)
Fixpoint rmatch (r : regex) (s : str) : list (list str * str) :=
  match r with
  | Eps => [([], s)]
  | Cls p => match s with
             | c :: t => if p c then [([], t)] else []
             | [] => []
             end
  | Cat r1 r2 =>
      flat_map (fun m1 => map (fun m2 => (fst m1 ++ fst m2, snd m2))
                              (rmatch r2 (snd m1)))
               (rmatch r1 s)
  | Alt r1 r2 => rmatch r1 s ++ rmatch r2 s
  | Rep p lo hi => map (fun rest => ([], rest)) (rep_rems p lo hi s)
  | Grp r1 => map (fun m => (consumed s (snd m) :: fst m, snd m)) (rmatch r1 s)
  | Eos => match s with
           | [] => [([], s)]
           | [c] => if Ascii.eqb c "010" then [([], s)] else []
           | _ => []
           end
  | Eow => match s with
           | [] => [([], s)]
           | c :: _ => if is_word c then [] else [([], s)]
           end
  end.

Definition chr (c : ascii) : regex := Cls (Ascii.eqb c).
(** a character under [re.IGNORECASE] *)
Definition ichr (c : ascii) : regex :=
  Cls (fun x => Ascii.eqb (lower_char x) (lower_char c)).

Fixpoint lit (w : str) : regex :=
  match w with [] => Eps | c :: t => Cat (chr c) (lit t) end.
Fixpoint ilit (w : str) : regex :=
  match w with [] => Eps | c :: t => Cat (ichr c) (ilit t) end.

Definition opt (r : regex) : regex := Alt r Eps.
Definition plus (p : ascii -> bool) : regex := Rep p 1 None.
Definition star (p : ascii -> bool) : regex := Rep p 0 None.
Definition exactly (n : nat) (p : ascii -> bool) : regex := Rep p n (Some n).

(** A match object: the matched text ([group(0)]), the groups, the rest. *)
Record re_result : Type := mk_result {
  m_text : str;
  m_groups : list str;
  m_rest : str
}.

(** [m.group(i)] for [i >= 1] *)
Definition group (m : re_result) (i : nat) : str := nth (pred i) (m_groups m) [].

(** [re.match(r, s)] *)
Definition re_match (r : regex) (s : str) : option re_result :=
  match rmatch r s with
  | (g, rest) :: _ => Some (mk_result (consumed s rest) g rest)
  | [] => None
  end.

(** [re.search(r, s)]: the leftmost match. *)
Fixpoint re_search (r : regex) (s : str) : option re_result :=
  match re_match r s with
  | Some m => Some m
  | None => match s with
            | [] => None
            | _ :: t => re_search r t
            end
  end.

(** What [re.findall] lists for a match: the match when the pattern has no
    group, the group when it has one. *)
Definition findall_item (m : re_result) : str :=
  match m_groups m with [] => m_text m | g :: _ => g end.

(** [re.findall(r, s)] for a pattern with at most one group and no empty
    match: the non-overlapping matches, left to right. [skip] counts the
    characters of the last match that are still to be passed over. *)
Fixpoint re_findall_from (r : regex) (skip : nat) (s : str) : list str :=
  match skip with
  | S k => match s with
           | [] => []
           | _ :: t => re_findall_from r k t
           end
  | O =>
      match re_match r s with
      | Some m =>
          findall_item m :: match s with
                      | [] => []
                      | _ :: t => re_findall_from r (pred (length (m_text m))) t
                      end
      | None => match s with
                | [] => []
                | _ :: t => re_findall_from r 0 t
                end
      end
  end.

Definition re_findall (r : regex) (s : str) : list str := re_findall_from r 0 s.

(** [re.sub(r, repl, s)] for a pattern that matches no empty string. *)
Fixpoint re_sub_from (r : regex) (repl : str) (skip : nat) (s : str) : str :=
  match skip with
  | S k => match s with
           | [] => []
           | _ :: t => re_sub_from r repl k t
           end
  | O =>
      match option_map m_text (re_match r s) with
      | Some (_ :: m) =>
          repl ++ match s with
                  | [] => []
                  | _ :: t => re_sub_from r repl (length m) t
                  end
      | _ => match s with
             | [] => []
             | c :: t => c :: re_sub_from r repl 0 t
             end
      end
  end.

Definition re_sub (r : regex) (repl : str) (s : str) : str :=
  re_sub_from r repl 0 s.

(** [re.split(r, s)] for a pattern that matches no empty string; [cur] is
    the piece being read, reversed. *)
Fixpoint re_split_from (r : regex) (cur : str) (skip : nat) (s : str)
  : list str :=
  match skip with
  | S k => match s with
           | [] => [rev cur]
           | _ :: t => re_split_from r cur k t
           end
  | O =>
      match option_map m_text (re_match r s) with
      | Some (_ :: m) =>
          rev cur :: match s with
                     | [] => [[]]
                     | _ :: t => re_split_from r [] (length m) t
                     end
      | _ => match s with
             | [] => [rev cur]
             | c :: t => re_split_from r (c :: cur) 0 t
             end
      end
  end.

Definition re_split (r : regex) (s : str) : list str := re_split_from r [] 0 s.

(** [re.search] for a pattern that opens with [\b] and then wants a word
    character: a match can only start where the character before is not a
    word character. [prev_word] tells whether the one before [s] is. *)
Fixpoint re_search_bow_from (r : regex) (prev_word : bool) (s : str)
  : option re_result :=
  match (if prev_word then None else re_match r s) with
  | Some m => Some m
  | None => match s with
            | [] => None
            | c :: t => re_search_bow_from r (is_word c) t
            end
  end.

Definition re_search_bow (r : regex) (s : str) : option re_result :=
  re_search_bow_from r false s.

Definition is_some {A : Type} (o : option A) : bool :=
  match o with Some _ => true | None => false end.

Definition is_empty {A : Type} (l : list A) : bool :=
  match l with [] => true | _ => false end.

(* ================================================================== *)
(** * Ordering and [list.sort] *)
(* ================================================================== *)

(** Python compares keys with [<]; the keys of the client are integers,
    strings, datetimes and tuples of these, all totally ordered. *)
Class Cmp (K : Type) : Type := cmp : K -> K -> comparison.

#[export] Instance Cmp_Z : Cmp Z := Z.compare.
#[export] Instance Cmp_str : Cmp str := str_compare.

(** Tuples compare lexicographically. *)
#[export] Instance Cmp_prod {A B : Type} `{Cmp A} `{Cmp B} : Cmp (A * B) :=
  fun x y =>
    match cmp (fst x) (fst y) with
    | Eq => cmp (snd x) (snd y)
    | o => o
    end.

Definition ltb {K : Type} `{Cmp K} (a b : K) : bool :=
  match cmp a b with Lt => true | _ => false end.

(** [a <= b] on keys *)
Definition key_le {K : Type} `{Cmp K} (a b : K) : Prop := cmp a b <> Gt.

(** [a] may stand before [b] in a list sorted by [key]. *)
Definition le_by {A K : Type} `{Cmp K} (key : A -> K) (a b : A) : Prop :=
  key_le (key a) (key b).

(** The laws of a total order, for a three-way comparison. *)
Class CmpOrder (K : Type) `{Cmp K} : Prop := {
  cmp_antisym : forall a b : K, cmp b a = CompOpp (cmp a b);
  cmp_eq : forall a b : K, cmp a b = Eq -> a = b;
  cmp_lt_trans : forall a b c : K, cmp a b = Lt -> cmp b c = Lt -> cmp a c = Lt
}.

(** [l.sort(key=key)]. The sort of Python is stable, so its result is the
    one sorted arrangement that keeps equal keys in their order; insertion
    from the right end computes it: an element goes in front of the first
    element that is not smaller. *)
Fixpoint insert_by {A K : Type} `{Cmp K} (key : A -> K) (x : A) (l : list A)
  : list A :=
  match l with
  | [] => [x]
  | y :: t => if ltb (key y) (key x) then y :: insert_by key x t else x :: l
  end.

Fixpoint sort_by {A K : Type} `{Cmp K} (key : A -> K) (l : list A) : list A :=
  match l with
  | [] => []
  | x :: t => insert_by key x (sort_by key t)
  end.

(* ================================================================== *)
(** * [datetime] *)
(* ================================================================== *)

Record datetime : Type := mk_datetime {
  dt_year : Z;
  dt_month : Z;
  dt_day : Z;
  dt_hour : Z;
  dt_minute : Z;
  dt_second : Z;
  dt_microsecond : Z
}.

(** [datetime.date]: year, month, day. *)
Definition date : Type := (Z * Z * Z)%type.

(** [d.date()] *)
Definition dt_date (d : datetime) : date := (dt_year d, dt_month d, dt_day d).

Definition dt_tuple (d : datetime) : Z * Z * Z * Z * Z * Z * Z :=
  (dt_year d, dt_month d, dt_day d, dt_hour d, dt_minute d, dt_second d,
   dt_microsecond d).

#[export] Instance Cmp_datetime : Cmp datetime :=
  fun a b => cmp (dt_tuple a) (dt_tuple b).

(** [datetime.max] *)
Definition datetime_max : datetime := mk_datetime 9999 12 31 23 59 59 999999.

Definition is_leap (y : Z) : bool :=
  ((y mod 4 =? 0) && negb (y mod 100 =? 0) || (y mod 400 =? 0))%Z.

Definition days_in_month (y m : Z) : Z :=
  if (m =? 2)%Z then (if is_leap y then 29 else 28)
  else if ((m =? 4) || (m =? 6) || (m =? 9) || (m =? 11))%Z then 30
  else 31.

(* ================================================================== *)
(** * Exceptions *)
(* ================================================================== *)

(** The exceptions of the model: [ValueError], [httpx.InvalidURL] (raised
    for a url that cannot be requested; it derives from [Exception] only),
    and the [httpx.HTTPError] family the transport raises. *)
Inductive exn : Type :=
| ValueError
| InvalidURL
| TimeoutException
| ConnectError
| HTTPStatusError (status : Z).

(** [isinstance(e, httpx.HTTPError)] *)
Definition is_HTTPError (e : exn) : bool :=
  match e with ValueError | InvalidURL => false | _ => true end.

Inductive Exc (A : Type) : Type :=
| Ok (a : A)
| Raise (e : exn).

Arguments Ok {A} a.
Arguments Raise {A} e.

Definition exc_bind {A B : Type} (c : Exc A) (k : A -> Exc B) : Exc B :=
  match c with
  | Ok a => k a
  | Raise e => Raise e
  end.

(* ================================================================== *)
(** * [datetime.strptime] for the three formats of the client *)
(* ================================================================== *)

Definition digit_val (c : ascii) : Z := Z.of_N (code c) - 48.

(** [int(s)] for a group of [strptime]: blanks around the digits are
    dropped. *)
Definition int_of (s : str) : Z :=
  fold_left (fun acc c => if is_digit c then 10 * acc + digit_val c else acc)%Z
            s 0%Z.

(** The directives, as [_strptime] turns them into a pattern. *)
Definition re_Y : regex := Grp (exactly 4 is_digit).

Definition re_m : regex :=
  Grp (Alt (Cat (chr "1") (Cls (in_range "0" "2")))
      (Alt (Cat (chr "0") (Cls (in_range "1" "9")))
           (Cls (in_range "1" "9")))).

Definition re_d : regex :=
  Grp (Alt (Cat (chr "3") (Cls (in_range "0" "1")))
      (Alt (Cat (Cls (in_range "1" "2")) (Cls is_digit))
      (Alt (Cat (chr "0") (Cls (in_range "1" "9")))
      (Alt (Cls (in_range "1" "9"))
           (Cat (chr " ") (Cls (in_range "1" "9"))))))).

Definition month_names : list str :=
  [py "january"; py "february"; py "march"; py "april"; py "may"; py "june";
   py "july"; py "august"; py "september"; py "october"; py "november";
   py "december"].

Definition month_abbrs : list str :=
  [py "jan"; py "feb"; py "mar"; py "apr"; py "may"; py "jun";
   py "jul"; py "aug"; py "sep"; py "oct"; py "nov"; py "dec"].

(** Names are tried longest first, without regard to case. *)
Definition re_names (names : list str) : regex :=
  Grp (fold_right (fun n r => Alt (ilit n) r) (Cls (fun _ => false))
                  (rev (sort_by (fun n => Z.of_nat (length n)) (rev names)))).

Definition re_B : regex := re_names month_names.
Definition re_b : regex := re_names month_abbrs.

(** White space in a format stands for [\s+]. *)
Definition re_ws : regex := plus is_space.

Inductive date_format : Type :=
| fmt_Ymd     (* "%Y-%m-%d" *)
| fmt_B_d_Y   (* "%B %d, %Y" *)
| fmt_b_d_Y.  (* "%b %d, %Y" *)

Definition format_regex (f : date_format) : regex :=
  match f with
  | fmt_Ymd => Cat re_Y (Cat (chr "-") (Cat re_m (Cat (chr "-") re_d)))
  | fmt_B_d_Y =>
      Cat re_B (Cat re_ws (Cat re_d (Cat (chr ",") (Cat re_ws re_Y))))
  | fmt_b_d_Y =>
      Cat re_b (Cat re_ws (Cat re_d (Cat (chr ",") (Cat re_ws re_Y))))
  end.

(** The 1-based position of a name in a list of names. *)
Fixpoint index_of (n : str) (names : list str) (i : Z) : Z :=
  match names with
  | [] => 0
  | x :: t => if str_eqb x n then i else index_of n t (i + 1)
  end.

(** year, month, day from the groups of a match *)
Definition fields_of (f : date_format) (g : list str) : Z * Z * Z :=
  match f with
  | fmt_Ymd => (int_of (nth 0 g []), int_of (nth 1 g []), int_of (nth 2 g []))
  | fmt_B_d_Y =>
      (int_of (nth 2 g []), index_of (lower (nth 0 g [])) month_names 1,
       int_of (nth 1 g []))
  | fmt_b_d_Y =>
      (int_of (nth 2 g []), index_of (lower (nth 0 g [])) month_abbrs 1,
       int_of (nth 1 g []))
  end.

(** [datetime.strptime(s, f)], month names of the C locale: the format's
    pattern must match at the start of [s] and use all of it, and the fields
    must name a day of the calendar; anything else is a [ValueError]. *)
Definition strptime (s : str) (f : date_format) : Exc datetime :=
  match rmatch (format_regex f) s with
  | [] => Raise ValueError
  | (g, rest) :: _ =>
      if negb (is_empty rest) then Raise ValueError
      else
        let '(y, m, d) := fields_of f g in
        if ((1 <=? y) && (1 <=? m) && (m <=? 12) && (1 <=? d)
            && (d <=? days_in_month y m))%Z
        then Ok (mk_datetime y m d 0 0 0 0)
        else Raise ValueError
  end.

(* ================================================================== *)
(** * models.py *)
(* ================================================================== *)

Module Event.
Record t : Type := mk {
  id : str;
  name : str;
  url : str;
  location : str;
  country : str;
  start_date : option datetime;
  end_date : option datetime
}.
End Event.

Module CompetitorSchedule.
Record t : Type := mk {
  competitor_name : str;
  academy : str;
  division : str;
  bracket : str;
  opponent : str;
  match_time : str;
  mat : str;
  source_url : str;
  tags : list str
}.
End CompetitorSchedule.

(* ================================================================== *)
(** * The outside world *)
(* ================================================================== *)

(** [httpx.Response], as far as the client reads it. *)
Record Response : Type := mk_Response {
  status_code : Z;
  resp_url : str;
  resp_text : str
}.

(** How a request can end without a response: the transport fails, or
    [httpx] refuses the url before anything is sent. *)
Inductive transport_failure : Type :=
| timed_out      (* httpx.TimeoutException *)
| dns_failure    (* httpx.ConnectError *)
| invalid_url.   (* httpx.InvalidURL, e.g. a control character in the url *)

Definition exn_of_failure (f : transport_failure) : exn :=
  match f with
  | timed_out => TimeoutException
  | dns_failure => ConnectError
  | invalid_url => InvalidURL
  end.

(** A record of the candidate map: [{"name": ..., "contexts": [...]}]. *)
Record payload : Type := mk_payload {
  p_name : str;
  p_contexts : list str
}.

(** What an extraction strategy has read for one competitor when it reaches
    its key check; an empty string is a value the heuristics did not find. *)
Record Sighting : Type := mk_Sighting {
  s_name : str;
  s_affiliate : str;
  s_division : str;
  s_bracket : str;
  s_opponent : str;
  s_time : str;
  s_mat : str
}.

(** What the client takes from [httpx], the clock, [urllib], [html] and
    [BeautifulSoup]. The DOM walks of the client are not modelled: for each
    of them the interface has the list of what the walk hands to the code
    that follows it. *)
Class Externals : Type := {
  World : Type;
  (** [await client.get(url)] *)
  http_get : str -> World -> (transport_failure + Response) * World;
  (** [date.today()] *)
  clock : World -> date;
  (** [urljoin(base, href)]; [None] when it raises [ValueError], as it does
      for a bracketed host that is no address ([//[x/event/1]) *)
  urljoin : str -> str -> option str;
  (** [html.unescape(s)] *)
  unescape : str -> str;
  (** the items of the dict [_collect_event_candidates] builds from a page;
      [None] when [_normalize_event_url] raises on one of its links *)
  located_candidates : str -> option (list (str * payload));
  (** [soup.find_all("a", href=True)] and what is read from each link *)
  Link : Type;
  find_links : str -> list Link;
  link_href : Link -> str;
  link_row_text : Link -> str;
  _extract_event_name_from_link : Link -> str -> str -> str;
  (** [_extract_event_name_from_page(soup, html, url)] *)
  _extract_event_name_from_page : str -> str -> str;
  (** [" ".join(soup.stripped_strings)] *)
  stripped_text : str -> str;
  (** the sightings of each strategy on a page, for a keyword list, in the
      order of its loops and after its filters *)
  bracket_row_sightings : str -> list str -> list Sighting;
  bracket_script_sightings : str -> list str -> list Sighting;
  profile_link_sightings : str -> list str -> list Sighting;
  table_sightings : str -> list str -> list Sighting;
  (** per script: the sightings of the object scan, then of the windows *)
  script_sightings : str -> list str -> list (list Sighting * list Sighting);
  (** per node scanned by [_parse_competitor_blocks]: its sighting, if the
      node passes the filters *)
  block_nodes : str -> list str -> list (option Sighting)
}.

(** Code that talks to the world: state passing, with exceptions. *)
Definition M `{Externals} (A : Type) : Type := World -> Exc A * World.

Definition ret `{Externals} {A : Type} (a : A) : M A := fun w => (Ok a, w).

Definition raise `{Externals} {A : Type} (e : exn) : M A := fun w => (Raise e, w).

Definition bind `{Externals} {A B : Type} (c : M A) (k : A -> M B) : M B :=
  fun w =>
    match c w with
    | (Ok a, w') => k a w'
    | (Raise e, w') => (Raise e, w')
    end.

Notation "x <- c1 ;; c2" := (bind c1 (fun x => c2))
  (at level 61, c1 at next level, right associativity).

(** A pure computation that may raise. *)
Definition lift `{Externals} {A : Type} (c : Exc A) : M A := fun w => (c, w).

(** [try: body  except httpx.HTTPError: handler] *)
Definition try_except_HTTPError `{Externals} {A : Type} (body handler : M A)
  : M A :=
  fun w =>
    match body w with
    | (Raise e, w') => if is_HTTPError e then handler w' else (Raise e, w')
    | r => r
    end.

Definition client_get `{Externals} (url : str) : M Response :=
  fun w =>
    match http_get url w with
    | (inl f, w') => (Raise (exn_of_failure f), w')
    | (inr r, w') => (Ok r, w')
    end.

Definition date_today `{Externals} : M date := fun w => (Ok (clock w), w).

(** [response.raise_for_status()]: anything but 2xx raises. *)
Definition raise_for_status `{Externals} (r : Response) : M unit :=
  if ((200 <=? status_code r) && (status_code r <? 300))%Z then ret tt
  else raise (HTTPStatusError (status_code r)).

(** [urljoin(base, href)] as the client calls it. *)
Definition join_url `{Externals} (base href : str) : Exc str :=
  match urljoin base href with
  | Some url => Ok url
  | None => Raise ValueError
  end.

(** [_collect_event_candidates(soup)], as a list of items. *)
Definition _collect_event_candidates `{Externals} (html : str)
  : Exc (list (str * payload)) :=
  match located_candidates html with
  | Some candidates => Ok candidates
  | None => Raise ValueError
  end.

(** [seq[:limit]] *)
Definition slice_to {A : Type} (limit : Z) (l : list A) : list A :=
  if (limit <? 0)%Z then firstn (length l - Z.to_nat (- limit)) l
  else firstn (Z.to_nat limit) l.

(** A [dict] keyed by strings, in insertion order. *)
Definition dict (V : Type) : Type := list (str * V).

Fixpoint dict_mem {V : Type} (k : str) (d : dict V) : bool :=
  match d with
  | [] => false
  | (k', _) :: t => str_eqb k' k || dict_mem k t
  end.

(** [d[k] = v] *)
Fixpoint dict_set {V : Type} (k : str) (v : V) (d : dict V) : dict V :=
  match d with
  | [] => [(k, v)]
  | (k', v') :: t =>
      if str_eqb k' k then (k', v) :: t else (k', v') :: dict_set k v t
  end.

(** [d.setdefault(k, v)] *)
Definition dict_setdefault {V : Type} (k : str) (v : V) (d : dict V) : dict V :=
  if dict_mem k d then d else d ++ [(k, v)].

Fixpoint dict_get {V : Type} (k : str) (d : dict V) : option V :=
  match d with
  | [] => None
  | (k', v) :: t => if str_eqb k' k then Some v else dict_get k t
  end.

Definition dict_values {V : Type} (d : dict V) : list V := map snd d.

#[export] Instance Cmp_date : Cmp date := Cmp_prod.

(* ================================================================== *)
(** * smoothcomp.py: [SmoothcompClient] *)
(* ================================================================== *)

Module SmoothcompClient.

(** [_EVENT_LINK_PATTERN = re.compile(r"/(?:[a-z]{2}/)?event/\d+", re.IGNORECASE)] *)
Definition _EVENT_LINK_PATTERN : regex :=
  Cat (chr "/")
      (Cat (opt (Cat (exactly 2 is_alpha) (chr "/")))
           (Cat (ilit "event/") (plus is_digit))).

(** [event_url_from_id]: [f"https://smoothcomp.com/en/event/{event_id}"] *)
Definition event_url_from_id (event_id : str) : str :=
  py "https://smoothcomp.com/en/event/" ++ event_id.

(** [r"/event/(\d+)"] *)
Definition event_id_re : regex := Cat (lit "/event/") (Grp (plus is_digit)).

(** [_event_id_from_url]:
    [match = re.search(r"/event/(\d+)", url);
     return match.group(1) if match else url] *)
Definition _event_id_from_url (url : str) : str :=
  match re_search event_id_re url with
  | Some m => group m 1
  | None => url
  end.

(** [r"(https?://[^/]+/(?:[a-z]{2}/)?event/\d+)"] under [re.IGNORECASE] *)
Definition canonical_re : regex :=
  Grp (Cat (ilit "http")
      (Cat (opt (ichr "s"))
           (Cat (lit "://")
                (Cat (plus (fun c => negb (Ascii.eqb c "/")))
                     (Cat (chr "/")
                          (Cat (opt (Cat (exactly 2 is_alpha) (chr "/")))
                               (Cat (ilit "event/") (plus is_digit)))))))).

(** [_canonical_event_url]:
    [url = url.split("?", 1)[0].rstrip("/")], then the first match of
    [canonical_re] if there is one, else [url]. *)
Definition _canonical_event_url (url : str) : str :=
  let url := rstrip_slash (split1_head "?" url) in
  match re_search canonical_re url with
  | Some m => group m 1
  | None => url
  end.

(** [_extract_dates_from_text]. The two patterns are
    [r"(\d{4}-\d{2}-\d{2})"] and [r"([A-Za-z]{3,9}\s+\d{1,2},\s*\d{4})"]. *)
Definition iso_date_re : regex :=
  Grp (Cat (exactly 4 is_digit)
      (Cat (chr "-") (Cat (exactly 2 is_digit)
      (Cat (chr "-") (exactly 2 is_digit))))).

Definition long_date_re : regex :=
  Grp (Cat (Rep is_alpha 3 (Some 9))
      (Cat (plus is_space) (Cat (Rep is_digit 1 (Some 2))
      (Cat (chr ",") (Cat (star is_space) (exactly 4 is_digit)))))).

Definition date_patterns : list regex := [iso_date_re; long_date_re].

Definition date_formats : list date_format := [fmt_Ymd; fmt_B_d_Y; fmt_b_d_Y].

(** [for fmt in (...): try: out.append(strptime(m, fmt)); break
                       except ValueError: continue] *)
Fixpoint try_formats (m : str) (fmts : list date_format) (out : list datetime)
  : Exc (list datetime) :=
  match fmts with
  | [] => Ok out
  | fmt :: rest =>
      match strptime m fmt with
      | Ok d => Ok (out ++ [d])
      | Raise ValueError => try_formats m rest out
      | Raise e => Raise e
      end
  end.

(** [for m in re.findall(pattern, text): ...] *)
Fixpoint each_match (ms : list str) (out : list datetime) : Exc (list datetime) :=
  match ms with
  | [] => Ok out
  | m :: rest => exc_bind (try_formats m date_formats out) (each_match rest)
  end.

(** [for pattern in patterns: ...] *)
Fixpoint each_pattern (ps : list regex) (text : str) (out : list datetime)
  : Exc (list datetime) :=
  match ps with
  | [] => Ok out
  | p :: rest =>
      exc_bind (each_match (re_findall p text) out) (each_pattern rest text)
  end.

Definition _extract_dates_from_text (text : str) : Exc (list datetime) :=
  exc_bind (each_pattern date_patterns text [])
           (fun out => Ok (sort_by (fun d => d) out)).

(** [_extract_location]:
    [for token in ["city", "venue", "location", "philippines"]:
         if token in text: return text[:120]
     return ""] *)
Definition location_tokens : list str :=
  [py "city"; py "venue"; py "location"; py "philippines"].

Fixpoint location_loop (tokens : list str) (text : str) : str :=
  match tokens with
  | [] => []
  | token :: rest =>
      if contains token text then firstn 120 text else location_loop rest text
  end.

Definition _extract_location (text : str) : str :=
  location_loop location_tokens text.

(** [_country_in_text] *)
Definition _country_in_text (text country : str) : bool :=
  let lowered := lower text in
  let country_l := lower country in
  if contains country_l lowered then true
  else if str_eqb country_l "philippines" then
    is_some (re_search_bow (Cat (lit "philippines") Eow) lowered)
    || is_some (re_search_bow (Cat (lit "phl") Eow) lowered)
    || is_some (re_search_bow (Cat (lit "ph") Eow) lowered)
  else false.

(** [_name_from_url] *)
Definition _name_from_url (url : str) : str :=
  let tail := rsplit1_last "/" (rstrip_slash url) in
  if str_isdigit tail then py "Event " ++ tail
  else
    str_or (title (strip (re_sub (plus (fun c => Ascii.eqb c "-" || Ascii.eqb c "_"))
                                 " " tail)))
           "Unnamed event".

(** [_normalize_name]:
    [text = re.sub(r"\s+", " ", text).strip().lower();
     return re.sub(r"[^a-z0-9 ]+", "", text)] *)
Definition is_name_char (c : ascii) : bool :=
  is_lower c || is_digit c || Ascii.eqb c " ".

Definition _normalize_name (text : str) : str :=
  let text := lower (strip (re_sub (plus is_space) " " text)) in
  re_sub (plus (fun c => negb (is_name_char c))) [] text.

(** [str(year)] *)
Definition str_of_int (z : Z) : str := py (NilZero.string_of_int (Z.to_int z)).

(** The key both listings sort by:
    [(e.start_date or datetime.max, e.name.lower())] *)
Definition _sort_key (e : Event.t) : datetime * str :=
  (match Event.start_date e with Some d => d | None => datetime_max end,
   lower (Event.name e)).

(** The scoring loop of [search_events_by_name], for one event. *)
Definition score_event (query : str) (query_tokens : list str) (year : Z)
           (event : Event.t) : Z :=
  let name_raw := Event.name event in
  let name := _normalize_name name_raw in
  let score := 0%Z in
  let score :=
    if str_eqb name query then (score + 1000)%Z
    else if contains query name then (score + 600)%Z
    else if negb (is_empty name) && contains name query then (score + 250)%Z
    else score in
  let score :=
    fold_left (fun score token =>
                 if contains token name then (score + 30)%Z else score)
              query_tokens score in
  let score :=
    if contains (str_of_int year) name_raw then (score + 40)%Z else score in
  score.

(** [query_tokens = [t for t in re.split(r"[^a-z0-9]+", query) if t]] *)
Definition query_tokens_of (query : str) : list str :=
  filter (fun t => negb (is_empty t))
         (re_split (plus (fun c => negb (is_lower c || is_digit c))) query).

(** [search_events_by_name] from [events = list(merged.values())] on. *)
Definition rank_events (events : list Event.t) (name_query : str) (year : Z)
           (limit : Z) : list Event.t :=
  let query := _normalize_name name_query in
  if is_empty query then slice_to limit events
  else
    let query_tokens := query_tokens_of query in
    let scored :=
      flat_map (fun event =>
                  let score := score_event query query_tokens year event in
                  if (0 <? score)%Z then [(score, event)] else [])
               events in
    let scored :=
      sort_by (fun row : Z * Event.t =>
                 ((- fst row)%Z, _sort_key (snd row)))
              scored in
    map snd (slice_to limit scored).

(** [_is_plausible_person_name]; the pattern is
    [r"^[A-Za-z'`.-]+(?:\s+[A-Za-z'`.-]+){1,4}$"]. *)
Definition is_name_letter (c : ascii) : bool :=
  is_alpha c || Ascii.eqb c "'" || Ascii.eqb c "`" || Ascii.eqb c "."
  || Ascii.eqb c "-".

Definition person_name_re : regex :=
  let word := plus is_name_letter in
  let more := Cat (plus is_space) word in
  Cat word
      (Cat more
           (Cat (opt (Cat more (opt (Cat more (opt more))))) Eos)).

Definition _is_plausible_person_name (name : str) : bool :=
  let n := strip name in
  if (length n <? 5)%nat then false
  else
    let lower_ := lower n in
    let blocked :=
      [py "philippines"; py "smoothcomp"; py "novice"; py "championship";
       py "participants"] in
    if existsb (fun b => contains b lower_) blocked then false
    else is_some (re_match person_name_re n).

(** [_is_likely_affiliate_label]; the time pattern is
    [r"\b\d{1,2}:\d{2}\s*(?:am|pm)\b"]. *)
Definition clock_time_re : regex :=
  Cat (Rep is_digit 1 (Some 2))
      (Cat (chr ":")
           (Cat (exactly 2 is_digit)
                (Cat (star is_space) (Cat (Alt (lit "am") (lit "pm")) Eow)))).

Definition _is_likely_affiliate_label (text : str) : bool :=
  let t := strip (re_sub (plus is_space) " " text) in
  let lower_ := lower t in
  if (length t <? 3)%nat || (120 <? length t)%nat then false
  else if is_some (re_search_bow clock_time_re lower_) then false
  else if contains "/" t
          && existsb (fun x => contains x lower_)
               [py "kg"; py "adult"; py "master"; py "female"; py "male";
                py "white"; py "blue"; py "brown"; py "black"]
  then false
  else if existsb (fun x => contains x lower_)
            [py "participants"; py "ranking"; py "membership";
             py "home events"; py "approved registrations"]
  then false
  else true.

(** The patterns of [_candidate_event_urls_for_id]. In the source they are
    raw f-strings, so [\\.] reaches [re] as a backslash followed by any
    character, and [\\-] puts a backslash and a hyphen in the classes. *)
Definition is_alnum (c : ascii) : bool := is_alpha c || is_digit c.

Definition slug_tail : regex :=
  opt (Cat (chr "/")
           (plus (fun c => is_alnum c || Ascii.eqb c "_" || Ascii.eqb c "\"
                           || Ascii.eqb c "-"))).

Definition pattern_abs (event_id : str) : regex :=
  Cat (ilit "http")
  (Cat (opt (ichr "s"))
  (Cat (lit "://")
  (Cat (star (fun c => is_alnum c || Ascii.eqb c "." || Ascii.eqb c "-"))
  (Cat (ilit "smoothcomp")
  (Cat (chr "\")
  (Cat (Cls (fun c => negb (Ascii.eqb c "010")))
  (Cat (ilit "com/")
  (Cat (star (fun c => is_alnum c || Ascii.eqb c "/" || Ascii.eqb c "_"
                       || Ascii.eqb c "\" || Ascii.eqb c "-"))
  (Cat (opt (chr "/"))
  (Cat (ilit "event/")
  (Cat (ilit event_id) slug_tail))))))))))).

Definition pattern_rel (event_id : str) : regex :=
  Cat (chr "/")
  (Cat (opt (Cat (exactly 2 is_alpha) (chr "/")))
  (Cat (ilit "event/")
  (Cat (ilit event_id) slug_tail))).

(** The Event both listings and the page resolver build. *)
Definition make_event (url name blob : str) (in_country : bool)
           (country : str) (dates : list datetime) : Event.t :=
  Event.mk (_event_id_from_url url) name url (_extract_location blob)
           (if in_country then country else [])
           (nth_error dates 0) (nth_error dates 1).

(** The six lists of [fetch_events]. *)
Record buckets : Type := mk_buckets {
  strict_country : list Event.t;
  strict_country_unknown_year : list Event.t;
  strict_country_other_year : list Event.t;
  relaxed : list Event.t;
  relaxed_unknown_year : list Event.t;
  relaxed_other_year : list Event.t
}.

Definition no_buckets : buckets := mk_buckets [] [] [] [] [] [].

(** [event_year == year] *)
Definition year_is (event_year : option Z) (year : Z) : bool :=
  match event_year with Some y => (y =? year)%Z | None => false end.

(** The body of [for url, payload in candidates.items()]. *)
Definition candidate_step (today : date) (year : Z) (country : str)
           (b : buckets) (candidate : str * payload) : Exc buckets :=
  let '(url, payload) := candidate in
  let raw_name := strip (p_name payload) in
  let name := str_or raw_name (_name_from_url url) in
  let context_blob := join " " (p_contexts payload) in
  exc_bind (_extract_dates_from_text context_blob) (fun parsed_dates =>
  let event_year := option_map dt_year (nth_error parsed_dates 0) in
  if match parsed_dates with
     | d :: _ => ltb (dt_date d) today
     | [] => false
     end
  then Ok b
  else
    let event :=
      make_event url name context_blob (_country_in_text context_blob country)
                 country parsed_dates in
    let in_country := _country_in_text context_blob country in
    let '(mk_buckets b1 b2 b3 b4 b5 b6) := b in
    Ok (if in_country && year_is event_year year
        then mk_buckets (b1 ++ [event]) b2 b3 b4 b5 b6
        else if in_country && negb (is_some event_year)
        then mk_buckets b1 (b2 ++ [event]) b3 b4 b5 b6
        else if in_country
        then mk_buckets b1 b2 (b3 ++ [event]) b4 b5 b6
        else if year_is event_year year
        then mk_buckets b1 b2 b3 (b4 ++ [event]) b5 b6
        else if negb (is_some event_year)
        then mk_buckets b1 b2 b3 b4 (b5 ++ [event]) b6
        else mk_buckets b1 b2 b3 b4 b5 (b6 ++ [event]))).

Fixpoint candidates_loop (today : date) (year : Z) (country : str)
         (candidates : list (str * payload)) (b : buckets) : Exc buckets :=
  match candidates with
  | [] => Ok b
  | c :: rest =>
      exc_bind (candidate_step today year country b c)
               (candidates_loop today year country rest)
  end.

(** [for group in all_groups: group.sort(key=_sort_key)] *)
Definition sort_groups (b : buckets) : buckets :=
  mk_buckets (sort_by _sort_key (strict_country b))
             (sort_by _sort_key (strict_country_unknown_year b))
             (sort_by _sort_key (strict_country_other_year b))
             (sort_by _sort_key (relaxed b))
             (sort_by _sort_key (relaxed_unknown_year b))
             (sort_by _sort_key (relaxed_other_year b)).

(** The client object: [self.base_events_url], [self.fallback_events_url]
    (the timeout is part of how the world answers). *)
Record client : Type := mk_client {
  base_events_url : str;
  fallback_events_url : str
}.

Section WithExternals.
Context `{Externals}.

(** [_normalize_event_url] *)
Definition _normalize_event_url (href : str) : Exc str :=
  if negb (is_some (re_search _EVENT_LINK_PATTERN href)) then Ok []
  else join_url "https://smoothcomp.com" (split1_head "?" href).

(** The five dicts of [_fetch_events_from_fallback]. *)
Record found : Type := mk_found {
  all_found : dict Event.t;
  year_found : dict Event.t;
  country_found : dict Event.t;
  country_year_found : dict Event.t;
  strict_found : dict Event.t
}.

(** The body of [for link in soup.find_all("a", href=True)]; [today] is the
    date the name is bound to when the loop runs. *)
Definition link_step (today : date) (year : Z) (country : str) (f : found)
           (link : Link) : Exc found :=
  let href := strip (link_href link) in
  exc_bind (_normalize_event_url href) (fun url =>
  if is_empty url then Ok f
  else
    let row_text := link_row_text link in
    let lower_ := lower row_text in
    let in_country :=
      contains (lower country) lower_ || _country_in_text lower_ country in
    exc_bind (_extract_dates_from_text row_text) (fun dates =>
    let name := _extract_event_name_from_link link row_text url in
    let event := make_event url name row_text in_country country dates in
    let year_ok :=
      match dates with d :: _ => (dt_year d =? year)%Z | [] => false end in
    let f1 := mk_found (dict_set url event (all_found f))
                (if year_ok then dict_set url event (year_found f)
                 else year_found f)
                (country_found f) (country_year_found f) (strict_found f) in
    if negb in_country then Ok f1
    else
      let f2 := mk_found (all_found f1) (year_found f1)
                  (dict_set url event (country_found f1))
                  (if year_ok then dict_set url event (country_year_found f1)
                   else country_year_found f1)
                  (strict_found f1) in
      match dates with
      | d :: _ =>
          if negb (dt_year d =? year)%Z then Ok f2
          else if ltb (dt_date d) today then Ok f2
          else Ok (mk_found (all_found f2) (year_found f2) (country_found f2)
                            (country_year_found f2)
                            (dict_set url event (strict_found f2)))
      | [] =>
          Ok (mk_found (all_found f2) (year_found f2) (country_found f2)
                       (country_year_found f2)
                       (dict_set url event (strict_found f2)))
      end)).

Fixpoint links_loop (today : date) (year : Z) (country : str)
         (links : list Link) (f : found) : Exc found :=
  match links with
  | [] => Ok f
  | l :: rest =>
      exc_bind (link_step today year country f l)
               (links_loop today year country rest)
  end.

(** [_fetch_events_from_fallback(year, country, today)]. The parameter
    [today] may be [None]; the first statement,
    [if today is None: today = date.today()], binds the name to a date
    ([now]), and the test [today is None] further down reads the name as it
    is bound then. *)
Definition _fetch_events_from_fallback (self : client) (year : Z)
           (country : str) (today : option date) : M (list Event.t) :=
  now <- match today with
         | None => date_today
         | Some t => ret t
         end ;;
  let today : option date := Some now in
  response <- client_get (fallback_events_url self) ;;
  _ <- raise_for_status response ;;
  let links := find_links (resp_text response) in
  f <- lift (links_loop now year country links (mk_found [] [] [] [] [])) ;;
  let chosen :=
    match today with
    | None =>
        if negb (is_empty (country_year_found f)) then country_year_found f
        else if negb (is_empty (year_found f)) then year_found f
        else if negb (is_empty (country_found f)) then country_found f
        else all_found f
    | Some _ =>
        if negb (is_empty (strict_found f)) then strict_found f
        else if negb (is_empty (country_year_found f)) then country_year_found f
        else if negb (is_empty (year_found f)) then year_found f
        else if negb (is_empty (country_found f)) then country_found f
        else all_found f
    end in
  let events := dict_values chosen in
  ret (sort_by _sort_key events).

(** [fetch_events(year, country)] *)
Definition fetch_events (self : client) (year : Z) (country : str)
  : M (list Event.t) :=
  today <- date_today ;;
  response <- client_get (base_events_url self) ;;
  _ <- raise_for_status response ;;
  let html := resp_text response in
  candidates <- lift (_collect_event_candidates html) ;;
  b <- lift (candidates_loop today year country candidates no_buckets) ;;
  let b := sort_groups b in
  if negb (is_empty (strict_country b))
     || negb (is_empty (strict_country_unknown_year b))
  then ret (strict_country b ++ strict_country_unknown_year b)
  else if negb (is_empty (strict_country_other_year b))
  then ret (strict_country_other_year b)
  else if negb (is_empty (relaxed b)) || negb (is_empty (relaxed_unknown_year b))
  then ret (relaxed b ++ relaxed_unknown_year b)
  else _fetch_events_from_fallback self year country (Some today).

(** [search_events_by_name(name_query, year, country, limit)] *)
Definition search_events_by_name (self : client) (name_query : str) (year : Z)
           (country : str) (limit : Z) : M (list Event.t) :=
  primary <- fetch_events self year country ;;
  fallback_broad <- _fetch_events_from_fallback self year country None ;;
  let merged : dict Event.t :=
    fold_left (fun d e => dict_set (Event.url e) e d) primary [] in
  let merged :=
    fold_left (fun d e => dict_setdefault (Event.url e) e d)
              fallback_broad merged in
  let events := dict_values merged in
  ret (rank_events events name_query year limit).

(** [fetch_event_by_url(event_url, default_country)] *)
Definition fetch_event_by_url (self : client) (event_url default_country : str)
  : M (option Event.t) :=
  r <- try_except_HTTPError
         (response <- client_get event_url ;;
          _ <- raise_for_status response ;;
          ret (Some response))
         (ret None) ;;
  match r with
  | None => ret None
  | Some response =>
      let final_url := _canonical_event_url (resp_url response) in
      let title :=
        _extract_event_name_from_page (resp_text response) final_url in
      let blob := stripped_text (resp_text response) in
      dates <- lift (_extract_dates_from_text blob) ;;
      ret (Some (make_event final_url title blob
                            (_country_in_text blob default_country)
                            default_country dates))
  end.

End WithExternals.

(* ------------------------------------------------------------------ *)
(** ** Competitors *)

Definition key4 : Type := (str * str * str * str)%type.

Definition key4_eqb (a b : key4) : bool :=
  let '(a1, a2, a3, a4) := a in
  let '(b1, b2, b3, b4) := b in
  str_eqb a1 b1 && str_eqb a2 b2 && str_eqb a3 b3 && str_eqb a4 b4.

(** [seen: set[tuple[str, str, str, str]]] *)
Definition seen_set : Type := list key4.

Definition seen_mem (k : key4) (seen : seen_set) : bool :=
  existsb (key4_eqb k) seen.

Definition seen_add (k : key4) (seen : seen_set) : seen_set := k :: seen.

(** The four fields the deduplication is about. *)
Definition four_tuple (r : CompetitorSchedule.t) : key4 :=
  (CompetitorSchedule.competitor_name r, CompetitorSchedule.division r,
   CompetitorSchedule.match_time r, CompetitorSchedule.mat r).

(** The end of every strategy's loop body:
    [if key in seen: continue; seen.add(key); rows.append(record)]. *)
Definition record_once (key : key4) (record : CompetitorSchedule.t)
           (acc : list CompetitorSchedule.t * seen_set)
  : list CompetitorSchedule.t * seen_set :=
  let '(rows, seen) := acc in
  if seen_mem key seen then (rows, seen)
  else (rows ++ [record], seen_add key seen).

Definition TBD : str := py "TBD".

(** [_parse_schedule_brackets_page]: table rows, then script payloads. *)
Definition bracket_row_step (source_url : str)
           (acc : list CompetitorSchedule.t * seen_set) (s : Sighting) :=
  let division := str_or (s_division s) TBD in
  let match_time := str_or (s_time s) TBD in
  let mat := str_or (s_mat s) TBD in
  let affiliate := str_or (s_affiliate s) "Unknown" in
  record_once (s_name s, division, match_time, mat)
    (CompetitorSchedule.mk (s_name s) affiliate division [] TBD match_time mat
                           source_url [])
    acc.

Definition bracket_script_step (source_url : str)
           (acc : list CompetitorSchedule.t * seen_set) (s : Sighting) :=
  let division := str_or (s_division s) TBD in
  let match_time := str_or (s_time s) TBD in
  let mat := str_or (s_mat s) TBD in
  let affiliate := str_or (s_affiliate s) "Unknown" in
  record_once (s_name s, division, match_time, mat)
    (CompetitorSchedule.mk (s_name s) affiliate division [] (s_opponent s)
                           match_time mat source_url [])
    acc.

(** [_parse_participant_profile_links] *)
Definition profile_link_step (source_url : str)
           (acc : list CompetitorSchedule.t * seen_set) (s : Sighting) :=
  let affiliate := str_or (s_affiliate s) "Unknown" in
  let division := str_or (s_division s) TBD in
  let match_time := str_or (s_time s) TBD in
  let mat := str_or (s_mat s) TBD in
  record_once (s_name s, division, match_time, mat)
    (CompetitorSchedule.mk (s_name s) affiliate division [] (s_opponent s)
                           match_time mat source_url [])
    acc.

(** [_parse_competitor_tables]:
    [key = (competitor_name, division or "", match_time or "", mat or "")],
    and the record has [division or "TBD"], [match_time or "TBD"],
    [mat or "TBD"]. *)
Definition table_step (source_url : str)
           (acc : list CompetitorSchedule.t * seen_set) (s : Sighting) :=
  record_once (s_name s, str_or (s_division s) [], str_or (s_time s) [],
               str_or (s_mat s) [])
    (CompetitorSchedule.mk (s_name s) (s_affiliate s)
                           (str_or (s_division s) TBD) (s_bracket s)
                           (s_opponent s) (str_or (s_time s) TBD)
                           (str_or (s_mat s) TBD) source_url [])
    acc.

(** [_parse_competitor_blocks]; [scanned] counts the nodes, and the scan
    returns when it passes 2200. *)
Definition block_step (source_url : str)
           (acc : list CompetitorSchedule.t * seen_set) (s : Sighting) :=
  let affiliate := str_or (s_affiliate s) "Team match" in
  let division := str_or (s_division s) TBD in
  let mat := str_or (s_mat s) TBD in
  let match_time := str_or (s_time s) TBD in
  record_once (s_name s, division, match_time, mat)
    (CompetitorSchedule.mk (s_name s) affiliate division [] (s_opponent s)
                           match_time mat source_url [])
    acc.

Fixpoint blocks_loop (source_url : str) (nodes : list (option Sighting))
         (scanned : Z) (acc : list CompetitorSchedule.t * seen_set)
  : list CompetitorSchedule.t * seen_set :=
  match nodes with
  | [] => acc
  | node :: rest =>
      let scanned := (scanned + 1)%Z in
      if (2200 <? scanned)%Z then acc
      else
        match node with
        | None => blocks_loop source_url rest scanned acc
        | Some s => blocks_loop source_url rest scanned (block_step source_url acc s)
        end
  end.

Section Strategies.
Context `{Externals}.

(** Each strategy returns its own [rows] and the shared [seen]. *)
Definition _parse_schedule_brackets_page (html : str)
           (affiliate_keywords : list str) (source_url : str) (seen : seen_set)
  : list CompetitorSchedule.t * seen_set :=
  let acc := fold_left (bracket_row_step source_url)
                       (bracket_row_sightings html affiliate_keywords)
                       ([], seen) in
  fold_left (bracket_script_step source_url)
            (bracket_script_sightings html affiliate_keywords) acc.

Definition _parse_participant_profile_links (html : str)
           (affiliate_keywords : list str) (source_url : str) (seen : seen_set)
  : list CompetitorSchedule.t * seen_set :=
  fold_left (profile_link_step source_url)
            (profile_link_sightings html affiliate_keywords) ([], seen).

Definition _parse_competitor_tables (html : str)
           (affiliate_keywords : list str) (source_url : str) (seen : seen_set)
  : list CompetitorSchedule.t * seen_set :=
  fold_left (table_step source_url)
            (table_sightings html affiliate_keywords) ([], seen).

(** The object scan and the keyword windows of [_parse_competitor_scripts]:
    the key is made of the texts as read, the record of their
    [unescape]d forms. *)
Definition script_step (source_url : str)
           (acc : list CompetitorSchedule.t * seen_set) (s : Sighting) :=
  let affiliate := str_or (s_affiliate s) "Unknown" in
  let division := str_or (s_division s) TBD in
  let mat := str_or (s_mat s) TBD in
  let match_time := str_or (s_time s) TBD in
  let opponent := str_or (s_opponent s) TBD in
  record_once (s_name s, division, match_time, mat)
    (CompetitorSchedule.mk (unescape (s_name s)) (unescape affiliate)
                           (unescape division) [] (unescape opponent)
                           (unescape match_time) (unescape mat) source_url [])
    acc.

(** [_parse_competitor_script_windows]: nothing without keywords. *)
Definition _parse_competitor_script_windows (windows : list Sighting)
           (affiliate_keywords : list str) (source_url : str) (seen : seen_set)
  : list CompetitorSchedule.t * seen_set :=
  if is_empty affiliate_keywords then ([], seen)
  else fold_left (script_step source_url) windows ([], seen).

Definition _parse_competitor_scripts (html : str)
           (affiliate_keywords : list str) (source_url : str) (seen : seen_set)
  : list CompetitorSchedule.t * seen_set :=
  fold_left
    (fun acc script =>
       let acc := fold_left (script_step source_url) (fst script) acc in
       let '(out, seen') :=
         _parse_competitor_script_windows (snd script) affiliate_keywords
                                          source_url (snd acc) in
       (fst acc ++ out, seen'))
    (script_sightings html affiliate_keywords) ([], seen).

Definition _parse_competitor_blocks (html : str)
           (affiliate_keywords : list str) (source_url : str) (seen : seen_set)
  : list CompetitorSchedule.t * seen_set :=
  blocks_loop source_url (block_nodes html affiliate_keywords) 0 ([], seen).

(** [str.replace(old, new)] *)
Definition str_replace (old new s : str) : str := re_sub (lit old) new s.

Definition str_mem (x : str) (l : list str) : bool := existsb (str_eqb x) l.

(** The elements of a set of strings, in the order of [sorted]. *)
Definition sorted_set (l : list str) : list str :=
  fold_right (fun x acc => if str_mem x acc then acc else x :: acc) []
             (sort_by (fun x => x) l).

(** [_event_pages_to_try] *)
Definition _event_pages_to_try (event_url : str) : list str :=
  let base := rstrip_slash (_canonical_event_url event_url) in
  let variants :=
    [base; base ++ py "/participants"; base ++ py "/participants?page=1";
     base ++ py "/participants?page=2"; base ++ py "/participants?page=3";
     base ++ py "/participants?page=4"; base ++ py "/schedule/brackets";
     base ++ py "/schedule"; base ++ py "/bracket"; base ++ py "/brackets";
     base ++ py "/matches"; base ++ py "/registrations"] in
  let mirror alt :=
    [alt; alt ++ py "/participants"; alt ++ py "/schedule/brackets";
     alt ++ py "/schedule"; alt ++ py "/bracket"; alt ++ py "/matches"] in
  let variants :=
    if contains "/en/event/" base
    then variants ++ mirror (str_replace "/en/event/" "/event/" base)
    else if contains "/event/" base
    then variants ++ mirror (str_replace "/event/" "/en/event/" base)
    else variants in
  let ordered := [base ++ py "/schedule/brackets"; base ++ py "/participants"] in
  ordered ++ filter (fun u => negb (str_mem u ordered)) (sorted_set variants).

(** The fetch loop of [fetch_competitors_for_event]:
    [try: resp = await client.get(url)
          if resp.status_code == 200: html_pages.append((url, resp.text))
     except httpx.HTTPError: continue] *)
Fixpoint fetch_pages (urls : list str) (html_pages : list (str * str))
  : M (list (str * str)) :=
  match urls with
  | [] => ret html_pages
  | url :: rest =>
      html_pages <-
        try_except_HTTPError
          (resp <- client_get url ;;
           if (status_code resp =? 200)%Z
           then ret (html_pages ++ [(url, resp_text resp)])
           else ret html_pages)
          (ret html_pages) ;;
      fetch_pages rest html_pages
  end.

(** The five strategies on one page, in the order of the source. *)
Definition parse_page (affiliate_keywords : list str)
           (acc : list CompetitorSchedule.t * seen_set) (page : str * str)
  : list CompetitorSchedule.t * seen_set :=
  let '(source_url, html) := page in
  let run (strategy : str -> list str -> str -> seen_set ->
                      list CompetitorSchedule.t * seen_set)
          (acc : list CompetitorSchedule.t * seen_set) :=
    let '(rows, seen') := strategy html affiliate_keywords source_url (snd acc) in
    (fst acc ++ rows, seen') in
  run _parse_competitor_blocks
    (run _parse_competitor_scripts
       (run _parse_competitor_tables
          (run _parse_participant_profile_links
             (run _parse_schedule_brackets_page acc)))).

(** [fetch_competitors_for_event(event, affiliate_keywords)] *)
Definition fetch_competitors_for_event (self : client) (event : Event.t)
           (affiliate_keywords : list str) : M (list CompetitorSchedule.t) :=
  let pages_to_try := _event_pages_to_try (Event.url event) in
  html_pages <- fetch_pages pages_to_try [] ;;
  ret (fst (fold_left (parse_page affiliate_keywords) html_pages ([], []))).

End Strategies.

Section Resolution.
Context `{Externals}.

(** [for m in re.findall(pattern_rel, html):
         candidates.add(urljoin(str(resp.url), m.split("?", 1)[0]))] *)
Fixpoint join_matches (base : str) (ms : list str) (candidates : dict unit)
  : Exc (dict unit) :=
  match ms with
  | [] => Ok candidates
  | m :: rest =>
      exc_bind (join_url base (split1_head "?" m))
               (fun url => join_matches base rest (dict_set url tt candidates))
  end.

(** The page loop of [_candidate_event_urls_for_id]. *)
Fixpoint candidate_pages_loop (event_id : str) (pages : list str)
         (candidates : dict unit) : M (dict unit) :=
  match pages with
  | [] => ret candidates
  | page :: rest =>
      r <- try_except_HTTPError
             (resp <- client_get page ;;
              if negb (status_code resp =? 200)%Z then ret None
              else ret (Some resp))
             (ret None) ;;
      match r with
      | None => candidate_pages_loop event_id rest candidates
      | Some resp =>
          let html := resp_text resp in
          let candidates :=
            fold_left (fun d m => dict_set (split1_head "?" m) tt d)
                      (re_findall (pattern_abs event_id) html) candidates in
          candidates <-
            lift (join_matches (resp_url resp)
                               (re_findall (pattern_rel event_id) html)
                               candidates) ;;
          candidate_pages_loop event_id rest candidates
      end
  end.

Definition _candidate_event_urls_for_id (self : client) (event_id : str)
  : M (list str) :=
  let candidates : dict unit :=
    dict_set (py "https://smoothcomp.com/event/" ++ event_id) tt
             (dict_set (py "https://smoothcomp.com/en/event/" ++ event_id) tt [])
  in
  let pages := [base_events_url self; fallback_events_url self] in
  candidates <- candidate_pages_loop event_id pages candidates ;;
  ret (map fst candidates).

(** The loop of [fetch_event_by_id]. *)
Fixpoint first_confirmed (self : client) (event_id default_country : str)
         (urls : list str) : M (option Event.t) :=
  match urls with
  | [] => ret None
  | url :: rest =>
      event <- fetch_event_by_url self url default_country ;;
      match event with
      | Some e =>
          if str_eqb (Event.id e) event_id then ret (Some e)
          else first_confirmed self event_id default_country rest
      | None => first_confirmed self event_id default_country rest
      end
  end.

(** [fetch_event_by_id(event_id, default_country)] *)
Definition fetch_event_by_id (self : client) (event_id default_country : str)
  : M (option Event.t) :=
  urls <- _candidate_event_urls_for_id self event_id ;;
  first_confirmed self event_id default_country urls.

(** The counting loop of [detect_affiliates_for_event]. *)
Definition count_step (counts : dict Z) (row : CompetitorSchedule.t) : dict Z :=
  let academy := strip (CompetitorSchedule.academy row) in
  if is_empty academy then counts
  else
    let low := lower academy in
    if str_mem low [py "tbd"; py "team match"; py "unknown"] then counts
    else if negb (_is_likely_affiliate_label academy) then counts
    else
      dict_set academy
               (match dict_get academy counts with Some n => n | None => 0 end
                + 1)%Z
               counts.

(** [detect_affiliates_for_event(event, limit)], [limit] taken
    non-negative. *)
Definition detect_affiliates_for_event (self : client) (event : Event.t)
           (limit : nat) : M (list str) :=
  rows <- fetch_competitors_for_event self event [] ;;
  let counts := fold_left count_step rows [] in
  let ordered :=
    sort_by (fun kv : str * Z => ((- snd kv)%Z, lower (fst kv))) counts in
  ret (map fst (firstn limit ordered)).

(** The loop of [detect_people_for_event]; it breaks once [out] has
    [limit] entries. *)
Fixpoint people_loop (limit : nat) (rows : list CompetitorSchedule.t)
         (out : list (str * str)) (seen : list str) : list (str * str) :=
  match rows with
  | [] => out
  | row :: rest =>
      let name := strip (CompetitorSchedule.competitor_name row) in
      if negb (_is_plausible_person_name name) then people_loop limit rest out seen
      else
        let key := lower name in
        if str_mem key seen then people_loop limit rest out seen
        else
          let division :=
            strip (str_or (CompetitorSchedule.division row) TBD) in
          let out := out ++ [(name, division)] in
          if (limit <=? length out)%nat then out
          else people_loop limit rest out (key :: seen)
  end.

(** [detect_people_for_event(event, limit)], [limit] taken non-negative. *)
Definition detect_people_for_event (self : client) (event : Event.t)
           (limit : nat) : M (list (str * str)) :=
  rows <- fetch_competitors_for_event self event [] ;;
  ret (people_loop limit rows [] []).

End Resolution.

(* ------------------------------------------------------------------ *)
(** ** Text heuristics of the strategies *)

(** [tokens = [t for t in re.split(r"[^a-z0-9]+", kw) if len(t) >= 3]] *)
Definition affiliate_tokens (kw : str) : list str :=
  filter (fun t => (3 <=? length t)%nat)
         (re_split (plus (fun c => negb (is_lower c || is_digit c))) kw).

(** The loop [for keyword in affiliate_keywords] of
    [_text_matches_affiliate], on the normalized text [hay]. *)
Fixpoint keyword_loop (hay : str) (affiliate_keywords : list str) : bool :=
  match affiliate_keywords with
  | [] => false
  | keyword :: rest =>
      let kw := strip (lower keyword) in
      if is_empty kw then keyword_loop hay rest
      else if contains kw hay then true
      else
        let tokens := affiliate_tokens kw in
        if is_empty tokens then keyword_loop hay rest
        else
          let hits := length (filter (fun token => contains token hay) tokens) in
          if (2 <=? hits)%nat || ((1 <=? hits)%nat && (length tokens =? 1)%nat)
          then true
          else keyword_loop hay rest
  end.

(** [_text_matches_affiliate] *)
Definition _text_matches_affiliate (text : str) (affiliate_keywords : list str)
  : bool :=
  let hay := lower (strip (re_sub (plus is_space) " " text)) in
  if is_empty hay then false
  else if is_empty affiliate_keywords then true
  else keyword_loop hay affiliate_keywords.

(** [s.split(sep, 1)[1]] for a one-character [sep] that occurs in [s]. *)
Fixpoint split1_tail (sep : ascii) (s : str) : str :=
  match s with
  | [] => []
  | c :: t => if Ascii.eqb c sep then t else split1_tail sep t
  end.

(** [x or None] on strings *)
Definition nonempty (s : str) : option str :=
  match s with [] => None | _ => Some s end.

(** [_first_match]:
    [for i, cell in enumerate(cells):
         if any(marker in cell.lower() for marker in markers):
             if ":" in cell: return cell.split(":", 1)[1].strip() or None
             if i + 1 < len(cells): return cells[i + 1].strip() or None
     return None] *)
Fixpoint _first_match (cells markers : list str) : option str :=
  match cells with
  | [] => None
  | cell :: rest =>
      let lc := lower cell in
      if existsb (fun marker => contains marker lc) markers then
        if contains ":" cell then nonempty (strip (split1_tail ":" cell))
        else
          match rest with
          | next :: _ => nonempty (strip next)
          | [] => _first_match rest markers
          end
      else _first_match rest markers
  end.
End SmoothcompClient.

(* ================================================================== *)
(** * bot.py: how [TournaBot] reads an event reference *)
(* ================================================================== *)

Module TournaBot.

(** [EVENT_ID_RE =
     re.compile(r"\bevent\s*id\s*[:#-]?\s*(\d{4,9})\b", re.IGNORECASE)] *)
Definition EVENT_ID_RE : regex :=
  Cat (ilit "event")
  (Cat (star is_space)
  (Cat (ilit "id")
  (Cat (star is_space)
  (Cat (opt (Cls (fun c => Ascii.eqb c ":" || Ascii.eqb c "#"
                           || Ascii.eqb c "-")))
  (Cat (star is_space)
  (Cat (Grp (Rep is_digit 4 (Some 9))) Eow)))))).

(** [_extract_event_id]:
    [m = EVENT_ID_RE.search(text)
     if m: return m.group(1)
     trimmed = text.strip()
     if trimmed.isdigit() and 4 <= len(trimmed) <= 9: return trimmed
     return None] *)
Definition _extract_event_id (text : str) : option str :=
  match re_search_bow EVENT_ID_RE text with
  | Some m => Some (group m 1)
  | None =>
      let trimmed := strip text in
      if str_isdigit trimmed && (4 <=? length trimmed)%nat
         && (length trimmed <=? 9)%nat
      then Some trimmed
      else None
  end.

(** [s.rfind(c)] for a character: the last position of [c] in [s]. *)
Fixpoint rfind_char (c : ascii) (s : str) : option nat :=
  match s with
  | [] => None
  | x :: t =>
      match rfind_char c t with
      | Some i => Some (S i)
      | None => if Ascii.eqb x c then Some 0 else None
      end
  end.

(** The place of the cut:
    [cut = remaining.rfind(NL, 0, limit)
     if cut < limit // 2: cut = limit]; [rfind] gives [-1] when there is no
    line end. *)
Definition cut_of (remaining : str) (limit : nat) : nat :=
  match rfind_char "010" (firstn limit remaining) with
  | Some cut => if (cut <? limit / 2)%nat then limit else cut
  | None => limit
  end.

(** The loop of [_split_message]:
    [while len(remaining) > limit:
         ...
         out.append(remaining[:cut].strip())
         remaining = remaining[cut:].strip()
     if remaining: out.append(remaining)
     return out];
    [fuel] bounds the number of rounds. *)
Fixpoint split_loop (fuel : nat) (limit : nat) (remaining : str)
         (out : list str) : option (list str) :=
  match fuel with
  | O => None
  | S fuel =>
      if (limit <? length remaining)%nat then
        let cut := cut_of remaining limit in
        split_loop fuel limit (strip (skipn cut remaining))
                   (out ++ [strip (firstn cut remaining)])
      else Some (if is_empty remaining then out else out ++ [remaining])
  end.

(** [_split_message(text, limit)], [limit] taken non-negative. *)
Definition _split_message (fuel : nat) (text : str) (limit : nat)
  : option (list str) :=
  if (length text <=? limit)%nat then Some [text]
  else split_loop fuel limit text [].

End TournaBot.

(* ================================================================== *)
(** * config.py: [Settings.from_env] *)
(* ================================================================== *)

Module Settings.

(** [s.split(sep)] for a one-character [sep]. *)
Fixpoint split_char (sep : ascii) (s : str) : list str :=
  match s with
  | [] => [[]]
  | c :: t =>
      if Ascii.eqb c sep then [] :: split_char sep t
      else match split_char sep t with
           | piece :: rest => (c :: piece) :: rest
           | [] => [[c]]
           end
  end.

(** [os.getenv(name, default)] on an environment. *)
Definition getenv (environ : str -> option str) (name default : str) : str :=
  match environ name with Some v => v | None => default end.

Section FromEnv.

(** The type of [float] and [float(s)], which raises [ValueError] on a
    string that is no number. *)
Variable float : Type.
Variable float_of_str : str -> option float.

Record t : Type := mk {
  telegram_bot_token : str;
  team_affiliate_keywords : list str;
  smoothcomp_events_url : str;
  smoothcomp_events_fallback_url : str;
  smoothcomp_timeout_seconds : float;
  smoothcomp_default_country : str
}.

(** [[x.strip().lower() for x in affiliates_csv.split(",") if x.strip()]] *)
Definition affiliates_of (affiliates_csv : str) : list str :=
  map (fun x => lower (strip x))
      (filter (fun x => negb (is_empty (strip x)))
              (split_char "," affiliates_csv)).

(** [Settings.from_env()] *)
Definition from_env (environ : str -> option str) : Exc t :=
  let token := strip (getenv environ "TELEGRAM_BOT_TOKEN" []) in
  if is_empty token then Raise ValueError
  else
    let affiliates_csv := getenv environ "TEAM_AFFILIATE_KEYWORDS" [] in
    let affiliates := affiliates_of affiliates_csv in
    if is_empty affiliates then Raise ValueError
    else
      let events_url :=
        strip (getenv environ "SMOOTHCOMP_EVENTS_URL"
                      "https://smoothcomp.com/en/events/upcoming") in
      let fallback_url :=
        strip (getenv environ "SMOOTHCOMP_EVENTS_FALLBACK_URL"
                      "https://compseek.net/events/smoothcomp") in
      let country :=
        strip (getenv environ "SMOOTHCOMP_DEFAULT_COUNTRY" "Philippines") in
      match float_of_str (getenv environ "SMOOTHCOMP_TIMEOUT_SECONDS" "20") with
      | None => Raise ValueError
      | Some timeout =>
          Ok (mk token affiliates events_url fallback_url timeout country)
      end.

End FromEnv.

Arguments telegram_bot_token {float} _.
Arguments team_affiliate_keywords {float} _.
Arguments smoothcomp_events_url {float} _.
Arguments smoothcomp_events_fallback_url {float} _.
Arguments smoothcomp_timeout_seconds {float} _.
Arguments smoothcomp_default_country {float} _.
Arguments from_env {float} float_of_str environ.

End Settings.

(* ================================================================== *)
(** * formatters.py: the quick bracket view *)
(* ================================================================== *)

Module Formatters.

(** [html.escape(s)]: [&], [<], [>] and the two quotes are replaced. *)
Definition escape_char (c : ascii) : str :=
  if Ascii.eqb c "&" then py "&amp;"
  else if Ascii.eqb c "<" then py "&lt;"
  else if Ascii.eqb c ">" then py "&gt;"
  else if Ascii.eqb c "034" then py "&quot;"
  else if Ascii.eqb c "'" then py "&#x27;"
  else [c].

Definition escape (s : str) : str := flat_map escape_char s.

(** [d[k].append(v)] on a [defaultdict(list)] *)
Fixpoint dict_append {V : Type} (k : str) (v : V) (d : dict (list V))
  : dict (list V) :=
  match d with
  | [] => [(k, [v])]
  | (k', vs) :: t =>
      if str_eqb k' k then (k', vs ++ [v]) :: t
      else (k', vs) :: dict_append k v t
  end.

(** [row.division or "Unspecified division"] *)
Definition division_of (row : CompetitorSchedule.t) : str :=
  str_or (CompetitorSchedule.division row) "Unspecified division".

(** The heading of a division: a line end, then the escaped division. *)
Definition heading (division : str) : str := "010"%char :: escape division.

(** [f"{escape(row.competitor_name)} vs {escape(row.opponent)} "
     f"(Mat {escape(row.mat)}, {escape(row.match_time)})"] *)
Definition bracket_line (row : CompetitorSchedule.t) : str :=
  escape (CompetitorSchedule.competitor_name row) ++ py " vs "
  ++ escape (CompetitorSchedule.opponent row) ++ py " (Mat "
  ++ escape (CompetitorSchedule.mat row) ++ py ", "
  ++ escape (CompetitorSchedule.match_time row) ++ py ")".

(** [build_bracket_lines(competitors)] *)
Definition build_bracket_lines (competitors : list CompetitorSchedule.t)
  : list str :=
  let by_division :=
    fold_left (fun d row => dict_append (division_of row) row d)
              competitors [] in
  flat_map
    (fun division =>
       heading division
       :: map bracket_line
              (sort_by CompetitorSchedule.competitor_name
                       (match dict_get division by_division with
                        | Some rows => rows
                        | None => []
                        end)))
    (sort_by (fun division : str => division) (map fst by_division)).

End Formatters.
(* ================================================================== *)
(** * Notions the properties are stated with *)
(* ================================================================== *)

Import SmoothcompClient.

(** A string has an [/event/<digits>] segment when ["/event/"] followed by a
    digit occurs in it. *)
Definition has_event_segment (url : str) : Prop :=
  exists (pre post : str) (d : ascii),
    url = pre ++ py "/event/" ++ d :: post /\ is_digit d = true.

Fixpoint has_event_segmentb (url : str) : bool :=
  (starts_with "/event/" url
   && match skipn 7 url with d :: _ => is_digit d | [] => false end)
  || match url with [] => false | _ :: t => has_event_segmentb t end.


Definition opt_list {A : Type} (o : option A) : list A :=
  match o with Some a => [a] | None => [] end.

(** The date a fragment stands for: the reading of the first of the formats
    that accepts it, if any does. *)
Fixpoint first_parse (m : str) (fmts : list date_format) : option datetime :=
  match fmts with
  | [] => None
  | f :: rest =>
      match strptime m f with
      | Ok d => Some d
      | Raise _ => first_parse m rest
      end
  end.

Definition parse_fragment (m : str) : option datetime :=
  first_parse m date_formats.

(** The fragments of a blob that have the shape of a date: the ISO ones,
    then the long-form ones. *)
Definition date_fragments (text : str) : list str :=
  re_findall iso_date_re text ++ re_findall long_date_re text.

Definition parsed_dates_of (fragments : list str) : list datetime :=
  flat_map (fun m => opt_list (parse_fragment m)) fragments.

(** Location extraction as the specification words it: the indicator tokens
    are "city", "venue", "location" and the name of the country. *)
Definition location_as_specified (country text : str) : str :=
  if contains "city" text || contains "venue" text
     || contains "location" text || contains country text
  then firstn 120 text
  else [].

(** The name score as the specification states it: 1000 for equal
    normalized texts, else 600 if the query is in the name, else 250 if the
    name is in the query; 30 for each query token in the name; 40 if the
    year string is in the name as written. *)
Definition count_tokens_in (tokens : list str) (name : str) : Z :=
  Z.of_nat (length (filter (fun t => contains t name) tokens)).

Definition year_bonus (year : Z) (name_raw : str) : Z :=
  if contains (str_of_int year) name_raw then 40 else 0.

Definition score_as_specified (query : str) (year : Z) (name_raw : str) : Z :=
  let name := _normalize_name name_raw in
  ((if str_eqb name query then 1000
    else if contains query name then 600
    else if contains name query then 250
    else 0)
   + 30 * count_tokens_in (query_tokens_of query) name
   + year_bonus year name_raw)%Z.

(** The same, with the third rung open only to a non-empty normalized name. *)
Definition score_amended (query : str) (year : Z) (name_raw : str) : Z :=
  let name := _normalize_name name_raw in
  ((if str_eqb name query then 1000
    else if contains query name then 600
    else if negb (is_empty name) && contains name query then 250
    else 0)
   + 30 * count_tokens_in (query_tokens_of query) name
   + year_bonus year name_raw)%Z.

(** The key [search_events_by_name] sorts the scored candidates by. *)
Definition rank_key (query : str) (year : Z) (e : Event.t)
  : Z * (datetime * str) :=
  ((- score_amended query year (Event.name e))%Z, _sort_key e).

(** The order of a listing as the specification words it: by start date,
    an Event without one counting as dated [datetime.max], then by the name
    without regard to case. *)
Definition start_or_last (e : Event.t) : datetime :=
  match Event.start_date e with
  | Some d => d
  | None => mk_datetime 9999 12 31 23 59 59 999999
  end.

Definition listing_le (a b : Event.t) : Prop :=
  ltb (start_or_last a) (start_or_last b) = true
  \/ (start_or_last a = start_or_last b
      /\ key_le (lower (Event.name a)) (lower (Event.name b))).

(** The order of a ranking: the higher score first, and among equal scores
    the order of a listing. *)
Definition ranking_le (query : str) (year : Z) (a b : Event.t) : Prop :=
  (score_amended query year (Event.name b)
   < score_amended query year (Event.name a))%Z
  \/ (score_amended query year (Event.name a)
      = score_amended query year (Event.name b)
      /\ listing_le a b).

(** ** Dates as they are written

    The day [d] of month [m] of year [y] in the ISO form, [2026-09-01], and
    in the long form with the full or the abbreviated English month name,
    [September 1, 2026] and [Sep 1, 2026]. *)
Definition digit_char (v : Z) : ascii := ascii_of_N (Z.to_N (48 + v)).

Definition two_digits (n : Z) : str :=
  [digit_char (n / 10); digit_char (n mod 10)].

Definition four_digits (n : Z) : str :=
  [digit_char (n / 1000); digit_char (n / 100 mod 10);
   digit_char (n / 10 mod 10); digit_char (n mod 10)].

Definition day_digits (d : Z) : str :=
  if (d <? 10)%Z then [digit_char d] else two_digits d.

Definition month_name_of (m : Z) : str :=
  nth (Z.to_nat (m - 1))
      [py "January"; py "February"; py "March"; py "April"; py "May";
       py "June"; py "July"; py "August"; py "September"; py "October";
       py "November"; py "December"] [].

Definition month_abbr_of (m : Z) : str := firstn 3 (month_name_of m).

Definition calendar_day (y m d : Z) : Prop :=
  (1 <= y <= 9999 /\ 1 <= m <= 12 /\ 1 <= d <= days_in_month y m)%Z.

Definition midnight (y m d : Z) : datetime := mk_datetime y m d 0 0 0 0.

Definition written_iso (y m d : Z) : str :=
  four_digits y ++ py "-" ++ two_digits m ++ py "-" ++ two_digits d.

Definition written_long (full : bool) (y m d : Z) : str :=
  (if full then month_name_of m else month_abbr_of m)
    ++ py " " ++ day_digits d ++ py ", " ++ four_digits y.

Definition no_digit (s : str) : Prop := Forall (fun c => is_digit c = false) s.

Definition ends_in_letter (s : str) : Prop :=
  exists (pre : str) (c : ascii), s = pre ++ [c] /\ is_alpha c = true.

(** [iso_dates_written text ds]: the text begins with the ISO dates [ds],
    each after a gap without digits; what follows the last of them is
    free. *)
Inductive iso_dates_written : str -> list datetime -> Prop :=
| iso_rest (text : str) : iso_dates_written text []
| iso_next (gap rest : str) (y m d : Z) (ds : list datetime) :
    no_digit gap -> calendar_day y m d -> iso_dates_written rest ds ->
    iso_dates_written (gap ++ written_iso y m d ++ rest) (midnight y m d :: ds).

(** The same for long-form dates; a gap does not end in a letter, so that
    the month name starts a word. *)
Inductive long_dates_written : str -> list datetime -> Prop :=
| long_rest (text : str) : long_dates_written text []
| long_next (gap rest : str) (full : bool) (y m d : Z) (ds : list datetime) :
    no_digit gap -> ~ ends_in_letter gap -> calendar_day y m d ->
    long_dates_written rest ds ->
    long_dates_written (gap ++ written_long full y m d ++ rest)
                       (midnight y m d :: ds).

Definition named (n : str) (start : option datetime) : Event.t :=
  Event.mk [] n [] [] [] start None.

(** The six tiers of the discovery, in priority order. *)
Inductive tier : Type := tier1 | tier2 | tier3 | tier4 | tier5 | tier6.

Definition tier_eqb (a b : tier) : bool :=
  match a, b with
  | tier1, tier1 | tier2, tier2 | tier3, tier3
  | tier4, tier4 | tier5, tier5 | tier6, tier6 => true
  | _, _ => false
  end.

(** What the discovery reads from a candidate: its context blob, the dates
    of the blob, whether the blob names the country, and its Event. *)
Definition candidate_blob (c : str * payload) : str :=
  join " " (p_contexts (snd c)).

Definition candidate_dates (c : str * payload) : list datetime :=
  sort_by (fun d => d) (parsed_dates_of (date_fragments (candidate_blob c))).

Definition candidate_in_country (country : str) (c : str * payload) : bool :=
  _country_in_text (candidate_blob c) country.

Definition candidate_event (country : str) (c : str * payload) : Event.t :=
  make_event (fst c) (str_or (strip (p_name (snd c))) (_name_from_url (fst c)))
             (candidate_blob c) (candidate_in_country country c) country
             (candidate_dates c).

(** A candidate is past when its first date is strictly before today. *)
Definition is_past (today : date) (c : str * payload) : bool :=
  match candidate_dates c with
  | d :: _ => ltb (dt_date d) today
  | [] => false
  end.

(** The tier of a candidate for a target year and country:
    1 country and year, 2 country and no date, 3 country and another year,
    4 year only, 5 neither country nor date, 6 the rest. *)
Definition tier_of (year : Z) (country : str) (c : str * payload) : tier :=
  match candidate_in_country country c, candidate_dates c with
  | true, d :: _ => if (dt_year d =? year)%Z then tier1 else tier3
  | true, [] => tier2
  | false, d :: _ => if (dt_year d =? year)%Z then tier4 else tier6
  | false, [] => tier5
  end.

(** The candidates that are not past and fall in a tier, as Events. *)
Definition tier_events (today : date) (year : Z) (country : str)
           (candidates : list (str * payload)) (t : tier) : list Event.t :=
  map (candidate_event country)
      (filter (fun c => negb (is_past today c)
                        && tier_eqb (tier_of year country c) t)
              candidates).

(** A bucket: the Events of a tier in the order of the listing key. *)
Definition bucket (today : date) (year : Z) (country : str)
           (candidates : list (str * payload)) (t : tier) : list Event.t :=
  sort_by _sort_key (tier_events today year country candidates t).

(** The buckets after the loop over some candidates. *)
Definition add_tiers (today : date) (year : Z) (country : str)
           (cs : list (str * payload)) (b : buckets) : buckets :=
  mk_buckets (strict_country b ++ tier_events today year country cs tier1)
             (strict_country_unknown_year b
                ++ tier_events today year country cs tier2)
             (strict_country_other_year b
                ++ tier_events today year country cs tier3)
             (relaxed b ++ tier_events today year country cs tier4)
             (relaxed_unknown_year b ++ tier_events today year country cs tier5)
             (relaxed_other_year b ++ tier_events today year country cs tier6).

(** ** A scripted world for the scenarios

    Pages are given by URL, the date is fixed, a link is the triple of its
    [href], its row text and the name read from it, and [urljoin] is
    restricted to a base without a path and a second argument that is an
    absolute path or an absolute URL; it raises for a second argument that
    opens a bracketed host and does not close it. *)
Definition scripted_world
           (today : date)
           (pages : str -> transport_failure + Response)
           (candidates : str -> list (str * payload))
           (links : str -> list (str * str * str))
           (tables : str -> list str -> list Sighting)
           (blocks : str -> list str -> list (option Sighting))
  : Externals :=
  {| World := unit;
     http_get := fun url w => (pages url, w);
     clock := fun _ => today;
     urljoin := fun base href =>
                  if starts_with "//[" href && negb (contains "]" href)
                  then None
                  else Some (if starts_with "/" href then base ++ href
                             else href);
     unescape := fun s => s;
     located_candidates := fun html => Some (candidates html);
     Link := (str * str * str)%type;
     find_links := links;
     link_href := fun l => fst (fst l);
     link_row_text := fun l => snd (fst l);
     _extract_event_name_from_link := fun l _ _ => snd l;
     _extract_event_name_from_page := fun _ url => _name_from_url url;
     stripped_text := fun html => html;
     bracket_row_sightings := fun _ _ => [];
     bracket_script_sightings := fun _ _ => [];
     profile_link_sightings := fun _ _ => [];
     table_sightings := tables;
     script_sightings := fun _ _ => [];
     block_nodes := blocks |}.

Definition ok_page (url text : str) : transport_failure + Response :=
  inr (mk_Response 200 url text).

Definition the_client : client :=
  mk_client "https://smoothcomp.com/en/events/upcoming"
            "https://compseek.net/events/smoothcomp".

(** *** A listing with three candidates *)

Definition june_1st : date := (2026, 6, 1)%Z.

Definition listing_candidates : list (str * payload) :=
  [ (py "https://smoothcomp.com/en/event/101",
     mk_payload "Cebu Open" [py "Cebu Open Sep 1, 2026 Cebu, Philippines"]);
    (py "https://smoothcomp.com/en/event/102",
     mk_payload "Tokyo Cup" [py "Tokyo Cup 2026-10-05 Tokyo"]);
    (py "https://smoothcomp.com/en/event/103",
     mk_payload "Old Manila Open" [py "2026-01-10 Manila, Philippines"]) ].

Definition listing_world : Externals :=
  scripted_world june_1st
    (fun url => ok_page url "listing")
    (fun _ => listing_candidates)
    (fun _ => []) (fun _ _ => []) (fun _ _ => []).

(** *** A mirror page with a past and a coming event of the country *)

Definition mirror_links : list (str * str * str) :=
  [ (py "/en/event/201",
     py "Manila Winter Open Jan 10, 2026 Manila, Philippines",
     py "Manila Winter Open");
    (py "/en/event/202",
     py "Cebu Summer Cup Sep 1, 2026 Cebu, Philippines",
     py "Cebu Summer Cup") ].

Definition mirror_world : Externals :=
  scripted_world june_1st
    (fun url => ok_page url "page")
    (fun _ => [])
    (fun _ => mirror_links) (fun _ _ => []) (fun _ _ => []).

Definition manila_winter_open : Event.t :=
  Event.mk "201" "Manila Winter Open" "https://smoothcomp.com/en/event/201"
           [] "Philippines" (Some (mk_datetime 2026 1 10 0 0 0 0)) None.

Definition cebu_summer_cup : Event.t :=
  Event.mk "202" "Cebu Summer Cup" "https://smoothcomp.com/en/event/202"
           [] "Philippines" (Some (mk_datetime 2026 9 1 0 0 0 0)) None.

(** *** An event page read by the table strategy and by the block strategy

    The page is
    [<table><tr><td>Alice Santos</td><td>Alpha BJJ</td></tr></table>
     <ul><li>Alice Santos - alpha bjj</li></ul>]
    and the affiliate filter is [["alpha"]]: the table row gives the name
    and the affiliate and no division, time or mat; the list item gives the
    same name, the affiliate keyword, and no division, time or mat. *)
Definition alice_in_table : Sighting :=
  mk_Sighting "Alice Santos" "Alpha BJJ" [] [] "TBD" [] [].

Definition alice_in_block : Sighting :=
  mk_Sighting "Alice Santos" "alpha" [] [] "TBD" [] [].

Definition event_page_world : Externals :=
  scripted_world june_1st
    (fun url => if str_eqb url "https://smoothcomp.com/en/event/26935/participants"
                then ok_page url "page"
                else inl timed_out)
    (fun _ => []) (fun _ => [])
    (fun _ _ => [alice_in_table]) (fun _ _ => [Some alice_in_block]).

Definition event_26935 : Event.t :=
  Event.mk "26935" "Sample Open" "https://smoothcomp.com/en/event/26935"
           [] [] None None.

(** *** Worlds in which every request fails *)

Definition timeout_world : Externals :=
  scripted_world june_1st (fun _ => inl timed_out)
    (fun _ => []) (fun _ => []) (fun _ _ => []) (fun _ _ => []).

Definition unavailable_world : Externals :=
  scripted_world june_1st (fun url => inr (mk_Response 503 url []))
    (fun _ => []) (fun _ => []) (fun _ _ => []) (fun _ _ => []).

(** A request fails in transit when the transport raises (a timeout, a DNS
    failure) or the status of the response is not 2xx. *)
Definition request_fails `{Externals} (w : World) (url : str) : Prop :=
  match fst (http_get url w) with
  | inl f => f = timed_out \/ f = dns_failure
  | inr r => ~ (200 <= status_code r < 300)%Z
  end.

Definition all_requests_fail `{Externals} : Prop :=
  forall (w : World) (url : str), request_fails w url.

(** [httpx] refuses the url: [client.get] raises [InvalidURL]. *)
Definition url_refused `{Externals} (w : World) (url : str) : Prop :=
  fst (http_get url w) = inl invalid_url.

Definition some_url_refused `{Externals} : Prop :=
  exists (w : World) (url : str), url_refused w url.

(** A rooted path: a slash followed by a character that is not a slash. *)
Definition rooted (path : str) : Prop :=
  exists (c : ascii) (rest : str), path = "/"%char :: c :: rest /\ c <> "/"%char.

(** [urljoin] joins a rooted path to the url of any response. *)
Definition responses_joinable `{Externals} : Prop :=
  forall (url : str) (w w' : World) (resp : Response) (path : str),
    http_get url w = (inr resp, w') -> rooted path ->
    urljoin (resp_url resp) path <> None.

(** A world in which [httpx] refuses a url with the control character
    U+0001 in it. *)
Definition strict_url_world : Externals :=
  scripted_world june_1st
    (fun url => if contains ["001"%char] url then inl invalid_url
                else ok_page url "page")
    (fun _ => []) (fun _ => []) (fun _ _ => []) (fun _ _ => []).

(** A mirror page with a link whose host opens a bracket. *)
Definition bracket_link_world : Externals :=
  scripted_world june_1st
    (fun url => ok_page url "page")
    (fun _ => [])
    (fun _ => [(py "//[x/event/123", py "Open Mat 2026-09-01", py "Open Mat")])
    (fun _ _ => []) (fun _ _ => []).

Definition exc_map {A B : Type} (f : A -> B) (c : Exc A) : Exc B :=
  match c with Ok a => Ok (f a) | Raise e => Raise e end.

(** ** Further notions *)

(** A string without white space at either end. *)
Definition trimmed (s : str) : Prop := strip s = s.

(** Every character of a string is in a class. *)
Definition all_chars (p : ascii -> bool) (s : str) : Prop :=
  forallb p s = true.

(** A dict of Events in which every Event sits under its own URL. *)
Definition url_keyed (d : dict Event.t) : Prop :=
  NoDup (map fst d) /\ forall k v, In (k, v) d -> Event.url v = k.

(** A dict of Events keyed by URL, all of whose URLs have a property. *)
Definition good_dict (P : str -> Prop) (d : dict Event.t) : Prop :=
  url_keyed d /\ forall k v, In (k, v) d -> P k.

Definition good_found (P : str -> Prop) (f : found) : Prop :=
  good_dict P (all_found f) /\ good_dict P (year_found f)
  /\ good_dict P (country_found f) /\ good_dict P (country_year_found f)
  /\ good_dict P (strict_found f).

(** The dict [_fetch_events_from_fallback] lists when [today] is bound to a
    date: the first of the five that is not empty, the strict one first. *)
Definition mirror_choice (f : found) : dict Event.t :=
  if negb (is_empty (strict_found f)) then strict_found f
  else if negb (is_empty (country_year_found f)) then country_year_found f
  else if negb (is_empty (year_found f)) then year_found f
  else if negb (is_empty (country_found f)) then country_found f
  else all_found f.

(** The URL of an event link of a page of the mirror source. *)
Definition event_link_url `{Externals} (links : list Link) (url : str) : Prop :=
  url <> [] /\ exists link, In link links
                            /\ _normalize_event_url (strip (link_href link)) = Ok url.

(** What holds of every Event the client builds for a target country. *)
Definition event_well_formed (country : str) (e : Event.t) : Prop :=
  Event.id e = _event_id_from_url (Event.url e)
  /\ length (Event.location e) <= 120
  /\ (Event.country e = [] \/ Event.country e = country)
  /\ (Event.start_date e = None -> Event.end_date e = None)
  /\ (forall a b, Event.start_date e = Some a -> Event.end_date e = Some b ->
                  key_le a b).

(** What the tier of a bucket says of its Events. *)
Definition tier_reading (year : Z) (country : str) (t : tier) (e : Event.t)
  : Prop :=
  match t with
  | tier1 => Event.country e = country
             /\ exists d, Event.start_date e = Some d /\ dt_year d = year
  | tier2 => Event.country e = country /\ Event.start_date e = None
  | tier3 => Event.country e = country
             /\ exists d, Event.start_date e = Some d /\ dt_year d <> year
  | tier4 => Event.country e = []
             /\ exists d, Event.start_date e = Some d /\ dt_year d = year
  | tier5 => Event.country e = [] /\ Event.start_date e = None
  | tier6 => Event.country e = []
             /\ exists d, Event.start_date e = Some d /\ dt_year d <> year
  end.

(** The state of a strategy that started from the set [seen0]: its rows have
    pairwise distinct four-tuples, none of which was in [seen0], all of
    which are in its set, and its set extends [seen0]. *)
Definition fresh_rows (seen0 : seen_set)
           (acc : list CompetitorSchedule.t * seen_set) : Prop :=
  NoDup (map four_tuple (fst acc))
  /\ (forall r, In r (fst acc) ->
        In (four_tuple r) (snd acc) /\ ~ In (four_tuple r) seen0)
  /\ incl seen0 (snd acc).

(** The state of the merge: distinct four-tuples, all of them in the set. *)
Definition merged_rows (acc : list CompetitorSchedule.t * seen_set) : Prop :=
  NoDup (map four_tuple (fst acc))
  /\ forall r, In r (fst acc) -> In (four_tuple r) (snd acc).

(** A step that records under the four-tuple of the record it appends. *)
Definition key_faithful
           (step : list CompetitorSchedule.t * seen_set -> Sighting ->
                   list CompetitorSchedule.t * seen_set)
           (s : Sighting) : Prop :=
  exists key record,
    four_tuple record = key /\ forall acc, step acc s = record_once key record acc.

(** A table sighting with a division, a time and a mat. *)
Definition complete (s : Sighting) : Prop :=
  s_division s <> [] /\ s_time s <> [] /\ s_mat s <> [].

(** *** An event page whose table row and list item agree on every field *)

Definition alice_complete : Sighting :=
  mk_Sighting "Alice Santos" "Alpha BJJ" "Adult -70kg" [] "Jane Cruz"
              "10:30 AM" "Mat 2".

Definition complete_page_world : Externals :=
  scripted_world june_1st
    (fun url => ok_page url "page")
    (fun _ => []) (fun _ => [])
    (fun _ _ => [alice_complete]) (fun _ _ => [Some alice_complete]).

(** The label under which [detect_affiliates_for_event] counts a row, if it
    counts it. *)
Definition counted_label (row : CompetitorSchedule.t) : option str :=
  let academy := strip (CompetitorSchedule.academy row) in
  if is_empty academy then None
  else if str_mem (lower academy) [py "tbd"; py "team match"; py "unknown"]
  then None
  else if _is_likely_affiliate_label academy then Some academy
  else None.

(** The number of rows counted under a label. *)
Definition occurrences (label : str) (rows : list CompetitorSchedule.t) : Z :=
  Z.of_nat
    (length
       (filter (fun r => match counted_label r with
                         | Some a => str_eqb a label
                         | None => false
                         end) rows)).

(** A table of counts that holds, for each label, the number of rows
    counted under it, and no label without a row. *)
Definition counts_of (rows : list CompetitorSchedule.t) (d : dict Z) : Prop :=
  NoDup (map fst d)
  /\ forall k v, In (k, v) d <-> (v = occurrences k rows /\ (0 < v)%Z).

(** *** Patterns and substitution, read off the matcher *)

(** A pattern without a capture group. *)
Fixpoint no_groups (r : regex) : bool :=
  match r with
  | Grp _ => false
  | Cat r1 r2 | Alt r1 r2 => no_groups r1 && no_groups r2
  | _ => true
  end.

(** [re.sub(r"[p]+", repl, s)] in one pass over [s]: a run of [p]
    characters gives [repl] once; [in_run] tells whether the character
    before is of the run. *)
Fixpoint sub_runs (p : ascii -> bool) (repl : str) (in_run : bool) (s : str)
  : str :=
  match s with
  | [] => []
  | c :: t =>
      if p c then (if in_run then [] else repl) ++ sub_runs p repl true t
      else c :: sub_runs p repl false t
  end.

(** One string occurs in another. *)
Definition occurs_in (part whole : str) : Prop :=
  exists pre post, whole = pre ++ part ++ post.

(** What is left of a text when its white space is taken out. *)
Definition visible (s : str) : str := filter (fun c => negb (is_space c)) s.

(** A keyword as [Settings] keeps it. *)
Definition clean_keyword (k : str) : Prop :=
  k <> [] /\ trimmed k /\ lower k = k /\ ~ In ","%char k.

(** A pattern all of whose character classes lie in [Q]. *)
Fixpoint within (Q : ascii -> Prop) (r : regex) : Prop :=
  match r with
  | Cls p | Rep p _ _ => forall c, p c = true -> Q c
  | Cat r1 r2 | Alt r1 r2 => within Q r1 /\ within Q r2
  | Grp r1 => within Q r1
  | _ => True
  end.

(** The characters of a person's name: letters, ['], [`], [.], [-] and
    white space. *)
Definition name_char (c : ascii) : Prop :=
  is_name_letter c = true \/ is_space c = true.

(** A line without the two characters that open and close a tag. *)
Definition tag_free (line : str) : Prop :=
  ~ In "<"%char line /\ ~ In ">"%char line.

(** The groups of a [defaultdict(list)] filled from [rows] by [key]: the
    keys are distinct, each row sits in the group of its key and in no
    other, and the groups hold as many rows as were given. *)
Definition grouped {V : Type} (key : V -> str) (rows : list V)
           (d : dict (list V)) : Prop :=
  NoDup (map fst d)
  /\ (forall k vs r, In (k, vs) d -> In r vs -> In r rows /\ key r = k)
  /\ (forall r, In r rows -> exists vs, In (key r, vs) d /\ In r vs)
  /\ (forall k vs, In (k, vs) d -> vs <> [])
  /\ length (concat (map snd d)) = length rows.

(* ================================================================== *)
(** * Properties *)
(* ================================================================== *)


(** ** The embedding on sample inputs *)

Example event_id_of_slugged_url :
  _event_id_from_url "https://smoothcomp.com/en/event/26935/foo" = py "26935".
Proof. reflexivity. Qed.

Example canonical_of_slugged_url :
  _canonical_event_url "https://bjj.smoothcomp.com/en/event/26935/foo/?x=1"
  = py "https://bjj.smoothcomp.com/en/event/26935".
Proof. reflexivity. Qed.

Example strptime_iso :
  strptime "2026-04-02" fmt_Ymd = Ok (mk_datetime 2026 4 2 0 0 0 0)
  /\ strptime "2026-02-30" fmt_Ymd = Raise ValueError
  /\ strptime "2026-13-01" fmt_Ymd = Raise ValueError
  /\ strptime "2026-12-32" fmt_Ymd = Raise ValueError
  /\ strptime "0000-01-01" fmt_Ymd = Raise ValueError
  /\ strptime "2024-02-29" fmt_Ymd = Ok (mk_datetime 2024 2 29 0 0 0 0).
Proof. repeat split; vm_compute; reflexivity. Qed.

Example strptime_long :
  strptime "April 3, 2026" fmt_B_d_Y = Ok (mk_datetime 2026 4 3 0 0 0 0)
  /\ strptime "April 3, 2026" fmt_b_d_Y = Raise ValueError
  /\ strptime "Sep  13, 2026" fmt_b_d_Y = Ok (mk_datetime 2026 9 13 0 0 0 0)
  /\ strptime "Sept 13, 2026" fmt_b_d_Y = Raise ValueError
  /\ strptime "May 3,2026" fmt_b_d_Y = Raise ValueError
  /\ strptime "MAY 03, 2026" fmt_B_d_Y = Ok (mk_datetime 2026 5 3 0 0 0 0).
Proof. repeat split; vm_compute; reflexivity. Qed.

Example dates_of_a_blob :
  _extract_dates_from_text
    "Open April 3, 2026 - 2026-04-02 Sept 1, 2026 2026-13-45 Manila"
  = Ok [mk_datetime 2026 4 2 0 0 0 0; mk_datetime 2026 4 3 0 0 0 0].
Proof. vm_compute. reflexivity. Qed.

Example normalize_name_sample :
  _normalize_name "  Hyperfly   Asian-Open 2026! " = py "hyperfly asianopen 2026".
Proof. vm_compute. reflexivity. Qed.

Example name_from_url_samples :
  _name_from_url "https://smoothcomp.com/en/event/123/manila-open_2026/"
  = py "Manila Open 2026"
  /\ _name_from_url "https://smoothcomp.com/en/event/123" = py "Event 123".
Proof. split; vm_compute; reflexivity. Qed.

Example country_in_text_samples :
  _country_in_text "Manila, PH 2026" "Philippines" = true
  /\ _country_in_text "alpha bjj" "Philippines" = false
  /\ _country_in_text "Tokyo, JAPAN" "Japan" = true.
Proof. repeat split; vm_compute; reflexivity. Qed.

Example query_tokens_sample :
  query_tokens_of "hyperfly asian open"
  = [py "hyperfly"; py "asian"; py "open"].
Proof. vm_compute. reflexivity. Qed.

Example str_of_int_sample : str_of_int 2026 = py "2026".
Proof. vm_compute. reflexivity. Qed.

Example person_name_samples :
  _is_plausible_person_name "Alice Santos" = true
  /\ _is_plausible_person_name "Alice" = false
  /\ _is_plausible_person_name "Manila Philippines" = false.
Proof. repeat split; vm_compute; reflexivity. Qed.

Example affiliate_label_samples :
  _is_likely_affiliate_label "Alpha BJJ" = true
  /\ _is_likely_affiliate_label "10:30 am" = false
  /\ _is_likely_affiliate_label "Adult / Male / -70kg" = false.
Proof. repeat split; vm_compute; reflexivity. Qed.

Example pages_to_try_sample :
  _event_pages_to_try "https://smoothcomp.com/en/event/26935/"
  = [py "https://smoothcomp.com/en/event/26935/schedule/brackets";
     py "https://smoothcomp.com/en/event/26935/participants";
     py "https://smoothcomp.com/en/event/26935";
     py "https://smoothcomp.com/en/event/26935/bracket";
     py "https://smoothcomp.com/en/event/26935/brackets";
     py "https://smoothcomp.com/en/event/26935/matches";
     py "https://smoothcomp.com/en/event/26935/participants?page=1";
     py "https://smoothcomp.com/en/event/26935/participants?page=2";
     py "https://smoothcomp.com/en/event/26935/participants?page=3";
     py "https://smoothcomp.com/en/event/26935/participants?page=4";
     py "https://smoothcomp.com/en/event/26935/registrations";
     py "https://smoothcomp.com/en/event/26935/schedule";
     py "https://smoothcomp.com/event/26935";
     py "https://smoothcomp.com/event/26935/bracket";
     py "https://smoothcomp.com/event/26935/matches";
     py "https://smoothcomp.com/event/26935/participants";
     py "https://smoothcomp.com/event/26935/schedule";
     py "https://smoothcomp.com/event/26935/schedule/brackets"].
Proof. vm_compute. reflexivity. Qed.

(** ** Strings *)

Lemma starts_with_app (w t : str) : starts_with w (w ++ t) = true.
Proof.
  induction w as [|c w IH]; simpl; [reflexivity|].
  now rewrite Ascii.eqb_refl.
Qed.

Lemma starts_with_inv (w s : str) :
  starts_with w s = true -> s = w ++ skipn (length w) s.
Proof.
  revert s; induction w as [|c w IH]; intros s H; simpl in *; [reflexivity|].
  destruct s as [|d s]; [discriminate|].
  apply andb_true_iff in H as [Hc Hw].
  apply Ascii.eqb_eq in Hc; subst d.
  now rewrite <- (IH s Hw).
Qed.

Lemma skipn_length_app (w t : str) : skipn (length w) (w ++ t) = t.
Proof. induction w; simpl; auto. Qed.

Lemma consumed_app (m rest : str) : consumed (m ++ rest) rest = m.
Proof.
  unfold consumed. rewrite length_app.
  replace (length m + length rest - length rest) with (length m) by lia.
  rewrite firstn_app, Nat.sub_diag, firstn_all. simpl. apply app_nil_r.
Qed.

Lemma split1_head_app (sep : ascii) (u v : str) :
  split1_head sep (u ++ v)
  = split1_head sep u
      ++ (if existsb (fun c => Ascii.eqb c sep) u then [] else split1_head sep v).
Proof.
  induction u as [|c u IH]; simpl; [reflexivity|].
  destruct (Ascii.eqb c sep); simpl; [reflexivity|].
  now rewrite IH.
Qed.

Lemma rstrip_by_snoc (p : ascii -> bool) (s : str) (c : ascii) :
  p c = true -> rstrip_by p (s ++ [c]) = rstrip_by p s.
Proof.
  intros Hc. unfold rstrip_by. rewrite rev_app_distr. simpl. now rewrite Hc.
Qed.

(** ** The matcher on literals and on repetitions *)

Lemma map_nil_groups (l : list (list str * str)) :
  map (fun m2 : list str * str => (fst m2, snd m2)) l = l.
Proof. induction l as [|[g r] l IH]; simpl; [reflexivity | now rewrite IH]. Qed.

Lemma rmatch_lit (w s : str) :
  rmatch (lit w) s = if starts_with w s then [([], skipn (length w) s)] else [].
Proof.
  revert s; induction w as [|c w IH]; intros s; simpl; [reflexivity|].
  destruct s as [|d s]; simpl; [reflexivity|].
  rewrite (Ascii.eqb_sym c d).
  destruct (Ascii.eqb d c); simpl; [|reflexivity].
  rewrite IH. destruct (starts_with w s); reflexivity.
Qed.

Lemma rmatch_cat_lit (w : str) (r : regex) (s : str) :
  rmatch (Cat (lit w) r) s
  = if starts_with w s then rmatch r (skipn (length w) s) else [].
Proof.
  cbn [rmatch]. rewrite rmatch_lit.
  destruct (starts_with w s); simpl; [|reflexivity].
  now rewrite app_nil_r, map_nil_groups.
Qed.

Lemma rep_star_head (p : ascii -> bool) (s : str) :
  exists l, rep_rems p 0 None s = drop_while p s :: l.
Proof.
  induction s as [|c s [l IH]]; simpl.
  - now exists [].
  - destruct (p c).
    + rewrite IH. simpl. now eexists.
    + now exists [].
Qed.

Lemma rep_plus_cons (p : ascii -> bool) (c : ascii) (s : str) :
  p c = true -> exists l, rep_rems p 1 None (c :: s) = drop_while p s :: l.
Proof.
  intros Hc. simpl. rewrite Hc.
  destruct (rep_star_head p s) as [l Hl]. rewrite Hl.
  rewrite app_nil_r. now eexists.
Qed.

Lemma drop_while_all (p : ascii -> bool) (ds rest : str) :
  forallb p ds = true ->
  match rest with [] => True | c :: _ => p c = false end ->
  drop_while p (ds ++ rest) = rest.
Proof.
  intros Hds Hrest. induction ds as [|d ds IH]; simpl in *.
  - destruct rest as [|c rest]; simpl; [reflexivity | now rewrite Hrest].
  - apply andb_true_iff in Hds as [Hd Hds]. rewrite Hd. auto.
Qed.

(** ** [_event_id_from_url] *)

Lemma event_id_re_match (s : str) :
  rmatch event_id_re s
  = if starts_with "/event/" s
    then map (fun rest => ([consumed (skipn 7 s) rest], rest))
             (rep_rems is_digit 1 None (skipn 7 s))
    else [].
Proof.
  unfold event_id_re. rewrite rmatch_cat_lit.
  destruct (starts_with "/event/" s); [|reflexivity].
  cbn [rmatch plus]. now rewrite map_map.
Qed.

Lemma event_id_re_match_inv (s : str) :
  rmatch event_id_re s <> [] ->
  exists d post, s = py "/event/" ++ d :: post /\ is_digit d = true.
Proof.
  rewrite event_id_re_match. intros H.
  destruct (starts_with "/event/" s) eqn:Hs; [|congruence].
  apply starts_with_inv in Hs. change (length (py "/event/")) with 7 in Hs.
  destruct (skipn 7 s) as [|d post] eqn:Hk; [now simpl in H|].
  exists d, post. split; [exact Hs|].
  destruct (is_digit d) eqn:Hd; [reflexivity|].
  simpl in H. rewrite Hd in H. simpl in H. congruence.
Qed.

Lemma re_search_none (r : regex) (s : str) :
  (forall pre t, s = pre ++ t -> rmatch r t = []) -> re_search r s = None.
Proof.
  induction s as [|c s IH]; intros H.
  - simpl. unfold re_match. now rewrite (H [] []).
  - simpl. unfold re_match. rewrite (H [] (c :: s)) by reflexivity.
    apply IH. intros pre t ->. now apply (H (c :: pre)).
Qed.

Lemma re_search_skip (r : regex) (c : ascii) (s : str) :
  rmatch r (c :: s) = [] -> re_search r (c :: s) = re_search r s.
Proof. intros H. simpl. unfold re_match. now rewrite H. Qed.

Lemma re_search_here (r : regex) (s rest : str) (g : list str)
      (l : list (list str * str)) :
  rmatch r s = (g, rest) :: l ->
  re_search r s = Some (mk_result (consumed s rest) g rest).
Proof. intros H. destruct s; simpl; unfold re_match; now rewrite H. Qed.

Lemma has_event_segmentb_spec (url : str) :
  has_event_segmentb url = true <-> has_event_segment url.
Proof.
  split.
  - induction url as [|c url IH]; cbn [has_event_segmentb].
    + discriminate.
    + intros H. apply orb_true_iff in H as [H|H].
      * apply andb_true_iff in H as [Hs Hd].
        apply (starts_with_inv "/event/" (c :: url)) in Hs.
        change (length (py "/event/")) with 7 in Hs.
        destruct (skipn 7 (c :: url)) as [|d post]; [discriminate|].
        exists [], post, d. split; [exact Hs | exact Hd].
      * destruct (IH H) as (pre & post & d & -> & Hd).
        exists (c :: pre), post, d. now split.
  - intros (pre & post & d & -> & Hd).
    induction pre as [|c pre IH].
    + change (py "/event/" ++ d :: post)
        with ("/"%char :: (py "event/" ++ d :: post)).
      cbn [app has_event_segmentb].
      change ("/"%char :: (py "event/" ++ d :: post))
        with (py "/event/" ++ d :: post).
      rewrite (starts_with_app "/event/" (d :: post)).
      change (skipn 7 (py "/event/" ++ d :: post)) with (d :: post).
      cbv beta iota. now rewrite Hd.
    + cbn [app has_event_segmentb]. rewrite IH. apply orb_true_r.
Qed.

Lemma event_id_search_segment (ds rest : str) :
  isdigit ds = true ->
  match rest with [] => True | c :: _ => is_digit c = false end ->
  re_search event_id_re (py "/event/" ++ ds ++ rest)
  = Some (mk_result (py "/event/" ++ ds) [ds] rest).
Proof.
  intros Hds Hrest.
  destruct ds as [|d ds]; [discriminate|].
  simpl in Hds. apply andb_true_iff in Hds as [Hd Hds].
  destruct (rep_plus_cons is_digit d (ds ++ rest) Hd) as [l Hl].
  rewrite (drop_while_all is_digit ds rest Hds Hrest) in Hl.
  rewrite (re_search_here event_id_re _ rest [d :: ds]
             (map (fun r => ([consumed ((d :: ds) ++ rest) r], r)) l)).
  - f_equal. f_equal.
    change (py "/event/" ++ (d :: ds) ++ rest)
      with ((py "/event/" ++ d :: ds) ++ rest).
    apply consumed_app.
  - rewrite event_id_re_match.
    rewrite (starts_with_app "/event/" ((d :: ds) ++ rest)).
    change (skipn 7 (py "/event/" ++ (d :: ds) ++ rest))
      with ((d :: ds) ++ rest).
    change ((d :: ds) ++ rest) with (d :: (ds ++ rest)) at 2.
    rewrite Hl. cbn [map]. now rewrite consumed_app.
Qed.

Lemma event_id_re_fails_in_prefix (c : ascii) (pre tail : str) :
  ~ has_event_segment ((c :: pre) ++ py "/event/") ->
  rmatch event_id_re ((c :: pre) ++ py "/event/" ++ tail) = [].
Proof.
  intros Hno.
  destruct (rmatch event_id_re ((c :: pre) ++ py "/event/" ++ tail)) eqn:E;
    [reflexivity|].
  exfalso. apply Hno.
  assert (Hne : rmatch event_id_re ((c :: pre) ++ py "/event/" ++ tail) <> [])
    by (rewrite E; discriminate).
  apply event_id_re_match_inv in Hne as (d & post & Heq & Hd).
  exists [], (skipn 8 ((c :: pre) ++ py "/event/")), d. split; [|exact Hd].
  rewrite app_assoc in Heq.
  assert (Hlen : 8 <= length ((c :: pre) ++ py "/event/"))
    by (rewrite length_app; simpl; lia).
  assert (Hf : firstn 8 ((c :: pre) ++ py "/event/") = py "/event/" ++ [d]).
  { transitivity (firstn 8 (((c :: pre) ++ py "/event/") ++ tail)).
    - rewrite (firstn_app 8 ((c :: pre) ++ py "/event/") tail).
      replace (8 - length ((c :: pre) ++ py "/event/")) with 0 by lia.
      now rewrite firstn_O, app_nil_r.
    - rewrite Heq. reflexivity. }
  rewrite <- (firstn_skipn 8 ((c :: pre) ++ py "/event/")) at 1.
  rewrite Hf. reflexivity.
Qed.

(** The identifier is a function of the leftmost [/event/<digits>] segment:
    it is the whole run of digits of that segment. *)
Lemma event_id_from_segment (pre ds rest : str) :
  ~ has_event_segment (pre ++ py "/event/") ->
  isdigit ds = true ->
  match rest with [] => True | c :: _ => is_digit c = false end ->
  _event_id_from_url (pre ++ py "/event/" ++ ds ++ rest) = ds.
Proof.
  intros Hno Hds Hrest. unfold _event_id_from_url.
  assert (H : re_search event_id_re (pre ++ py "/event/" ++ ds ++ rest)
              = Some (mk_result (py "/event/" ++ ds) [ds] rest)).
  { induction pre as [|c pre IH].
    - now apply event_id_search_segment.
    - change ((c :: pre) ++ py "/event/" ++ ds ++ rest)
        with (c :: (pre ++ py "/event/" ++ ds ++ rest)).
      rewrite re_search_skip.
      + apply IH. intros (p & q & d & Heq & Hd). apply Hno.
        exists (c :: p), q, d. split; [|exact Hd].
        change ((c :: pre) ++ py "/event/") with (c :: (pre ++ py "/event/")).
        now rewrite Heq.
      + now apply (event_id_re_fails_in_prefix c pre (ds ++ rest)). }
  rewrite H. reflexivity.
Qed.

(** C7. Identifier extraction round-trips with URL construction: for every
    digit string [event_id] (one digit 0..9 or more, what [\d+] reads),
    [_event_id_from_url (event_url_from_id event_id) = event_id]. The
    identifier is a function of the leftmost [/event/<digits>] segment
    ([event_id_from_segment]). *)
Theorem event_id_roundtrip (event_id : str) :
  isdigit event_id = true ->
  _event_id_from_url (event_url_from_id event_id) = event_id.
Proof.
  intros Hd. unfold event_url_from_id.
  change (py "https://smoothcomp.com/en/event/" ++ event_id)
    with (py "https://smoothcomp.com/en" ++ py "/event/" ++ event_id).
  rewrite <- (app_nil_r event_id) at 1.
  apply event_id_from_segment; [|exact Hd|exact I].
  intros H. apply has_event_segmentb_spec in H. discriminate H.
Qed.

Lemma event_id_roundtrip_witness :
  isdigit "26935" = true
  /\ _event_id_from_url (event_url_from_id "26935") = py "26935".
Proof. split; [reflexivity | apply event_id_roundtrip; reflexivity]. Defined.

(** With no digits the constructed URL has no segment and comes back whole. *)
Example empty_id_comes_back_as_url :
  _event_id_from_url (event_url_from_id []) = py "https://smoothcomp.com/en/event/".
Proof. reflexivity. Qed.

(** C10. A string with no [/event/<digits>] segment is returned unchanged by
    [_event_id_from_url], so the [id] of an Event built from such a URL is
    the URL itself and need not be numeric. *)
Theorem event_id_without_segment (url : str) :
  ~ has_event_segment url -> _event_id_from_url url = url.
Proof.
  intros Hno. unfold _event_id_from_url.
  rewrite re_search_none; [reflexivity|].
  intros pre t ->.
  destruct (rmatch event_id_re t) eqn:E; [reflexivity|].
  exfalso. apply Hno.
  assert (Hne : rmatch event_id_re t <> []) by (rewrite E; discriminate).
  apply event_id_re_match_inv in Hne as (d & post & -> & Hd).
  now exists pre, post, d.
Qed.

Lemma event_id_without_segment_witness :
  ~ has_event_segment "https://smoothcomp.com/EVENT/123"
  /\ _event_id_from_url "https://smoothcomp.com/EVENT/123"
     = py "https://smoothcomp.com/EVENT/123"
  /\ isdigit (_event_id_from_url "https://smoothcomp.com/EVENT/123") = false.
Proof.
  assert (H : ~ has_event_segment "https://smoothcomp.com/EVENT/123").
  { intros H. apply has_event_segmentb_spec in H. discriminate H. }
  split; [exact H|]. split.
  - apply (event_id_without_segment _ H).
  - rewrite (event_id_without_segment _ H). reflexivity.
Defined.

(** ** [_canonical_event_url] *)

(** C6. Canonicalization does not see an appended query string or a trailing
    slash: for every [u] and [q],
    [_canonical_event_url (u + "?" + q) = _canonical_event_url u] and
    [_canonical_event_url (u + "/") = _canonical_event_url u]. *)
Theorem canonical_event_url_query_slash (u q : str) :
  _canonical_event_url (u ++ py "?" ++ q) = _canonical_event_url u
  /\ _canonical_event_url (u ++ py "/") = _canonical_event_url u.
Proof.
  assert (Hpre : forall v, rstrip_slash (split1_head "?" (u ++ v))
                           = rstrip_slash (split1_head "?" u)
                  -> _canonical_event_url (u ++ v) = _canonical_event_url u).
  { intros v Hv. unfold _canonical_event_url. now rewrite Hv. }
  split; apply Hpre; rewrite split1_head_app.
  - destruct (existsb (fun c => Ascii.eqb c "?") u);
      [now rewrite app_nil_r|].
    change (split1_head "?" (py "?" ++ q)) with (@nil ascii).
    now rewrite app_nil_r.
  - destruct (existsb (fun c => Ascii.eqb c "?") u);
      [now rewrite app_nil_r|].
    change (split1_head "?" (py "/")) with ["/"%char].
    now apply rstrip_by_snoc.
Qed.

(** ** Orders and sorting *)

Lemma cmp_refl {K : Type} `{CmpOrder K} (a : K) : cmp a a = Eq.
Proof.
  pose proof (cmp_antisym a a) as E.
  destruct (cmp a a); simpl in E; congruence.
Qed.

#[export] Instance CmpOrder_Z : CmpOrder Z.
Proof.
  split; unfold cmp, Cmp_Z.
  - intros a b. apply Z.compare_antisym.
  - intros a b. apply Z.compare_eq.
  - intros a b c. rewrite !Z.compare_lt_iff. lia.
Qed.

Lemma str_compare_antisym (a b : str) :
  str_compare b a = CompOpp (str_compare a b).
Proof.
  revert b; induction a as [|x a IH]; intros [|y b]; simpl; try reflexivity.
  rewrite (N.compare_antisym (code x) (code y)).
  destruct (code x ?= code y)%N; simpl; auto.
Qed.

Lemma code_inj (x y : ascii) : code x = code y -> x = y.
Proof.
  unfold code. intros E.
  rewrite <- (ascii_N_embedding x), <- (ascii_N_embedding y). now rewrite E.
Qed.

Lemma str_compare_eq (a b : str) : str_compare a b = Eq -> a = b.
Proof.
  revert b; induction a as [|x a IH]; intros [|y b]; simpl;
    try discriminate; [reflexivity|].
  destruct (code x ?= code y)%N eqn:E; try discriminate.
  intros Hab. apply N.compare_eq in E. apply code_inj in E.
  now rewrite E, (IH b Hab).
Qed.

Lemma str_compare_lt_trans (a b c : str) :
  str_compare a b = Lt -> str_compare b c = Lt -> str_compare a c = Lt.
Proof.
  revert b c; induction a as [|x a IH]; intros [|y b] [|z c]; simpl;
    try discriminate; try reflexivity.
  destruct (code x ?= code y)%N eqn:E1; try discriminate;
    destruct (code y ?= code z)%N eqn:E2; try discriminate; intros H1 H2.
  - apply N.compare_eq in E1, E2. rewrite E1, E2, N.compare_refl. eauto.
  - apply N.compare_eq in E1. now rewrite E1, E2.
  - apply N.compare_eq in E2. now rewrite <- E2, E1.
  - rewrite N.compare_lt_iff in E1, E2.
    assert (E3 : (code x ?= code z)%N = Lt) by (apply N.compare_lt_iff; lia).
    now rewrite E3.
Qed.

#[export] Instance CmpOrder_str : CmpOrder str.
Proof.
  split.
  - intros a b. apply str_compare_antisym.
  - apply str_compare_eq.
  - apply str_compare_lt_trans.
Qed.

#[export] Instance CmpOrder_prod {A B : Type} `{CmpOrder A} `{CmpOrder B} :
  CmpOrder (A * B).
Proof.
  split; unfold cmp, Cmp_prod.
  - intros [a1 b1] [a2 b2]; simpl.
    rewrite (cmp_antisym a1 a2).
    destruct (cmp a1 a2); simpl; auto. apply cmp_antisym.
  - intros [a1 b1] [a2 b2]; simpl.
    destruct (cmp a1 a2) eqn:E; try discriminate.
    intros E2. apply cmp_eq in E, E2. now subst.
  - intros [a1 b1] [a2 b2] [a3 b3]; simpl.
    destruct (cmp a1 a2) eqn:E1; try discriminate;
      destruct (cmp a2 a3) eqn:E2; try discriminate; intros Hab Hbc.
    + apply cmp_eq in E1, E2. subst. rewrite cmp_refl.
      eapply cmp_lt_trans; eauto.
    + apply cmp_eq in E1. subst. now rewrite E2.
    + apply cmp_eq in E2. subst. now rewrite E1.
    + now rewrite (cmp_lt_trans _ _ _ E1 E2).
Qed.

Lemma dt_tuple_inj (a b : datetime) : dt_tuple a = dt_tuple b -> a = b.
Proof. destruct a, b; unfold dt_tuple; simpl. congruence. Qed.

#[export] Instance CmpOrder_datetime : CmpOrder datetime.
Proof.
  split; unfold cmp, Cmp_datetime.
  - intros a b. apply cmp_antisym.
  - intros a b E. apply dt_tuple_inj. now apply cmp_eq.
  - intros a b c. apply cmp_lt_trans.
Qed.

Section Sorting.
Context {A K : Type} `{CmpOrder K} (key : A -> K).

Lemma key_le_trans (a b c : K) : key_le a b -> key_le b c -> key_le a c.
Proof.
  unfold key_le. intros Hab Hbc.
  destruct (cmp a b) eqn:E1; [| |congruence];
    destruct (cmp b c) eqn:E2; try congruence.
  - apply cmp_eq in E1, E2. subst. now rewrite cmp_refl.
  - apply cmp_eq in E1. subst. now rewrite E2.
  - apply cmp_eq in E2. subst. now rewrite E1.
  - now rewrite (cmp_lt_trans _ _ _ E1 E2).
Qed.

Lemma ltb_false_le (a b : K) : ltb a b = false -> key_le b a.
Proof.
  unfold ltb, key_le. rewrite (cmp_antisym a b).
  destruct (cmp a b); simpl; congruence.
Qed.

Lemma ltb_true_le (a b : K) : ltb a b = true -> key_le a b.
Proof. unfold ltb, key_le. destruct (cmp a b); congruence. Qed.

Lemma insert_by_perm (x : A) (l : list A) :
  Permutation (insert_by key x l) (x :: l).
Proof.
  induction l as [|y l IH]; simpl; [reflexivity|].
  destruct (ltb (key y) (key x)); [|reflexivity].
  rewrite IH. apply perm_swap.
Qed.

Lemma sort_by_perm (l : list A) : Permutation (sort_by key l) l.
Proof.
  induction l as [|x l IH]; simpl; [reflexivity|].
  rewrite insert_by_perm. now constructor.
Qed.

Lemma insert_by_sorted (x : A) (l : list A) :
  StronglySorted (le_by key) l -> StronglySorted (le_by key) (insert_by key x l).
Proof.
  induction l as [|y l IH]; intros Hs; simpl.
  - constructor; constructor.
  - inversion Hs as [|? ? Hl Hy]; subst.
    destruct (ltb (key y) (key x)) eqn:E.
    + constructor; [now apply IH|].
      apply (Permutation_Forall (Permutation_sym (insert_by_perm x l))).
      constructor; [now apply ltb_true_le | exact Hy].
    + constructor; [exact Hs|].
      apply ltb_false_le in E.
      constructor; [exact E|].
      eapply Forall_impl; [|exact Hy].
      intros z Hz. unfold le_by in *. eapply key_le_trans; eauto.
Qed.

Lemma sort_by_sorted (l : list A) : StronglySorted (le_by key) (sort_by key l).
Proof.
  induction l as [|x l IH]; simpl; [constructor|].
  now apply insert_by_sorted.
Qed.

Lemma sort_by_nil_iff (l : list A) : sort_by key l = [] <-> l = [].
Proof.
  split; [|now intros ->].
  intros E. pose proof (sort_by_perm l) as P. rewrite E in P.
  now apply Permutation_nil in P.
Qed.

End Sorting.

Lemma key_le_pair {A B : Type} `{CmpOrder A} `{Cmp B} (a1 a2 : A) (b1 b2 : B) :
  key_le (a1, b1) (a2, b2) -> ltb a1 a2 = true \/ (a1 = a2 /\ key_le b1 b2).
Proof.
  unfold key_le, ltb.
  change (cmp (a1, b1) (a2, b2))
    with (match cmp a1 a2 with Eq => cmp b1 b2 | o => o end).
  destruct (cmp a1 a2) eqn:E; intros Hle.
  - right. split; [now apply cmp_eq | exact Hle].
  - now left.
  - congruence.
Qed.

Lemma sorted_weaken {A : Type} (R S : A -> A -> Prop) (l : list A) :
  (forall a b, R a b -> S a b) -> StronglySorted R l -> StronglySorted S l.
Proof.
  intros HRS Hs. induction Hs as [|x l Hs IH Hx]; constructor.
  - exact IH.
  - eapply Forall_impl; [|exact Hx]. intros b. apply HRS.
Qed.

(** The key of a listing orders Events as the specification words it. *)
Lemma sort_key_listing_le (a b : Event.t) :
  key_le (_sort_key a) (_sort_key b) -> listing_le a b.
Proof.
  intros Hle. unfold listing_le.
  exact (key_le_pair (start_or_last a) (start_or_last b)
                     (lower (Event.name a)) (lower (Event.name b)) Hle).
Qed.

Lemma sort_key_sorted (l : list Event.t) :
  StronglySorted listing_le (sort_by _sort_key l).
Proof.
  apply (sorted_weaken (le_by _sort_key)).
  - intros a b. apply sort_key_listing_le.
  - apply sort_by_sorted.
Qed.

Lemma rank_key_ranking_le (q : str) (year : Z) (a b : Event.t) :
  key_le (rank_key q year a) (rank_key q year b) -> ranking_le q year a b.
Proof.
  intros Hle. unfold ranking_le.
  destruct (key_le_pair (- score_amended q year (Event.name a))%Z
                        (- score_amended q year (Event.name b))%Z
                        (_sort_key a) (_sort_key b) Hle) as [Hlt | [He Hk]].
  - left. unfold ltb in Hlt.
    change (cmp (- score_amended q year (Event.name a))%Z
                (- score_amended q year (Event.name b))%Z)
      with (Z.compare (- score_amended q year (Event.name a))
                      (- score_amended q year (Event.name b))) in Hlt.
    destruct (Z.compare_spec (- score_amended q year (Event.name a))
                             (- score_amended q year (Event.name b)));
      try discriminate. lia.
  - right. split; [lia | now apply sort_key_listing_le].
Qed.

(* ================================================================== *)
(** * Further properties of the code *)
(* ================================================================== *)

(** ** Equality tests and white space *)

Lemma str_eqb_eq (a b : str) : str_eqb a b = true <-> a = b.
Proof.
  revert b; induction a as [|x a IH]; intros [|y b]; simpl;
    try (split; (reflexivity || discriminate)).
  rewrite andb_true_iff, Ascii.eqb_eq, IH.
  split; [intros [-> ->]; reflexivity | intros E; injection E; auto].
Qed.

Lemma str_eqb_refl (a : str) : str_eqb a a = true.
Proof. now apply str_eqb_eq. Qed.

Lemma str_eqb_neq (a b : str) : str_eqb a b = false <-> a <> b.
Proof.
  rewrite <- str_eqb_eq. destruct (str_eqb a b); split; congruence.
Qed.

Lemma str_mem_In (x : str) (l : list str) : str_mem x l = true <-> In x l.
Proof.
  unfold str_mem. rewrite existsb_exists. split.
  - intros (y & Hy & E). apply str_eqb_eq in E. now subst.
  - intros Hx. exists x. split; [exact Hx | apply str_eqb_refl].
Qed.

Lemma drop_while_head (p : ascii -> bool) (s : str) :
  match drop_while p s with [] => True | c :: _ => p c = false end.
Proof.
  induction s as [|c s IH]; simpl; [exact I|].
  destruct (p c) eqn:E; [exact IH | exact E].
Qed.

Lemma drop_while_fixed (p : ascii -> bool) (s : str) :
  match s with [] => True | c :: _ => p c = false end -> drop_while p s = s.
Proof. destruct s as [|c s]; simpl; [reflexivity|]. now intros ->. Qed.

Lemma drop_while_idem (p : ascii -> bool) (s : str) :
  drop_while p (drop_while p s) = drop_while p s.
Proof. apply drop_while_fixed, drop_while_head. Qed.

Lemma drop_while_suffix (p : ascii -> bool) (s : str) :
  exists pre, s = pre ++ drop_while p s /\ forallb p pre = true.
Proof.
  induction s as [|c s (pre & E & Hp)]; simpl.
  - now exists [].
  - destruct (p c) eqn:Hc.
    + exists (c :: pre). simpl. rewrite Hc, Hp. now rewrite <- E.
    + now exists [].
Qed.

Lemma rstrip_by_prefix (p : ascii -> bool) (s : str) :
  exists post, s = rstrip_by p s ++ post /\ forallb p post = true.
Proof.
  unfold rstrip_by.
  destruct (drop_while_suffix p (rev s)) as (pre & E & Hp).
  exists (rev pre). split.
  - rewrite <- (rev_involutive s), E at 1. now rewrite rev_app_distr.
  - rewrite forallb_forall in *. intros c Hc. apply Hp. now apply in_rev.
Qed.

Lemma rstrip_by_idem (p : ascii -> bool) (s : str) :
  rstrip_by p (rstrip_by p s) = rstrip_by p s.
Proof.
  unfold rstrip_by. now rewrite rev_involutive, drop_while_idem.
Qed.

Lemma rstrip_by_head (p : ascii -> bool) (s : str) :
  match s with [] => True | c :: _ => p c = false end ->
  match rstrip_by p s with [] => True | c :: _ => p c = false end.
Proof.
  intros Hs. destruct (rstrip_by_prefix p s) as (post & E & _).
  destruct (rstrip_by p s) as [|c r]; [exact I|].
  rewrite E in Hs. exact Hs.
Qed.

Lemma strip_trimmed (s : str) : trimmed (strip s).
Proof.
  unfold trimmed, strip, lstrip_by.
  rewrite (drop_while_fixed is_space (rstrip_by is_space (drop_while is_space s))).
  - apply rstrip_by_idem.
  - apply rstrip_by_head, drop_while_head.
Qed.

Lemma strip_parts (s : str) :
  exists pre post, s = pre ++ strip s ++ post.
Proof.
  unfold strip, lstrip_by.
  destruct (drop_while_suffix is_space s) as (pre & E & _).
  destruct (rstrip_by_prefix is_space (drop_while is_space s)) as (post & E2 & _).
  exists pre, post. now rewrite <- E2.
Qed.

Lemma strip_length (s : str) : length (strip s) <= length s.
Proof.
  destruct (strip_parts s) as (pre & post & E).
  rewrite E at 2. rewrite !length_app. lia.
Qed.

(** ** What a match consumes and captures *)

Lemma rep_rems_sound (p : ascii -> bool) (s : str) :
  forall lo hi rest, In rest (rep_rems p lo hi s) ->
    exists m, s = m ++ rest /\ forallb p m = true /\ lo <= length m
              /\ match hi with Some h => length m <= h | None => True end.
Proof.
  assert (Hstop : forall lo (hi : option nat) (s0 rest : str),
             In rest (match lo with O => [s0] | S _ => [] end) ->
             exists m, s0 = m ++ rest /\ forallb p m = true /\ lo <= length m
                       /\ match hi with
                          | Some h => length m <= h
                          | None => True
                          end).
  { intros lo hi s0 rest Hin. destruct lo; [|destruct Hin].
    destruct Hin as [<-|[]]. exists []. cbn [app forallb length].
    repeat split; [lia|]. destruct hi; [lia | exact I]. }
  induction s as [|c t IH]; intros lo hi rest Hin.
  - apply (Hstop lo hi). destruct hi as [[|h]|]; exact Hin.
  - destruct hi as [[|h]|]; cbn [rep_rems] in Hin.
    + now apply (Hstop lo (Some 0)).
    + destruct (p c) eqn:Ec; [|now apply (Hstop lo (Some (S h)))].
      apply in_app_or in Hin as [Hin|Hin]; [|now apply (Hstop lo (Some (S h)))].
      apply IH in Hin as (m & -> & Hm & Hlo & Hhi). cbn [option_map pred] in Hhi.
      exists (c :: m). cbn [app forallb length]. rewrite Ec, Hm.
      repeat split; lia.
    + destruct (p c) eqn:Ec; [|now apply (Hstop lo None)].
      apply in_app_or in Hin as [Hin|Hin]; [|now apply (Hstop lo None)].
      apply IH in Hin as (m & -> & Hm & Hlo & _).
      exists (c :: m). cbn [app forallb length]. rewrite Ec, Hm.
      repeat split; lia.
Qed.

Lemma rmatch_cat_inv (r1 r2 : regex) (s : str) (g : list str) (rest : str) :
  In (g, rest) (rmatch (Cat r1 r2) s) ->
  exists g1 mid g2,
    In (g1, mid) (rmatch r1 s) /\ In (g2, rest) (rmatch r2 mid)
    /\ g = g1 ++ g2.
Proof.
  cbn [rmatch]. intros Hin.
  apply in_flat_map in Hin as ([g1 mid] & H1 & Hin).
  apply in_map_iff in Hin as ([g2 rest'] & E & H2).
  cbn [fst snd] in *. injection E as <- <-. now exists g1, mid, g2.
Qed.

Lemma rmatch_grp_inv (r : regex) (s : str) (g : list str) (rest : str) :
  In (g, rest) (rmatch (Grp r) s) ->
  exists g', g = consumed s rest :: g' /\ In (g', rest) (rmatch r s).
Proof.
  cbn [rmatch]. intros Hin.
  apply in_map_iff in Hin as ([g' rest'] & E & Hin). cbn [fst snd] in E.
  injection E as <- <-. now exists g'.
Qed.

Lemma rmatch_rep_inv (p : ascii -> bool) (lo : nat) (hi : option nat)
      (s : str) (g : list str) (rest : str) :
  In (g, rest) (rmatch (Rep p lo hi) s) ->
  g = [] /\ In rest (rep_rems p lo hi s).
Proof.
  cbn [rmatch]. intros Hin. apply in_map_iff in Hin as (rest' & E & Hin).
  injection E as <- <-. now split.
Qed.

Lemma rmatch_suffix (r : regex) :
  forall s g rest, In (g, rest) (rmatch r s) -> exists m, s = m ++ rest.
Proof.
  induction r as [|p|r1 IH1 r2 IH2|r1 IH1 r2 IH2|p lo hi|r IH| |];
    intros s g rest Hin.
  - destruct Hin as [E|[]]. injection E as _ <-. now exists [].
  - cbn [rmatch] in Hin. destruct s as [|c t]; [destruct Hin|].
    destruct (p c); [|destruct Hin].
    destruct Hin as [E|[]]. injection E as _ <-. now exists [c].
  - apply rmatch_cat_inv in Hin as (g1 & mid & g2 & H1 & H2 & _).
    apply IH1 in H1 as [m1 ->]. apply IH2 in H2 as [m2 ->].
    exists (m1 ++ m2). now rewrite app_assoc.
  - cbn [rmatch] in Hin. apply in_app_or in Hin as [Hin|Hin]; eauto.
  - cbn [rmatch] in Hin. apply in_map_iff in Hin as (rest' & E & Hin).
    injection E as _ <-.
    apply rep_rems_sound in Hin as (m & -> & _). now exists m.
  - cbn [rmatch] in Hin. apply in_map_iff in Hin as ([g' rest'] & E & Hin).
    cbn [fst snd] in E. injection E as _ <-. eauto.
  - cbn [rmatch] in Hin. destruct s as [|c [|d t]]; [| |destruct Hin].
    + destruct Hin as [E|[]]. injection E as _ <-. now exists [].
    + destruct (Ascii.eqb c "010"); [|destruct Hin].
      destruct Hin as [E|[]]. injection E as _ <-. now exists [].
  - cbn [rmatch] in Hin. destruct s as [|c t].
    + destruct Hin as [E|[]]. injection E as _ <-. now exists [].
    + destruct (is_word c); [destruct Hin|].
      destruct Hin as [E|[]]. injection E as _ <-. now exists [].
Qed.

Lemma rmatch_no_groups (r : regex) :
  no_groups r = true ->
  forall s g rest, In (g, rest) (rmatch r s) -> g = [].
Proof.
  induction r as [|p|r1 IH1 r2 IH2|r1 IH1 r2 IH2|p lo hi|r IH| |];
    cbn [no_groups]; intros Hng s g rest Hin; try discriminate.
  - destruct Hin as [E|[]]. now injection E as <- _.
  - cbn [rmatch] in Hin. destruct s as [|c t]; [destruct Hin|].
    destruct (p c); [|destruct Hin].
    destruct Hin as [E|[]]. now injection E as <- _.
  - apply andb_true_iff in Hng as [N1 N2].
    apply rmatch_cat_inv in Hin as (g1 & mid & g2 & H1 & H2 & ->).
    now rewrite (IH1 N1 _ _ _ H1), (IH2 N2 _ _ _ H2).
  - apply andb_true_iff in Hng as [N1 N2].
    cbn [rmatch] in Hin. apply in_app_or in Hin as [Hin|Hin]; eauto.
  - cbn [rmatch] in Hin. apply in_map_iff in Hin as (rest' & E & _).
    now injection E as <- _.
  - cbn [rmatch] in Hin. destruct s as [|c [|d t]]; [| |destruct Hin].
    + destruct Hin as [E|[]]. now injection E as <- _.
    + destruct (Ascii.eqb c "010"); [|destruct Hin].
      destruct Hin as [E|[]]. now injection E as <- _.
  - cbn [rmatch] in Hin. destruct s as [|c t].
    + destruct Hin as [E|[]]. now injection E as <- _.
    + destruct (is_word c); [destruct Hin|].
      destruct Hin as [E|[]]. now injection E as <- _.
Qed.

(** Past a group-free head, the groups are those of the tail. *)
Lemma rmatch_cat_skip (r1 r2 : regex) (s : str) (g : list str) (rest : str) :
  no_groups r1 = true ->
  In (g, rest) (rmatch (Cat r1 r2) s) ->
  exists m mid, s = m ++ mid /\ In (g, rest) (rmatch r2 mid).
Proof.
  intros Hng Hin.
  apply rmatch_cat_inv in Hin as (g1 & mid & g2 & H1 & H2 & ->).
  rewrite (rmatch_no_groups r1 Hng _ _ _ H1).
  apply rmatch_suffix in H1 as [m ->]. now exists m, mid.
Qed.

Lemma re_match_inv (r : regex) (t : str) (m : re_result) :
  re_match r t = Some m ->
  In (m_groups m, m_rest m) (rmatch r t)
  /\ m_text m = consumed t (m_rest m).
Proof.
  unfold re_match. destruct (rmatch r t) as [|[g rest] l]; [discriminate|].
  intros E. injection E as <-. cbn [m_groups m_rest m_text].
  split; [now left | reflexivity].
Qed.

Lemma re_search_inv (r : regex) (s : str) (m : re_result) :
  re_search r s = Some m ->
  exists pre t, s = pre ++ t /\ re_match r t = Some m.
Proof.
  induction s as [|c s IH]; cbn [re_search].
  - destruct (re_match r []) eqn:E; [|discriminate].
    intros E'. injection E' as <-. now exists [], [].
  - destruct (re_match r (c :: s)) eqn:E.
    + intros E'. injection E' as <-. now exists [], (c :: s).
    + intros Hs. apply IH in Hs as (pre & t & -> & Ht).
      now exists (c :: pre), t.
Qed.

Lemma re_search_bow_inv (r : regex) (s : str) (m : re_result) :
  re_search_bow r s = Some m ->
  exists pre t, s = pre ++ t /\ re_match r t = Some m.
Proof.
  unfold re_search_bow. generalize false.
  induction s as [|c s IH]; intros b; cbn [re_search_bow_from].
  - destruct (if b then None else re_match r []) eqn:E; [|discriminate].
    intros E'. injection E' as <-. destruct b; [discriminate|].
    now exists [], [].
  - destruct (if b then None else re_match r (c :: s)) eqn:E.
    + intros E'. injection E' as <-. destruct b; [discriminate|].
      now exists [], (c :: s).
    + intros Hs. apply IH in Hs as (pre & t & -> & Ht).
      now exists (c :: pre), t.
Qed.

(** ** Substituting runs of a character class *)

Lemma re_sub_from_skip (r : regex) (repl m d : str) :
  re_sub_from r repl (length m) (m ++ d) = re_sub_from r repl 0 d.
Proof. induction m as [|c m IH]; cbn [length app re_sub_from]; auto. Qed.

Lemma re_match_plus_text (p : ascii -> bool) (c : ascii) (t : str) :
  p c = true ->
  exists m,
    option_map m_text (re_match (plus p) (c :: t)) = Some (c :: m)
    /\ t = m ++ drop_while p t /\ forallb p m = true.
Proof.
  intros Hc. destruct (rep_plus_cons p c t Hc) as [l Hl].
  destruct (drop_while_suffix p t) as (m & E & Hm).
  exists m. split; [|split; assumption].
  unfold re_match, plus. cbn [rmatch]. rewrite Hl.
  cbn [map option_map m_text].
  replace (c :: t) with ((c :: m) ++ drop_while p t)
    by (cbn [app]; now rewrite <- E).
  now rewrite consumed_app.
Qed.

Lemma re_match_plus_none (p : ascii -> bool) (c : ascii) (t : str) :
  p c = false -> re_match (plus p) (c :: t) = None.
Proof.
  intros Hc. unfold re_match, plus. cbn [rmatch rep_rems]. now rewrite Hc.
Qed.

Lemma sub_runs_run (p : ascii -> bool) (repl m d : str) :
  forallb p m = true -> sub_runs p repl true (m ++ d) = sub_runs p repl true d.
Proof.
  induction m as [|c m IH]; cbn [forallb app sub_runs]; [reflexivity|].
  intros Hm. apply andb_true_iff in Hm as [Hc Hm]. rewrite Hc. now apply IH.
Qed.

Lemma sub_runs_flag (p : ascii -> bool) (repl d : str) :
  match d with [] => True | c :: _ => p c = false end ->
  sub_runs p repl true d = sub_runs p repl false d.
Proof. destruct d as [|c d]; cbn [sub_runs]; [reflexivity|]. now intros ->. Qed.

Lemma drop_while_length (p : ascii -> bool) (s : str) :
  length (drop_while p s) <= length s.
Proof.
  destruct (drop_while_suffix p s) as (pre & E & _).
  rewrite E at 2. rewrite length_app. lia.
Qed.

Lemma re_sub_plus (p : ascii -> bool) (repl s : str) :
  re_sub (plus p) repl s = sub_runs p repl false s.
Proof.
  unfold re_sub.
  assert (H : forall n s0, length s0 <= n ->
                re_sub_from (plus p) repl 0 s0 = sub_runs p repl false s0).
  { induction n as [|n IH]; intros [|c t] Hl; try reflexivity;
      cbn [length] in Hl; [lia|].
    cbn [re_sub_from sub_runs]. destruct (p c) eqn:Ec.
    - destruct (re_match_plus_text p c t Ec) as (m & Em & Et & Hm).
      rewrite Em. f_equal. rewrite Et at 1. rewrite re_sub_from_skip.
      rewrite IH by (pose proof (drop_while_length p t); lia).
      rewrite Et at 2. rewrite sub_runs_run by exact Hm.
      symmetry. apply sub_runs_flag, drop_while_head.
    - rewrite (re_match_plus_none p c t Ec). cbn [option_map].
      f_equal. apply IH. lia. }
  apply (H (length s)). lia.
Qed.

Lemma sub_runs_map (f : ascii -> ascii) (p : ascii -> bool) (repl : str)
      (b : bool) (s : str) :
  (forall c, p (f c) = p c) ->
  map f (sub_runs p repl b s) = sub_runs p (map f repl) b (map f s).
Proof.
  intros Hp. revert b; induction s as [|c t IH]; intros b;
    cbn [map sub_runs]; [reflexivity|].
  rewrite Hp. destruct (p c).
  - rewrite map_app, IH. now destruct b.
  - cbn [map]. now rewrite IH.
Qed.

Lemma sub_runs_Forall (Q : ascii -> Prop) (p : ascii -> bool) (repl : str)
      (b : bool) (s : str) :
  Forall Q repl -> (forall c, In c s -> p c = false -> Q c) ->
  Forall Q (sub_runs p repl b s).
Proof.
  intros Hr. revert b; induction s as [|c t IH]; intros b Hs;
    cbn [sub_runs]; [constructor|].
  destruct (p c) eqn:Ec.
  - apply Forall_app. split; [destruct b; [constructor | exact Hr]|].
    apply IH. intros x Hx. apply Hs. now right.
  - constructor; [apply Hs; [now left | exact Ec]|].
    apply IH. intros x Hx. apply Hs. now right.
Qed.

Lemma drop_while_map (f : ascii -> ascii) (p : ascii -> bool) (s : str) :
  (forall c, p (f c) = p c) -> drop_while p (map f s) = map f (drop_while p s).
Proof.
  intros Hp. induction s as [|c t IH]; cbn [map drop_while]; [reflexivity|].
  rewrite Hp. now destruct (p c).
Qed.

Lemma is_space_lower (c : ascii) : is_space (lower_char c) = is_space c.
Proof. destruct c as [[] [] [] [] [] [] [] []]; reflexivity. Qed.

Lemma lower_char_idem (c : ascii) : lower_char (lower_char c) = lower_char c.
Proof. destruct c as [[] [] [] [] [] [] [] []]; reflexivity. Qed.

Lemma lower_idem (s : str) : lower (lower s) = lower s.
Proof.
  unfold lower. rewrite map_map. apply map_ext. exact lower_char_idem.
Qed.

Lemma strip_lower (s : str) : strip (lower s) = lower (strip s).
Proof.
  unfold strip, lstrip_by, rstrip_by, lower.
  rewrite (drop_while_map lower_char is_space s is_space_lower).
  rewrite <- map_rev.
  rewrite (drop_while_map lower_char is_space _ is_space_lower).
  now rewrite map_rev.
Qed.

(** ** The first way a pattern matches *)

Lemma hd_error_app_some {A : Type} (a b : list A) (x : A) :
  hd_error a = Some x -> hd_error (a ++ b) = Some x.
Proof. destruct a; [discriminate | exact (fun E => E)]. Qed.

Lemma hd_error_map {A B : Type} (f : A -> B) (l : list A) (x : A) :
  hd_error l = Some x -> hd_error (map f l) = Some (f x).
Proof. destruct l; [discriminate|]. intros E. injection E as ->. reflexivity. Qed.

(** A greedy repetition takes a whole run first, when the run has a legal
    length and ends where the class or the bound ends it. *)
Lemma rep_rems_greedy (p : ascii -> bool) (m rest : str) :
  forallb p m = true ->
  forall (lo : nat) (hi : option nat),
    lo <= length m ->
    match hi with Some h => length m <= h | None => True end ->
    hi = Some (length m)
    \/ match rest with c :: _ => p c = false | [] => True end ->
    hd_error (rep_rems p lo hi (m ++ rest)) = Some rest.
Proof.
  induction m as [|x m IH]; intros Hm lo hi Hlo Hhi Hend.
  - cbn [length] in Hlo. assert (lo = 0) as -> by lia. cbn [app].
    destruct hi as [[|h]|].
    + destruct rest; reflexivity.
    + destruct Hend as [E|Hend]; [discriminate|].
      destruct rest as [|c t]; [reflexivity|].
      cbn [rep_rems]. now rewrite Hend.
    + destruct Hend as [E|Hend]; [discriminate|].
      destruct rest as [|c t]; [reflexivity|].
      cbn [rep_rems]. now rewrite Hend.
  - cbn [forallb] in Hm. apply andb_true_iff in Hm as [Hx Hm].
    cbn [length] in Hlo, Hhi, Hend. cbn [app].
    destruct hi as [[|h]|]; [lia| |].
    + cbn [rep_rems]. rewrite Hx. apply hd_error_app_some.
      apply IH; [exact Hm | lia | cbn [option_map pred]; lia |].
      destruct Hend as [E|Hend]; [left | now right].
      injection E as E. cbn [option_map pred]. now rewrite E.
    + cbn [rep_rems]. rewrite Hx. apply hd_error_app_some.
      apply IH; [exact Hm | lia | exact I |].
      destruct Hend as [E|Hend]; [discriminate | now right].
Qed.

Lemma rmatch_rep_head (p : ascii -> bool) (lo : nat) (hi : option nat)
      (m rest : str) :
  forallb p m = true -> lo <= length m ->
  match hi with Some h => length m <= h | None => True end ->
  hi = Some (length m)
  \/ match rest with c :: _ => p c = false | [] => True end ->
  hd_error (rmatch (Rep p lo hi) (m ++ rest)) = Some ([], rest).
Proof.
  intros Hm Hlo Hhi Hend. cbn [rmatch].
  apply (hd_error_map (fun rest => ([], rest))).
  now apply rep_rems_greedy.
Qed.

Lemma rmatch_cat_head (r1 r2 : regex) (s mid rest : str) (g1 g2 : list str) :
  hd_error (rmatch r1 s) = Some (g1, mid) ->
  hd_error (rmatch r2 mid) = Some (g2, rest) ->
  hd_error (rmatch (Cat r1 r2) s) = Some (g1 ++ g2, rest).
Proof.
  cbn [rmatch].
  destruct (rmatch r1 s) as [|[a b] l]; [discriminate|].
  intros E. injection E as -> ->. cbn [flat_map snd fst].
  destruct (rmatch r2 mid) as [|[c d] l']; [discriminate|].
  intros E. injection E as -> ->. reflexivity.
Qed.

Lemma rmatch_chr_head (c : ascii) (rest : str) :
  hd_error (rmatch (chr c) (c :: rest)) = Some ([], rest).
Proof. unfold chr. cbn [rmatch]. now rewrite Ascii.eqb_refl. Qed.

Lemma rmatch_grp_head (r : regex) (m rest : str) (g : list str) :
  hd_error (rmatch r (m ++ rest)) = Some (g, rest) ->
  hd_error (rmatch (Grp r) (m ++ rest)) = Some (m :: g, rest).
Proof.
  cbn [rmatch]. destruct (rmatch r (m ++ rest)) as [|[a b] l]; [discriminate|].
  intros E. injection E as -> ->. cbn [map hd_error fst snd].
  now rewrite consumed_app.
Qed.

Lemma re_match_head (r : regex) (m rest : str) (g : list str) :
  hd_error (rmatch r (m ++ rest)) = Some (g, rest) ->
  re_match r (m ++ rest) = Some (mk_result m g rest).
Proof.
  unfold re_match. destruct (rmatch r (m ++ rest)) as [|[a b] l]; [discriminate|].
  intros E. injection E as -> ->. now rewrite consumed_app.
Qed.

Lemma rmatch_cat_none (r1 r2 : regex) (s : str) :
  rmatch r1 s = [] -> rmatch (Cat r1 r2) s = [].
Proof. intros E. cbn [rmatch]. now rewrite E. Qed.

Lemma rmatch_grp_none (r : regex) (s : str) :
  rmatch r s = [] -> rmatch (Grp r) s = [].
Proof. intros E. cbn [rmatch]. now rewrite E. Qed.

Lemma re_match_none (r : regex) (s : str) : rmatch r s = [] -> re_match r s = None.
Proof. intros E. unfold re_match. now rewrite E. Qed.

(** A repetition that wants a character finds none at a character outside
    its class. *)
Lemma rep_rems_reject (p : ascii -> bool) (lo : nat) (hi : option nat)
      (c : ascii) (s : str) :
  p c = false -> rep_rems p (S lo) hi (c :: s) = [].
Proof. intros E. destruct hi as [[|h]|]; cbn [rep_rems]; now rewrite ?E. Qed.

Lemma rmatch_rep_reject (p : ascii -> bool) (lo : nat) (hi : option nat)
      (c : ascii) (s : str) :
  p c = false -> rmatch (Rep p (S lo) hi) (c :: s) = [].
Proof. intros E. cbn [rmatch]. now rewrite rep_rems_reject. Qed.

(** ** [re.findall], match by match *)

Lemma re_findall_from_skip (r : regex) (m d : str) :
  re_findall_from r (length m) (m ++ d) = re_findall_from r 0 d.
Proof. induction m as [|c m IH]; cbn [length app re_findall_from]; auto. Qed.

(** A match at the head of the text is listed, and the scan goes on behind
    it. *)
Lemma re_findall_head (r : regex) (frag post : str) (g : list str) :
  frag <> [] ->
  re_match r (frag ++ post) = Some (mk_result frag g post) ->
  re_findall r (frag ++ post)
  = findall_item (mk_result frag g post) :: re_findall r post.
Proof.
  intros Hne Hm. unfold re_findall.
  destruct frag as [|c frag]; [congruence|].
  cbn [app] in *. cbn [re_findall_from]. rewrite Hm.
  cbn [m_text length pred]. now rewrite re_findall_from_skip.
Qed.

(** Where no match starts, the scan passes. *)
Lemma re_findall_quiet (r : regex) (pre s : str) :
  (forall a b, pre = a ++ b -> b <> [] -> rmatch r (b ++ s) = []) ->
  re_findall r (pre ++ s) = re_findall r s.
Proof.
  unfold re_findall. induction pre as [|c pre IH]; intros Hq; [reflexivity|].
  cbn [app re_findall_from].
  rewrite (re_match_none r (c :: pre ++ s)).
  - apply IH. intros a b E Hb. apply (Hq (c :: a) b); [|exact Hb].
    now rewrite E.
  - apply (Hq [] (c :: pre)); [reflexivity | discriminate].
Qed.

(** Every item [re.findall] lists comes from a match somewhere in the
    text. *)
Lemma re_findall_from_sound (r : regex) (x : str) :
  forall (s : str) (skip : nat),
    In x (re_findall_from r skip s) ->
    exists pre t m, s = pre ++ t /\ re_match r t = Some m /\ x = findall_item m.
Proof.
  induction s as [|c s IH]; intros skip Hin.
  - destruct skip as [|k]; cbn [re_findall_from] in Hin; [|destruct Hin].
    destruct (re_match r []) as [m|] eqn:E; [|destruct Hin].
    destruct Hin as [<-|[]]. now exists [], [], m.
  - destruct skip as [|k]; cbn [re_findall_from] in Hin.
    + destruct (re_match r (c :: s)) as [m|] eqn:E.
      * destruct Hin as [<-|Hin]; [now exists [], (c :: s), m|].
        apply IH in Hin as (pre & t & m' & -> & Hm & ->).
        now exists (c :: pre), t, m'.
      * apply IH in Hin as (pre & t & m' & -> & Hm & ->).
        now exists (c :: pre), t, m'.
    + apply IH in Hin as (pre & t & m' & -> & Hm & ->).
      now exists (c :: pre), t, m'.
Qed.

Lemma re_findall_sound (r : regex) (s x : str) :
  In x (re_findall r s) ->
  exists pre t m, s = pre ++ t /\ re_match r t = Some m /\ x = findall_item m.
Proof. apply re_findall_from_sound. Qed.

(** ** [_extract_dates_from_text] *)

Lemma strptime_raises_ValueError (m : str) (f : date_format) (e : exn) :
  strptime m f = Raise e -> e = ValueError.
Proof.
  unfold strptime.
  destruct (rmatch (format_regex f) m) as [|[g rest] l]; [congruence|].
  destruct (negb (is_empty rest)); [congruence|].
  destruct (fields_of f g) as [[y mo] d].
  match goal with |- (if ?c then _ else _) = _ -> _ => destruct c end;
    congruence.
Qed.

Lemma try_formats_spec (m : str) (fmts : list date_format) (out : list datetime) :
  try_formats m fmts out = Ok (out ++ opt_list (first_parse m fmts)).
Proof.
  induction fmts as [|f fmts IH]; simpl.
  - now rewrite app_nil_r.
  - destruct (strptime m f) as [d|e] eqn:E; [reflexivity|].
    apply strptime_raises_ValueError in E. subst e. exact IH.
Qed.

Lemma each_match_spec (ms : list str) (out : list datetime) :
  each_match ms out = Ok (out ++ parsed_dates_of ms).
Proof.
  revert out; induction ms as [|m ms IH]; intros out; cbn [each_match].
  - unfold parsed_dates_of. simpl. now rewrite app_nil_r.
  - rewrite try_formats_spec. cbn [exc_bind]. rewrite IH.
    unfold parsed_dates_of, parse_fragment, opt_list. cbn [flat_map].
    rewrite <- app_assoc.
    now destruct (first_parse m date_formats).
Qed.

Lemma parsed_dates_of_app (a b : list str) :
  parsed_dates_of (a ++ b) = parsed_dates_of a ++ parsed_dates_of b.
Proof. unfold parsed_dates_of. apply flat_map_app. Qed.

Lemma extract_dates_eq (text : str) :
  _extract_dates_from_text text
  = Ok (sort_by (fun d => d) (parsed_dates_of (date_fragments text))).
Proof.
  unfold _extract_dates_from_text, date_patterns, date_fragments.
  cbn [each_pattern]. rewrite each_match_spec. cbn [exc_bind app].
  rewrite each_match_spec. cbn [exc_bind].
  now rewrite parsed_dates_of_app.
Qed.

(** *** Character classes *)

Lemma digit_not_space (c : ascii) : is_digit c = true -> is_space c = false.
Proof.
  destruct c as [[] [] [] [] [] [] [] []]; (reflexivity || discriminate).
Qed.

Lemma alpha_not_space (c : ascii) : is_alpha c = true -> is_space c = false.
Proof.
  destruct c as [[] [] [] [] [] [] [] []]; (reflexivity || discriminate).
Qed.

Lemma alpha_not_digit (c : ascii) : is_alpha c = true -> is_digit c = false.
Proof.
  destruct c as [[] [] [] [] [] [] [] []]; (reflexivity || discriminate).
Qed.

Lemma space_not_digit (c : ascii) : is_space c = true -> is_digit c = false.
Proof.
  destruct c as [[] [] [] [] [] [] [] []]; (reflexivity || discriminate).
Qed.

(** *** Numbers as they are written *)

Lemma digit_char_digit (v : Z) :
  (0 <= v <= 9)%Z ->
  is_digit (digit_char v) = true /\ digit_val (digit_char v) = v.
Proof.
  intros Hv.
  assert (Hc : (v = 0 \/ v = 1 \/ v = 2 \/ v = 3 \/ v = 4 \/ v = 5 \/ v = 6
                \/ v = 7 \/ v = 8 \/ v = 9)%Z) by lia.
  repeat (destruct Hc as [->|Hc]; [split; reflexivity|]).
  subst v. split; reflexivity.
Qed.

Lemma four_digits_digits (y : Z) :
  (0 <= y <= 9999)%Z -> forallb is_digit (four_digits y) = true.
Proof.
  intros Hy. unfold four_digits. cbn [forallb].
  rewrite (proj1 (digit_char_digit (y / 1000) ltac:(Z.div_mod_to_equations; lia))).
  rewrite (proj1 (digit_char_digit (y / 100 mod 10)
                                   ltac:(Z.div_mod_to_equations; lia))).
  rewrite (proj1 (digit_char_digit (y / 10 mod 10)
                                   ltac:(Z.div_mod_to_equations; lia))).
  rewrite (proj1 (digit_char_digit (y mod 10)
                                   ltac:(Z.div_mod_to_equations; lia))).
  reflexivity.
Qed.

Lemma int_of_four_digits (y : Z) :
  (0 <= y <= 9999)%Z -> int_of (four_digits y) = y.
Proof.
  intros Hy. unfold int_of, four_digits. cbn [fold_left].
  destruct (digit_char_digit (y / 1000) ltac:(Z.div_mod_to_equations; lia))
    as [D1 V1].
  destruct (digit_char_digit (y / 100 mod 10)
                             ltac:(Z.div_mod_to_equations; lia)) as [D2 V2].
  destruct (digit_char_digit (y / 10 mod 10)
                             ltac:(Z.div_mod_to_equations; lia)) as [D3 V3].
  destruct (digit_char_digit (y mod 10) ltac:(Z.div_mod_to_equations; lia))
    as [D4 V4].
  rewrite D1, D2, D3, D4, V1, V2, V3, V4.
  Z.div_mod_to_equations. lia.
Qed.

Lemma two_digits_digits (n : Z) :
  (0 <= n <= 99)%Z -> forallb is_digit (two_digits n) = true.
Proof.
  intros Hn. unfold two_digits. cbn [forallb].
  rewrite (proj1 (digit_char_digit (n / 10) ltac:(Z.div_mod_to_equations; lia))).
  rewrite (proj1 (digit_char_digit (n mod 10)
                                   ltac:(Z.div_mod_to_equations; lia))).
  reflexivity.
Qed.

Lemma int_of_two_digits (n : Z) :
  (0 <= n <= 99)%Z -> int_of (two_digits n) = n.
Proof.
  intros Hn. unfold int_of, two_digits. cbn [fold_left].
  destruct (digit_char_digit (n / 10) ltac:(Z.div_mod_to_equations; lia))
    as [D1 V1].
  destruct (digit_char_digit (n mod 10) ltac:(Z.div_mod_to_equations; lia))
    as [D2 V2].
  rewrite D1, D2, V1, V2. Z.div_mod_to_equations. lia.
Qed.

Lemma day_digits_shape (d : Z) :
  (1 <= d <= 31)%Z ->
  exists (c : ascii) (tail : str),
    day_digits d = c :: tail /\ forallb is_digit (c :: tail) = true
    /\ length (c :: tail) <= 2 /\ int_of (c :: tail) = d.
Proof.
  intros Hd. unfold day_digits. destruct (d <? 10)%Z eqn:E.
  - apply Z.ltb_lt in E. exists (digit_char d), [].
    destruct (digit_char_digit d ltac:(lia)) as [D V].
    split; [reflexivity|]. cbn [forallb length]. rewrite D.
    split; [reflexivity|]. split; [lia|].
    unfold int_of. cbn [fold_left]. rewrite D, V. lia.
  - exists (digit_char (d / 10)), [digit_char (d mod 10)].
    split; [reflexivity|].
    split; [exact (two_digits_digits d ltac:(lia))|].
    split; [cbn [length]; lia | exact (int_of_two_digits d ltac:(lia))].
Qed.

Lemma days_in_month_le (y m : Z) : (days_in_month y m <= 31)%Z.
Proof.
  unfold days_in_month.
  destruct (m =? 2)%Z; [destruct (is_leap y); lia|].
  destruct ((m =? 4) || (m =? 6) || (m =? 9) || (m =? 11))%Z; lia.
Qed.

Ltac month_cases m H :=
  let Hc := fresh "Hc" in
  assert (Hc : (m = 1 \/ m = 2 \/ m = 3 \/ m = 4 \/ m = 5 \/ m = 6 \/ m = 7
                \/ m = 8 \/ m = 9 \/ m = 10 \/ m = 11 \/ m = 12)%Z) by lia;
  clear H;
  repeat (destruct Hc as [->|Hc]); [..|subst m].

Ltac day_cases d H :=
  let Hc := fresh "Hc" in
  assert (Hc : (d = 1 \/ d = 2 \/ d = 3 \/ d = 4 \/ d = 5 \/ d = 6 \/ d = 7
                \/ d = 8 \/ d = 9 \/ d = 10 \/ d = 11 \/ d = 12 \/ d = 13
                \/ d = 14 \/ d = 15 \/ d = 16 \/ d = 17 \/ d = 18 \/ d = 19
                \/ d = 20 \/ d = 21 \/ d = 22 \/ d = 23 \/ d = 24 \/ d = 25
                \/ d = 26 \/ d = 27 \/ d = 28 \/ d = 29 \/ d = 30
                \/ d = 31)%Z) by lia;
  clear H;
  repeat (destruct Hc as [->|Hc]); [..|subst d].

(** *** The directives of [strptime] on a written date *)

Lemma re_Y_head (y : Z) (rest : str) :
  (0 <= y <= 9999)%Z ->
  hd_error (rmatch re_Y (four_digits y ++ rest)) = Some ([four_digits y], rest).
Proof.
  intros Hy. unfold re_Y. apply rmatch_grp_head. unfold exactly.
  apply rmatch_rep_head.
  - now apply four_digits_digits.
  - cbn [four_digits length]. lia.
  - cbn [four_digits length]. lia.
  - now left.
Qed.

Lemma re_m_head (m : Z) (rest : str) :
  (1 <= m <= 12)%Z ->
  hd_error (rmatch re_m (two_digits m ++ "-"%char :: rest))
  = Some ([two_digits m], "-"%char :: rest).
Proof.
  intros Hm. unfold re_m. apply rmatch_grp_head.
  month_cases m Hm; vm_compute; reflexivity.
Qed.

Lemma re_d_head_end (d : Z) :
  (1 <= d <= 31)%Z ->
  hd_error (rmatch re_d (two_digits d ++ [])) = Some ([two_digits d], []).
Proof.
  intros Hd. unfold re_d. apply rmatch_grp_head.
  day_cases d Hd; vm_compute; reflexivity.
Qed.

Lemma re_d_head_comma (d : Z) (rest : str) :
  (1 <= d <= 31)%Z ->
  hd_error (rmatch re_d (day_digits d ++ ","%char :: rest))
  = Some ([day_digits d], ","%char :: rest).
Proof.
  intros Hd. unfold re_d. apply rmatch_grp_head.
  day_cases d Hd; vm_compute; reflexivity.
Qed.

Lemma re_B_head (m : Z) (rest : str) :
  (1 <= m <= 12)%Z ->
  hd_error (rmatch re_B (month_name_of m ++ " "%char :: rest))
  = Some ([month_name_of m], " "%char :: rest)
  /\ index_of (lower (month_name_of m)) month_names 1 = m.
Proof.
  intros Hm. unfold re_B, re_names. split.
  - apply rmatch_grp_head. month_cases m Hm; vm_compute; reflexivity.
  - month_cases m Hm; vm_compute; reflexivity.
Qed.

Lemma re_b_head (m : Z) (rest : str) :
  (1 <= m <= 12)%Z ->
  hd_error (rmatch re_b (month_abbr_of m ++ " "%char :: rest))
  = Some ([month_abbr_of m], " "%char :: rest)
  /\ index_of (lower (month_abbr_of m)) month_abbrs 1 = m.
Proof.
  intros Hm. unfold re_b, re_names. split.
  - apply rmatch_grp_head. month_cases m Hm; vm_compute; reflexivity.
  - month_cases m Hm; vm_compute; reflexivity.
Qed.

(** But for May, an abbreviated name is no full name. *)
Lemma re_B_rejects_abbr (m : Z) (rest : str) :
  (1 <= m <= 12)%Z -> m <> 5%Z ->
  rmatch re_B (month_abbr_of m ++ " "%char :: rest) = [].
Proof.
  intros Hm H5. unfold re_B, re_names. apply rmatch_grp_none.
  month_cases m Hm; try (vm_compute; reflexivity); congruence.
Qed.

Lemma month_name_shape (full : bool) (m : Z) :
  (1 <= m <= 12)%Z ->
  let name := if full then month_name_of m else month_abbr_of m in
  forallb is_alpha name = true /\ 3 <= length name <= 9.
Proof.
  intros Hm name. subst name.
  destruct full; month_cases m Hm; (split; [reflexivity|]);
    vm_compute; lia.
Qed.

Lemma re_ws_head (c : ascii) (rest : str) :
  is_space c = false ->
  hd_error (rmatch re_ws (" "%char :: c :: rest)) = Some ([], c :: rest).
Proof.
  intros Hc. unfold re_ws, plus.
  apply (rmatch_rep_head is_space 1 None [" "%char] (c :: rest));
    [reflexivity | cbn; lia | exact I | now right].
Qed.

Lemma strptime_of_head (s : str) (f : date_format) (g : list str) (y m d : Z) :
  hd_error (rmatch (format_regex f) s) = Some (g, []) ->
  fields_of f g = (y, m, d) ->
  calendar_day y m d ->
  strptime s f = Ok (midnight y m d).
Proof.
  intros Hh Hf (Hy & Hm & Hd). unfold strptime.
  destruct (rmatch (format_regex f) s) as [|[g' rest'] l]; [discriminate|].
  injection Hh as -> ->. cbn [is_empty negb]. rewrite Hf.
  rewrite (proj2 (Z.leb_le 1 y)), (proj2 (Z.leb_le 1 m)),
    (proj2 (Z.leb_le m 12)), (proj2 (Z.leb_le 1 d)),
    (proj2 (Z.leb_le d (days_in_month y m))) by lia.
  reflexivity.
Qed.

(** The ISO form reads as its date under [%Y-%m-%d]. *)
Lemma strptime_written_iso (y m d : Z) :
  calendar_day y m d ->
  strptime (written_iso y m d) fmt_Ymd = Ok (midnight y m d).
Proof.
  intros Hc. pose proof Hc as (Hy & Hm & Hd).
  pose proof (days_in_month_le y m) as Hle.
  apply (strptime_of_head _ _ [four_digits y; two_digits m; two_digits d]);
    [| |exact Hc].
  - unfold written_iso. cbn [format_regex py list_ascii_of_string app].
    apply (rmatch_cat_head _ _ _ _ _ [four_digits y] [two_digits m; two_digits d]
                           (re_Y_head y _ ltac:(lia))).
    apply (rmatch_cat_head _ _ _ _ _ [] [two_digits m; two_digits d]
                           (rmatch_chr_head _ _)).
    apply (rmatch_cat_head _ _ _ _ _ [two_digits m] [two_digits d]
                           (re_m_head m _ ltac:(lia))).
    apply (rmatch_cat_head _ _ _ _ _ [] [two_digits d]
                           (rmatch_chr_head _ _)).
    rewrite <- (app_nil_r (two_digits d)) at 1.
    apply re_d_head_end. lia.
  - cbn [fields_of nth].
    now rewrite int_of_four_digits, !int_of_two_digits by lia.
Qed.

(** A string that opens with a letter is no ISO date. *)
Lemma strptime_iso_rejects (c : ascii) (s : str) :
  is_digit c = false -> strptime (c :: s) fmt_Ymd = Raise ValueError.
Proof.
  intros Hc. unfold strptime. cbn [format_regex].
  rewrite rmatch_cat_none; [reflexivity|].
  unfold re_Y. apply rmatch_grp_none. unfold exactly.
  now apply rmatch_rep_reject.
Qed.

Lemma long_tail_head (re_name : regex) (name : str) (y d : Z) :
  (0 <= y <= 9999)%Z -> (1 <= d <= 31)%Z ->
  (forall rest, hd_error (rmatch re_name (name ++ " "%char :: rest))
                = Some ([name], " "%char :: rest)) ->
  hd_error
    (rmatch (Cat re_name (Cat re_ws (Cat re_d (Cat (chr ",") (Cat re_ws re_Y)))))
            (name ++ py " " ++ day_digits d ++ py ", " ++ four_digits y))
  = Some ([name; day_digits d; four_digits y], []).
Proof.
  intros Hy Hd Hname.
  destruct (day_digits_shape d Hd) as (c & tail & Ed & Hdig & _ & _).
  cbn [forallb] in Hdig. apply andb_true_iff in Hdig as [Hc _].
  cbn [py list_ascii_of_string app].
  apply (rmatch_cat_head _ _ _ _ _ [name] [day_digits d; four_digits y]
                         (Hname _)).
  apply (rmatch_cat_head _ _ _ (day_digits d ++ ","%char :: " "%char
                                   :: four_digits y) _ []
                         [day_digits d; four_digits y]).
  { rewrite Ed. cbn [app]. apply re_ws_head. now apply digit_not_space. }
  apply (rmatch_cat_head _ _ _ _ _ [day_digits d] [four_digits y]
                         (re_d_head_comma d _ Hd)).
  apply (rmatch_cat_head _ _ _ _ _ [] [four_digits y] (rmatch_chr_head _ _)).
  apply (rmatch_cat_head _ _ _ (four_digits y) _ [] [four_digits y]).
  { cbn [four_digits]. apply re_ws_head. apply digit_not_space.
    apply digit_char_digit. Z.div_mod_to_equations. lia. }
  rewrite <- (app_nil_r (four_digits y)) at 1. now apply re_Y_head.
Qed.

(** The long form reads as its date: with the full name under [%B %d, %Y],
    with the abbreviated name under [%b %d, %Y]. *)
Lemma first_parse_written_long (full : bool) (y m d : Z) :
  calendar_day y m d ->
  parse_fragment (written_long full y m d) = Some (midnight y m d).
Proof.
  intros Hc. pose proof Hc as (Hy & Hm & Hd).
  pose proof (days_in_month_le y m) as Hle.
  destruct (day_digits_shape d ltac:(lia)) as (c & tail & Ed & _ & _ & Hint).
  assert (Hfull : strptime (written_long true y m d) fmt_B_d_Y
                  = Ok (midnight y m d)).
  { apply (strptime_of_head _ _ [month_name_of m; day_digits d; four_digits y]);
      [| |exact Hc].
    - unfold written_long. cbn [format_regex].
      apply long_tail_head; [lia | lia |].
      intros rest. now apply re_B_head.
    - cbn [fields_of nth].
      rewrite int_of_four_digits by lia.
      rewrite (proj2 (re_B_head m [] Hm)). now rewrite Ed, Hint. }
  assert (Habbr : strptime (written_long false y m d) fmt_b_d_Y
                  = Ok (midnight y m d)).
  { apply (strptime_of_head _ _ [month_abbr_of m; day_digits d; four_digits y]);
      [| |exact Hc].
    - unfold written_long. cbn [format_regex].
      apply long_tail_head; [lia | lia |].
      intros rest. now apply re_b_head.
    - cbn [fields_of nth].
      rewrite int_of_four_digits by lia.
      rewrite (proj2 (re_b_head m [] Hm)). now rewrite Ed, Hint. }
  assert (Hiso : strptime (written_long full y m d) fmt_Ymd = Raise ValueError).
  { destruct (month_name_shape full m Hm) as [Halpha Hlen].
    unfold written_long.
    destruct (if full then month_name_of m else month_abbr_of m) as [|a name];
      [cbn in Hlen; lia|].
    cbn [forallb] in Halpha. apply andb_true_iff in Halpha as [Ha _].
    cbn [app]. apply strptime_iso_rejects. now apply alpha_not_digit. }
  unfold parse_fragment, date_formats. cbn [first_parse]. rewrite Hiso.
  destruct full; [now rewrite Hfull|].
  destruct (Z.eq_dec m 5) as [->|H5].
  - change (written_long false y 5 d) with (written_long true y 5 d).
    now rewrite Hfull.
  - assert (Hno : strptime (written_long false y m d) fmt_B_d_Y
                  = Raise ValueError).
    { unfold strptime, written_long. cbn [format_regex].
      rewrite rmatch_cat_none; [reflexivity|].
      cbn [py list_ascii_of_string app]. now apply re_B_rejects_abbr. }
    now rewrite Hno, Habbr.
Qed.

Lemma first_parse_written_iso (y m d : Z) :
  calendar_day y m d ->
  parse_fragment (written_iso y m d) = Some (midnight y m d).
Proof.
  intros Hc. unfold parse_fragment, date_formats. cbn [first_parse].
  now rewrite strptime_written_iso.
Qed.

(** *** The scan of a text that holds written dates *)

Lemma iso_match_head (y m d : Z) (post : str) :
  calendar_day y m d ->
  re_match iso_date_re (written_iso y m d ++ post)
  = Some (mk_result (written_iso y m d) [written_iso y m d] post).
Proof.
  intros (Hy & Hm & Hd). pose proof (days_in_month_le y m) as Hle.
  apply re_match_head. unfold iso_date_re. apply rmatch_grp_head.
  unfold written_iso. cbn [py list_ascii_of_string].
  rewrite <- ?app_assoc. cbn [app]. rewrite <- ?app_assoc. cbn [app].
  unfold exactly.
  eapply (rmatch_cat_head _ _ _ _ _ [] []).
  { apply rmatch_rep_head;
      [apply four_digits_digits; lia | cbn; lia | cbn; lia | now left]. }
  apply (rmatch_cat_head _ _ _ _ _ [] [] (rmatch_chr_head _ _)).
  eapply (rmatch_cat_head _ _ _ _ _ [] []).
  { apply rmatch_rep_head;
      [apply two_digits_digits; lia | cbn; lia | cbn; lia | now left]. }
  apply (rmatch_cat_head _ _ _ _ _ [] [] (rmatch_chr_head _ _)).
  apply rmatch_rep_head;
    [apply two_digits_digits; lia | cbn; lia | cbn; lia | now left].
Qed.

Lemma iso_quiet (gap s : str) :
  no_digit gap ->
  forall a b, gap = a ++ b -> b <> [] -> rmatch iso_date_re (b ++ s) = [].
Proof.
  intros Hgap a b -> Hb. destruct b as [|c b]; [congruence|].
  apply Forall_app in Hgap as [_ Hc]. apply Forall_inv in Hc.
  cbn [app]. unfold iso_date_re. apply rmatch_grp_none, rmatch_cat_none.
  unfold exactly. now apply rmatch_rep_reject.
Qed.

Lemma written_iso_not_nil (y m d : Z) : written_iso y m d <> [].
Proof. unfold written_iso, four_digits. discriminate. Qed.

Lemma iso_scan (gap rest : str) (y m d : Z) :
  no_digit gap -> calendar_day y m d ->
  re_findall iso_date_re (gap ++ written_iso y m d ++ rest)
  = written_iso y m d :: re_findall iso_date_re rest.
Proof.
  intros Hgap Hc.
  rewrite (re_findall_quiet iso_date_re gap _ (iso_quiet gap _ Hgap)).
  now rewrite (re_findall_head iso_date_re (written_iso y m d) rest
                               [written_iso y m d] (written_iso_not_nil y m d)
                               (iso_match_head y m d rest Hc)).
Qed.

Lemma long_match_head (full : bool) (y m d : Z) (post : str) :
  calendar_day y m d ->
  re_match long_date_re (written_long full y m d ++ post)
  = Some (mk_result (written_long full y m d) [written_long full y m d] post).
Proof.
  intros (Hy & Hm & Hd). pose proof (days_in_month_le y m) as Hle.
  destruct (month_name_shape full m Hm) as [Halpha Hlen].
  destruct (day_digits_shape d ltac:(lia)) as (c & tail & Ed & Hdig & Hdl & _).
  apply re_match_head. unfold long_date_re. apply rmatch_grp_head.
  unfold written_long in *.
  set (name := if full then month_name_of m else month_abbr_of m) in *.
  cbn [py list_ascii_of_string].
  rewrite <- ?app_assoc. cbn [app]. rewrite <- ?app_assoc. cbn [app].
  eapply (rmatch_cat_head _ _ _ _ _ [] []).
  { apply rmatch_rep_head; [exact Halpha | lia | lia | now right]. }
  apply (rmatch_cat_head _ _ _ (day_digits d ++ ","%char :: " "%char
                                   :: four_digits y ++ post) _ [] []).
  { rewrite Ed. cbn [app]. apply re_ws_head. apply digit_not_space.
    cbn [forallb] in Hdig. now apply andb_true_iff in Hdig as [Hc' _]. }
  eapply (rmatch_cat_head _ _ _ _ _ [] []).
  { rewrite Ed. apply rmatch_rep_head;
      [exact Hdig | cbn [length]; lia | exact Hdl | now right]. }
  apply (rmatch_cat_head _ _ _ _ _ [] [] (rmatch_chr_head _ _)).
  apply (rmatch_cat_head _ _ _ (four_digits y ++ post) _ [] []).
  { unfold star.
    apply (rmatch_rep_head is_space 0 None [" "%char] (four_digits y ++ post));
      [reflexivity | cbn; lia | exact I |].
    right. cbn [four_digits app]. apply digit_not_space.
    apply digit_char_digit. Z.div_mod_to_equations. lia. }
  unfold exactly. apply rmatch_rep_head;
    [apply four_digits_digits; lia | cbn; lia | cbn; lia | now left].
Qed.

(** Two texts that agree up to their first digit agree before it. *)
Lemma first_digit_unique (a b x y : str) (c d : ascii) :
  no_digit a -> no_digit b -> is_digit c = true -> is_digit d = true ->
  a ++ c :: x = b ++ d :: y -> a = b.
Proof.
  revert b. induction a as [|e a IH]; intros b Ha Hb Hc Hd E.
  - destruct b as [|f b]; [reflexivity|].
    cbn [app] in E. injection E as -> _.
    apply Forall_inv in Hb. congruence.
  - destruct b as [|f b]; cbn [app] in E.
    + injection E as -> _. apply Forall_inv in Ha. congruence.
    + injection E as -> E. f_equal.
      apply (IH b); [now inversion Ha | now inversion Hb | exact Hc | exact Hd
                    | exact E].
Qed.

Lemma forallb_no_digit (p : ascii -> bool) (s : str) :
  (forall c, p c = true -> is_digit c = false) ->
  forallb p s = true -> no_digit s.
Proof.
  intros Hp Hs. apply Forall_forall. intros c Hin.
  apply Hp. exact (proj1 (forallb_forall p s) Hs c Hin).
Qed.

Lemma last_char (s : str) : s <> [] -> exists pre c, s = pre ++ [c].
Proof.
  intros Hs. destruct (exists_last Hs) as (pre & c & E). now exists pre, c.
Qed.

(** What a match of the long-form pattern starts with: letters, white
    space, a digit. *)
Lemma long_match_shape (u : str) (g : list str) (rest : str) :
  In (g, rest) (rmatch long_date_re u) ->
  exists (letters spaces : str) (c : ascii) (more : str),
    u = letters ++ spaces ++ c :: more
    /\ forallb is_alpha letters = true /\ forallb is_space spaces = true
    /\ spaces <> [] /\ is_digit c = true.
Proof.
  unfold long_date_re. intros Hin.
  apply rmatch_grp_inv in Hin as (g' & _ & Hin).
  apply rmatch_cat_inv in Hin as (g1 & mid1 & g2 & H1 & Hin & _).
  apply rmatch_rep_inv in H1 as [_ H1].
  apply rep_rems_sound in H1 as (letters & -> & Hl & _ & _).
  apply rmatch_cat_inv in Hin as (g3 & mid2 & g4 & H2 & Hin & _).
  apply rmatch_rep_inv in H2 as [_ H2].
  apply rep_rems_sound in H2 as (spaces & -> & Hs & Hslen & _).
  apply rmatch_cat_inv in Hin as (g5 & mid3 & g6 & H3 & Hin & _).
  apply rmatch_rep_inv in H3 as [_ H3].
  apply rep_rems_sound in H3 as (digits & -> & Hd & Hdlen & _).
  destruct digits as [|c digits]; [cbn in Hdlen; lia|].
  cbn [forallb] in Hd. apply andb_true_iff in Hd as [Hc _].
  exists letters, spaces, c, (digits ++ mid3).
  repeat split; try assumption.
  intros ->. cbn in Hslen. lia.
Qed.

Lemma long_quiet (gap rest : str) (full : bool) (y m d : Z) :
  no_digit gap -> ~ ends_in_letter gap -> calendar_day y m d ->
  forall a b, gap = a ++ b -> b <> [] ->
    rmatch long_date_re (b ++ written_long full y m d ++ rest) = [].
Proof.
  intros Hgap Hend (Hy & Hm & Hd) a b -> Hb.
  pose proof (days_in_month_le y m) as Hle.
  destruct (rmatch long_date_re (b ++ written_long full y m d ++ rest))
    as [|[g rest'] l] eqn:E; [reflexivity|].
  exfalso.
  assert (Hin : In (g, rest')
                   (rmatch long_date_re
                           (b ++ written_long full y m d ++ rest)))
    by (rewrite E; now left).
  apply long_match_shape in Hin
    as (letters & spaces & c & more & Eu & Hl & Hs & Hsne & Hc).
  destruct (month_name_shape full m Hm) as [Halpha Hlen].
  destruct (day_digits_shape d ltac:(lia)) as (c0 & tail & Ed & Hdig & _ & _).
  cbn [forallb] in Hdig. apply andb_true_iff in Hdig as [Hc0 _].
  unfold written_long in Eu.
  set (name := if full then month_name_of m else month_abbr_of m) in *.
  rewrite Ed in Eu. cbn [py list_ascii_of_string] in Eu.
  apply Forall_app in Hgap as [_ Hbd].
  assert (E1 : (b ++ name ++ [" "%char]) ++ c0 :: (tail ++ py ", "
                   ++ four_digits y) ++ rest
               = (letters ++ spaces) ++ c :: more).
  { rewrite <- (app_assoc letters spaces), <- Eu.
    cbn [py list_ascii_of_string app].
    repeat (rewrite <- ?app_assoc; cbn [app]). reflexivity. }
  apply first_digit_unique in E1; [| | |exact Hc0|exact Hc].
  - destruct (last_char spaces Hsne) as (sp & z & ->).
    rewrite forallb_app in Hs. apply andb_true_iff in Hs as [Hsp Hz].
    cbn [forallb] in Hz. rewrite andb_true_r in Hz.
    rewrite !app_assoc in E1. apply app_inj_tail in E1 as [E1 _].
    destruct sp as [|z0 sp0].
    + rewrite app_nil_r in E1. subst letters.
      rewrite forallb_app in Hl. apply andb_true_iff in Hl as [Hbl _].
      destruct (last_char b Hb) as (b0 & x & ->).
      rewrite forallb_app in Hbl. apply andb_true_iff in Hbl as [_ Hx].
      cbn [forallb] in Hx. rewrite andb_true_r in Hx.
      apply Hend. exists (a ++ b0), x. now rewrite app_assoc.
    + destruct (last_char (z0 :: sp0) ltac:(discriminate)) as (sp1 & z1 & Esp).
      rewrite Esp in E1, Hsp.
      rewrite forallb_app in Hsp. apply andb_true_iff in Hsp as [_ Hz1].
      cbn [forallb] in Hz1. rewrite andb_true_r in Hz1.
      assert (Hname : name <> []) by (intros En; rewrite En in Hlen; cbn in Hlen; lia).
      destruct (last_char name Hname) as (n0 & x & En).
      rewrite En in E1, Halpha.
      rewrite forallb_app in Halpha. apply andb_true_iff in Halpha as [_ Hx].
      cbn [forallb] in Hx. rewrite andb_true_r in Hx.
      rewrite !app_assoc in E1. apply app_inj_tail in E1 as [_ E1].
      subst z1. apply alpha_not_space in Hx. congruence.
  - apply Forall_app. split; [exact Hbd|].
    apply Forall_app. split.
    + apply (forallb_no_digit is_alpha); [exact alpha_not_digit | exact Halpha].
    + constructor; [reflexivity | constructor].
  - apply Forall_app. split.
    + apply (forallb_no_digit is_alpha); [exact alpha_not_digit | exact Hl].
    + apply (forallb_no_digit is_space); [exact space_not_digit | exact Hs].
Qed.

Lemma written_long_not_nil (full : bool) (y m d : Z) :
  written_long full y m d <> [].
Proof.
  unfold written_long. cbn [py list_ascii_of_string].
  destruct (if full then month_name_of m else month_abbr_of m); discriminate.
Qed.

Lemma long_scan (gap rest : str) (full : bool) (y m d : Z) :
  no_digit gap -> ~ ends_in_letter gap -> calendar_day y m d ->
  re_findall long_date_re (gap ++ written_long full y m d ++ rest)
  = written_long full y m d :: re_findall long_date_re rest.
Proof.
  intros Hgap Hend Hc.
  rewrite (re_findall_quiet long_date_re gap _
             (long_quiet gap rest full y m d Hgap Hend Hc)).
  now rewrite (re_findall_head long_date_re (written_long full y m d) rest
                               [written_long full y m d]
                               (written_long_not_nil full y m d)
                               (long_match_head full y m d rest Hc)).
Qed.

Lemma parsed_dates_of_In (fragments : list str) (d : datetime) :
  In d (parsed_dates_of fragments)
  <-> exists m, In m fragments /\ parse_fragment m = Some d.
Proof.
  unfold parsed_dates_of. rewrite in_flat_map. split.
  - intros (m & Hm & Hd). exists m. split; [exact Hm|].
    destruct (parse_fragment m); [|destruct Hd].
    destruct Hd as [->|[]]. reflexivity.
  - intros (m & Hm & Hd). exists m. split; [exact Hm|].
    rewrite Hd. now left.
Qed.

Lemma iso_dates_found (text : str) (dates : list datetime) :
  iso_dates_written text dates ->
  incl dates (parsed_dates_of (re_findall iso_date_re text)).
Proof.
  induction 1 as [text|gap rest y m d ds Hgap Hc Hrest IH];
    [intros x []|].
  rewrite (iso_scan gap rest y m d Hgap Hc).
  intros x [<-|Hx]; apply parsed_dates_of_In.
  - exists (written_iso y m d). split; [now left|].
    now apply first_parse_written_iso.
  - apply IH, parsed_dates_of_In in Hx as (f & Hf & Hp).
    exists f. split; [now right | exact Hp].
Qed.

Lemma long_dates_found (text : str) (dates : list datetime) :
  long_dates_written text dates ->
  incl dates (parsed_dates_of (re_findall long_date_re text)).
Proof.
  induction 1 as [text|gap rest full y m d ds Hgap Hend Hc Hrest IH];
    [intros x []|].
  rewrite (long_scan gap rest full y m d Hgap Hend Hc).
  intros x [<-|Hx]; apply parsed_dates_of_In.
  - exists (written_long full y m d). split; [now left|].
    now apply first_parse_written_long.
  - apply IH, parsed_dates_of_In in Hx as (f & Hf & Hp).
    exists f. split; [now right | exact Hp].
Qed.

(** *** What a listed date comes from *)

Lemma findall_group_occurs (r : regex) (s x : str) :
  In x (re_findall (Grp r) s) -> occurs_in x s.
Proof.
  intros Hin.
  apply re_findall_sound in Hin as (pre & t & m & -> & Hm & ->).
  apply re_match_inv in Hm as [Hin _].
  apply rmatch_grp_inv in Hin as (g' & Eg & Hin).
  unfold findall_item. rewrite Eg.
  apply rmatch_suffix in Hin as [mm E]. rewrite E, consumed_app.
  exists pre, (m_rest m). reflexivity.
Qed.

Lemma strptime_Ok_midnight (s : str) (f : date_format) (dt : datetime) :
  strptime s f = Ok dt ->
  exists y m d : Z,
    dt = midnight y m d
    /\ (1 <= y /\ 1 <= m <= 12 /\ 1 <= d <= days_in_month y m)%Z.
Proof.
  unfold strptime.
  destruct (rmatch (format_regex f) s) as [|[g rest] l]; [discriminate|].
  destruct (negb (is_empty rest)); [discriminate|].
  destruct (fields_of f g) as [[y m] d].
  destruct ((1 <=? y)%Z && (1 <=? m)%Z && (m <=? 12)%Z && (1 <=? d)%Z
            && (d <=? days_in_month y m)%Z) eqn:E; [|discriminate].
  intros E'. injection E' as <-.
  repeat (apply andb_true_iff in E as [E ?]).
  exists y, m, d. split; [reflexivity|].
  repeat match goal with
         | H : (_ <=? _)%Z = true |- _ => apply Z.leb_le in H
         end.
  lia.
Qed.

Lemma first_parse_format (m : str) (fmts : list date_format) (d : datetime) :
  first_parse m fmts = Some d -> exists f, In f fmts /\ strptime m f = Ok d.
Proof.
  induction fmts as [|f fmts IH]; cbn [first_parse]; [discriminate|].
  destruct (strptime m f) as [d'|e] eqn:E.
  - intros E'. injection E' as <-. exists f. split; [now left | exact E].
  - intros Hp. apply IH in Hp as (f' & Hf & Hs). exists f'. split;
      [now right | exact Hs].
Qed.

(** C9. For every blob [_extract_dates_from_text] returns a list without
    raising, and the list is in ascending order. Every date of the list is
    the midnight of a calendar day that [strptime] reads, under
    [%Y-%m-%d], [%B %d, %Y] or [%b %d, %Y], from a fragment that occurs in
    the blob. The list holds every date the blob writes in the ISO form
    ([2026-09-01]), each after a gap without digits, and every date it
    writes in the long form with the full or the abbreviated month name
    ([September 1, 2026], [Sep 1, 2026]), each after a gap without digits
    that does not end in a letter. An Event built from the list has its
    first element as start date and its second, if there is one, as end
    date, and no date when the list is empty. *)
Theorem extract_dates_sorted_parsed (text : str) :
  exists ds : list datetime,
    _extract_dates_from_text text = Ok ds
    /\ StronglySorted (fun a b : datetime => key_le a b) ds
    /\ (forall dt, In dt ds ->
          exists (fragment : str) (y m d : Z),
            occurs_in fragment text
            /\ dt = midnight y m d
            /\ (1 <= y /\ 1 <= m <= 12 /\ 1 <= d <= days_in_month y m)%Z
            /\ (strptime fragment fmt_Ymd = Ok dt
                \/ strptime fragment fmt_B_d_Y = Ok dt
                \/ strptime fragment fmt_b_d_Y = Ok dt))
    /\ (forall dates, iso_dates_written text dates -> incl dates ds)
    /\ (forall dates, long_dates_written text dates -> incl dates ds)
    /\ forall url name blob in_country country,
         let e := make_event url name blob in_country country ds in
         match ds with
         | [] => Event.start_date e = None /\ Event.end_date e = None
         | [a] => Event.start_date e = Some a /\ Event.end_date e = None
         | a :: b :: _ => Event.start_date e = Some a /\ Event.end_date e = Some b
         end.
Proof.
  exists (sort_by (fun d => d) (parsed_dates_of (date_fragments text))).
  split; [apply extract_dates_eq|].
  assert (Hperm := sort_by_perm (fun d : datetime => d)
                                (parsed_dates_of (date_fragments text))).
  split; [apply (sort_by_sorted (fun d : datetime => d))|].
  split; [|split; [|split]].
  - intros dt Hin. apply (Permutation_in _ Hperm) in Hin.
    apply parsed_dates_of_In in Hin as (frag & Hfrag & Hp).
    apply first_parse_format in Hp as (f & Hf & Hs).
    destruct (strptime_Ok_midnight _ _ _ Hs) as (y & m & d & -> & Hcal).
    exists frag, y, m, d. split.
    + unfold date_fragments in Hfrag.
      apply in_app_or in Hfrag as [Hfrag|Hfrag];
        now apply findall_group_occurs in Hfrag.
    + split; [reflexivity|]. split; [exact Hcal|].
      destruct Hf as [<-|[<-|[<-|[]]]]; auto.
  - intros dates Hw x Hx. apply (Permutation_in _ (Permutation_sym Hperm)).
    unfold date_fragments. rewrite parsed_dates_of_app. apply in_or_app. left.
    now apply (iso_dates_found text dates Hw).
  - intros dates Hw x Hx. apply (Permutation_in _ (Permutation_sym Hperm)).
    unfold date_fragments. rewrite parsed_dates_of_app. apply in_or_app. right.
    now apply (long_dates_found text dates Hw).
  - intros url name blob in_country country e.
    destruct (sort_by (fun d => d) (parsed_dates_of (date_fragments text)))
      as [|a [|b l]]; split; reflexivity.
Qed.

Example parsed_dates_skip_unparseable :
  date_fragments "2026-13-45 and Sept 1, 2026 and May 3, 2026"
  = [py "2026-13-45"; py "Sept 1, 2026"; py "May 3, 2026"]
  /\ _extract_dates_from_text "2026-13-45 and Sept 1, 2026 and May 3, 2026"
     = Ok [mk_datetime 2026 5 3 0 0 0 0].
Proof. split; vm_compute; reflexivity. Qed.

(** A no-break space between the month and the day is white space. *)
Example dates_across_no_break_space :
  _extract_dates_from_text (py "Sep" ++ "160"%char :: py "1, 2026")
  = Ok [mk_datetime 2026 9 1 0 0 0 0].
Proof. vm_compute. reflexivity. Qed.

Example dates_start_and_end :
  _extract_dates_from_text "Cebu Open, Sep 3, 2026 (entries from 2026-06-01)"
  = Ok [mk_datetime 2026 6 1 0 0 0 0; mk_datetime 2026 9 3 0 0 0 0].
Proof. vm_compute. reflexivity. Qed.

(** ** [_extract_location] *)

Example extract_location_country_counterexample :
  _extract_location "Tokyo, Japan" = []
  /\ location_as_specified "Japan" "Tokyo, Japan" = py "Tokyo, Japan"
  /\ _extract_location "Tokyo, Japan"
     <> location_as_specified "Japan" "Tokyo, Japan".
Proof. repeat split; try reflexivity. vm_compute. discriminate. Qed.

(** C8, amended. For every blob [_extract_location] returns the first 120
    characters of the blob if the blob contains, as written, one of the
    fixed tokens "city", "venue", "location" or "philippines", and the empty
    string otherwise. *)
Theorem extract_location_fixed_tokens (text : str) :
  _extract_location text
  = if contains "city" text || contains "venue" text
       || contains "location" text || contains "philippines" text
    then firstn 120 text
    else [].
Proof.
  unfold _extract_location, location_tokens. cbn [location_loop].
  destruct (contains "city" text); [reflexivity|].
  destruct (contains "venue" text); [reflexivity|].
  destruct (contains "location" text); [reflexivity|].
  destruct (contains "philippines" text); reflexivity.
Qed.

(** ** [search_events_by_name] *)

Lemma token_fold_count (name : str) (tokens : list str) (s0 : Z) :
  fold_left (fun score token =>
               if contains token name then (score + 30)%Z else score)
            tokens s0
  = (s0 + 30 * count_tokens_in tokens name)%Z.
Proof.
  unfold count_tokens_in.
  revert s0; induction tokens as [|t ts IH]; intros s0;
    cbn [fold_left filter].
  - cbn [length]. lia.
  - rewrite IH. destruct (contains t name); cbn [length]; lia.
Qed.

Lemma score_event_amended (q : str) (year : Z) (e : Event.t) :
  score_event q (query_tokens_of q) year e
  = score_amended q year (Event.name e).
Proof.
  unfold score_event, score_amended, year_bonus. cbv zeta.
  rewrite token_fold_count.
  set (n := _normalize_name (Event.name e)).
  destruct (str_eqb n q);
    [|destruct (contains q n);
      [|destruct (negb (is_empty n) && contains n q)]];
    destruct (contains (str_of_int year) (Event.name e)); lia.
Qed.

Lemma sort_by_map {A B K : Type} `{Cmp K} (key : B -> K) (g : A -> B)
      (l : list A) :
  sort_by key (map g l) = map g (sort_by (fun a => key (g a)) l).
Proof.
  induction l as [|x l IH]; simpl; [reflexivity|].
  rewrite IH. generalize (sort_by (fun a => key (g a)) l) as s.
  induction s as [|y s IHs]; simpl; [reflexivity|].
  destruct (ltb (key (g y)) (key (g x))); simpl; [now rewrite IHs | reflexivity].
Qed.

Lemma sort_by_ext {A K : Type} `{Cmp K} (k1 k2 : A -> K) (l : list A) :
  (forall a, k1 a = k2 a) -> sort_by k1 l = sort_by k2 l.
Proof.
  intros E. induction l as [|x l IH]; simpl; [reflexivity|].
  rewrite IH. generalize (sort_by k2 l) as s.
  induction s as [|y s IHs]; simpl; [reflexivity|].
  rewrite !E. destruct (ltb (k2 y) (k2 x)); [now rewrite IHs | reflexivity].
Qed.

Lemma scored_as_filter (q : str) (year : Z) (events : list Event.t) :
  flat_map (fun event =>
              if (0 <? score_event q (query_tokens_of q) year event)%Z
              then [(score_event q (query_tokens_of q) year event, event)]
              else [])
           events
  = map (fun e => (score_amended q year (Event.name e), e))
        (filter (fun e => (0 <? score_amended q year (Event.name e))%Z) events).
Proof.
  induction events as [|e events IH]; simpl; [reflexivity|].
  rewrite IH, score_event_amended.
  now destruct (0 <? score_amended q year (Event.name e))%Z.
Qed.

Lemma slice_to_map {A B : Type} (f : A -> B) (limit : Z) (l : list A) :
  map f (slice_to limit l) = slice_to limit (map f l).
Proof.
  unfold slice_to. rewrite length_map.
  destruct (limit <? 0)%Z; symmetry; apply firstn_map.
Qed.

Lemma rank_events_eq (events : list Event.t) (name_query : str) (year : Z)
      (limit : Z) :
  rank_events events name_query year limit
  = let q := _normalize_name name_query in
    if is_empty q then slice_to limit events
    else slice_to limit
           (sort_by (rank_key q year)
              (filter (fun e => (0 <? score_amended q year (Event.name e))%Z)
                      events)).
Proof.
  unfold rank_events. cbv zeta.
  destruct (is_empty (_normalize_name name_query)); [reflexivity|].
  rewrite scored_as_filter, sort_by_map, slice_to_map, map_map.
  cbn [snd fst]. rewrite map_id. reflexivity.
Qed.

(** [seq[:limit]]: the first [limit] items, and for a negative [limit] all
    but the last [-limit]. *)
Lemma slice_to_cases {A : Type} (limit : Z) (l : list A) :
  ((0 <= limit)%Z -> slice_to limit l = firstn (Z.to_nat limit) l)
  /\ ((limit < 0)%Z ->
      slice_to limit l = firstn (length l - Z.to_nat (- limit)) l).
Proof.
  unfold slice_to. split; intros Hl.
  - now rewrite (proj2 (Z.ltb_ge limit 0) Hl).
  - now rewrite (proj2 (Z.ltb_lt limit 0) Hl).
Qed.

(** The text of an integer opens with a digit or a minus sign. *)
Lemma str_of_int_head (z : Z) :
  exists c rest, str_of_int z = c :: rest
                 /\ (is_digit c = true \/ c = "-"%char).
Proof.
  unfold str_of_int.
  destruct (Z.to_int z) as [d|d]; simpl.
  - destruct d; simpl; eexists; eexists; (split; [reflexivity|]); now left.
  - eexists; eexists; (split; [reflexivity|]); now right.
Qed.

Lemma starts_with_head (c : ascii) (w s : str) :
  starts_with (c :: w) s = true -> exists t, s = c :: t.
Proof.
  destruct s as [|d s]; simpl; [discriminate|].
  intros E. apply andb_true_iff in E as [E _].
  apply Ascii.eqb_eq in E. subst. now eexists.
Qed.

Lemma contains_head_in (c : ascii) (w s : str) :
  contains (c :: w) s = true -> In c s.
Proof.
  induction s as [|d s IH].
  - cbn. discriminate.
  - cbn [contains]. intros E. apply orb_true_iff in E as [E|E].
    + apply starts_with_head in E as [t Et]. injection Et as -> _. now left.
    + right. auto.
Qed.

Lemma year_not_in_hyper_open (year : Z) : year_bonus year "Hyper Open" = 0%Z.
Proof.
  unfold year_bonus.
  destruct (contains (str_of_int year) "Hyper Open") eqn:E; [|reflexivity].
  exfalso.
  destruct (str_of_int_head year) as (c & rest & Hc & Hd). rewrite Hc in E.
  apply contains_head_in in E.
  cbn in E.
  repeat (destruct E as [E|E]; [subst c; destruct Hd as [Hd|Hd]; discriminate Hd|]).
  exact E.
Qed.

Lemma hyperfly_scores (year : Z) :
  score_amended (_normalize_name "Hyperfly Asian Open") year "Hyper Open" = 30%Z
  /\ (690 <= score_amended (_normalize_name "Hyperfly Asian Open") year
                           "Hyperfly Asian Open 2026")%Z.
Proof.
  unfold score_amended. rewrite year_not_in_hyper_open. split.
  - vm_compute. reflexivity.
  - unfold year_bonus.
    destruct (contains (str_of_int year) "Hyperfly Asian Open 2026").
    + vm_compute. discriminate.
    + vm_compute. discriminate.
Qed.

Example score_empty_name_counterexample :
  score_as_specified (_normalize_name "open") 2026 "!!!" = 250%Z
  /\ score_event (_normalize_name "open") (query_tokens_of (_normalize_name "open"))
                 2026 (named "!!!" None) = 0%Z
  /\ rank_events [named "!!!" None] "open" 2026 10 = [].
Proof. repeat split; vm_compute; reflexivity. Qed.

Example rank_empty_query_unsorted :
  rank_events [named "B Open" (Some (mk_datetime 2026 5 1 0 0 0 0));
               named "A Open" (Some (mk_datetime 2026 3 1 0 0 0 0))]
              "?!" 2026 10
  = [named "B Open" (Some (mk_datetime 2026 5 1 0 0 0 0));
     named "A Open" (Some (mk_datetime 2026 3 1 0 0 0 0))].
Proof. vm_compute. reflexivity. Qed.

Lemma ltb_prod_Z_lt {B : Type} `{Cmp B} (a1 a2 : Z) (x y : B) :
  (a1 < a2)%Z -> ltb (a1, x) (a2, y) = true /\ ltb (a2, y) (a1, x) = false.
Proof.
  intros Hlt. unfold ltb.
  change (cmp (a1, x) (a2, y))
    with (match Z.compare a1 a2 with Eq => cmp x y | o => o end).
  change (cmp (a2, y) (a1, x))
    with (match Z.compare a2 a1 with Eq => cmp y x | o => o end).
  rewrite (proj2 (Z.compare_lt_iff a1 a2)) by lia.
  rewrite (proj2 (Z.compare_gt_iff a2 a1)) by lia.
  split; reflexivity.
Qed.

Lemma ltb_rank_key (q : str) (year : Z) (a b : Event.t) :
  (score_amended q year (Event.name b) < score_amended q year (Event.name a))%Z ->
  ltb (rank_key q year a) (rank_key q year b) = true
  /\ ltb (rank_key q year b) (rank_key q year a) = false.
Proof.
  intros Hlt. unfold rank_key. apply ltb_prod_Z_lt. lia.
Qed.

(** C5, amended. For a query whose normalized form is not empty, each
    candidate scores 1000 for an exact normalized-name match, else 600 if
    the normalized query is in the normalized name, else 250 if the
    normalized name is not empty and is in the normalized query; plus 30 for
    each query token in the normalized name and 40 if the year string is in
    the name as written. The candidates of score 0 are dropped and the
    others are ranked: a higher score first, among equal scores the earlier
    start date first (a missing date counting as the last of all dates),
    and among equal dates the names in order without regard to case. The
    ranking is cut as [ranked[:limit]] does: to its first [limit] entries
    for a non-negative [limit], and for a negative [limit] to all but its
    last [-limit] entries. For the query "Hyperfly Asian Open" a candidate
    named "Hyperfly Asian Open 2026" ranks strictly above one named
    "Hyper Open". When the normalized query is empty the candidates are cut
    in the same way as they come, unranked. *)
Theorem rank_events_amended :
  (forall (events : list Event.t) (name_query : str) (year : Z) (limit : Z),
      let q := _normalize_name name_query in
      (forall e, score_event q (query_tokens_of q) year e
                 = score_amended q year (Event.name e))
      /\ (q = [] ->
          ((0 <= limit)%Z ->
           rank_events events name_query year limit
           = firstn (Z.to_nat limit) events)
          /\ ((limit < 0)%Z ->
              rank_events events name_query year limit
              = firstn (length events - Z.to_nat (- limit)) events))
      /\ (q <> [] ->
          exists ranked,
            Permutation ranked
              (filter (fun e => (0 <? score_amended q year (Event.name e))%Z)
                      events)
            /\ StronglySorted (ranking_le q year) ranked
            /\ ((0 <= limit)%Z ->
                rank_events events name_query year limit
                = firstn (Z.to_nat limit) ranked)
            /\ ((limit < 0)%Z ->
                rank_events events name_query year limit
                = firstn (length ranked - Z.to_nat (- limit)) ranked)))
  /\ (forall (year : Z) (hyperfly hyper : Event.t),
         Event.name hyperfly = py "Hyperfly Asian Open 2026" ->
         Event.name hyper = py "Hyper Open" ->
         let q := _normalize_name "Hyperfly Asian Open" in
         (score_amended q year (Event.name hyper)
          < score_amended q year (Event.name hyperfly))%Z
         /\ (forall limit : Z, (0 <= limit)%Z ->
             rank_events [hyper; hyperfly] "Hyperfly Asian Open" year limit
             = firstn (Z.to_nat limit) [hyperfly; hyper])
         /\ (forall limit : Z, (0 <= limit)%Z ->
             rank_events [hyperfly; hyper] "Hyperfly Asian Open" year limit
             = firstn (Z.to_nat limit) [hyperfly; hyper])).
Proof.
  split.
  - intros events name_query year limit q. split; [|split].
    + intros e. apply score_event_amended.
    + intros Hq. rewrite rank_events_eq. fold q. rewrite Hq. cbn [is_empty].
      apply slice_to_cases.
    + intros Hq. rewrite rank_events_eq. fold q. cbv zeta.
      destruct q as [|c q'] eqn:Eq; [congruence|]. cbn [is_empty].
      refine (ex_intro _ (sort_by (rank_key (c :: q') year) _) _).
      split; [apply sort_by_perm|]. split.
      * apply (sorted_weaken
                 (fun a b => key_le (rank_key (c :: q') year a)
                                    (rank_key (c :: q') year b))).
        -- intros a b. apply rank_key_ranking_le.
        -- apply (sort_by_sorted (rank_key (c :: q') year)).
      * apply slice_to_cases.
  - intros year hyperfly hyper Hfly Hhyp q.
    destruct (hyperfly_scores year) as [H30 H690]. fold q in H30, H690.
    rewrite <- Hhyp in H30. rewrite <- Hfly in H690.
    assert (Hlt : (score_amended q year (Event.name hyper)
                   < score_amended q year (Event.name hyperfly))%Z) by lia.
    destruct (ltb_rank_key q year hyperfly hyper Hlt) as [Lt1 Lt2].
    assert (P1 : (0 <? score_amended q year (Event.name hyper))%Z = true)
      by (apply Z.ltb_lt; lia).
    assert (P2 : (0 <? score_amended q year (Event.name hyperfly))%Z = true)
      by (apply Z.ltb_lt; lia).
    split; [exact Hlt|].
    split; intros limit Hl; rewrite rank_events_eq; fold q; cbv zeta;
      change (is_empty q) with false; cbv iota;
      cbn [filter]; rewrite P1, P2; cbn [sort_by insert_by];
      rewrite ?Lt1, ?Lt2; now apply slice_to_cases.
Qed.

Lemma rank_events_amended_witness :
  rank_events [named "Hyper Open" None; named "Hyperfly Asian Open 2026" None]
              "Hyperfly Asian Open" 2026 10
  = [named "Hyperfly Asian Open 2026" None; named "Hyper Open" None].
Proof.
  exact (proj1 (proj2 (proj2 rank_events_amended 2026%Z
                         (named "Hyperfly Asian Open 2026" None)
                         (named "Hyper Open" None) eq_refl eq_refl))
               10%Z (proj1 (Z.leb_le 0 10) eq_refl)).
Defined.

(** A negative [limit] drops candidates from the end of the ranking. *)
Example rank_events_negative_limit :
  rank_events [named "Hyper Open" None; named "Hyperfly Asian Open 2026" None]
              "Hyperfly Asian Open" 2026 (-1)
  = [named "Hyperfly Asian Open 2026" None].
Proof. vm_compute. reflexivity. Qed.

(** ** [fetch_events] *)

Section Discovery.
Context `{Externals}.

Lemma bind_eq {A B : Type} (c : M A) (k : A -> M B) (w : World) :
  bind c k w = match c w with
               | (Ok a, w') => k a w'
               | (Raise e, w') => (Raise e, w')
               end.
Proof. reflexivity. Qed.

Lemma try_eq {A : Type} (body handler : M A) (w : World) :
  try_except_HTTPError body handler w
  = match body w with
    | (Raise e, w') => if is_HTTPError e then handler w' else (Raise e, w')
    | r => r
    end.
Proof. reflexivity. Qed.

Lemma client_get_eq (url : str) (w : World) :
  client_get url w = match http_get url w with
                     | (inl f, w') => (Raise (exn_of_failure f), w')
                     | (inr r, w') => (Ok r, w')
                     end.
Proof. reflexivity. Qed.

Lemma is_empty_app {A : Type} (a b : list A) :
  negb (is_empty (a ++ b)) = negb (is_empty a) || negb (is_empty b).
Proof. destruct a; destruct b; reflexivity. Qed.

Lemma is_empty_sort_by {A K : Type} `{CmpOrder K} (key : A -> K) (l : list A) :
  is_empty (sort_by key l) = is_empty l.
Proof.
  destruct l as [|x l]; [reflexivity|].
  destruct (sort_by key (x :: l)) eqn:E; [|reflexivity].
  apply sort_by_nil_iff in E. discriminate.
Qed.

Lemma tier_events_one (today : date) (year : Z) (country : str)
      (c : str * payload) (t : tier) :
  tier_events today year country [c] t
  = if negb (is_past today c) && tier_eqb (tier_of year country c) t
    then [candidate_event country c]
    else [].
Proof.
  unfold tier_events. cbn [filter].
  now destruct (negb (is_past today c) && tier_eqb (tier_of year country c) t).
Qed.

Lemma candidate_step_spec (today : date) (year : Z) (country : str)
      (b : buckets) (c : str * payload) :
  candidate_step today year country b c
  = Ok (add_tiers today year country [c] b).
Proof.
  destruct c as [url p]. destruct b as [b1 b2 b3 b4 b5 b6].
  unfold candidate_step. rewrite extract_dates_eq. cbn [exc_bind].
  unfold add_tiers. rewrite !tier_events_one.
  unfold is_past, tier_of, candidate_event, candidate_in_country,
    candidate_dates, candidate_blob. cbn [fst snd].
  remember (join " " (p_contexts p)) as blob.
  remember (sort_by (fun d : datetime => d)
                    (parsed_dates_of (date_fragments blob))) as ds.
  destruct ds as [|d ds']; destruct (_country_in_text blob country);
    cbn [nth_error option_map year_is is_some negb andb];
    try destruct (ltb (dt_date d) today);
    try destruct (dt_year d =? year)%Z;
    cbn; rewrite ?app_nil_r; reflexivity.
Qed.

Lemma tier_events_cons (today : date) (year : Z) (country : str)
      (c : str * payload) (cs : list (str * payload)) (t : tier) :
  tier_events today year country (c :: cs) t
  = tier_events today year country [c] t
      ++ tier_events today year country cs t.
Proof.
  unfold tier_events. cbn [filter].
  destruct (negb (is_past today c) && tier_eqb (tier_of year country c) t);
    reflexivity.
Qed.

Lemma candidates_loop_spec (today : date) (year : Z) (country : str)
      (cs : list (str * payload)) (b : buckets) :
  candidates_loop today year country cs b
  = Ok (add_tiers today year country cs b).
Proof.
  revert b; induction cs as [|c cs IH]; intros b.
  - destruct b. unfold add_tiers, tier_events. cbn.
    now rewrite !app_nil_r.
  - cbn [candidates_loop]. rewrite candidate_step_spec. cbn [exc_bind].
    rewrite IH. unfold add_tiers.
    cbn [strict_country strict_country_unknown_year strict_country_other_year
         relaxed relaxed_unknown_year relaxed_other_year].
    rewrite !(tier_events_cons today year country c cs).
    now rewrite !app_assoc.
Qed.

(** Moves the element in front of the right-hand side to the place where it
    stands in the left-hand side. *)
Ltac bubble :=
  lazymatch goal with
  | |- Permutation (?x :: ?l) (?x :: ?l) => reflexivity
  | |- Permutation (?a ++ ?l) (?x :: ?a ++ ?r) =>
      apply Permutation_trans with (a ++ x :: r);
      [apply Permutation_app_head; bubble
      |apply Permutation_sym, Permutation_middle]
  end.

Lemma tier_split (today : date) (year : Z) (country : str)
      (cs : list (str * payload)) :
  Permutation
    (tier_events today year country cs tier1
     ++ tier_events today year country cs tier2
     ++ tier_events today year country cs tier3
     ++ tier_events today year country cs tier4
     ++ tier_events today year country cs tier5
     ++ tier_events today year country cs tier6)
    (map (candidate_event country)
         (filter (fun c => negb (is_past today c)) cs)).
Proof.
  induction cs as [|c cs IH]; [reflexivity|].
  rewrite !(tier_events_cons today year country c cs), !tier_events_one.
  cbn [filter].
  destruct (is_past today c); cbn [negb andb map app]; [exact IH|].
  rewrite <- IH.
  destruct (tier_of year country c); cbn [tier_eqb map app]; bubble.
Qed.

(** Nothing past reaches a bucket: every Event of a bucket is the Event of a
    candidate whose first date is not before today. *)
Lemma buckets_exclude_past (today : date) (year : Z) (country : str)
      (cs : list (str * payload)) (t : tier) (e : Event.t) :
  In e (bucket today year country cs t) ->
  exists c, In c cs /\ is_past today c = false
            /\ tier_of year country c = t /\ e = candidate_event country c.
Proof.
  intros Hin. unfold bucket in Hin.
  apply (Permutation_in _ (sort_by_perm _sort_key _)) in Hin.
  unfold tier_events in Hin. apply in_map_iff in Hin as (c & <- & Hc).
  apply filter_In in Hc as [Hc Hcond].
  apply andb_true_iff in Hcond as [Hpast Htier].
  exists c. repeat split; try assumption.
  - now destruct (is_past today c).
  - destruct (tier_of year country c), t; (reflexivity || discriminate).
Qed.

Lemma raise_for_status_ok (r : Response) (w : World) :
  (200 <= status_code r < 300)%Z -> raise_for_status r w = (Ok tt, w).
Proof.
  intros [Hlo Hhi]. unfold raise_for_status.
  rewrite (proj2 (Z.leb_le _ _) Hlo), (proj2 (Z.ltb_lt _ _) Hhi). reflexivity.
Qed.

Lemma raise_for_status_raises (r : Response) (w : World) :
  ~ (200 <= status_code r < 300)%Z ->
  raise_for_status r w = (Raise (HTTPStatusError (status_code r)), w).
Proof.
  intros Hno. unfold raise_for_status.
  destruct ((200 <=? status_code r)%Z && (status_code r <? 300)%Z) eqn:E;
    [|reflexivity].
  apply andb_true_iff in E as [Hlo Hhi].
  apply Z.leb_le in Hlo. apply Z.ltb_lt in Hhi. exfalso. apply Hno. lia.
Qed.

Lemma fetch_events_after_get (self : client) (year : Z) (country : str)
      (w w1 : World) (response : Response) (candidates : list (str * payload)) :
  http_get (base_events_url self) w = (inr response, w1) ->
  (200 <= status_code response < 300)%Z ->
  located_candidates (resp_text response) = Some candidates ->
  fetch_events self year country w
  = let b := sort_groups
               (add_tiers (clock w) year country candidates no_buckets) in
    (if negb (is_empty (strict_country b))
        || negb (is_empty (strict_country_unknown_year b))
     then ret (strict_country b ++ strict_country_unknown_year b)
     else if negb (is_empty (strict_country_other_year b))
     then ret (strict_country_other_year b)
     else if negb (is_empty (relaxed b))
             || negb (is_empty (relaxed_unknown_year b))
     then ret (relaxed b ++ relaxed_unknown_year b)
     else _fetch_events_from_fallback self year country (Some (clock w))) w1.
Proof.
  intros Hget Hok Hloc. unfold fetch_events.
  unfold bind at 1. unfold date_today.
  unfold bind at 1. unfold client_get. rewrite Hget.
  unfold bind at 1. rewrite (raise_for_status_ok _ _ Hok).
  unfold bind at 1. unfold lift at 1, _collect_event_candidates.
  rewrite Hloc.
  unfold bind at 1. unfold lift. rewrite candidates_loop_spec.
  reflexivity.
Qed.

(** When a link of the page makes [urljoin] raise, no candidate is located
    and the [ValueError] leaves [fetch_events]. *)
Lemma fetch_events_link_raises (self : client) (year : Z) (country : str)
      (w w1 : World) (response : Response) :
  http_get (base_events_url self) w = (inr response, w1) ->
  (200 <= status_code response < 300)%Z ->
  located_candidates (resp_text response) = None ->
  fetch_events self year country w = (Raise ValueError, w1).
Proof.
  intros Hget Hok Hloc. unfold fetch_events.
  unfold bind at 1. unfold date_today.
  unfold bind at 1. unfold client_get. rewrite Hget.
  unfold bind at 1. rewrite (raise_for_status_ok _ _ Hok).
  unfold bind at 1. unfold lift at 1, _collect_event_candidates.
  rewrite Hloc. reflexivity.
Qed.

(** C1. When the listing page answers 2xx and its candidates are located,
    every candidate that is not excluded as past falls in exactly one of six
    buckets (the six partition them); each bucket is in the order of the
    listing: by start date ascending, an Event without a date counting as
    dated [datetime.max], and among equal dates by name without regard to
    case. [fetch_events] returns buckets 1 and 2 joined if one of them is
    not empty, else bucket 3 if it is not empty, else buckets 4 and 5 joined
    if one of them is not empty; only when all five are empty does it ask
    the mirror source, and bucket 6 is never returned. (No candidate is
    located when [urljoin] raises on a link of the page: the [ValueError]
    then leaves [fetch_events].) *)
Theorem fetch_events_tiers (self : client) (year : Z) (country : str)
        (w w1 : World) (response : Response)
        (candidates : list (str * payload)) :
  http_get (base_events_url self) w = (inr response, w1) ->
  (200 <= status_code response < 300)%Z ->
  located_candidates (resp_text response) = Some candidates ->
  let today := clock w in
  let B := bucket today year country candidates in
  (forall t,
      StronglySorted listing_le (B t)
      /\ Permutation (B t) (tier_events today year country candidates t))
  /\ Permutation
       (B tier1 ++ B tier2 ++ B tier3 ++ B tier4 ++ B tier5 ++ B tier6)
       (map (candidate_event country)
            (filter (fun c => negb (is_past today c)) candidates))
  /\ fetch_events self year country w
     = if negb (is_empty (B tier1 ++ B tier2))
       then (Ok (B tier1 ++ B tier2), w1)
       else if negb (is_empty (B tier3))
       then (Ok (B tier3), w1)
       else if negb (is_empty (B tier4 ++ B tier5))
       then (Ok (B tier4 ++ B tier5), w1)
       else _fetch_events_from_fallback self year country (Some today) w1.
Proof.
  intros Hget Hok Hloc today B.
  assert (HB : forall t, Permutation (B t)
                           (tier_events today year country candidates t))
    by (intros t; apply sort_by_perm).
  split; [|split].
  - intros t. split; [apply sort_key_sorted | apply HB].
  - rewrite !HB. apply tier_split.
  - rewrite (fetch_events_after_get self year country w w1 response candidates
                                    Hget Hok Hloc).
    cbv zeta. unfold sort_groups, add_tiers, no_buckets.
    cbn [strict_country strict_country_unknown_year strict_country_other_year
         relaxed relaxed_unknown_year relaxed_other_year app].
    fold today.
    change (sort_by _sort_key (tier_events today year country candidates tier1))
      with (B tier1).
    change (sort_by _sort_key (tier_events today year country candidates tier2))
      with (B tier2).
    change (sort_by _sort_key (tier_events today year country candidates tier3))
      with (B tier3).
    change (sort_by _sort_key (tier_events today year country candidates tier4))
      with (B tier4).
    change (sort_by _sort_key (tier_events today year country candidates tier5))
      with (B tier5).
    rewrite <- !is_empty_app.
    destruct (negb (is_empty (B tier1 ++ B tier2))); [reflexivity|].
    destruct (negb (is_empty (B tier3))); [reflexivity|].
    destruct (negb (is_empty (B tier4 ++ B tier5))); reflexivity.
Qed.

End Discovery.

Lemma fetch_events_tiers_witness :
  http_get (Externals := listing_world) (base_events_url the_client) tt
  = (ok_page (base_events_url the_client) "listing", tt)
  /\ located_candidates (Externals := listing_world) "listing"
     = Some listing_candidates
  /\ fst (fetch_events (H := listing_world) the_client 2026 "Philippines" tt)
     = Ok [Event.mk "101" "Cebu Open" "https://smoothcomp.com/en/event/101"
                    [] "Philippines" (Some (mk_datetime 2026 9 1 0 0 0 0)) None].
Proof.
  split; [reflexivity|]. split; [reflexivity|].
  assert (Hok : (200 <= status_code (mk_Response 200 (base_events_url the_client)
                                                  "listing") < 300)%Z)
    by (cbn; lia).
  rewrite (proj2 (proj2 (fetch_events_tiers (H := listing_world) the_client 2026
                           "Philippines" tt tt _ listing_candidates
                           eq_refl Hok eq_refl))).
  vm_compute. reflexivity.
Defined.

Example listing_world_buckets :
  map (fun t => map Event.name
                    (bucket june_1st 2026 "Philippines" listing_candidates t))
      [tier1; tier2; tier3; tier4; tier5; tier6]
  = [[py "Cebu Open"]; []; []; [py "Tokyo Cup"]; []; []].
Proof. vm_compute. reflexivity. Qed.

(** ** The mirror source in search mode *)

(** C2, at the failing input. The mirror page lists a past and a coming
    event of the country and year. Asked as [search_events_by_name] asks,
    with [today=None], [_fetch_events_from_fallback] keeps the coming event
    only, although both are in [country_year_found]; a search for the past
    event by its exact name finds nothing. *)
Theorem search_mode_mirror_drops_past :
  exc_map (fun f => dict_values (country_year_found f))
          (links_loop (H := mirror_world) june_1st 2026 "Philippines"
                      mirror_links (mk_found [] [] [] [] []))
  = Ok [manila_winter_open; cebu_summer_cup]
  /\ fst (_fetch_events_from_fallback (H := mirror_world) the_client 2026
                                      "Philippines" None tt)
     = Ok [cebu_summer_cup]
  /\ fst (search_events_by_name (H := mirror_world) the_client
                                "Manila Winter Open" 2026 "Philippines" 10 tt)
     = Ok [].
Proof. repeat split; vm_compute; reflexivity. Qed.

(** ** Deduplication *)

(** C3, at the failing input. The table strategy records the key
    [("Alice Santos", "", "", "")] and a record whose fields read TBD; the
    block strategy then finds the key [("Alice Santos", "TBD", "TBD", "TBD")]
    unseen, so the merged output has two records with the same four
    fields. *)
Theorem dedup_misses_table_defaults :
  exists r1 r2 : CompetitorSchedule.t,
    fst (fetch_competitors_for_event (H := event_page_world) the_client
                                     event_26935 [py "alpha"] tt)
    = Ok [r1; r2]
    /\ four_tuple r1 = (py "Alice Santos", py "TBD", py "TBD", py "TBD")
    /\ four_tuple r2 = four_tuple r1
    /\ CompetitorSchedule.academy r1 = py "Alpha BJJ"
    /\ CompetitorSchedule.academy r2 = py "alpha".
Proof.
  eexists. eexists. split; [vm_compute; reflexivity|].
  repeat split; reflexivity.
Qed.

(** ** Transport failures *)

Example fetch_events_raises_counterexample :
  fst (fetch_events (H := timeout_world) the_client 2026 "Philippines" tt)
  = Raise TimeoutException
  /\ fst (fetch_events (H := unavailable_world) the_client 2026 "Philippines" tt)
     = Raise (HTTPStatusError 503).
Proof. split; vm_compute; reflexivity. Qed.

(** [httpx] refuses a url with a control character in it, and [InvalidURL]
    is no [httpx.HTTPError]: it leaves [fetch_event_by_url]. *)
Example invalid_url_leaves_fetch_event_by_url :
  fst (fetch_event_by_url (H := strict_url_world) the_client
         (py "https://smoothcomp.com/en/event/26935/" ++ ["001"%char])
         "Philippines" tt)
  = Raise InvalidURL
  /\ is_HTTPError InvalidURL = false.
Proof. split; vm_compute; reflexivity. Qed.

Section Transport.
Context `{Externals}.

Lemma fetch_event_by_url_cases (self : client) (url country : str) (w : World) :
  (exists e w', fetch_event_by_url self url country w = (Ok (Some e), w')
                /\ ~ request_fails w url /\ ~ url_refused w url)
  \/ (fetch_event_by_url self url country w = (Ok None, snd (http_get url w))
      /\ request_fails w url)
  \/ (fetch_event_by_url self url country w
      = (Raise InvalidURL, snd (http_get url w))
      /\ url_refused w url).
Proof.
  unfold fetch_event_by_url, request_fails, url_refused.
  rewrite bind_eq, try_eq, bind_eq, client_get_eq.
  destruct (http_get url w) as [[f|resp] w'] eqn:Hget; cbn [fst snd].
  - destruct f; cbn [exn_of_failure is_HTTPError].
    + right. left. split; [reflexivity | now left].
    + right. left. split; [reflexivity | now right].
    + right. right. now split.
  - rewrite bind_eq.
    destruct ((200 <=? status_code resp)%Z && (status_code resp <? 300)%Z) eqn:E.
    + left. apply andb_true_iff in E as [Hlo Hhi].
      apply Z.leb_le in Hlo. apply Z.ltb_lt in Hhi.
      rewrite raise_for_status_ok by lia. cbn [ret].
      rewrite bind_eq. unfold lift. rewrite extract_dates_eq.
      eexists. eexists. split; [reflexivity|]. split.
      * intros Hf. apply Hf. lia.
      * discriminate.
    + assert (Hno : ~ (200 <= status_code resp < 300)%Z).
      { intros [Hlo Hhi]. apply Z.leb_le in Hlo. apply Z.ltb_lt in Hhi.
        rewrite Hlo, Hhi in E. discriminate. }
      right. left. rewrite raise_for_status_raises by exact Hno. now split.
Qed.

Lemma first_confirmed_outcome (self : client) (event_id country : str)
      (urls : list str) (w : World) :
  (exists r w', first_confirmed self event_id country urls w = (Ok r, w'))
  \/ (fst (first_confirmed self event_id country urls w) = Raise InvalidURL
      /\ some_url_refused).
Proof.
  revert w; induction urls as [|url urls IH]; intros w; cbn [first_confirmed].
  - left. unfold ret. eauto.
  - rewrite bind_eq.
    destruct (fetch_event_by_url_cases self url country w)
      as [(e & w' & E & _)|[[E _]|[E Hr]]]; rewrite E.
    + destruct (str_eqb (Event.id e) event_id); [left; unfold ret; eauto|].
      apply IH.
    + apply IH.
    + right. split; [reflexivity|]. now exists w, url.
Qed.

Lemma first_confirmed_none (self : client) (event_id country : str)
      (urls : list str) (w : World) :
  all_requests_fail ->
  fst (first_confirmed self event_id country urls w) = Ok None.
Proof.
  intros Hall. revert w; induction urls as [|url urls IH]; intros w;
    cbn [first_confirmed]; [reflexivity|].
  rewrite bind_eq.
  destruct (fetch_event_by_url_cases self url country w)
    as [(e & w' & _ & Hno & _)|[[E _]|[_ Hr]]].
  - exfalso. apply Hno, Hall.
  - rewrite E. apply IH.
  - exfalso. pose proof (Hall w url) as Hf.
    unfold request_fails in Hf. unfold url_refused in Hr. rewrite Hr in Hf.
    destruct Hf; discriminate.
Qed.

(** *** The relative matches of the candidate pages *)

Lemma no_groups_ilit (w : str) : no_groups (ilit w) = true.
Proof. induction w as [|c w IH]; [reflexivity|]. cbn. exact IH. Qed.

Lemma no_groups_pattern_rel (event_id : str) :
  no_groups (pattern_rel event_id) = true.
Proof.
  unfold pattern_rel. cbn [no_groups andb]. rewrite !no_groups_ilit.
  reflexivity.
Qed.

Lemma rmatch_cls_inv (p : ascii -> bool) (s : str) (g : list str) (rest : str) :
  In (g, rest) (rmatch (Cls p) s) -> exists c, s = c :: rest /\ p c = true.
Proof.
  cbn [rmatch]. destruct s as [|c t]; [intros []|].
  destruct (p c) eqn:E; [|intros []].
  intros [E'|[]]. injection E' as _ <-. now exists c.
Qed.

(** A relative match is a slash, a letter, and more. *)
Lemma pattern_rel_shape (event_id t : str) (g : list str) (rest : str) :
  In (g, rest) (rmatch (pattern_rel event_id) t) ->
  exists (c : ascii) (more : str),
    t = ("/"%char :: c :: more) ++ rest
    /\ c <> "/"%char /\ c <> "?"%char.
Proof.
  unfold pattern_rel. intros Hin.
  apply rmatch_cat_inv in Hin as (g1 & mid & g2 & H1 & Hin & _).
  apply rmatch_cls_inv in H1 as (c0 & -> & Hc0).
  apply Ascii.eqb_eq in Hc0. subst c0.
  apply rmatch_cat_inv in Hin as (g3 & mid2 & g4 & H2 & Hin & _).
  unfold opt in H2. cbn [rmatch] in H2. apply in_app_or in H2 as [H2|H2].
  - apply in_flat_map in H2 as ([ga ma] & Ha & H2).
    apply in_map_iff in H2 as ([gb mb] & E & Hb). cbn [fst snd] in *.
    injection E as _ <-.
    apply in_map_iff in Ha as (ra & E & Ha). injection E as _ <-.
    apply rep_rems_sound in Ha as (letters & -> & Hl & Hlen & _).
    apply (rmatch_cls_inv _ _ gb mb) in Hb as (c1 & -> & _).
    apply rmatch_suffix in Hin as [m2 ->].
    destruct letters as [|c letters]; [cbn in Hlen; lia|].
    cbn [forallb] in Hl. apply andb_true_iff in Hl as [Hc _].
    exists c, (letters ++ c1 :: m2). split.
    + cbn [app]. now rewrite <- app_assoc.
    + split; intros ->; discriminate.
  - destruct H2 as [E|[]]. injection E as _ <-.
    change (ilit (py "event/")) with (Cat (ichr "e") (ilit (py "vent/"))) in Hin.
    apply rmatch_cat_inv in Hin as (g5 & mid3 & g6 & H3 & Hin & _).
    apply rmatch_cat_inv in H3 as (g7 & mid4 & g8 & H3 & H4 & _).
    apply rmatch_cls_inv in H3 as (c & -> & Hc).
    apply rmatch_suffix in H4 as [m4 ->].
    apply rmatch_suffix in Hin as [m3 ->].
    exists c, (m4 ++ m3). split.
    + cbn [app]. now rewrite <- app_assoc.
    + split; intros ->; discriminate.
Qed.

Lemma pattern_rel_rooted (event_id html m : str) :
  In m (re_findall (pattern_rel event_id) html) ->
  rooted (split1_head "?" m).
Proof.
  intros Hin.
  apply re_findall_sound in Hin as (pre & t & mr & _ & Hm & ->).
  apply re_match_inv in Hm as [Hin Htext].
  pose proof (rmatch_no_groups _ (no_groups_pattern_rel event_id) _ _ _ Hin)
    as Hg.
  unfold findall_item. rewrite Hg, Htext.
  apply pattern_rel_shape in Hin as (c & more & -> & Hc1 & Hc2).
  rewrite consumed_app. cbn [split1_head].
  assert (E1 : Ascii.eqb "/" "?" = false) by reflexivity. rewrite E1.
  rewrite (proj2 (Ascii.eqb_neq c "?") Hc2).
  now exists c, (split1_head "?" more).
Qed.

Lemma join_matches_outcome (base : str) (ms : list str) (candidates : dict unit) :
  (exists r, join_matches base ms candidates = Ok r)
  \/ (join_matches base ms candidates = Raise ValueError
      /\ exists m, In m ms /\ urljoin base (split1_head "?" m) = None).
Proof.
  revert candidates; induction ms as [|m ms IH]; intros candidates;
    cbn [join_matches].
  - left. eauto.
  - unfold join_url. destruct (urljoin base (split1_head "?" m)) as [u|] eqn:E;
      cbn [exc_bind].
    + destruct (IH (dict_set u tt candidates)) as [Hok|[Hr (m' & Hm & Hj)]].
      * now left.
      * right. split; [exact Hr|]. exists m'. split; [now right | exact Hj].
    + right. split; [reflexivity|]. exists m. split; [now left | exact E].
Qed.

Lemma candidate_pages_loop_outcome (event_id : str) (pages : list str)
      (candidates : dict unit) (w : World) :
  (exists r w', candidate_pages_loop event_id pages candidates w = (Ok r, w'))
  \/ (fst (candidate_pages_loop event_id pages candidates w) = Raise InvalidURL
      /\ some_url_refused)
  \/ (fst (candidate_pages_loop event_id pages candidates w) = Raise ValueError
      /\ ~ responses_joinable).
Proof.
  revert candidates w; induction pages as [|page pages IH];
    intros candidates w; cbn [candidate_pages_loop].
  - left. unfold ret. eauto.
  - rewrite bind_eq, try_eq, bind_eq, client_get_eq.
    destruct (http_get page w) as [[f|resp] w'] eqn:Hget.
    + destruct f; cbn [exn_of_failure is_HTTPError]; [apply IH | apply IH|].
      right. left. split; [reflexivity|]. exists w, page.
      unfold url_refused. now rewrite Hget.
    + destruct (negb (status_code resp =? 200)%Z); [apply IH|].
      cbn [ret]. rewrite bind_eq. unfold lift.
      destruct (join_matches_outcome
                  (resp_url resp)
                  (re_findall (pattern_rel event_id) (resp_text resp))
                  (fold_left (fun d m => dict_set (split1_head "?" m) tt d)
                             (re_findall (pattern_abs event_id)
                                         (resp_text resp))
                             candidates))
        as [[r Hr]|[Hr (m & Hm & Hj)]]; rewrite Hr.
      * apply IH.
      * right. right. split; [reflexivity|]. intros Hjoin.
        apply (Hjoin page w w' resp (split1_head "?" m) Hget);
          [now apply (pattern_rel_rooted event_id (resp_text resp)) | exact Hj].
Qed.

Lemma candidate_pages_loop_none (event_id : str) (pages : list str)
      (candidates : dict unit) (w : World) :
  all_requests_fail ->
  exists w', candidate_pages_loop event_id pages candidates w
             = (Ok candidates, w').
Proof.
  intros Hall. revert w; induction pages as [|page pages IH]; intros w;
    cbn [candidate_pages_loop].
  - unfold ret. eauto.
  - rewrite bind_eq, try_eq, bind_eq, client_get_eq.
    pose proof (Hall w page) as Hf. unfold request_fails in Hf.
    destruct (http_get page w) as [[f|resp] w'] eqn:Hget; cbn [fst] in Hf.
    + destruct Hf as [->| ->]; cbn [exn_of_failure is_HTTPError]; apply IH.
    + destruct (status_code resp =? 200)%Z eqn:E.
      * apply Z.eqb_eq in E. exfalso. apply Hf. lia.
      * cbn [negb]. apply IH.
Qed.

Lemma fetch_event_by_id_outcome (self : client) (event_id country : str)
      (w : World) :
  (exists r w', fetch_event_by_id self event_id country w = (Ok r, w'))
  \/ (fst (fetch_event_by_id self event_id country w) = Raise InvalidURL
      /\ some_url_refused)
  \/ (fst (fetch_event_by_id self event_id country w) = Raise ValueError
      /\ ~ responses_joinable).
Proof.
  unfold fetch_event_by_id, _candidate_event_urls_for_id.
  rewrite !bind_eq.
  destruct (candidate_pages_loop_outcome event_id
              [base_events_url self; fallback_events_url self]
              (dict_set (py "https://smoothcomp.com/event/" ++ event_id) tt
                 (dict_set (py "https://smoothcomp.com/en/event/" ++ event_id)
                           tt []))
              w) as [(r & w' & E)|[[E Hr]|[E Hj]]].
  - rewrite E. cbn [ret].
    destruct (first_confirmed_outcome self event_id country (map fst r) w')
      as [Hok|Hbad]; [now left | right; now left].
  - right. left. split; [|exact Hr].
    destruct (candidate_pages_loop _ _ _ w) as [[r|e] w']; cbn [fst] in E;
      [discriminate|]. now injection E as ->.
  - right. right. split; [|exact Hj].
    destruct (candidate_pages_loop _ _ _ w) as [[r|e] w']; cbn [fst] in E;
      [discriminate|]. now injection E as ->.
Qed.

Lemma fetch_event_by_id_none (self : client) (event_id country : str)
      (w : World) :
  all_requests_fail ->
  fst (fetch_event_by_id self event_id country w) = Ok None.
Proof.
  intros Hall. unfold fetch_event_by_id, _candidate_event_urls_for_id.
  rewrite !bind_eq.
  destruct (candidate_pages_loop_none event_id
              [base_events_url self; fallback_events_url self]
              (dict_set (py "https://smoothcomp.com/event/" ++ event_id) tt
                 (dict_set (py "https://smoothcomp.com/en/event/" ++ event_id)
                           tt []))
              w Hall) as (w' & E).
  rewrite E. cbn [ret]. now apply first_confirmed_none.
Qed.

Lemma fetch_pages_outcome (urls : list str) (acc : list (str * str)) (w : World) :
  (exists r w', fetch_pages urls acc w = (Ok r, w'))
  \/ (fst (fetch_pages urls acc w) = Raise InvalidURL /\ some_url_refused).
Proof.
  revert acc w; induction urls as [|url urls IH]; intros acc w;
    cbn [fetch_pages].
  - left. unfold ret. eauto.
  - rewrite bind_eq, try_eq, bind_eq, client_get_eq.
    destruct (http_get url w) as [[f|resp] w'] eqn:Hget.
    + destruct f; cbn [exn_of_failure is_HTTPError]; [apply IH | apply IH|].
      right. split; [reflexivity|]. exists w, url.
      unfold url_refused. now rewrite Hget.
    + destruct (status_code resp =? 200)%Z; apply IH.
Qed.

Lemma fetch_pages_none (urls : list str) (acc : list (str * str)) (w : World) :
  all_requests_fail -> fst (fetch_pages urls acc w) = Ok acc.
Proof.
  intros Hall. revert acc w; induction urls as [|url urls IH]; intros acc w;
    cbn [fetch_pages]; [reflexivity|].
  rewrite bind_eq, try_eq, bind_eq, client_get_eq.
  pose proof (Hall w url) as Hf. unfold request_fails in Hf.
  destruct (http_get url w) as [[f|resp] w']; cbn [fst] in Hf.
  - destruct Hf as [->| ->]; cbn [exn_of_failure is_HTTPError]; apply IH.
  - destruct (status_code resp =? 200)%Z eqn:E.
    + apply Z.eqb_eq in E. exfalso. apply Hf. lia.
    + apply IH.
Qed.

Lemma fetch_competitors_outcome (self : client) (event : Event.t)
      (kws : list str) (w : World) :
  (exists r w', fetch_competitors_for_event self event kws w = (Ok r, w'))
  \/ (fst (fetch_competitors_for_event self event kws w) = Raise InvalidURL
      /\ some_url_refused).
Proof.
  unfold fetch_competitors_for_event. rewrite bind_eq.
  destruct (fetch_pages_outcome (_event_pages_to_try (Event.url event)) [] w)
    as [(r & w' & E)|[E Hr]].
  - rewrite E. left. unfold ret. eauto.
  - right. split; [|exact Hr].
    destruct (fetch_pages _ _ w) as [[r|e] w']; cbn [fst] in E;
      [discriminate|]. now injection E as ->.
Qed.

Lemma fetch_competitors_none (self : client) (event : Event.t)
      (kws : list str) (w : World) :
  all_requests_fail ->
  fst (fetch_competitors_for_event self event kws w) = Ok [].
Proof.
  intros Hall. unfold fetch_competitors_for_event. rewrite bind_eq.
  pose proof (fetch_pages_none (_event_pages_to_try (Event.url event)) [] w Hall)
    as E.
  destruct (fetch_pages (_event_pages_to_try (Event.url event)) [] w)
    as [[r|e] w']; cbn [fst] in E; [|discriminate].
  injection E as ->. reflexivity.
Qed.

(** C4, amended. When a request fails in transit (a timeout, a DNS failure,
    a status that is not 2xx), [fetch_event_by_url] returns [None], and when
    every request fails so, [fetch_event_by_id] returns [None],
    [fetch_competitors_for_event] the empty list and the two hint detectors
    the empty hint list. Two exceptions do pass these operations:
    [httpx.InvalidURL], which [client.get] raises for a url it refuses and
    which is no [httpx.HTTPError] (it leaves [fetch_event_by_url] whenever
    the url is refused, and the other operations only if some url is
    refused), and the [ValueError] of [urljoin], which leaves
    [fetch_event_by_id] only if [urljoin] fails to join a rooted path to
    the url of a response. Apart from these every call returns.
    [fetch_events] is different: when the request for the listing page fails
    in transit, the failure leaves it as an exception of the
    [httpx.HTTPError] family. *)
Theorem transport_failures_contained (self : client) (w : World) :
  (forall url country,
      (request_fails w url ->
       fst (fetch_event_by_url self url country w) = Ok None)
      /\ (url_refused w url ->
          fst (fetch_event_by_url self url country w) = Raise InvalidURL)
      /\ (~ url_refused w url ->
          exists r w', fetch_event_by_url self url country w = (Ok r, w')))
  /\ (forall event_id country,
         (all_requests_fail ->
          fst (fetch_event_by_id self event_id country w) = Ok None)
         /\ ((exists r w',
                 fetch_event_by_id self event_id country w = (Ok r, w'))
             \/ (fst (fetch_event_by_id self event_id country w)
                 = Raise InvalidURL
                 /\ some_url_refused)
             \/ (fst (fetch_event_by_id self event_id country w)
                 = Raise ValueError
                 /\ ~ responses_joinable)))
  /\ (forall event kws,
         (all_requests_fail ->
          fst (fetch_competitors_for_event self event kws w) = Ok [])
         /\ ((exists r w',
                 fetch_competitors_for_event self event kws w = (Ok r, w'))
             \/ (fst (fetch_competitors_for_event self event kws w)
                 = Raise InvalidURL
                 /\ some_url_refused)))
  /\ (forall event limit,
         (all_requests_fail ->
          fst (detect_affiliates_for_event self event limit w) = Ok [])
         /\ ((exists r w',
                 detect_affiliates_for_event self event limit w = (Ok r, w'))
             \/ (fst (detect_affiliates_for_event self event limit w)
                 = Raise InvalidURL
                 /\ some_url_refused)))
  /\ (forall event limit,
         (all_requests_fail ->
          fst (detect_people_for_event self event limit w) = Ok [])
         /\ ((exists r w',
                 detect_people_for_event self event limit w = (Ok r, w'))
             \/ (fst (detect_people_for_event self event limit w)
                 = Raise InvalidURL
                 /\ some_url_refused)))
  /\ (forall year country,
         request_fails w (base_events_url self) ->
         exists e w',
           fetch_events self year country w = (Raise e, w')
           /\ is_HTTPError e = true).
Proof.
  repeat apply conj.
  - intros url country.
    destruct (fetch_event_by_url_cases self url country w)
      as [(e & w' & E & Hno & Hnr)|[[E Hf]|[E Hr]]]; rewrite E; cbn [fst].
    + split; [intros Hf; contradiction|]. split; [intros Hr; contradiction|].
      eauto.
    + split; [reflexivity|]. split; [|eauto].
      intros Hr. exfalso. unfold request_fails in Hf. unfold url_refused in Hr.
      rewrite Hr in Hf. destruct Hf; discriminate.
    + split; [|split; [reflexivity | intros Hnr; contradiction]].
      intros Hf. exfalso. unfold request_fails in Hf. unfold url_refused in Hr.
      rewrite Hr in Hf. destruct Hf; discriminate.
  - intros event_id country. split;
      [apply fetch_event_by_id_none | apply fetch_event_by_id_outcome].
  - intros event kws. split;
      [apply fetch_competitors_none | apply fetch_competitors_outcome].
  - intros event limit. split.
    + intros Hall. unfold detect_affiliates_for_event. rewrite bind_eq.
      pose proof (fetch_competitors_none self event [] w Hall) as E.
      destruct (fetch_competitors_for_event self event [] w) as [[r|e] w'];
        cbn [fst] in E; [|discriminate].
      injection E as ->. cbn. now destruct limit.
    + unfold detect_affiliates_for_event. rewrite bind_eq.
      destruct (fetch_competitors_outcome self event [] w)
        as [(r & w' & E)|[E Hr]].
      * rewrite E. left. unfold ret. eauto.
      * right. split; [|exact Hr].
        destruct (fetch_competitors_for_event self event [] w) as [[r|e] w'];
          cbn [fst] in E; [discriminate|]. now injection E as ->.
  - intros event limit. split.
    + intros Hall. unfold detect_people_for_event. rewrite bind_eq.
      pose proof (fetch_competitors_none self event [] w Hall) as E.
      destruct (fetch_competitors_for_event self event [] w) as [[r|e] w'];
        cbn [fst] in E; [|discriminate].
      injection E as ->. reflexivity.
    + unfold detect_people_for_event. rewrite bind_eq.
      destruct (fetch_competitors_outcome self event [] w)
        as [(r & w' & E)|[E Hr]].
      * rewrite E. left. unfold ret. eauto.
      * right. split; [|exact Hr].
        destruct (fetch_competitors_for_event self event [] w) as [[r|e] w'];
          cbn [fst] in E; [discriminate|]. now injection E as ->.
  - intros year country Hf. unfold request_fails in Hf.
    unfold fetch_events. rewrite bind_eq. unfold date_today.
    rewrite bind_eq, client_get_eq.
    destruct (http_get (base_events_url self) w) as [[f|resp] w'];
      cbn [fst] in Hf.
    + eexists. eexists. split; [reflexivity|].
      destruct Hf as [->| ->]; reflexivity.
    + rewrite bind_eq, raise_for_status_raises by exact Hf.
      eexists. eexists. split; reflexivity.
Qed.

End Transport.

Lemma transport_failures_contained_witness :
  request_fails (H := timeout_world) tt "https://smoothcomp.com/en/event/26935"
  /\ all_requests_fail (H := timeout_world)
  /\ fst (fetch_event_by_url (H := timeout_world) the_client
                             "https://smoothcomp.com/en/event/26935"
                             "Philippines" tt) = Ok None
  /\ fst (fetch_event_by_id (H := timeout_world) the_client "26935"
                            "Philippines" tt) = Ok None
  /\ fst (fetch_competitors_for_event (H := timeout_world) the_client
                                      event_26935 [py "alpha"] tt) = Ok []
  /\ fst (detect_affiliates_for_event (H := timeout_world) the_client
                                      event_26935 12 tt) = Ok []
  /\ fst (detect_people_for_event (H := timeout_world) the_client
                                  event_26935 15 tt) = Ok []
  /\ exists e w',
       fetch_events (H := timeout_world) the_client 2026 "Philippines" tt
       = (Raise e, w')
       /\ is_HTTPError e = true.
Proof.
  assert (Hone : request_fails (H := timeout_world) tt
                               "https://smoothcomp.com/en/event/26935")
    by (left; reflexivity).
  assert (Hall : all_requests_fail (H := timeout_world))
    by (intros w url; left; reflexivity).
  assert (Hbase : request_fails (H := timeout_world) tt
                                (base_events_url the_client))
    by (left; reflexivity).
  destruct (transport_failures_contained (H := timeout_world) the_client tt)
    as (T1 & T2 & T3 & T4 & T5 & T6).
  split; [exact Hone|]. split; [exact Hall|].
  split; [exact (proj1 (T1 _ _) Hone)|].
  split; [exact (proj1 (T2 _ _) Hall)|].
  split; [exact (proj1 (T3 _ _) Hall)|].
  split; [exact (proj1 (T4 _ _) Hall)|].
  split; [exact (proj1 (T5 _ _) Hall)|].
  exact (T6 _ _ Hbase).
Defined.

(** ** Dicts *)

Lemma dict_mem_In {V : Type} (k : str) (d : dict V) :
  dict_mem k d = true <-> In k (map fst d).
Proof.
  induction d as [|[k' v] d IH]; simpl; [split; [discriminate | tauto]|].
  rewrite orb_true_iff, str_eqb_eq, IH. tauto.
Qed.

Lemma dict_set_keys {V : Type} (k : str) (v : V) (d : dict V) :
  map fst (dict_set k v d)
  = if dict_mem k d then map fst d else map fst d ++ [k].
Proof.
  induction d as [|[k' v'] d IH]; simpl; [reflexivity|].
  destruct (str_eqb k' k); simpl; [reflexivity|].
  rewrite IH. now destruct (dict_mem k d).
Qed.

Lemma dict_set_In {V : Type} (k : str) (v : V) (d : dict V) (k0 : str) (v0 : V) :
  In (k0, v0) (dict_set k v d) -> In (k0, v0) d \/ (k0 = k /\ v0 = v).
Proof.
  induction d as [|[k' v'] d IH]; simpl.
  - intros [E|[]]. injection E as <- <-. now right.
  - destruct (str_eqb k' k) eqn:Ek; simpl.
    + apply str_eqb_eq in Ek. subst k'.
      intros [E|Hin]; [injection E as <- <-; now right | left; now right].
    + intros [E|Hin]; [left; now left|].
      destruct (IH Hin) as [H1|H2]; [left; now right | now right].
Qed.

Lemma dict_set_not_nil {V : Type} (k : str) (v : V) (d : dict V) :
  is_empty (dict_set k v d) = false.
Proof. destruct d as [|[k' v'] d]; simpl; [|destruct (str_eqb k' k)]; reflexivity. Qed.

Lemma NoDup_snoc {A : Type} (l : list A) (x : A) :
  NoDup l -> ~ In x l -> NoDup (l ++ [x]).
Proof.
  intros Hl Hx. apply NoDup_app; [exact Hl | repeat constructor; auto |].
  intros a Ha [<-|[]]. contradiction.
Qed.

Lemma dict_set_url_keyed (e : Event.t) (d : dict Event.t) :
  url_keyed d -> url_keyed (dict_set (Event.url e) e d).
Proof.
  intros [Hk Hv]. split.
  - rewrite dict_set_keys.
    destruct (dict_mem (Event.url e) d) eqn:Em; [exact Hk|].
    apply NoDup_snoc; [exact Hk|].
    intros Hin. apply dict_mem_In in Hin. congruence.
  - intros k v Hin. apply dict_set_In in Hin as [Hin|[-> ->]]; auto.
Qed.

Lemma dict_setdefault_url_keyed (e : Event.t) (d : dict Event.t) :
  url_keyed d -> url_keyed (dict_setdefault (Event.url e) e d).
Proof.
  intros [Hk Hv]. unfold dict_setdefault.
  destruct (dict_mem (Event.url e) d) eqn:Em; [now split|].
  split.
  - rewrite map_app. simpl. apply NoDup_snoc; [exact Hk|].
    intros Hin. apply dict_mem_In in Hin. congruence.
  - intros k v Hin. apply in_app_or in Hin as [Hin|[E|[]]]; auto.
    now injection E as <- <-.
Qed.

Lemma url_keyed_nil : url_keyed [].
Proof. split; [constructor | intros k v []]. Qed.

Lemma url_keyed_values (d : dict Event.t) :
  url_keyed d -> NoDup (map Event.url (dict_values d)).
Proof.
  intros [Hk Hv]. unfold dict_values. rewrite map_map.
  replace (map (fun x => Event.url (snd x)) d) with (map fst d); [exact Hk|].
  apply map_ext_in. intros [k v] Hin. simpl. symmetry. now apply Hv.
Qed.

(** ** Bounds of the ranking *)

Lemma In_firstn {A : Type} (n : nat) (l : list A) (x : A) :
  In x (firstn n l) -> In x l.
Proof.
  intros H. rewrite <- (firstn_skipn n l). apply in_or_app. now left.
Qed.

Lemma NoDup_firstn {A : Type} (n : nat) (l : list A) :
  NoDup l -> NoDup (firstn n l).
Proof.
  intros H. rewrite <- (firstn_skipn n l) in H.
  now apply NoDup_app_remove_r in H.
Qed.

Lemma NoDup_map_filter {A B : Type} (urls : A -> B) (keep : A -> bool)
      (events : list A) (distinct : NoDup (map urls events)) :
  NoDup (map urls (filter keep events)).
Proof.
  induction events as [|e events IH]; cbn [filter]; [exact distinct|].
  cbn [map] in distinct. apply NoDup_cons_iff in distinct as [Hfresh Hrest].
  destruct (keep e); [|now apply IH].
  cbn [map]. constructor; [|now apply IH].
  intros Hin. apply Hfresh.
  apply in_map_iff in Hin as (y & E & Hy).
  apply filter_In in Hy as [Hy _]. apply in_map_iff. now exists y.
Qed.

Lemma NoDup_map_sort_by {A B K : Type} `{Cmp K} (f : A -> B) (key : A -> K)
      (l : list A) :
  NoDup (map f l) -> NoDup (map f (sort_by key l)).
Proof.
  intros Hl.
  assert (P : Permutation (sort_by key l) l).
  { induction l as [|x l IH]; simpl; [reflexivity|].
    assert (Q : forall s, Permutation (insert_by key x s) (x :: s)).
    { induction s as [|y s IHs]; simpl; [reflexivity|].
      destruct (ltb (key y) (key x)); [|reflexivity].
      rewrite IHs. apply perm_swap. }
    rewrite Q. constructor. apply IH. now inversion Hl. }
  apply (Permutation_NoDup (Permutation_map f (Permutation_sym P)) Hl).
Qed.

Lemma slice_to_firstn {A : Type} (limit : Z) (l : list A) :
  exists n, slice_to limit l = firstn n l.
Proof. unfold slice_to. destruct (limit <? 0)%Z; eauto. Qed.

Lemma rank_events_length (events : list Event.t) (name_query : str)
      (year : Z) (limit : Z) :
  (0 <= limit)%Z ->
  length (rank_events events name_query year limit) <= Z.to_nat limit.
Proof.
  intros Hl. rewrite rank_events_eq. cbv zeta.
  destruct (is_empty (_normalize_name name_query));
    rewrite (proj1 (slice_to_cases limit _) Hl); apply firstn_le_length.
Qed.

Lemma rank_events_length_negative (events : list Event.t) (name_query : str)
      (year : Z) (limit : Z) :
  (limit < 0)%Z ->
  length (rank_events events name_query year limit)
  <= length events - Z.to_nat (- limit).
Proof.
  intros Hl. rewrite rank_events_eq. cbv zeta.
  destruct (is_empty (_normalize_name name_query));
    rewrite (proj2 (slice_to_cases limit _) Hl), length_firstn.
  - lia.
  - rewrite (Permutation_length (sort_by_perm _ _)).
    pose proof (filter_length_le
                  (fun e => (0 <? score_amended (_normalize_name name_query)
                                               year (Event.name e))%Z)
                  events).
    lia.
Qed.

Lemma rank_events_In (events : list Event.t) (name_query : str)
      (year : Z) (limit : Z) (e : Event.t) :
  In e (rank_events events name_query year limit) -> In e events.
Proof.
  rewrite rank_events_eq. cbv zeta.
  destruct (is_empty (_normalize_name name_query)).
  - destruct (slice_to_firstn limit events) as [n ->]. apply In_firstn.
  - destruct (slice_to_firstn limit
                (sort_by (rank_key (_normalize_name name_query) year)
                   (filter (fun e => (0 <? score_amended
                                             (_normalize_name name_query) year
                                             (Event.name e))%Z) events)))
      as [n ->].
    intros He. apply In_firstn in He.
    apply (Permutation_in _ (sort_by_perm _ _)) in He.
    now apply filter_In in He.
Qed.

Lemma rank_events_NoDup (events : list Event.t) (name_query : str)
      (year : Z) (limit : Z) :
  NoDup (map Event.url events) ->
  NoDup (map Event.url (rank_events events name_query year limit)).
Proof.
  rewrite rank_events_eq. cbv zeta. intros Hn.
  destruct (is_empty (_normalize_name name_query)).
  - destruct (slice_to_firstn limit events) as [n ->].
    rewrite <- firstn_map. now apply NoDup_firstn.
  - destruct (slice_to_firstn limit
                (sort_by (rank_key (_normalize_name name_query) year)
                   (filter (fun e => (0 <? score_amended
                                             (_normalize_name name_query) year
                                             (Event.name e))%Z) events)))
      as [n ->].
    rewrite <- firstn_map. apply NoDup_firstn.
    now apply NoDup_map_sort_by, NoDup_map_filter.
Qed.

(** X1. [search_events_by_name], from the merged list on: for a
    non-negative [limit] the answer has at most [limit] Events, and for a
    negative one it is short of the candidates by [-limit] at least; every
    Event of the answer is one of the candidates, and candidates with
    distinct URLs give an answer with distinct URLs. *)
Theorem rank_events_bounded (events : list Event.t) (name_query : str)
        (year : Z) (limit : Z) :
  ((0 <= limit)%Z ->
   length (rank_events events name_query year limit) <= Z.to_nat limit)
  /\ ((limit < 0)%Z ->
      length (rank_events events name_query year limit)
      <= length events - Z.to_nat (- limit))
  /\ (forall e, In e (rank_events events name_query year limit) -> In e events)
  /\ (NoDup (map Event.url events) ->
      NoDup (map Event.url (rank_events events name_query year limit))).
Proof.
  split; [apply rank_events_length|].
  split; [apply rank_events_length_negative|]. split.
  - intros e. apply rank_events_In.
  - apply rank_events_NoDup.
Qed.

Section Search.
Context `{Externals}.

Lemma merge_primary_url_keyed (primary : list Event.t) (d : dict Event.t) :
  url_keyed d ->
  url_keyed (fold_left (fun d e => dict_set (Event.url e) e d) primary d).
Proof.
  revert d; induction primary as [|e l IH]; intros d Hd; simpl; [exact Hd|].
  apply IH. now apply dict_set_url_keyed.
Qed.

Lemma merge_fallback_url_keyed (fallback : list Event.t) (d : dict Event.t) :
  url_keyed d ->
  url_keyed (fold_left (fun d e => dict_setdefault (Event.url e) e d) fallback d).
Proof.
  revert d; induction fallback as [|e l IH]; intros d Hd; simpl; [exact Hd|].
  apply IH. now apply dict_setdefault_url_keyed.
Qed.

(** X2. Whatever the two sources list, an answer of [search_events_by_name]
    has no two Events with the same URL, and for a non-negative [limit] it
    has at most [limit] Events (a negative [limit] cuts the answer from its
    end instead). *)
Theorem search_events_distinct_urls (self : client) (name_query : str)
        (year : Z) (country : str) (limit : Z) (w w' : World)
        (r : list Event.t) :
  search_events_by_name self name_query year country limit w = (Ok r, w') ->
  NoDup (map Event.url r)
  /\ ((0 <= limit)%Z -> length r <= Z.to_nat limit).
Proof.
  unfold search_events_by_name. rewrite bind_eq.
  destruct (fetch_events self year country w) as [[primary|e] w1];
    [|discriminate].
  rewrite bind_eq.
  destruct (_fetch_events_from_fallback self year country None w1)
    as [[fallback|e] w2]; [|discriminate].
  unfold ret. intros E. injection E as <- _.
  split.
  - apply rank_events_NoDup. apply url_keyed_values.
    apply merge_fallback_url_keyed, merge_primary_url_keyed, url_keyed_nil.
  - apply rank_events_length.
Qed.

End Search.

Lemma search_events_distinct_urls_witness :
  search_events_by_name (H := mirror_world) the_client "Cebu" 2026
                        "Philippines" 10 tt
  = (Ok [cebu_summer_cup], tt)
  /\ NoDup (map Event.url [cebu_summer_cup])
  /\ length [cebu_summer_cup] <= 10.
Proof.
  assert (E : search_events_by_name (H := mirror_world) the_client "Cebu" 2026
                                    "Philippines" 10 tt
              = (Ok [cebu_summer_cup], tt))
    by (vm_compute; reflexivity).
  split; [exact E|].
  destruct (search_events_distinct_urls (H := mirror_world) the_client "Cebu"
              2026 "Philippines" 10 tt tt [cebu_summer_cup] E) as [Hd Hl].
  split; [exact Hd|]. exact (Hl (proj1 (Z.leb_le 0 10) eq_refl)).
Defined.

(** ** The mirror source *)

Lemma good_dict_set (P : str -> Prop) (k : str) (e : Event.t) (d : dict Event.t) :
  good_dict P d -> P k -> Event.url e = k -> good_dict P (dict_set k e d).
Proof.
  intros [Hk Hp] HP <-. split; [now apply dict_set_url_keyed|].
  intros k v Hin. apply dict_set_In in Hin as [Hin|[-> _]]; eauto.
Qed.

Lemma good_dict_nil (P : str -> Prop) : good_dict P [].
Proof. split; [apply url_keyed_nil | intros k v []]. Qed.

Section Mirror.
Context `{Externals}.

Ltac good_found_tac :=
  unfold good_found in *;
  cbn [all_found year_found country_found country_year_found strict_found];
  intuition (try assumption; apply good_dict_set; (assumption || reflexivity)).

Lemma normalize_event_url_raises (href : str) (e : exn) :
  _normalize_event_url href = Raise e -> e = ValueError.
Proof.
  unfold _normalize_event_url, join_url.
  destruct (negb (is_some (re_search _EVENT_LINK_PATTERN href)));
    [discriminate|].
  destruct (urljoin "https://smoothcomp.com" (split1_head "?" href));
    [discriminate|].
  intros E. now injection E as <-.
Qed.

Lemma link_step_good (P : str -> Prop) (today : date) (year : Z) (country : str)
      (f : found) (link : Link) (url : str) :
  good_found P f ->
  _normalize_event_url (strip (link_href link)) = Ok url ->
  (url <> [] -> P url) ->
  exists f', link_step today year country f link = Ok f'
             /\ good_found P f'
             /\ (is_empty (all_found f) = false -> is_empty (all_found f') = false)
             /\ (url <> [] -> is_empty (all_found f') = false).
Proof.
  intros Hf Eurl HP. unfold link_step. rewrite Eurl. cbn [exc_bind].
  destruct (is_empty url) eqn:Eempty.
  - exists f. split; [reflexivity|]. split; [exact Hf|].
    split; [auto|]. intros Hn. destruct url; [now contradiction Hn | discriminate].
  - assert (Hne : url <> []) by (intros ->; discriminate).
    assert (HPu : P url) by (apply HP, Hne).
    rewrite extract_dates_eq. cbn [exc_bind].
    set (dates := sort_by (fun d : datetime => d)
                          (parsed_dates_of (date_fragments (link_row_text link)))).
    set (in_country := contains (lower country) (lower (link_row_text link))
                       || _country_in_text (lower (link_row_text link)) country).
    set (event := make_event url
                    (_extract_event_name_from_link link (link_row_text link) url)
                    (link_row_text link) in_country country dates).
    assert (Hurl : Event.url event = url) by reflexivity.
    destruct in_country; cbn [negb];
      destruct dates as [|d ds];
      try destruct (dt_year d =? year)%Z; cbn [negb];
      try destruct (ltb (dt_date d) today);
      eexists; (split; [reflexivity|]);
      (split; [good_found_tac|]);
      cbn [all_found]; split; intros; apply dict_set_not_nil.
Qed.

(** The loop over the links either goes through, every [href] being
    normalized, or stops at the first [href] on which [urljoin] raises. *)
Lemma links_loop_good (P : str -> Prop) (today : date) (year : Z) (country : str)
      (links : list Link) (f : found) :
  good_found P f ->
  (forall link url, In link links ->
     _normalize_event_url (strip (link_href link)) = Ok url ->
     url <> [] -> P url) ->
  (exists f', links_loop today year country links f = Ok f'
              /\ good_found P f'
              /\ (is_empty (all_found f) = false ->
                  is_empty (all_found f') = false)
              /\ ((exists link url, In link links
                     /\ _normalize_event_url (strip (link_href link)) = Ok url
                     /\ url <> []) ->
                  is_empty (all_found f') = false)
              /\ (forall link, In link links ->
                    _normalize_event_url (strip (link_href link))
                    <> Raise ValueError))
  \/ (links_loop today year country links f = Raise ValueError
      /\ exists link, In link links
           /\ _normalize_event_url (strip (link_href link)) = Raise ValueError).
Proof.
  revert f; induction links as [|l links IH]; intros f Hf HP.
  - left. exists f. split; [reflexivity|]. split; [exact Hf|]. split; [auto|].
    split; [intros (link & url & [] & _) | intros link []].
  - cbn [links_loop].
    destruct (_normalize_event_url (strip (link_href l))) as [url|e] eqn:El.
    + destruct (link_step_good P today year country f l url Hf El)
        as (f1 & E1 & G1 & M1 & N1).
      { apply (HP l); [now left | exact El]. }
      rewrite E1. cbn [exc_bind].
      destruct (IH f1 G1) as [(f2 & E2 & G2 & M2 & N2 & A2)|(E2 & link & Hl & Hr)].
      { intros link u Hl. apply HP. now right. }
      * left. exists f2. split; [exact E2|]. split; [exact G2|].
        split; [auto|]. split.
        -- intros (link & u & [<-|Hl] & Hu & Hn).
           ++ rewrite El in Hu. injection Hu as <-. auto.
           ++ apply N2. eauto.
        -- intros link [<-|Hl]; [rewrite El; discriminate | now apply A2].
      * right. split; [exact E2|]. exists link. split; [now right | exact Hr].
    + pose proof (normalize_event_url_raises _ _ El) as ->.
      right. split.
      * unfold link_step. rewrite El. reflexivity.
      * exists l. split; [now left | exact El].
Qed.

(** X3. When the mirror page arrives with a 2xx status,
    [_fetch_events_from_fallback] returns a list if [urljoin] accepts the
    [href] of every event link of the page, and raises [ValueError] if it
    refuses one. A list it returns is in the order of the listing (by start
    date ascending, an Event without a date counting as dated
    [datetime.max], then by name without regard to case), its URLs are
    pairwise distinct, each is the normalized [href] of an event link of
    the page, and it is empty only if the page has no event link. *)
Theorem fallback_listing (self : client) (year : Z) (country : str)
        (today : option date) (w w1 : World) (response : Response) :
  http_get (fallback_events_url self) w = (inr response, w1) ->
  (200 <= status_code response < 300)%Z ->
  let links := find_links (resp_text response) in
  ((forall link, In link links ->
      _normalize_event_url (strip (link_href link)) <> Raise ValueError) ->
   exists events,
     _fetch_events_from_fallback self year country today w = (Ok events, w1))
  /\ ((exists link, In link links
         /\ _normalize_event_url (strip (link_href link)) = Raise ValueError) ->
      _fetch_events_from_fallback self year country today w
      = (Raise ValueError, w1))
  /\ forall events w',
       _fetch_events_from_fallback self year country today w = (Ok events, w') ->
       StronglySorted listing_le events
       /\ NoDup (map Event.url events)
       /\ (forall e, In e events -> event_link_url links (Event.url e))
       /\ ((exists link url, In link links
              /\ _normalize_event_url (strip (link_href link)) = Ok url
              /\ url <> []) ->
           events <> []).
Proof.
  intros Hget Hok links.
  set (now := match today with Some t => t | None => clock w end).
  assert (Hstart : _fetch_events_from_fallback self year country today w
                   = bind (lift (links_loop now year country links
                                            (mk_found [] [] [] [] [])))
                          (fun f =>
                             ret (sort_by _sort_key
                                          (dict_values (mirror_choice f))))
                          w1).
  { unfold _fetch_events_from_fallback. rewrite bind_eq.
    assert (Enow : (match today with
                    | Some t => ret t
                    | None => date_today
                    end) w = (Ok now, w)) by (destruct today; reflexivity).
    rewrite Enow. rewrite bind_eq, client_get_eq, Hget.
    rewrite bind_eq, (raise_for_status_ok _ _ Hok). reflexivity. }
  rewrite Hstart. rewrite bind_eq. unfold lift.
  destruct (links_loop_good (event_link_url links) now year country links
              (mk_found [] [] [] [] []))
    as [(f & Ef & Gf & _ & Nf & Af)|(Ef & link & Hl & Hr)].
  { unfold good_found.
    cbn [all_found year_found country_found country_year_found strict_found].
    split; [apply good_dict_nil|]. split; [apply good_dict_nil|].
    split; [apply good_dict_nil|]. split; apply good_dict_nil. }
  { intros link url Hl Hu Hn. split; [exact Hn | eauto]. }
  - rewrite Ef.
    assert (Hrun : good_dict (event_link_url links) (mirror_choice f)
                   /\ (is_empty (all_found f) = false ->
                       is_empty (mirror_choice f) = false)).
    { unfold mirror_choice. destruct Gf as (G1 & G2 & G3 & G4 & G5).
      destruct (is_empty (strict_found f)) eqn:E5; cbn [negb];
        [|split; [exact G5 | auto]].
      destruct (is_empty (country_year_found f)) eqn:E4; cbn [negb];
        [|split; [exact G4 | auto]].
      destruct (is_empty (year_found f)) eqn:E2; cbn [negb];
        [|split; [exact G2 | auto]].
      destruct (is_empty (country_found f)) eqn:E3; cbn [negb];
        [|split; [exact G3 | auto]].
      split; [exact G1 | auto]. }
    destruct Hrun as ([Hkeyed HP] & Hne).
    set (chosen := mirror_choice f) in *. unfold ret.
    split; [intros _; eauto|].
    split; [intros (link & Hl & Hr); exfalso; now apply (Af link Hl)|].
    intros events w' E. injection E as <- _.
    split; [apply sort_key_sorted|].
    split; [now apply NoDup_map_sort_by, url_keyed_values|]. split.
    + intros e He. apply (Permutation_in _ (sort_by_perm _ _)) in He.
      unfold dict_values in He. apply in_map_iff in He as ([k v] & <- & Hin).
      cbn [snd]. destruct Hkeyed as [_ Hv]. rewrite (Hv k v Hin). eauto.
    + intros Hex E. apply sort_by_nil_iff in E.
      specialize (Hne (Nf Hex)). unfold dict_values in E.
      destruct chosen; [discriminate Hne | discriminate E].
  - rewrite Ef.
    split; [intros Hall; exfalso; now apply (Hall link Hl)|].
    split; [reflexivity | discriminate].
Qed.

End Mirror.

Lemma fallback_listing_witness :
  exists events,
    _fetch_events_from_fallback (H := mirror_world) the_client 2026
                                "Philippines" None tt = (Ok events, tt)
    /\ StronglySorted listing_le events
    /\ NoDup (map Event.url events)
    /\ events <> [].
Proof.
  assert (Hok : (200 <= status_code (mk_Response 200
                   (fallback_events_url the_client) "page") < 300)%Z)
    by (cbn; lia).
  destruct (fallback_listing (H := mirror_world) the_client 2026 "Philippines"
              None tt tt _ eq_refl Hok) as (Hret & _ & Hprops).
  destruct Hret as (events & E).
  { intros link [<-|[<-|[]]]; vm_compute; discriminate. }
  destruct (Hprops events tt E) as (Hs & Hn & _ & Hne).
  exists events. split; [exact E|]. split; [exact Hs|]. split; [exact Hn|].
  apply Hne. exists (py "/en/event/201",
                     py "Manila Winter Open Jan 10, 2026 Manila, Philippines",
                     py "Manila Winter Open"),
                    (py "https://smoothcomp.com/en/event/201").
  split; [now left|]. split; [vm_compute; reflexivity | discriminate].
Defined.

(** A link whose host opens a bracket and does not close it matches the
    event link pattern; [urljoin] raises on it, and the [ValueError] leaves
    [_fetch_events_from_fallback]. *)
Example fallback_bracket_link_raises :
  fst (_fetch_events_from_fallback (H := bracket_link_world) the_client 2026
                                   "Philippines" None tt)
  = Raise ValueError.
Proof. vm_compute. reflexivity. Qed.

(** ** The Events the client builds *)

Lemma location_loop_length (tokens : list str) (text : str) :
  length (location_loop tokens text) <= 120.
Proof.
  induction tokens as [|t ts IH]; cbn [location_loop length]; [lia|].
  destruct (contains t text); [apply firstn_le_length | exact IH].
Qed.

Lemma name_from_url_not_empty (url : str) : _name_from_url url <> [].
Proof.
  unfold _name_from_url.
  destruct (str_isdigit (rsplit1_last "/" (rstrip_slash url))); [discriminate|].
  match goal with |- str_or ?x _ <> [] => destruct x end; discriminate.
Qed.

Lemma make_event_well_formed (url name blob : str) (in_country : bool)
      (country : str) (ds : list datetime) :
  StronglySorted (fun a b : datetime => key_le a b) ds ->
  event_well_formed country (make_event url name blob in_country country ds).
Proof.
  intros Hs. unfold event_well_formed, make_event.
  cbn [Event.id Event.url Event.location Event.country Event.start_date
       Event.end_date].
  split; [reflexivity|]. split; [apply location_loop_length|].
  split; [destruct in_country; auto|]. split.
  - destruct ds; [reflexivity | discriminate].
  - intros a b Ha Hb. destruct ds as [|x [|y ds]]; try discriminate.
    cbn in Ha, Hb. injection Ha as <-. injection Hb as <-.
    inversion Hs as [|? ? _ Hall]; subst. now inversion Hall.
Qed.

Lemma dates_sorted (text : str) :
  StronglySorted (fun a b : datetime => key_le a b)
                 (sort_by (fun d => d) (parsed_dates_of (date_fragments text))).
Proof. apply (sort_by_sorted (fun d : datetime => d)). Qed.

(** X4. Every Event of a bucket of [fetch_events] has a name, carries the
    identifier read from its URL, a location of at most 120 characters, the
    target country or none, a start date that is not before today, an end
    date only together with a start date, and then a start date that is not
    after the end date. *)
Theorem bucket_events_well_formed (today : date) (year : Z) (country : str)
        (candidates : list (str * payload)) (t : tier) (e : Event.t) :
  In e (bucket today year country candidates t) ->
  event_well_formed country e
  /\ Event.name e <> []
  /\ forall a, Event.start_date e = Some a -> ltb (dt_date a) today = false.
Proof.
  intros Hin.
  apply buckets_exclude_past in Hin as (c & _ & Hpast & _ & ->).
  unfold candidate_event. split; [|split].
  - apply make_event_well_formed, dates_sorted.
  - cbn [make_event Event.name].
    destruct (strip (p_name (snd c))); [apply name_from_url_not_empty|].
    discriminate.
  - intros a Ha. unfold is_past in Hpast. cbn [make_event Event.start_date] in Ha.
    unfold candidate_dates in *. 
    destruct (sort_by (fun d : datetime => d)
                      (parsed_dates_of (date_fragments (candidate_blob c))));
      [discriminate|].
    cbn in Ha. now injection Ha as <-.
Qed.

Lemma bucket_events_well_formed_witness :
  In (Event.mk "101" "Cebu Open" "https://smoothcomp.com/en/event/101"
               [] "Philippines" (Some (mk_datetime 2026 9 1 0 0 0 0)) None)
     (bucket june_1st 2026 "Philippines" listing_candidates tier1)
  /\ event_well_formed "Philippines"
       (Event.mk "101" "Cebu Open" "https://smoothcomp.com/en/event/101"
                 [] "Philippines" (Some (mk_datetime 2026 9 1 0 0 0 0)) None).
Proof.
  assert (Hin : In (Event.mk "101" "Cebu Open"
                             "https://smoothcomp.com/en/event/101"
                             [] "Philippines"
                             (Some (mk_datetime 2026 9 1 0 0 0 0)) None)
                   (bucket june_1st 2026 "Philippines" listing_candidates tier1))
    by (vm_compute; now left).
  split; [exact Hin|].
  exact (proj1 (bucket_events_well_formed june_1st 2026 "Philippines"
                  listing_candidates tier1 _ Hin)).
Defined.

(** X5. The tier of a bucket can be read from its Events: the Events of
    buckets 1 to 3 carry the target country and those of buckets 4 to 6
    carry none; those of buckets 1 and 4 start in the target year, those
    of 3 and 6 in another year, those of 2 and 5 have no start date. *)
Theorem bucket_events_tier (today : date) (year : Z) (country : str)
        (candidates : list (str * payload)) (t : tier) (e : Event.t) :
  In e (bucket today year country candidates t) ->
  tier_reading year country t e.
Proof.
  intros Hin.
  apply buckets_exclude_past in Hin as (c & _ & _ & Ht & ->).
  unfold tier_of in Ht. unfold candidate_event, make_event, tier_reading.
  cbn [Event.country Event.start_date].
  destruct (candidate_in_country country c);
    destruct (candidate_dates c) as [|d ds];
    try (destruct (dt_year d =? year)%Z eqn:Ey;
         [apply Z.eqb_eq in Ey | apply Z.eqb_neq in Ey]);
    subst t; cbn [nth_error]; split; eauto.
Qed.

Lemma bucket_events_tier_witness :
  tier_reading 2026 "Philippines" tier4
    (Event.mk "102" "Tokyo Cup" "https://smoothcomp.com/en/event/102"
              [] [] (Some (mk_datetime 2026 10 5 0 0 0 0)) None).
Proof.
  apply (bucket_events_tier june_1st 2026 "Philippines" listing_candidates).
  vm_compute. now left.
Defined.

Section Resolve.
Context `{Externals}.

Lemma fetch_event_by_url_some (self : client) (url country : str)
      (w w' : World) (e : Event.t) :
  fetch_event_by_url self url country w = (Ok (Some e), w') ->
  exists response,
    http_get url w = (inr response, w')
    /\ (200 <= status_code response < 300)%Z
    /\ e = make_event (_canonical_event_url (resp_url response))
             (_extract_event_name_from_page (resp_text response)
                (_canonical_event_url (resp_url response)))
             (stripped_text (resp_text response))
             (_country_in_text (stripped_text (resp_text response)) country)
             country
             (sort_by (fun d => d)
                (parsed_dates_of
                   (date_fragments (stripped_text (resp_text response))))).
Proof.
  unfold fetch_event_by_url.
  rewrite bind_eq, try_eq, bind_eq, client_get_eq.
  destruct (http_get url w) as [[f|resp] w1].
  - destruct f; cbn; discriminate.
  - rewrite bind_eq.
    destruct ((200 <=? status_code resp)%Z && (status_code resp <? 300)%Z) eqn:E.
    + apply andb_true_iff in E as [Hlo Hhi].
      apply Z.leb_le in Hlo. apply Z.ltb_lt in Hhi.
      rewrite raise_for_status_ok by lia. cbn [ret].
      rewrite bind_eq. unfold lift. rewrite extract_dates_eq.
      intros Eq. injection Eq as <- <-. exists resp. repeat split; lia.
    + assert (Hno : ~ (200 <= status_code resp < 300)%Z).
      { intros [Hlo Hhi]. apply Z.leb_le in Hlo. apply Z.ltb_lt in Hhi.
        rewrite Hlo, Hhi in E. discriminate. }
      rewrite raise_for_status_raises by exact Hno. cbn. discriminate.
Qed.

(** X6. An Event that [fetch_event_by_url] returns comes from a 2xx
    response, has the canonical form of the response URL as its URL, and is
    well formed for the default country. *)
Theorem fetch_event_by_url_result (self : client) (url country : str)
        (w w' : World) (e : Event.t) :
  fetch_event_by_url self url country w = (Ok (Some e), w') ->
  (exists response,
      http_get url w = (inr response, w')
      /\ (200 <= status_code response < 300)%Z
      /\ Event.url e = _canonical_event_url (resp_url response))
  /\ event_well_formed country e.
Proof.
  intros E. apply fetch_event_by_url_some in E as (resp & Hget & Hok & ->).
  split; [exists resp; repeat split; (assumption || lia)|].
  apply make_event_well_formed, dates_sorted.
Qed.

Lemma first_confirmed_id (self : client) (event_id country : str)
      (urls : list str) (w w' : World) (e : Event.t) :
  first_confirmed self event_id country urls w = (Ok (Some e), w') ->
  Event.id e = event_id /\ event_well_formed country e.
Proof.
  revert w; induction urls as [|url urls IH]; intros w;
    cbn [first_confirmed]; [discriminate|].
  rewrite bind_eq.
  destruct (fetch_event_by_url self url country w) as [[[e1|]|x] w1] eqn:E1;
    [| apply IH | discriminate].
  destruct (str_eqb (Event.id e1) event_id) eqn:Eid; [|apply IH].
  unfold ret. intros Eq. injection Eq as <- _.
  split; [now apply str_eqb_eq|].
  apply fetch_event_by_url_some in E1 as (resp & _ & _ & ->).
  apply make_event_well_formed, dates_sorted.
Qed.

(** X7. [fetch_event_by_id] never returns an Event of another identifier:
    the [id] of a returned Event is the identifier asked for, and the Event
    is well formed. *)
Theorem fetch_event_by_id_confirms (self : client) (event_id country : str)
        (w w' : World) (e : Event.t) :
  fetch_event_by_id self event_id country w = (Ok (Some e), w') ->
  Event.id e = event_id /\ event_well_formed country e.
Proof.
  unfold fetch_event_by_id. rewrite bind_eq.
  destruct (_candidate_event_urls_for_id self event_id w) as [[urls|x] w1];
    [|discriminate].
  apply first_confirmed_id.
Qed.

End Resolve.

Lemma fetch_event_by_url_result_witness :
  exists e,
    fetch_event_by_url (H := listing_world) the_client
      "https://smoothcomp.com/en/event/26935/?tab=info" "Philippines" tt
    = (Ok (Some e), tt)
    /\ Event.url e = py "https://smoothcomp.com/en/event/26935"
    /\ event_well_formed "Philippines" e.
Proof.
  eexists. 
  assert (E : fetch_event_by_url (H := listing_world) the_client
                "https://smoothcomp.com/en/event/26935/?tab=info" "Philippines" tt
              = (Ok (Some (Event.mk "26935" "Event 26935"
                             "https://smoothcomp.com/en/event/26935"
                             [] [] None None)), tt))
    by (vm_compute; reflexivity).
  split; [exact E|]. split; [reflexivity|].
  exact (proj2 (fetch_event_by_url_result (H := listing_world) the_client _ _
                  tt tt _ E)).
Defined.

Lemma fetch_event_by_id_confirms_witness :
  exists e,
    fetch_event_by_id (H := listing_world) the_client "26935" "Philippines" tt
    = (Ok (Some e), tt)
    /\ Event.id e = py "26935".
Proof.
  eexists.
  assert (E : fetch_event_by_id (H := listing_world) the_client "26935"
                                "Philippines" tt
              = (Ok (Some (Event.mk "26935" "Event 26935"
                             "https://smoothcomp.com/en/event/26935"
                             [] [] None None)), tt))
    by (vm_compute; reflexivity).
  split; [exact E|].
  exact (proj1 (fetch_event_by_id_confirms (H := listing_world) the_client _ _
                  tt tt _ E)).
Defined.

(** ** The seen-key set *)

Lemma key4_eqb_eq (a b : key4) : key4_eqb a b = true <-> a = b.
Proof.
  destruct a as [[[a1 a2] a3] a4], b as [[[b1 b2] b3] b4]. unfold key4_eqb.
  rewrite !andb_true_iff, !str_eqb_eq. split.
  - intros [[[-> ->] ->] ->]. reflexivity.
  - intros E. injection E as -> -> -> ->. auto.
Qed.

Lemma seen_mem_In (k : key4) (seen : seen_set) :
  seen_mem k seen = true <-> In k seen.
Proof.
  unfold seen_mem. rewrite existsb_exists. split.
  - intros (x & Hx & E). apply key4_eqb_eq in E. now subst.
  - intros Hk. exists k. split; [exact Hk | now apply key4_eqb_eq].
Qed.

Lemma seen_mem_not_In (k : key4) (seen : seen_set) :
  seen_mem k seen = false <-> ~ In k seen.
Proof.
  rewrite <- seen_mem_In. destruct (seen_mem k seen); split; congruence.
Qed.

Lemma record_once_fresh (seen0 : seen_set) (record : CompetitorSchedule.t)
      (acc : list CompetitorSchedule.t * seen_set) :
  fresh_rows seen0 acc ->
  fresh_rows seen0 (record_once (four_tuple record) record acc).
Proof.
  destruct acc as [rows seen]. intros (Hn & Hr & Hi). unfold record_once.
  destruct (seen_mem (four_tuple record) seen) eqn:E;
    [exact (conj Hn (conj Hr Hi))|].
  apply seen_mem_not_In in E. unfold fresh_rows, seen_add. cbn [fst snd].
  split; [|split].
  - rewrite map_app. cbn [map]. apply NoDup_snoc; [exact Hn|].
    intros Hin. apply in_map_iff in Hin as (r & Er & Hin).
    apply E. rewrite <- Er. now apply Hr.
  - intros r Hin. apply in_app_or in Hin as [Hin|[<-|[]]].
    + destruct (Hr r Hin) as [H1 H2]. split; [now right | exact H2].
    + split; [now left|]. intros H0. apply E. now apply Hi.
  - intros k Hk. right. now apply Hi.
Qed.

Lemma fold_key_faithful
      (step : list CompetitorSchedule.t * seen_set -> Sighting ->
              list CompetitorSchedule.t * seen_set)
      (seen0 : seen_set) (items : list Sighting)
      (acc : list CompetitorSchedule.t * seen_set) :
  (forall s, In s items -> key_faithful step s) ->
  fresh_rows seen0 acc -> fresh_rows seen0 (fold_left step items acc).
Proof.
  revert acc; induction items as [|s items IH]; intros acc Hf Hacc;
    cbn [fold_left]; [exact Hacc|].
  apply IH; [intros s' Hs'; apply Hf; now right|].
  destruct (Hf s (or_introl eq_refl)) as (key & record & <- & E).
  rewrite E. now apply record_once_fresh.
Qed.

Lemma fresh_rows_start (seen : seen_set) : fresh_rows seen ([], seen).
Proof.
  split; [constructor|]. split; [intros r []|]. apply incl_refl.
Qed.

Lemma bracket_row_step_faithful (url : str) (s : Sighting) :
  key_faithful (bracket_row_step url) s.
Proof. eexists; eexists; split; [|intros acc; reflexivity]; reflexivity. Qed.

Lemma bracket_script_step_faithful (url : str) (s : Sighting) :
  key_faithful (bracket_script_step url) s.
Proof. eexists; eexists; split; [|intros acc; reflexivity]; reflexivity. Qed.

Lemma profile_link_step_faithful (url : str) (s : Sighting) :
  key_faithful (profile_link_step url) s.
Proof. eexists; eexists; split; [|intros acc; reflexivity]; reflexivity. Qed.

Lemma block_step_faithful (url : str) (s : Sighting) :
  key_faithful (block_step url) s.
Proof. eexists; eexists; split; [|intros acc; reflexivity]; reflexivity. Qed.

Lemma table_step_faithful (url : str) (s : Sighting) :
  complete s -> key_faithful (table_step url) s.
Proof.
  intros (Hd & Ht & Hm). unfold table_step.
  eexists; eexists; split; [|intros acc; reflexivity].
  unfold four_tuple. cbn [CompetitorSchedule.competitor_name
    CompetitorSchedule.division CompetitorSchedule.match_time
    CompetitorSchedule.mat].
  destruct (s_division s); [contradiction|].
  destruct (s_time s); [contradiction|].
  destruct (s_mat s); [contradiction|]. reflexivity.
Qed.

Lemma blocks_loop_fresh (url : str) (seen0 : seen_set)
      (nodes : list (option Sighting)) (scanned : Z)
      (acc : list CompetitorSchedule.t * seen_set) :
  fresh_rows seen0 acc -> fresh_rows seen0 (blocks_loop url nodes scanned acc).
Proof.
  revert scanned acc; induction nodes as [|node nodes IH];
    intros scanned acc Hacc; cbn [blocks_loop]; [exact Hacc|].
  destruct (2200 <? scanned + 1)%Z; [exact Hacc|].
  destruct node as [s|]; apply IH; [|exact Hacc].
  destruct (block_step_faithful url s) as (key & record & <- & E).
  rewrite E. now apply record_once_fresh.
Qed.

Section Dedup.
Context `{Externals}.

Lemma brackets_page_fresh (html : str) (kws : list str) (source_url : str)
      (seen : seen_set) :
  fresh_rows seen (_parse_schedule_brackets_page html kws source_url seen).
Proof.
  unfold _parse_schedule_brackets_page.
  apply fold_key_faithful;
    [intros s _; apply bracket_script_step_faithful|].
  apply fold_key_faithful;
    [intros s _; apply bracket_row_step_faithful | apply fresh_rows_start].
Qed.

Lemma profile_links_fresh (html : str) (kws : list str) (source_url : str)
      (seen : seen_set) :
  fresh_rows seen (_parse_participant_profile_links html kws source_url seen).
Proof.
  unfold _parse_participant_profile_links.
  apply fold_key_faithful;
    [intros s _; apply profile_link_step_faithful | apply fresh_rows_start].
Qed.

Lemma blocks_fresh (html : str) (kws : list str) (source_url : str)
      (seen : seen_set) :
  fresh_rows seen (_parse_competitor_blocks html kws source_url seen).
Proof.
  unfold _parse_competitor_blocks. apply blocks_loop_fresh, fresh_rows_start.
Qed.

(** X8. The three strategies whose key is made of the stored fields
    ([_parse_schedule_brackets_page], [_parse_participant_profile_links],
    [_parse_competitor_blocks]): from any [seen] set, the rows of a run have
    pairwise distinct (name, division, time, mat) four-tuples, none of them
    was in [seen] before the run, all of them are in it after, and nothing
    leaves the set. *)
Theorem key_faithful_strategies_dedup (html : str) (kws : list str)
        (source_url : str) (seen : seen_set) :
  fresh_rows seen (_parse_schedule_brackets_page html kws source_url seen)
  /\ fresh_rows seen (_parse_participant_profile_links html kws source_url seen)
  /\ fresh_rows seen (_parse_competitor_blocks html kws source_url seen).
Proof.
  split; [apply brackets_page_fresh|].
  split; [apply profile_links_fresh | apply blocks_fresh].
Qed.

Lemma merged_extend (acc : list CompetitorSchedule.t * seen_set)
      (out : list CompetitorSchedule.t * seen_set) :
  merged_rows acc -> fresh_rows (snd acc) out ->
  merged_rows (fst acc ++ fst out, snd out).
Proof.
  intros [Hn Hr] (Fn & Fr & Fi). unfold merged_rows. cbn [fst snd]. split.
  - rewrite map_app. apply NoDup_app; [exact Hn | exact Fn |].
    intros k Hk1 Hk2.
    apply in_map_iff in Hk1 as (r1 & <- & H1).
    apply in_map_iff in Hk2 as (r2 & E2 & H2).
    destruct (Fr r2 H2) as [_ Hnot]. apply Hnot. rewrite E2. now apply Hr.
  - intros r Hin. apply in_app_or in Hin as [Hin|Hin].
    + apply Fi. now apply Hr.
    + now apply Fr.
Qed.

Hypothesis tables_complete :
  forall html kws s, In s (table_sightings html kws) -> complete s.
Hypothesis no_scripts : forall html kws, script_sightings html kws = [].

Lemma parse_page_merged (kws : list str)
      (acc : list CompetitorSchedule.t * seen_set) (page : str * str) :
  merged_rows acc -> merged_rows (parse_page kws acc page).
Proof.
  intros Hacc. destruct page as [url html]. unfold parse_page.
  assert (Hrun : forall strategy a,
             (forall seen, fresh_rows seen (strategy html kws url seen)) ->
             merged_rows a ->
             merged_rows
               (let '(rows, seen') := strategy html kws url (snd a) in
                (fst a ++ rows, seen'))).
  { intros strategy a Hs Ha. specialize (Hs (snd a)).
    destruct (strategy html kws url (snd a)) as [rows seen'] eqn:E.
    apply (merged_extend a (rows, seen') Ha Hs). }
  apply Hrun; [intros seen; apply blocks_fresh|].
  apply Hrun.
  { intros seen. unfold _parse_competitor_scripts. rewrite no_scripts.
    apply fresh_rows_start. }
  apply Hrun.
  { intros seen. unfold _parse_competitor_tables.
    apply fold_key_faithful; [|apply fresh_rows_start].
    intros s Hs. apply table_step_faithful. eapply tables_complete, Hs. }
  apply Hrun; [intros seen; apply profile_links_fresh|].
  apply Hrun; [intros seen; apply brackets_page_fresh|].
  exact Hacc.
Qed.

(** X9. On pages whose table rows all show a division, a time and a mat and
    that carry no script payload, the merged output of
    [fetch_competitors_for_event] has no two records with the same
    (name, division, time, mat) four-tuple, over all strategies and all
    sub-pages. *)
Theorem fetch_competitors_dedup (self : client) (event : Event.t)
        (kws : list str) (w w' : World) (rows : list CompetitorSchedule.t) :
  fetch_competitors_for_event self event kws w = (Ok rows, w') ->
  NoDup (map four_tuple rows).
Proof.
  unfold fetch_competitors_for_event. rewrite bind_eq.
  destruct (fetch_pages (_event_pages_to_try (Event.url event)) [] w)
    as [[pages|e] w1]; [|discriminate].
  unfold ret. intros E. injection E as <- _.
  assert (Hall : forall ps acc, merged_rows acc ->
                   merged_rows (fold_left (parse_page kws) ps acc)).
  { induction ps as [|p ps IH]; intros acc Hacc; cbn [fold_left];
      [exact Hacc|].
    apply IH. now apply parse_page_merged. }
  apply (Hall pages ([], [])). split; [constructor | intros r []].
Qed.

End Dedup.

Lemma fetch_competitors_dedup_witness :
  exists rows,
    fetch_competitors_for_event (H := complete_page_world) the_client
                                event_26935 [py "alpha"] tt = (Ok rows, tt)
    /\ length rows = 1
    /\ NoDup (map four_tuple rows).
Proof.
  eexists.
  assert (E : fetch_competitors_for_event (H := complete_page_world) the_client
                                          event_26935 [py "alpha"] tt
              = (Ok [CompetitorSchedule.mk "Alice Santos" "Alpha BJJ"
                       "Adult -70kg" [] "Jane Cruz" "10:30 AM" "Mat 2"
                       "https://smoothcomp.com/en/event/26935/schedule/brackets"
                       []], tt))
    by (vm_compute; reflexivity).
  split; [exact E|]. split; [reflexivity|].
  apply (fetch_competitors_dedup (H := complete_page_world)) with
    (self := the_client) (event := event_26935) (kws := [py "alpha"])
    (w := tt) (w' := tt).
  - intros html kws s [<-|[]]. repeat split; discriminate.
  - intros html kws. reflexivity.
  - exact E.
Defined.

(** ** The sub-pages of an event *)

Lemma sort_by_In {A K : Type} `{Cmp K} (key : A -> K) (l : list A) (x : A) :
  In x (sort_by key l) <-> In x l.
Proof.
  assert (Q : forall y s, In x (insert_by key y s) <-> x = y \/ In x s).
  { intros y s. induction s as [|z s IHs]; cbn [insert_by].
    - cbn [In]. intuition congruence.
    - destruct (ltb (key z) (key y)); cbn [In]; [rewrite IHs|];
        intuition congruence. }
  induction l as [|y l IH]; cbn [sort_by]; [reflexivity|].
  rewrite Q, IH. cbn [In]. intuition congruence.
Qed.

Lemma sorted_set_NoDup (l : list str) : NoDup (sorted_set l).
Proof.
  unfold sorted_set. induction (sort_by (fun x => x) l) as [|x s IH];
    cbn [fold_right]; [constructor|].
  destruct (str_mem x _) eqn:E; [exact IH|].
  constructor; [|exact IH].
  intros Hin. apply str_mem_In in Hin. congruence.
Qed.

Lemma sorted_set_In (l : list str) (x : str) : In x (sorted_set l) <-> In x l.
Proof.
  unfold sorted_set. rewrite <- (sort_by_In (fun x => x) l x).
  induction (sort_by (fun x => x) l) as [|y s IH]; cbn [fold_right];
    [reflexivity|].
  destruct (str_mem y _) eqn:E.
  - apply str_mem_In in E. cbn [In]. rewrite <- IH.
    split; [tauto|]. intros [<-|Hx]; assumption.
  - cbn [In]. rewrite IH. reflexivity.
Qed.

(** X10. [_event_pages_to_try] lists no page twice; the bracket schedule
    comes first and the participant list second, and the event page itself
    is in the list. *)
Theorem event_pages_distinct (event_url : str) :
  let base := rstrip_slash (_canonical_event_url event_url) in
  NoDup (_event_pages_to_try event_url)
  /\ (exists rest,
        _event_pages_to_try event_url
        = (base ++ py "/schedule/brackets") :: (base ++ py "/participants")
          :: rest)
  /\ In base (_event_pages_to_try event_url).
Proof.
  intros base. unfold _event_pages_to_try. fold base.
  set (variants12 := [base; base ++ py "/participants";
                      base ++ py "/participants?page=1";
                      base ++ py "/participants?page=2";
                      base ++ py "/participants?page=3";
                      base ++ py "/participants?page=4";
                      base ++ py "/schedule/brackets";
                      base ++ py "/schedule"; base ++ py "/bracket";
                      base ++ py "/brackets"; base ++ py "/matches";
                      base ++ py "/registrations"]).
  match goal with
  | |- context [sorted_set ?v] => set (variants := v)
  end.
  set (ordered := [base ++ py "/schedule/brackets"; base ++ py "/participants"]).
  assert (Hbase : In base variants).
  { subst variants. destruct (contains _ base);
      [|destruct (contains _ base)];
      [apply in_or_app; left | apply in_or_app; left |]; now left. }
  split; [|split].
  - apply NoDup_app.
    + subst ordered. constructor; [|constructor; [intros []|constructor]].
      intros [E|[]]. apply app_inv_head in E. discriminate E.
    + apply NoDup_filter, sorted_set_NoDup.
    + intros u Hu Hf. apply filter_In in Hf as [_ Hf].
      apply str_mem_In in Hu. rewrite Hu in Hf. discriminate Hf.
  - eexists. reflexivity.
  - apply in_or_app. right. apply filter_In. split.
    + now apply sorted_set_In.
    + destruct (str_mem base ordered) eqn:E; [|reflexivity].
      apply str_mem_In in E. exfalso.
      assert (Hne : forall t : str, t <> [] -> base ++ t <> base).
      { intros t Ht E'. apply Ht.
        apply (app_inv_head base). now rewrite app_nil_r. }
      destruct E as [E|[E|[]]]; revert E; apply Hne; discriminate.
Qed.

(** ** Where the records come from *)

Lemma record_once_Forall (Q : CompetitorSchedule.t -> Prop) (key : key4)
      (record : CompetitorSchedule.t)
      (acc : list CompetitorSchedule.t * seen_set) :
  Q record -> Forall Q (fst acc) -> Forall Q (fst (record_once key record acc)).
Proof.
  destruct acc as [rows seen]. intros Hq Hacc. unfold record_once.
  destruct (seen_mem key seen); cbn [fst] in *; [exact Hacc|].
  apply Forall_app. split; [exact Hacc | now constructor].
Qed.

Lemma fold_Forall {S : Type} (Q : CompetitorSchedule.t -> Prop)
      (step : list CompetitorSchedule.t * seen_set -> S ->
              list CompetitorSchedule.t * seen_set)
      (items : list S) (acc : list CompetitorSchedule.t * seen_set) :
  (forall a s, Forall Q (fst a) -> Forall Q (fst (step a s))) ->
  Forall Q (fst acc) -> Forall Q (fst (fold_left step items acc)).
Proof.
  intros Hstep. revert acc; induction items as [|s items IH]; intros acc Hacc;
    cbn [fold_left]; [exact Hacc|].
  apply IH, Hstep, Hacc.
Qed.

Lemma blocks_loop_Forall (Q : CompetitorSchedule.t -> Prop) (url : str)
      (nodes : list (option Sighting)) (scanned : Z)
      (acc : list CompetitorSchedule.t * seen_set) :
  (forall r, CompetitorSchedule.source_url r = url -> Q r) ->
  Forall Q (fst acc) -> Forall Q (fst (blocks_loop url nodes scanned acc)).
Proof.
  intros HQ. revert scanned acc; induction nodes as [|node nodes IH];
    intros scanned acc Hacc; cbn [blocks_loop]; [exact Hacc|].
  destruct (2200 <? scanned + 1)%Z; [exact Hacc|].
  destruct node as [s|]; apply IH; [|exact Hacc].
  unfold block_step. apply record_once_Forall; [|exact Hacc].
  apply HQ. reflexivity.
Qed.

Section Provenance.
Context `{Externals}.

Lemma parse_page_stamped (Q : CompetitorSchedule.t -> Prop) (kws : list str)
      (acc : list CompetitorSchedule.t * seen_set) (page : str * str) :
  (forall r, CompetitorSchedule.source_url r = fst page -> Q r) ->
  Forall Q (fst acc) -> Forall Q (fst (parse_page kws acc page)).
Proof.
  destruct page as [url html]. cbn [fst]. intros HQ Hacc. unfold parse_page.
  assert (Hrun : forall (strategy : str -> list str -> str -> seen_set ->
                                   list CompetitorSchedule.t * seen_set) a,
             (forall seen, Forall Q (fst (strategy html kws url seen))) ->
             Forall Q (fst a) ->
             Forall Q
               (fst (let '(rows, seen') := strategy html kws url (snd a) in
                     (fst a ++ rows, seen')))).
  { intros strategy a Hs Ha. specialize (Hs (snd a)).
    destruct (strategy html kws url (snd a)) as [rows seen'].
    cbn [fst] in *. apply Forall_app. now split. }
  assert (Hstep : forall key record a,
             CompetitorSchedule.source_url record = url ->
             Forall Q (fst a) -> Forall Q (fst (record_once key record a))).
  { intros key record a E Ha. apply record_once_Forall; [now apply HQ | exact Ha]. }
  apply Hrun.
  { intros seen. unfold _parse_competitor_blocks.
    apply blocks_loop_Forall; [exact HQ | constructor]. }
  apply Hrun.
  { intros seen. unfold _parse_competitor_scripts.
    apply fold_Forall; [|constructor].
    intros a script Ha.
    assert (Ha' : Forall Q (fst (fold_left (script_step url) (fst script) a))).
    { apply fold_Forall; [|exact Ha].
      intros a0 s Ha0. unfold script_step. now apply Hstep. }
    unfold _parse_competitor_script_windows.
    destruct (is_empty kws).
    - cbn [fst]. rewrite app_nil_r. exact Ha'.
    - destruct (fold_left (script_step url) (snd script) ([], _))
        as [out seen'] eqn:E.
      cbn [fst]. apply Forall_app. split; [exact Ha'|].
      change out with (fst (out, seen')). rewrite <- E.
      apply fold_Forall; [|constructor].
      intros a0 s Ha0. unfold script_step. now apply Hstep. }
  apply Hrun.
  { intros seen. unfold _parse_competitor_tables.
    apply fold_Forall; [|constructor].
    intros a s Ha. unfold table_step. now apply Hstep. }
  apply Hrun.
  { intros seen. unfold _parse_participant_profile_links.
    apply fold_Forall; [|constructor].
    intros a s Ha. unfold profile_link_step. now apply Hstep. }
  apply Hrun; [|exact Hacc].
  intros seen. unfold _parse_schedule_brackets_page.
  apply fold_Forall;
    [intros a s Ha; unfold bracket_script_step; now apply Hstep|].
  apply fold_Forall; [|constructor].
  intros a s Ha. unfold bracket_row_step. now apply Hstep.
Qed.

(** A page is kept when its request was answered with status 200, and it
    is kept with the text of that answer. *)
Lemma fetch_pages_answered (urls : list str) (acc pages : list (str * str))
      (w w' : World) :
  fetch_pages urls acc w = (Ok pages, w') ->
  forall p, In p pages ->
    In p acc
    \/ (In (fst p) urls
        /\ exists w0 w1 resp,
             http_get (fst p) w0 = (inr resp, w1)
             /\ status_code resp = 200%Z /\ resp_text resp = snd p).
Proof.
  revert acc w; induction urls as [|url urls IH]; intros acc w;
    cbn [fetch_pages].
  - unfold ret. intros E. injection E as <- _. intros p Hp. now left.
  - rewrite bind_eq, try_eq, bind_eq, client_get_eq.
    destruct (http_get url w) as [[f|resp] w1] eqn:Eget.
    + destruct f; cbn [exn_of_failure is_HTTPError]; try discriminate;
        intros E p Hp;
        (destruct (IH _ _ E p Hp) as [Hin|[Hin Hex]]; [now left|]);
        right; (split; [now right | exact Hex]).
    + destruct (status_code resp =? 200)%Z eqn:Es; intros E p Hp;
        (destruct (IH _ _ E p Hp) as [Hin|[Hin Hex]];
         [|right; split; [now right | exact Hex]]).
      * apply in_app_or in Hin as [Hin|[<-|[]]]; [now left|].
        right. split; [now left|]. cbn [fst snd].
        exists w, w1, resp. apply Z.eqb_eq in Es. auto.
      * now left.
Qed.

(** X11. Every record of [fetch_competitors_for_event] carries as
    [source_url] one of the sub-pages of [_event_pages_to_try], and that
    page was answered with status 200. *)
Theorem competitor_records_provenance (self : client) (event : Event.t)
        (kws : list str) (w w' : World) (rows : list CompetitorSchedule.t) :
  fetch_competitors_for_event self event kws w = (Ok rows, w') ->
  forall r, In r rows ->
    In (CompetitorSchedule.source_url r) (_event_pages_to_try (Event.url event))
    /\ exists w0 w1 resp,
         http_get (CompetitorSchedule.source_url r) w0 = (inr resp, w1)
         /\ status_code resp = 200%Z.
Proof.
  unfold fetch_competitors_for_event. rewrite bind_eq.
  destruct (fetch_pages (_event_pages_to_try (Event.url event)) [] w)
    as [[pages|e] w1] eqn:Ep; [|discriminate].
  unfold ret. intros E. injection E as <- _.
  pose proof (fetch_pages_answered _ _ _ _ _ Ep) as Hpages.
  set (Q := fun r : CompetitorSchedule.t =>
              In (CompetitorSchedule.source_url r)
                 (_event_pages_to_try (Event.url event))
              /\ exists w0 w1 resp,
                   http_get (CompetitorSchedule.source_url r) w0 = (inr resp, w1)
                   /\ status_code resp = 200%Z).
  assert (Hall : forall ps acc,
             (forall p, In p ps -> In p pages) ->
             Forall Q (fst acc) ->
             Forall Q (fst (fold_left (parse_page kws) ps acc))).
  { induction ps as [|p ps IH]; intros acc Hps Hacc; cbn [fold_left];
      [exact Hacc|].
    apply IH; [intros q Hq; apply Hps; now right|].
    apply parse_page_stamped; [|exact Hacc].
    intros r Er. unfold Q. rewrite Er.
    destruct (Hpages p (Hps p (or_introl eq_refl))) as [[]|[Hin Hex]].
    split; [exact Hin|].
    destruct Hex as (w0 & w2 & resp & Hget & Hs & _). eauto. }
  intros r Hr.
  assert (HQ : Forall Q (fst (fold_left (parse_page kws) pages ([], [])))).
  { apply Hall; [auto | constructor]. }
  rewrite Forall_forall in HQ. exact (HQ r Hr).
Qed.

End Provenance.

Lemma competitor_records_provenance_witness :
  exists rows,
    fetch_competitors_for_event (H := complete_page_world) the_client
                                event_26935 [py "alpha"] tt = (Ok rows, tt)
    /\ rows <> []
    /\ forall r, In r rows ->
         In (CompetitorSchedule.source_url r)
            (_event_pages_to_try (Event.url event_26935))
         /\ exists w0 w1 resp,
              http_get (Externals := complete_page_world)
                       (CompetitorSchedule.source_url r) w0 = (inr resp, w1)
              /\ status_code resp = 200%Z.
Proof.
  eexists.
  assert (E : fetch_competitors_for_event (H := complete_page_world) the_client
                                          event_26935 [py "alpha"] tt
              = (Ok [CompetitorSchedule.mk "Alice Santos" "Alpha BJJ"
                       "Adult -70kg" [] "Jane Cruz" "10:30 AM" "Mat 2"
                       "https://smoothcomp.com/en/event/26935/schedule/brackets"
                       []], tt))
    by (vm_compute; reflexivity).
  split; [exact E|]. split; [discriminate|].
  exact (competitor_records_provenance (H := complete_page_world)
           the_client event_26935 [py "alpha"] tt tt _ E).
Defined.

(** ** The cap of the block scan *)

Lemma blocks_loop_cap (url : str) (nodes : list (option Sighting)) (scanned : Z)
      (acc : list CompetitorSchedule.t * seen_set) :
  (0 <= scanned)%Z ->
  blocks_loop url nodes scanned acc
  = blocks_loop url (firstn (Z.to_nat (2200 - scanned)) nodes) scanned acc.
Proof.
  revert scanned acc; induction nodes as [|node nodes IH];
    intros scanned acc Hs; [now rewrite firstn_nil|].
  cbn [blocks_loop].
  destruct (2200 <? scanned + 1)%Z eqn:E.
  - apply Z.ltb_lt in E.
    replace (Z.to_nat (2200 - scanned)) with 0%nat by lia. reflexivity.
  - pose proof (proj1 (Z.ltb_ge _ _) E) as Hle.
    replace (Z.to_nat (2200 - scanned))
      with (S (Z.to_nat (2200 - (scanned + 1)))) by lia.
    cbn [firstn blocks_loop]. rewrite E.
    destruct node as [s|]; apply IH; lia.
Qed.

Lemma record_once_length (key : key4) (record : CompetitorSchedule.t)
      (acc : list CompetitorSchedule.t * seen_set) :
  (length (fst (record_once key record acc)) <= S (length (fst acc)))%nat.
Proof.
  destruct acc as [rows seen]. unfold record_once.
  destruct (seen_mem key seen); cbn [fst]; [lia|].
  rewrite length_app. cbn [length]. lia.
Qed.

Lemma blocks_loop_length (url : str) (nodes : list (option Sighting))
      (scanned : Z) (acc : list CompetitorSchedule.t * seen_set) :
  (length (fst (blocks_loop url nodes scanned acc))
   <= length (fst acc) + length nodes)%nat.
Proof.
  revert scanned acc; induction nodes as [|node nodes IH];
    intros scanned acc; cbn [blocks_loop length]; [lia|].
  destruct (2200 <? scanned + 1)%Z; [lia|].
  destruct node as [s|].
  - specialize (IH (scanned + 1)%Z (block_step url acc s)).
    pose proof (record_once_length
                  (s_name s, str_or (s_division s) TBD, str_or (s_time s) TBD,
                   str_or (s_mat s) TBD)
                  (CompetitorSchedule.mk (s_name s)
                     (str_or (s_affiliate s) "Team match")
                     (str_or (s_division s) TBD) [] (s_opponent s)
                     (str_or (s_time s) TBD) (str_or (s_mat s) TBD) url [])
                  acc) as Hl.
    change (record_once _ _ acc) with (block_step url acc s) in Hl. lia.
  - specialize (IH (scanned + 1)%Z acc). lia.
Qed.

Section BlockScan.
Context `{Externals}.

(** X12. [_parse_competitor_blocks] looks at the first 2200 nodes only: the
    nodes after them change nothing, and a page gives at most 2200 rows. *)
Theorem block_scan_capped (html : str) (kws : list str) (source_url : str)
        (seen : seen_set) :
  _parse_competitor_blocks html kws source_url seen
  = blocks_loop source_url (firstn 2200 (block_nodes html kws)) 0 ([], seen)
  /\ (length (fst (_parse_competitor_blocks html kws source_url seen))
      <= 2200)%nat.
Proof.
  assert (E : _parse_competitor_blocks html kws source_url seen
              = blocks_loop source_url (firstn 2200 (block_nodes html kws)) 0
                            ([], seen)).
  { unfold _parse_competitor_blocks.
    rewrite (blocks_loop_cap source_url (block_nodes html kws) 0); [|lia].
    reflexivity. }
  split; [exact E|]. rewrite E.
  pose proof (blocks_loop_length source_url
                (firstn 2200 (block_nodes html kws)) 0 ([], seen)) as Hl.
  pose proof (firstn_le_length 2200 (block_nodes html kws)) as Hf.
  cbn [fst length] in Hl. lia.
Qed.

End BlockScan.

(** ** People and affiliates of an event *)

Lemma StronglySorted_weaken {A : Type} (R R' : A -> A -> Prop) (l : list A) :
  (forall x y, In x l -> In y l -> R x y -> R' x y) ->
  StronglySorted R l -> StronglySorted R' l.
Proof.
  intros Hw Hs. induction Hs as [|a l Hs IH Hall]; [constructor|].
  constructor.
  - apply IH. intros x y Hx Hy. apply Hw; now right.
  - rewrite Forall_forall in *. intros y Hy.
    apply Hw; [now left | now right | now apply Hall].
Qed.

Lemma StronglySorted_firstn {A : Type} (R : A -> A -> Prop) (n : nat)
      (l : list A) :
  StronglySorted R l -> StronglySorted R (firstn n l).
Proof.
  intros Hs. revert n. induction Hs as [|a l Hs IH Hall]; intros n;
    [rewrite firstn_nil; constructor|].
  destruct n as [|n]; cbn [firstn]; [constructor|].
  constructor; [apply IH|].
  rewrite Forall_forall in *. intros y Hy. eapply Hall, In_firstn, Hy.
Qed.

Lemma StronglySorted_map {A B : Type} (R : B -> B -> Prop) (f : A -> B)
      (l : list A) :
  StronglySorted (fun x y => R (f x) (f y)) l -> StronglySorted R (map f l).
Proof.
  intros Hs. induction Hs as [|a l Hs IH Hall]; cbn [map]; [constructor|].
  constructor; [exact IH|].
  rewrite Forall_forall in *. intros y Hy.
  apply in_map_iff in Hy as (x & <- & Hx). now apply Hall.
Qed.

Lemma StronglySorted_cross {A : Type} (R : A -> A -> Prop) (l1 l2 : list A) :
  StronglySorted R (l1 ++ l2) ->
  forall x y, In x l1 -> In y l2 -> R x y.
Proof.
  induction l1 as [|a l1 IH]; cbn [app]; intros Hs x y Hx Hy; [destruct Hx|].
  apply StronglySorted_inv in Hs as [Hs Hall].
  destruct Hx as [<-|Hx]; [|now apply IH].
  rewrite Forall_forall in Hall. apply Hall, in_or_app. now right.
Qed.

Lemma key_le_fst_Z {B : Type} `{Cmp B} (a1 a2 : Z) (b1 b2 : B) :
  key_le (a1, b1) (a2, b2) -> (a1 <= a2)%Z.
Proof.
  unfold key_le. intros Hne.
  destruct (Z_le_gt_dec a1 a2) as [Hle|Hgt]; [exact Hle|].
  exfalso. apply Hne.
  change (match Z.compare a1 a2 with Eq => cmp b1 b2 | o => o end = Gt).
  now rewrite (proj2 (Z.compare_gt_iff a1 a2)) by lia.
Qed.

Lemma dict_get_In {V : Type} (k : str) (v : V) (d : dict V) :
  NoDup (map fst d) -> (dict_get k d = Some v <-> In (k, v) d).
Proof.
  induction d as [|[k' v'] d IH]; cbn [dict_get map fst In]; intros Hn.
  - split; [discriminate | tauto].
  - apply NoDup_cons_iff in Hn as [Hk' Hn]. specialize (IH Hn).
    destruct (str_eqb k' k) eqn:E.
    + apply str_eqb_eq in E. subst k'. split.
      * intros E. injection E as ->. now left.
      * intros [E|Hin]; [now injection E as -> |].
        exfalso. apply Hk'. apply in_map_iff. now exists (k, v).
    + apply str_eqb_neq in E. rewrite IH. split; [tauto|].
      intros [E'|Hin]; [|exact Hin]. injection E' as -> ->. congruence.
Qed.

Lemma dict_set_In_iff {V : Type} (k : str) (v : V) (d : dict V) (k0 : str)
      (v0 : V) :
  NoDup (map fst d) ->
  (In (k0, v0) (dict_set k v d)
   <-> (k0 = k /\ v0 = v) \/ (k0 <> k /\ In (k0, v0) d)).
Proof.
  induction d as [|[k' v'] d IH]; cbn [dict_set map fst]; intros Hn.
  - cbn [In]. split.
    + intros [E|[]]. injection E as <- <-. now left.
    + intros [[-> ->]|[_ []]]. now left.
  - apply NoDup_cons_iff in Hn as [Hk' Hn]. specialize (IH Hn).
    destruct (str_eqb k' k) eqn:E.
    + apply str_eqb_eq in E. subst k'. cbn [In]. split.
      * intros [E|Hin]; [injection E as <- <-; now left|].
        right. split; [|now right].
        intros ->. apply Hk'. apply in_map_iff. now exists (k, v0).
      * intros [[-> ->]|[Hne [E|Hin]]]; [now left | | now right].
        injection E as -> ->. congruence.
    + apply str_eqb_neq in E. cbn [In]. rewrite IH. split.
      * intros [E'|[Hs|[Hne Hin]]].
        -- injection E' as <- <-. right. split; [exact E | now left].
        -- now left.
        -- right. split; [exact Hne | now right].
      * intros [Hs|[Hne [E'|Hin]]].
        -- right. now left.
        -- now left.
        -- right. right. now split.
Qed.

Lemma count_step_eq (counts : dict Z) (row : CompetitorSchedule.t) :
  count_step counts row
  = match counted_label row with
    | Some a =>
        dict_set a
                 (match dict_get a counts with Some n => n | None => 0 end + 1)%Z
                 counts
    | None => counts
    end.
Proof.
  unfold count_step, counted_label.
  destruct (is_empty _); [reflexivity|].
  destruct (str_mem _ _); [reflexivity|].
  destruct (_is_likely_affiliate_label _); reflexivity.
Qed.

Lemma occurrences_snoc (k : str) (rows : list CompetitorSchedule.t)
      (r : CompetitorSchedule.t) :
  occurrences k (rows ++ [r])
  = (occurrences k rows
     + match counted_label r with
       | Some a => if str_eqb a k then 1 else 0
       | None => 0
       end)%Z.
Proof.
  unfold occurrences. rewrite filter_app, length_app. cbn [filter].
  destruct (counted_label r) as [a|]; [destruct (str_eqb a k)|];
    cbn [length]; lia.
Qed.

Lemma occurrences_nonneg (k : str) (rows : list CompetitorSchedule.t) :
  (0 <= occurrences k rows)%Z.
Proof. unfold occurrences. lia. Qed.

Lemma occurrences_row (k : str) (rows : list CompetitorSchedule.t) :
  (0 < occurrences k rows)%Z ->
  exists row, In row rows /\ counted_label row = Some k.
Proof.
  unfold occurrences.
  destruct (filter _ rows) as [|row l] eqn:E; cbn [length]; [lia|].
  intros _. assert (Hin : In row (filter
    (fun r => match counted_label r with
              | Some a => str_eqb a k
              | None => false
              end) rows)) by (rewrite E; now left).
  apply filter_In in Hin as [Hin Hk]. exists row. split; [exact Hin|].
  destruct (counted_label row) as [a|]; [|discriminate].
  apply str_eqb_eq in Hk. now subst.
Qed.

Lemma count_step_counts (done : list CompetitorSchedule.t) (d : dict Z)
      (r : CompetitorSchedule.t) :
  counts_of done d -> counts_of (done ++ [r]) (count_step d r).
Proof.
  intros [Hn Hd]. rewrite count_step_eq. unfold counts_of.
  destruct (counted_label r) as [a|] eqn:Er.
  - split.
    + rewrite dict_set_keys. destruct (dict_mem a d) eqn:Em; [exact Hn|].
      apply NoDup_snoc; [exact Hn|]. rewrite <- dict_mem_In. congruence.
    + intros k v. rewrite (dict_set_In_iff _ _ _ _ _ Hn), occurrences_snoc, Er.
      assert (Ha : match dict_get a d with Some n => n | None => 0%Z end
                   = occurrences a done).
      { destruct (dict_get a d) as [n|] eqn:Eg.
        - apply (dict_get_In a n d Hn) in Eg. now apply Hd in Eg.
        - pose proof (occurrences_nonneg a done) as H0.
          destruct (Z.eq_dec (occurrences a done) 0) as [E0|E0];
            [now rewrite E0|].
          assert (Hin : In (a, occurrences a done) d)
            by (apply Hd; split; [reflexivity | lia]).
          apply (dict_get_In a _ d Hn) in Hin. congruence. }
      rewrite Ha. pose proof (occurrences_nonneg a done) as H0.
      destruct (str_eqb a k) eqn:Eak.
      * apply str_eqb_eq in Eak. subst k. split.
        -- intros [[_ ->]|[Hne _]]; [split; [reflexivity | lia] | congruence].
        -- intros [-> _]. left. now split.
      * apply str_eqb_neq in Eak. rewrite Z.add_0_r, Hd. split.
        -- intros [[-> _]|[_ Hv]]; [congruence | exact Hv].
        -- intros Hv. right. split; [congruence | exact Hv].
  - split; [exact Hn|]. intros k v. rewrite occurrences_snoc, Er, Z.add_0_r.
    apply Hd.
Qed.

Lemma count_fold_counts (rest done : list CompetitorSchedule.t) (d : dict Z) :
  counts_of done d -> counts_of (done ++ rest) (fold_left count_step rest d).
Proof.
  revert done d; induction rest as [|r rest IH]; intros done d Hd;
    cbn [fold_left]; [now rewrite app_nil_r|].
  replace (done ++ r :: rest) with ((done ++ [r]) ++ rest)
    by (rewrite <- app_assoc; reflexivity).
  apply IH, count_step_counts, Hd.
Qed.

Lemma counted_label_inv (row : CompetitorSchedule.t) (l : str) :
  counted_label row = Some l ->
  l = strip (CompetitorSchedule.academy row)
  /\ l <> []
  /\ ~ In (lower l) [py "tbd"; py "team match"; py "unknown"]
  /\ _is_likely_affiliate_label l = true.
Proof.
  unfold counted_label.
  destruct (strip (CompetitorSchedule.academy row)) as [|c s] eqn:Es;
    [discriminate|].
  cbn [is_empty].
  destruct (str_mem _ _) eqn:Em; [discriminate|].
  destruct (_is_likely_affiliate_label _) eqn:El; [|discriminate].
  intros E. injection E as <-. split; [reflexivity|].
  split; [discriminate|]. split; [|exact El].
  rewrite <- str_mem_In. congruence.
Qed.

Lemma people_loop_inv (limit : nat) (all : list CompetitorSchedule.t)
      (P : str * str -> Prop) :
  (forall row, In row all ->
     P (strip (CompetitorSchedule.competitor_name row),
        strip (str_or (CompetitorSchedule.division row) TBD))) ->
  forall rows out seen,
    incl rows all ->
    (length out < limit \/ out = []) ->
    NoDup (map (fun p => lower (fst p)) out) ->
    (forall p, In p out -> In (lower (fst p)) seen) ->
    (forall k, In k seen -> exists p, In p out /\ lower (fst p) = k) ->
    Forall (fun p => _is_plausible_person_name (fst p) = true /\ P p) out ->
    let r := people_loop limit rows out seen in
    length r <= Nat.max 1 limit
    /\ NoDup (map (fun p => lower (fst p)) r)
    /\ Forall (fun p => _is_plausible_person_name (fst p) = true /\ P p) r
    /\ (exists tail, r = out ++ tail)
    /\ (length r < limit ->
        forall row, In row rows ->
          _is_plausible_person_name
            (strip (CompetitorSchedule.competitor_name row)) = true ->
          exists p, In p r
                    /\ lower (fst p)
                       = lower (strip (CompetitorSchedule.competitor_name row))).
Proof.
  intros HP. induction rows as [|row rest IH];
    intros out seen Hincl Hlen Hnd Hseen Hback Hall; cbn zeta.
  - cbn [people_loop]. split; [destruct Hlen as [Hl| ->]; cbn [length]; lia|].
    split; [exact Hnd|]. split; [exact Hall|].
    split; [exists []; now rewrite app_nil_r|]. intros _ row [].
  - cbn [people_loop].
    assert (Hrest : incl rest all) by (intros x Hx; apply Hincl; now right).
    set (name := strip (CompetitorSchedule.competitor_name row)).
    destruct (_is_plausible_person_name name) eqn:Epl; cbn [negb].
    2:{ destruct (IH out seen Hrest Hlen Hnd Hseen Hback Hall)
          as (R1 & R2 & R3 & R4 & R5).
        repeat (split; [assumption|]).
        intros Hlt row' [<-|Hin] Hpl; [fold name in Hpl; congruence|].
        now apply R5. }
    destruct (str_mem (lower name) seen) eqn:Em.
    { destruct (IH out seen Hrest Hlen Hnd Hseen Hback Hall)
        as (R1 & R2 & R3 & R4 & R5).
      repeat (split; [assumption|]).
      intros Hlt row' [<-|Hin] Hpl; [|now apply R5].
      fold name. apply str_mem_In in Em.
      destruct (Hback _ Em) as (p & Hp & Ep). destruct R4 as [tail ->].
      exists p. split; [apply in_or_app; now left | exact Ep]. }
    set (division := strip (str_or (CompetitorSchedule.division row) TBD)).
    assert (Hfresh : ~ In (lower name) (map (fun p => lower (fst p)) out)).
    { intros Hin. apply in_map_iff in Hin as (p & Ep & Hp).
      apply Hseen in Hp. rewrite Ep in Hp. apply str_mem_In in Hp. congruence. }
    assert (Hnd' : NoDup (map (fun p => lower (fst p))
                              (out ++ [(name, division)]))).
    { rewrite map_app. cbn [map fst]. now apply NoDup_snoc. }
    assert (Hall' : Forall (fun p => _is_plausible_person_name (fst p) = true
                                     /\ P p) (out ++ [(name, division)])).
    { apply Forall_app. split; [exact Hall|]. constructor; [|constructor].
      cbn [fst]. split; [exact Epl|]. apply HP, Hincl. now left. }
    destruct (limit <=? length (out ++ [(name, division)]))%nat eqn:El.
    + apply Nat.leb_le in El. rewrite length_app in El |- *.
      cbn [length] in El |- *.
      split; [destruct Hlen as [Hl| ->]; cbn [length]; lia|].
      split; [exact Hnd'|]. split; [exact Hall'|].
      split; [now exists [(name, division)]|]. intros Hlt. lia.
    + apply Nat.leb_gt in El.
      destruct (IH (out ++ [(name, division)]) (lower name :: seen) Hrest)
        as (R1 & R2 & R3 & R4 & R5).
      * now left.
      * exact Hnd'.
      * intros p Hp. apply in_app_or in Hp as [Hp|[<-|[]]];
          [right; now apply Hseen | now left].
      * intros k [<-|Hk].
        -- exists (name, division). split; [|reflexivity].
           apply in_or_app. right. now left.
        -- destruct (Hback k Hk) as (p & Hp & Ep). exists p.
           split; [apply in_or_app; now left | exact Ep].
      * exact Hall'.
      * split; [exact R1|]. split; [exact R2|]. split; [exact R3|].
        split.
        { destruct R4 as [tail Et]. exists ((name, division) :: tail).
          rewrite Et, <- app_assoc. reflexivity. }
        intros Hlt row' [<-|Hin] Hpl; [|now apply R5].
        fold name. destruct R4 as [tail Et]. exists (name, division).
        split; [|reflexivity]. rewrite Et.
        apply in_or_app. left. apply in_or_app. right. now left.
Qed.

Section Detect.
Context `{Externals}.

(** X13. [detect_affiliates_for_event] returns at most [limit] labels, all
    different; each is the stripped academy of a record of the event, is
    not empty, is none of "tbd", "team match" and "unknown" in any case, and
    passes [_is_likely_affiliate_label]; the labels stand in the order of
    their number of records, largest first, and no label left out has more
    records than one returned. *)
Theorem detect_affiliates_ranked (self : client) (event : Event.t)
        (limit : nat) (w w' : World) (labels : list str) :
  detect_affiliates_for_event self event limit w = (Ok labels, w') ->
  exists rows,
    fetch_competitors_for_event self event [] w = (Ok rows, w')
    /\ length labels <= limit
    /\ NoDup labels
    /\ (forall l, In l labels ->
          l <> []
          /\ ~ In (lower l) [py "tbd"; py "team match"; py "unknown"]
          /\ _is_likely_affiliate_label l = true
          /\ exists row, In row rows
                         /\ l = strip (CompetitorSchedule.academy row))
    /\ StronglySorted
         (fun a b => (occurrences b rows <= occurrences a rows)%Z) labels
    /\ (forall a b, In a labels -> ~ In b labels ->
          (occurrences b rows <= occurrences a rows)%Z).
Proof.
  unfold detect_affiliates_for_event. rewrite bind_eq.
  destruct (fetch_competitors_for_event self event [] w)
    as [[rows|e] w1]; [|discriminate].
  unfold ret. intros E. injection E as <- <-. exists rows.
  split; [reflexivity|].
  pose proof (count_fold_counts rows [] []) as Hc. cbn [app] in Hc.
  destruct Hc as [Hn Hd].
  { split; [constructor|]. intros k v. cbn [In]. split; [tauto|].
    intros [-> H0]. unfold occurrences in H0. cbn in H0. lia. }
  set (counts := fold_left count_step rows []) in *.
  set (key := fun kv : str * Z => ((- snd kv)%Z, lower (fst kv))).
  set (ordered := sort_by key counts).
  assert (Hin : forall kv, In kv ordered ->
                  snd kv = occurrences (fst kv) rows
                  /\ (0 < occurrences (fst kv) rows)%Z).
  { intros [k v] Hkv. apply sort_by_In in Hkv. apply Hd in Hkv as [-> H0].
    cbn [fst snd]. split; [reflexivity | exact H0]. }
  assert (Hs : StronglySorted
                 (fun x y => (occurrences (fst y) rows
                              <= occurrences (fst x) rows)%Z) ordered).
  { apply (StronglySorted_weaken (le_by key)); [|apply sort_by_sorted].
    intros [k1 v1] [k2 v2] H1 H2 Hle.
    destruct (Hin _ H1) as [E1 _]. destruct (Hin _ H2) as [E2 _].
    cbn [fst snd] in *. unfold le_by, key in Hle. cbn [fst snd] in Hle.
    apply key_le_fst_Z in Hle. lia. }
  split; [rewrite length_map; apply firstn_le_length|].
  split.
  { rewrite <- firstn_map. apply NoDup_firstn.
    apply NoDup_map_sort_by. exact Hn. }
  split.
  { intros l Hl. apply in_map_iff in Hl as ([k v] & <- & Hkv). cbn [fst].
    apply In_firstn in Hkv. destruct (Hin _ Hkv) as [_ H0]. cbn [fst] in H0.
    destruct (occurrences_row _ _ H0) as (row & Hrow & Er).
    destruct (counted_label_inv _ _ Er) as (E1 & E2 & E3 & E4).
    repeat (split; [assumption|]). now exists row. }
  split.
  { apply StronglySorted_map, StronglySorted_firstn, Hs. }
  intros a b Ha Hb.
  destruct (Z_le_gt_dec (occurrences b rows) 0) as [H0|H0].
  { pose proof (occurrences_nonneg a rows). lia. }
  apply in_map_iff in Ha as ([ka va] & <- & Hka). cbn [fst].
  assert (Hbo : In (b, occurrences b rows) ordered).
  { apply sort_by_In. apply Hd. split; [reflexivity | lia]. }
  rewrite <- (firstn_skipn limit ordered) in Hbo, Hs.
  apply in_app_or in Hbo as [Hbo|Hbo].
  { exfalso. apply Hb. apply in_map_iff. now exists (b, occurrences b rows). }
  exact (StronglySorted_cross _ _ _ Hs _ _ Hka Hbo).
Qed.

(** X14. [detect_people_for_event] returns at most [max(1, limit)] pairs;
    no two names agree when case is ignored; each name passes
    [_is_plausible_person_name] and is the stripped name of a record, paired
    with that record's stripped division; and when fewer than [limit] pairs
    are returned, every plausible name of the event is among them. *)
Theorem detect_people_distinct (self : client) (event : Event.t)
        (limit : nat) (w w' : World) (people : list (str * str)) :
  detect_people_for_event self event limit w = (Ok people, w') ->
  exists rows,
    fetch_competitors_for_event self event [] w = (Ok rows, w')
    /\ length people <= Nat.max 1 limit
    /\ NoDup (map (fun p => lower (fst p)) people)
    /\ (forall p, In p people ->
          _is_plausible_person_name (fst p) = true
          /\ exists row, In row rows
               /\ fst p = strip (CompetitorSchedule.competitor_name row)
               /\ snd p = strip (str_or (CompetitorSchedule.division row) TBD))
    /\ (length people < limit ->
        forall row, In row rows ->
          _is_plausible_person_name
            (strip (CompetitorSchedule.competitor_name row)) = true ->
          exists p, In p people
                    /\ lower (fst p)
                       = lower (strip (CompetitorSchedule.competitor_name row))).
Proof.
  unfold detect_people_for_event. rewrite bind_eq.
  destruct (fetch_competitors_for_event self event [] w)
    as [[rows|e] w1]; [|discriminate].
  unfold ret. intros E. injection E as <- <-. exists rows.
  split; [reflexivity|].
  destruct (people_loop_inv limit rows
              (fun p => exists row, In row rows
                 /\ fst p = strip (CompetitorSchedule.competitor_name row)
                 /\ snd p = strip (str_or (CompetitorSchedule.division row) TBD)))
    with (rows := rows) (out := @nil (str * str)) (seen := @nil str)
    as (R1 & R2 & R3 & _ & R5).
  - intros row Hrow. exists row. cbn [fst snd]. auto.
  - apply incl_refl.
  - now right.
  - constructor.
  - intros p [].
  - intros k [].
  - constructor.
  - split; [exact R1|]. split; [exact R2|]. split; [|exact R5].
    rewrite Forall_forall in R3. exact R3.
Qed.

End Detect.

Lemma detect_affiliates_ranked_witness :
  exists rows,
    detect_affiliates_for_event (H := event_page_world) the_client
                                event_26935 12 tt
    = (Ok [py "alpha"; py "Alpha BJJ"], tt)
    /\ fetch_competitors_for_event (H := event_page_world) the_client
                                   event_26935 [] tt = (Ok rows, tt)
    /\ NoDup [py "alpha"; py "Alpha BJJ"]
    /\ StronglySorted
         (fun a b => (occurrences b rows <= occurrences a rows)%Z)
         [py "alpha"; py "Alpha BJJ"].
Proof.
  assert (E : detect_affiliates_for_event (H := event_page_world) the_client
                                          event_26935 12 tt
              = (Ok [py "alpha"; py "Alpha BJJ"], tt))
    by (vm_compute; reflexivity).
  destruct (detect_affiliates_ranked (H := event_page_world) the_client
              event_26935 12 tt tt _ E) as (rows & Hf & _ & Hn & _ & Hs & _).
  exists rows. split; [exact E|]. split; [exact Hf|]. split; assumption.
Defined.

Lemma detect_people_distinct_witness :
  exists rows,
    detect_people_for_event (H := complete_page_world) the_client
                            event_26935 15 tt
    = (Ok [(py "Alice Santos", py "Adult -70kg")], tt)
    /\ fetch_competitors_for_event (H := complete_page_world) the_client
                                   event_26935 [] tt = (Ok rows, tt)
    /\ forall row, In row rows ->
         _is_plausible_person_name
           (strip (CompetitorSchedule.competitor_name row)) = true ->
         exists p, In p [(py "Alice Santos", py "Adult -70kg")]
                   /\ lower (fst p)
                      = lower (strip (CompetitorSchedule.competitor_name row)).
Proof.
  assert (E : detect_people_for_event (H := complete_page_world) the_client
                                      event_26935 15 tt
              = (Ok [(py "Alice Santos", py "Adult -70kg")], tt))
    by (vm_compute; reflexivity).
  destruct (detect_people_distinct (H := complete_page_world) the_client
              event_26935 15 tt tt _ E) as (rows & Hf & _ & _ & _ & Hall).
  exists rows. split; [exact E|]. split; [exact Hf|].
  apply Hall. cbn [length]. lia.
Defined.

(** ** Normalised names and the query of a search *)

(** X15. [_normalize_name] gives lower-case letters, digits and blanks
    only. *)
Theorem normalize_name_alphabet (text : str) :
  all_chars is_name_char (_normalize_name text).
Proof.
  unfold all_chars, _normalize_name. rewrite (re_sub_plus _ [] _).
  apply forallb_forall. apply Forall_forall.
  apply sub_runs_Forall; [constructor|].
  intros c _ Hc. now destruct (is_name_char c).
Qed.

Lemma normalize_name_lower (text : str) :
  _normalize_name (lower text) = _normalize_name text.
Proof.
  unfold _normalize_name. f_equal.
  rewrite !re_sub_plus.
  change (sub_runs is_space " " false (lower text))
    with (sub_runs is_space (map lower_char " ") false (map lower_char text)).
  rewrite <- (sub_runs_map lower_char is_space " " false text is_space_lower).
  change (map lower_char (sub_runs is_space " " false text))
    with (lower (sub_runs is_space " " false text)).
  now rewrite strip_lower, lower_idem.
Qed.

Section SearchCase.
Context `{Externals}.

(** X16. The case of the query does not matter to a search: two queries
    that agree when lowered give the same normalised name, the same ranking
    and the same answer of [search_events_by_name]. *)
Theorem search_ignores_case (q1 q2 : str) :
  lower q1 = lower q2 ->
  _normalize_name q1 = _normalize_name q2
  /\ (forall events year limit,
        rank_events events q1 year limit = rank_events events q2 year limit)
  /\ (forall self year country limit w,
        search_events_by_name self q1 year country limit w
        = search_events_by_name self q2 year country limit w).
Proof.
  intros Hq.
  assert (Hn : _normalize_name q1 = _normalize_name q2).
  { rewrite <- (normalize_name_lower q1), <- (normalize_name_lower q2).
    now rewrite Hq. }
  assert (Hr : forall events year limit,
             rank_events events q1 year limit
             = rank_events events q2 year limit).
  { intros events year limit. unfold rank_events. now rewrite Hn. }
  split; [exact Hn|]. split; [exact Hr|].
  intros self year country limit w. unfold search_events_by_name.
  rewrite !bind_eq.
  destruct (fetch_events self year country w) as [[primary|e] w1];
    [|reflexivity].
  rewrite !bind_eq.
  destruct (_fetch_events_from_fallback self year country None w1)
    as [[broad|e] w2]; [|reflexivity].
  unfold ret. now rewrite Hr.
Qed.

End SearchCase.

Lemma search_ignores_case_witness :
  lower "CEBU Summer" = lower "cebu summer"
  /\ search_events_by_name (H := mirror_world) the_client "CEBU Summer" 2026
                           "Philippines" 10 tt
     = search_events_by_name (H := mirror_world) the_client "cebu summer" 2026
                             "Philippines" 10 tt.
Proof.
  assert (E : lower "CEBU Summer" = lower "cebu summer") by reflexivity.
  split; [exact E|].
  apply (search_ignores_case (H := mirror_world) "CEBU Summer" "cebu summer" E).
Defined.

(** ** The id of a URL with an [/event/<digits>] segment *)

Lemma starts_with_extend (w s x : str) :
  starts_with w s = true -> starts_with w (s ++ x) = true.
Proof.
  revert s; induction w as [|c w IH]; intros [|d s]; cbn [starts_with app];
    try reflexivity; try discriminate.
  intros Hs. apply andb_true_iff in Hs as [Hc Hw].
  now rewrite Hc, (IH s Hw).
Qed.

Lemma segment_head_extend (s x : str) :
  starts_with "/event/" s
  && match skipn 7 s with d :: _ => is_digit d | [] => false end = true ->
  starts_with "/event/" (s ++ x)
  && match skipn 7 (s ++ x) with d :: _ => is_digit d | [] => false end = true.
Proof.
  intros Hs. apply andb_true_iff in Hs as [Hw Hd].
  rewrite (starts_with_extend _ _ x Hw). rewrite skipn_app.
  destruct (skipn 7 s) as [|d post]; [discriminate|]. exact Hd.
Qed.

Lemma first_segment (url : str) :
  has_event_segmentb url = true ->
  exists pre ds rest,
    url = pre ++ py "/event/" ++ ds ++ rest
    /\ isdigit ds = true
    /\ match rest with [] => True | c :: _ => is_digit c = false end
    /\ has_event_segmentb (pre ++ py "/event/") = false.
Proof.
  induction url as [|c t IH]; [discriminate|].
  intros Hb.
  destruct (starts_with "/event/" (c :: t)
            && match skipn 7 (c :: t) with
               | d :: _ => is_digit d
               | [] => false
               end) eqn:Eh.
  - apply andb_true_iff in Eh as [Hw Hd].
    apply (starts_with_inv "/event/") in Hw.
    change (length (py "/event/")) with 7 in Hw.
    destruct (skipn 7 (c :: t)) as [|d post]; [discriminate|].
    destruct (drop_while_suffix is_digit post) as (m & Em & Hm).
    exists [], (d :: m), (drop_while is_digit post).
    split; [|split; [|split]].
    + rewrite Hw. cbn [app]. do 8 f_equal. exact Em.
    + cbn [isdigit forallb]. now rewrite Hd, Hm.
    + apply drop_while_head.
    + reflexivity.
  - assert (Ht : has_event_segmentb t = true).
    { change (has_event_segmentb (c :: t))
        with (starts_with "/event/" (c :: t)
              && match skipn 7 (c :: t) with
                 | d :: _ => is_digit d
                 | [] => false
                 end || has_event_segmentb t) in Hb.
      now rewrite Eh in Hb. }
    destruct (IH Ht) as (pre & ds & rest & -> & Hds & Hrest & Hpre).
    exists (c :: pre), ds, rest. split; [reflexivity|].
    split; [exact Hds|]. split; [exact Hrest|].
    change (has_event_segmentb ((c :: pre) ++ py "/event/"))
      with (starts_with "/event/" (c :: pre ++ py "/event/")
            && match skipn 7 (c :: pre ++ py "/event/") with
               | d :: _ => is_digit d
               | [] => false
               end || has_event_segmentb (pre ++ py "/event/")).
    rewrite Hpre, orb_false_r.
    destruct (starts_with "/event/" (c :: pre ++ py "/event/")
              && match skipn 7 (c :: pre ++ py "/event/") with
                 | d :: _ => is_digit d
                 | [] => false
                 end) eqn:Es; [|reflexivity].
    apply (segment_head_extend _ (ds ++ rest)) in Es.
    replace ((c :: pre ++ py "/event/") ++ ds ++ rest)
      with (c :: pre ++ py "/event/" ++ ds ++ rest) in Es
      by (cbn [app]; now rewrite <- !app_assoc).
    congruence.
Qed.

(** X17. With an [/event/<digits>] segment in the URL, [_event_id_from_url]
    is the whole digit run of the first such segment: a non-empty string of
    digits. *)
Theorem event_id_with_segment (url : str) :
  has_event_segment url ->
  isdigit (_event_id_from_url url) = true
  /\ exists pre rest,
       url = pre ++ py "/event/" ++ _event_id_from_url url ++ rest
       /\ ~ has_event_segment (pre ++ py "/event/")
       /\ match rest with [] => True | c :: _ => is_digit c = false end.
Proof.
  intros Hs. apply has_event_segmentb_spec in Hs.
  destruct (first_segment url Hs) as (pre & ds & rest & E & Hds & Hrest & Hpre).
  assert (Hno : ~ has_event_segment (pre ++ py "/event/")).
  { intros H. apply has_event_segmentb_spec in H. congruence. }
  assert (Eid : _event_id_from_url url = ds).
  { rewrite E. now apply event_id_from_segment. }
  rewrite Eid. split; [exact Hds|]. now exists pre, rest.
Qed.

Lemma event_id_with_segment_witness :
  has_event_segment "https://smoothcomp.com/en/event/26935/schedule"
  /\ _event_id_from_url "https://smoothcomp.com/en/event/26935/schedule"
     = py "26935"
  /\ isdigit (_event_id_from_url
                "https://smoothcomp.com/en/event/26935/schedule") = true.
Proof.
  assert (H : has_event_segment
                "https://smoothcomp.com/en/event/26935/schedule")
    by (apply has_event_segmentb_spec; reflexivity).
  split; [exact H|]. split; [reflexivity|].
  exact (proj1 (event_id_with_segment _ H)).
Defined.

(** ** The canonical form of an event URL *)

Lemma split1_head_prefix (sep : ascii) (s : str) :
  exists post, s = split1_head sep s ++ post.
Proof.
  induction s as [|c t [post IH]]; cbn [split1_head]; [now exists []|].
  destruct (Ascii.eqb c sep); [now exists (c :: t)|].
  exists post. cbn [app]. now rewrite <- IH.
Qed.

Lemma split1_head_free (sep : ascii) (s : str) : ~ In sep (split1_head sep s).
Proof.
  induction s as [|c t IH]; cbn [split1_head]; [intros []|].
  destruct (Ascii.eqb c sep) eqn:E; [intros []|].
  intros [->|Hin]; [|now apply IH].
  now rewrite Ascii.eqb_refl in E.
Qed.

Lemma rstrip_by_last (p : ascii -> bool) (s : str) (c : ascii) :
  p c = false -> rstrip_by p (s ++ [c]) = s ++ [c].
Proof.
  intros Hc. unfold rstrip_by. rewrite rev_app_distr. cbn [rev app drop_while].
  rewrite Hc. cbn [rev]. now rewrite rev_involutive.
Qed.

Lemma rmatch_cat_tail (r1 r2 : regex) (s : str) (g : list str) (rest : str) :
  In (g, rest) (rmatch (Cat r1 r2) s) ->
  exists m mid g2, s = m ++ mid /\ In (g2, rest) (rmatch r2 mid).
Proof.
  intros Hin. apply rmatch_cat_inv in Hin as (g1 & mid & g2 & H1 & H2 & _).
  apply rmatch_suffix in H1 as [m ->]. now exists m, mid, g2.
Qed.

Lemma digits_no_slash (ds : str) :
  isdigit ds = true -> forall x, rstrip_slash (x ++ ds) = x ++ ds.
Proof.
  intros Hds x. destruct ds as [|d ds]; [discriminate|].
  cbn [isdigit] in Hds.
  destruct (exists_last (l := d :: ds)) as (ds' & c & E); [discriminate|].
  rewrite E in *. rewrite app_assoc. apply rstrip_by_last.
  rewrite forallb_app in Hds. apply andb_true_iff in Hds as [_ Hc].
  cbn [forallb] in Hc. rewrite andb_true_r in Hc.
  destruct (Ascii.eqb_spec "/" c) as [<-|]; [discriminate Hc | reflexivity].
Qed.

(** X18. The result of [_canonical_event_url] is a piece of the URL it was
    given; it holds no ["?"] and ends in no ["/"]. *)
Theorem canonical_event_url_shape (url : str) :
  occurs_in (_canonical_event_url url) url
  /\ ~ In "?"%char (_canonical_event_url url)
  /\ rstrip_slash (_canonical_event_url url) = _canonical_event_url url.
Proof.
  unfold _canonical_event_url.
  destruct (split1_head_prefix "?" url) as [post1 E1].
  destruct (rstrip_by_prefix (Ascii.eqb "/") (split1_head "?" url))
    as (post2 & E2 & _).
  fold (rstrip_slash (split1_head "?" url)) in E2.
  pose proof (split1_head_free "?" url) as Hfree.
  set (u := rstrip_slash (split1_head "?" url)) in *.
  destruct (re_search canonical_re u) as [m|] eqn:Es.
  - apply re_search_inv in Es as (pre & t & Eu & Em).
    apply re_match_inv in Em as [Hin _].
    unfold canonical_re in Hin.
    apply rmatch_grp_inv in Hin as (g & Eg & Hin).
    unfold group. rewrite Eg. cbn [pred nth].
    set (rest := m_rest m) in *.
    pose proof Hin as Hsuf. apply rmatch_suffix in Hsuf as [mm Et].
    rewrite Et, consumed_app.
    split; [|split].
    + exists pre, (rest ++ post2 ++ post1).
      rewrite E1, E2, Eu, Et. now rewrite <- !app_assoc.
    + intros Hq. apply Hfree. rewrite E2, Eu, Et.
      apply in_or_app. left. apply in_or_app. right. apply in_or_app. now left.
    + apply rmatch_cat_tail in Hin as (m1 & t1 & g1 & T1 & Hin).
      apply rmatch_cat_tail in Hin as (m2 & t2 & g2 & T2 & Hin).
      apply rmatch_cat_tail in Hin as (m3 & t3 & g3 & T3 & Hin).
      apply rmatch_cat_tail in Hin as (m4 & t4 & g4 & T4 & Hin).
      apply rmatch_cat_tail in Hin as (m5 & t5 & g5 & T5 & Hin).
      apply rmatch_cat_tail in Hin as (m6 & t6 & g6 & T6 & Hin).
      apply rmatch_cat_tail in Hin as (m7 & t7 & g7 & T7 & Hin).
      unfold plus in Hin. apply rmatch_rep_inv in Hin as [_ Hin].
      apply rep_rems_sound in Hin as (ds & T8 & Hds & Hlen & _).
      assert (Emm : mm = (m1 ++ m2 ++ m3 ++ m4 ++ m5 ++ m6 ++ m7) ++ ds).
      { apply (app_inv_tail rest). rewrite <- Et, T1, T2, T3, T4, T5, T6, T7, T8.
        now rewrite <- !app_assoc. }
      rewrite Emm. apply digits_no_slash.
      destruct ds as [|d ds]; [cbn [length] in Hlen; lia | exact Hds].
  - split; [|split].
    + exists [], (post2 ++ post1). cbn [app]. rewrite E1 at 1.
      rewrite E2 at 1. now rewrite <- app_assoc.
    + intros Hq. apply Hfree. rewrite E2. apply in_or_app. now left.
    + apply rstrip_by_idem.
Qed.

(** ** Affiliate keywords *)

Lemma keyword_loop_cons (hay keyword : str) (rest : list str) :
  keyword_loop hay (keyword :: rest)
  = keyword_loop hay [keyword] || keyword_loop hay rest.
Proof.
  cbn [keyword_loop].
  destruct (is_empty (strip (lower keyword))); [reflexivity|].
  destruct (contains _ hay); [reflexivity|].
  destruct (is_empty (affiliate_tokens _)); [reflexivity|].
  destruct (_ || _); reflexivity.
Qed.

(** X19. With keywords given, [_text_matches_affiliate] holds of a text
    exactly when it holds of the text for one of the keywords alone; so
    lists of keywords add up, and their order does not matter. *)
Theorem text_matches_any_keyword (text : str) (affiliate_keywords : list str) :
  affiliate_keywords <> [] ->
  _text_matches_affiliate text affiliate_keywords
  = existsb (fun keyword => _text_matches_affiliate text [keyword])
            affiliate_keywords.
Proof.
  intros Hne. unfold _text_matches_affiliate.
  set (hay := lower (strip (re_sub (plus is_space) " " text))).
  destruct (is_empty hay).
  - induction affiliate_keywords as [|k ks IH]; [reflexivity|].
    cbn [existsb]. destruct ks as [|k' ks]; [reflexivity|].
    apply IH. discriminate.
  - destruct affiliate_keywords as [|k ks]; [contradiction|].
    cbn [is_empty]. clear Hne. revert k.
    induction ks as [|k' ks IH]; intros k.
    + cbn [existsb]. now rewrite orb_false_r.
    + rewrite keyword_loop_cons. cbn [existsb]. f_equal. apply IH.
Qed.

Lemma text_matches_any_keyword_witness :
  _text_matches_affiliate "Alpha BJJ  Manila" [py "bravo"; py "alpha bjj"]
  = existsb (fun keyword =>
               _text_matches_affiliate "Alpha BJJ  Manila" [keyword])
            [py "bravo"; py "alpha bjj"]
  /\ _text_matches_affiliate "Alpha BJJ  Manila" [py "bravo"; py "alpha bjj"]
     = true.
Proof.
  split; [|reflexivity].
  apply (text_matches_any_keyword "Alpha BJJ  Manila"
           [py "bravo"; py "alpha bjj"]).
  discriminate.
Defined.

(** ** The event id of a message *)

Lemma event_id_url_roundtrip (ds : str) :
  isdigit ds = true -> _event_id_from_url (event_url_from_id ds) = ds.
Proof.
  intros Hd. unfold event_url_from_id.
  change (py "https://smoothcomp.com/en/event/" ++ ds)
    with (py "https://smoothcomp.com/en" ++ py "/event/" ++ ds).
  rewrite <- (app_nil_r ds) at 1.
  apply event_id_from_segment; [|exact Hd|exact I].
  intros H. apply has_event_segmentb_spec in H. discriminate H.
Qed.

Lemma isdigit_str_isdigit (s : str) : isdigit s = true -> str_isdigit s = true.
Proof.
  unfold isdigit, str_isdigit. destruct s as [|c s]; [discriminate|].
  intros Hd. apply forallb_forall. intros x Hx.
  unfold is_digit_char.
  now rewrite (proj1 (forallb_forall is_digit (c :: s)) Hd x Hx).
Qed.

(** X20. What [TournaBot._extract_event_id] returns is a string of four to
    nine characters that [str.isdigit] accepts, and it stands in the
    message. When [EVENT_ID_RE] matched, its characters are the decimal
    digits [0] to [9]; and whenever they are, the event URL built from the
    string gives it back as its id. (A message that is only superscript
    digits is returned as it is, and its URL does not give it back.) *)
Theorem extract_event_id_sound (text event_id : str) :
  TournaBot._extract_event_id text = Some event_id ->
  str_isdigit event_id = true
  /\ 4 <= length event_id <= 9
  /\ occurs_in event_id text
  /\ (re_search_bow TournaBot.EVENT_ID_RE text <> None ->
      isdigit event_id = true)
  /\ (isdigit event_id = true ->
      _event_id_from_url (event_url_from_id event_id) = event_id).
Proof.
  unfold TournaBot._extract_event_id.
  destruct (re_search_bow TournaBot.EVENT_ID_RE text) as [m|] eqn:Es.
  - intros E. injection E as <-.
    apply re_search_bow_inv in Es as (pre & t & Etext & Em).
    apply re_match_inv in Em as [Hin _].
    unfold TournaBot.EVENT_ID_RE in Hin.
    apply rmatch_cat_skip in Hin as (m1 & t1 & T1 & Hin); [|reflexivity].
    apply rmatch_cat_skip in Hin as (m2 & t2 & T2 & Hin); [|reflexivity].
    apply rmatch_cat_skip in Hin as (m3 & t3 & T3 & Hin); [|reflexivity].
    apply rmatch_cat_skip in Hin as (m4 & t4 & T4 & Hin); [|reflexivity].
    apply rmatch_cat_skip in Hin as (m5 & t5 & T5 & Hin); [|reflexivity].
    apply rmatch_cat_skip in Hin as (m6 & t6 & T6 & Hin); [|reflexivity].
    apply rmatch_cat_inv in Hin as (g1 & mid & g2 & H1 & H2 & Eg).
    apply rmatch_grp_inv in H1 as (g' & E1 & H1).
    apply rmatch_rep_inv in H1 as [-> H1].
    apply rep_rems_sound in H1 as (ds & T7 & Hds & Hlo & Hhi).
    assert (Egm : group m 1 = ds).
    { unfold group. rewrite Eg, E1. cbn [pred nth app].
      now rewrite T7, consumed_app. }
    rewrite Egm.
    assert (Hd : isdigit ds = true).
    { destruct ds as [|d ds]; [cbn [length] in Hlo; lia | exact Hds]. }
    split; [now apply isdigit_str_isdigit|]. split; [lia|]. split.
    + exists (pre ++ m1 ++ m2 ++ m3 ++ m4 ++ m5 ++ m6), mid.
      rewrite Etext, T1, T2, T3, T4, T5, T6, T7. now rewrite <- !app_assoc.
    + split; [intros _; exact Hd | apply event_id_url_roundtrip].
  - destruct (str_isdigit (strip text) && (4 <=? length (strip text))%nat
              && (length (strip text) <=? 9)%nat) eqn:Ec; [|discriminate].
    intros E. injection E as <-.
    apply andb_true_iff in Ec as [Ec H9].
    apply andb_true_iff in Ec as [Hd H4].
    apply Nat.leb_le in H4, H9.
    split; [exact Hd|]. split; [lia|]. split; [apply strip_parts|].
    split; [intros Hn; now contradiction Hn | apply event_id_url_roundtrip].
Qed.

Lemma extract_event_id_sound_witness :
  TournaBot._extract_event_id "Schedule for Event ID: 26935 please"
  = Some (py "26935")
  /\ TournaBot._extract_event_id "  26935 " = Some (py "26935")
  /\ _event_id_from_url (event_url_from_id "26935") = py "26935".
Proof.
  assert (E : TournaBot._extract_event_id "Schedule for Event ID: 26935 please"
              = Some (py "26935")) by reflexivity.
  split; [exact E|]. split; [reflexivity|].
  exact (proj2 (proj2 (proj2 (proj2 (extract_event_id_sound _ _ E)))) eq_refl).
Defined.

(** Four superscript twos pass [str.isdigit] and are no digits for [\d]. *)
Example superscript_id_no_roundtrip :
  let twos := ["178"%char; "178"%char; "178"%char; "178"%char] in
  TournaBot._extract_event_id twos = Some twos
  /\ isdigit twos = false
  /\ _event_id_from_url (event_url_from_id twos) = event_url_from_id twos.
Proof. repeat split; vm_compute; reflexivity. Qed.

(** ** Labelled cells *)

(** X21. [_first_match] never gives an empty string and never one with
    white space at an end. *)
Theorem first_match_trimmed (cells markers : list str) (value : str) :
  _first_match cells markers = Some value -> value <> [] /\ trimmed value.
Proof.
  assert (Hn : forall x, nonempty (strip x) = Some value ->
                         value <> [] /\ trimmed value).
  { intros x. unfold nonempty. destruct (strip x) as [|c s] eqn:E;
      [discriminate|].
    intros E'. injection E' as <-. split; [discriminate|].
    rewrite <- E. apply strip_trimmed. }
  induction cells as [|cell rest IH]; cbn [_first_match]; [discriminate|].
  destruct (existsb _ markers); [|exact IH].
  destruct (contains ":" cell); [apply Hn|].
  destruct rest as [|next rest']; [discriminate | apply Hn].
Qed.

Lemma first_match_trimmed_witness :
  _first_match [py "Name"; py "Academy:  Alpha BJJ "; py "Adult"]
               [py "academy"; py "team"]
  = Some (py "Alpha BJJ")
  /\ py "Alpha BJJ" <> [] /\ trimmed "Alpha BJJ".
Proof.
  assert (E : _first_match [py "Name"; py "Academy:  Alpha BJJ "; py "Adult"]
                           [py "academy"; py "team"]
              = Some (py "Alpha BJJ")) by reflexivity.
  split; [exact E|]. exact (first_match_trimmed _ _ _ E).
Defined.

(** ** Splitting a long message *)

Lemma rfind_char_spec (c : ascii) (s : str) (i : nat) :
  TournaBot.rfind_char c s = Some i -> nth_error s i = Some c.
Proof.
  revert i; induction s as [|x t IH]; intros i; cbn [TournaBot.rfind_char];
    [discriminate|].
  destruct (TournaBot.rfind_char c t) as [j|].
  - intros E. injection E as <-. cbn [nth_error]. now apply IH.
  - destruct (Ascii.eqb_spec x c) as [->|]; [|discriminate].
    intros E. injection E as <-. reflexivity.
Qed.

Lemma cut_of_le (remaining : str) (limit : nat) :
  TournaBot.cut_of remaining limit <= limit.
Proof.
  unfold TournaBot.cut_of.
  destruct (TournaBot.rfind_char _ _) as [i|] eqn:E; [|lia].
  destruct (i <? limit / 2)%nat; [lia|].
  apply rfind_char_spec in E.
  assert (Hi : i < length (firstn limit remaining))
    by (apply nth_error_Some; congruence).
  rewrite length_firstn in Hi. lia.
Qed.

Lemma cut_of_zero (remaining : str) (limit : nat) :
  1 <= limit -> TournaBot.cut_of remaining limit = 0 ->
  exists t, remaining = "010"%char :: t.
Proof.
  intros Hl. unfold TournaBot.cut_of.
  destruct (TournaBot.rfind_char _ _) as [i|] eqn:E; [|lia].
  destruct (i <? limit / 2)%nat; [lia|]. intros ->.
  apply rfind_char_spec in E.
  destruct limit as [|n]; [lia|].
  destruct remaining as [|x t]; [discriminate|].
  cbn [firstn nth_error] in E. injection E as ->. now exists t.
Qed.

Lemma strip_space_head (c : ascii) (t : str) :
  is_space c = true -> strip (c :: t) = strip t.
Proof.
  intros Hc. unfold strip, lstrip_by. cbn [drop_while]. now rewrite Hc.
Qed.

Lemma split_decreases (remaining : str) (limit : nat) :
  1 <= limit -> limit < length remaining ->
  length (strip (skipn (TournaBot.cut_of remaining limit) remaining))
  < length remaining.
Proof.
  intros Hl Hr. destruct (TournaBot.cut_of remaining limit) as [|k] eqn:E.
  - destruct (cut_of_zero _ _ Hl E) as [t ->]. cbn [skipn].
    rewrite strip_space_head by reflexivity.
    pose proof (strip_length t). cbn [length]. lia.
  - pose proof (strip_length (skipn (S k) remaining)) as Hs.
    rewrite length_skipn in Hs. lia.
Qed.

Lemma visible_blank (s : str) : forallb is_space s = true -> visible s = [].
Proof.
  induction s as [|c t IH]; cbn [forallb visible filter]; [reflexivity|].
  intros H. apply andb_true_iff in H as [Hc Ht]. rewrite Hc. cbn [negb].
  now apply IH.
Qed.

Lemma visible_app (a b : str) : visible (a ++ b) = visible a ++ visible b.
Proof. unfold visible. apply filter_app. Qed.

Lemma visible_strip (s : str) : visible (strip s) = visible s.
Proof.
  unfold strip, lstrip_by.
  destruct (drop_while_suffix is_space s) as (pre & E & Hpre).
  destruct (rstrip_by_prefix is_space (drop_while is_space s))
    as (post & E' & Hpost).
  rewrite E at 2. rewrite E' at 2.
  rewrite !visible_app, (visible_blank pre Hpre), (visible_blank post Hpost).
  now rewrite app_nil_r.
Qed.

Lemma split_loop_runs (limit : nat) :
  1 <= limit ->
  forall n remaining, length remaining <= n ->
    exists chunks,
      (forall fuel out, length remaining < fuel ->
         TournaBot.split_loop fuel limit remaining out = Some (out ++ chunks))
      /\ Forall (fun c => length c <= limit) chunks
      /\ visible (concat chunks) = visible remaining.
Proof.
  intros Hl. induction n as [|n IH]; intros remaining Hn.
  - destruct remaining; [|cbn [length] in Hn; lia].
    exists []. split; [|split; [constructor | reflexivity]].
    intros [|fuel] out Hf; [cbn [length] in Hf; lia|].
    cbn [TournaBot.split_loop length]. destruct limit; [lia|].
    cbn [Nat.ltb Nat.leb is_empty]. now rewrite app_nil_r.
  - destruct (limit <? length remaining)%nat eqn:El.
    + pose proof (proj1 (Nat.ltb_lt _ _) El) as Hlt.
      pose proof (split_decreases remaining limit Hl Hlt) as Hdec.
      set (cut := TournaBot.cut_of remaining limit) in *.
      destruct (IH (strip (skipn cut remaining))) as (chunks & Hrun & Hall & Hvis);
        [lia|].
      exists (strip (firstn cut remaining) :: chunks). split; [|split].
      * intros [|fuel] out Hf; [lia|].
        cbn [TournaBot.split_loop]. rewrite El. fold cut.
        rewrite Hrun by lia. now rewrite <- app_assoc.
      * constructor; [|exact Hall].
        pose proof (strip_length (firstn cut remaining)) as Hs.
        rewrite length_firstn in Hs.
        pose proof (cut_of_le remaining limit). fold cut in H. lia.
      * cbn [concat]. rewrite visible_app, Hvis, !visible_strip.
        rewrite <- visible_app. now rewrite firstn_skipn.
    + pose proof (proj1 (Nat.ltb_ge _ _) El) as Hge.
      exists (if is_empty remaining then [] else [remaining]).
      split; [|split].
      * intros [|fuel] out Hf; [lia|].
        cbn [TournaBot.split_loop]. rewrite El.
        destruct remaining; cbn [is_empty]; [now rewrite app_nil_r | reflexivity].
      * destruct remaining; cbn [is_empty]; [constructor|].
        constructor; [exact Hge | constructor].
      * destruct remaining; cbn [is_empty concat]; [reflexivity|].
        now rewrite app_nil_r.
Qed.

(** X22. With a limit of at least 1, [_split_message] returns: its loop
    ends within [len(text)] rounds; no chunk is longer than the limit; and
    the chunks, put together, hold the text but for white space. *)
Theorem split_message_chunks (text : str) (limit : nat) :
  1 <= limit ->
  exists chunks,
    (forall fuel, length text < fuel ->
       TournaBot._split_message fuel text limit = Some chunks)
    /\ Forall (fun c => length c <= limit) chunks
    /\ visible (concat chunks) = visible text.
Proof.
  intros Hl. unfold TournaBot._split_message.
  destruct (length text <=? limit)%nat eqn:E.
  - apply Nat.leb_le in E. exists [text]. split; [reflexivity|].
    split; [constructor; [exact E | constructor]|].
    cbn [concat]. now rewrite app_nil_r.
  - destruct (split_loop_runs limit Hl (length text) text (le_n _))
      as (chunks & Hrun & Hall & Hvis).
    exists chunks. split; [|split; assumption].
    intros fuel Hf. now rewrite (Hrun fuel [] Hf).
Qed.

Lemma split_message_chunks_witness :
  TournaBot._split_message 20 (py "first line" ++ "010"%char :: py "second") 12
  = Some [py "first line"; py "second"]
  /\ exists chunks,
       (forall fuel,
          length (py "first line" ++ "010"%char :: py "second") < fuel ->
          TournaBot._split_message
            fuel (py "first line" ++ "010"%char :: py "second") 12
          = Some chunks)
       /\ Forall (fun c => length c <= 12) chunks
       /\ visible (concat chunks)
          = visible (py "first line" ++ "010"%char :: py "second").
Proof.
  split; [reflexivity|].
  apply (split_message_chunks (py "first line" ++ "010"%char :: py "second") 12).
  lia.
Defined.

(** X23. With the limit 0, [_split_message] does not return on a text that
    is not empty and has no white space at its ends: no number of rounds
    ends its loop. *)
Theorem split_message_limit_zero (text : str) :
  text <> [] -> trimmed text ->
  forall fuel, TournaBot._split_message fuel text 0 = None.
Proof.
  intros Hne Htr fuel. unfold TournaBot._split_message.
  destruct text as [|c t]; [contradiction|]. cbn [length Nat.leb].
  generalize (@nil str).
  induction fuel as [|fuel IH]; intros out; cbn [TournaBot.split_loop];
    [reflexivity|].
  cbn [length Nat.ltb Nat.leb].
  change (TournaBot.cut_of (c :: t) 0) with 0. cbn [skipn].
  rewrite Htr. apply IH.
Qed.

Lemma split_message_limit_zero_witness :
  py "a" <> [] /\ trimmed "a"
  /\ forall fuel, TournaBot._split_message fuel "a" 0 = None.
Proof.
  assert (H1 : py "a" <> []) by discriminate.
  assert (H2 : trimmed "a") by reflexivity.
  split; [exact H1|]. split; [exact H2|].
  exact (split_message_limit_zero "a" H1 H2).
Defined.

(** ** Settings from the environment *)

Lemma split_char_free (sep : ascii) (s : str) :
  Forall (fun piece => ~ In sep piece) (Settings.split_char sep s).
Proof.
  induction s as [|c t IH]; cbn [Settings.split_char].
  - constructor; [intros [] | constructor].
  - destruct (Ascii.eqb_spec c sep) as [->|Hne].
    + constructor; [intros [] | exact IH].
    + destruct (Settings.split_char sep t) as [|piece rest].
      * constructor; [|constructor]. intros [E|[]]. congruence.
      * apply Forall_cons_iff in IH as [Hp Hr]. constructor; [|exact Hr].
        intros [E|Hin]; [congruence | contradiction].
Qed.

Lemma strip_In (s : str) (c : ascii) : In c (strip s) -> In c s.
Proof.
  intros Hin. destruct (strip_parts s) as (pre & post & E). rewrite E.
  apply in_or_app. right. apply in_or_app. now left.
Qed.

Lemma lower_char_comma (c : ascii) : lower_char c = ","%char -> c = ","%char.
Proof.
  destruct c as [[] [] [] [] [] [] [] []]; intros E; vm_compute in E;
    congruence.
Qed.

Lemma affiliates_clean (affiliates_csv : str) :
  Forall clean_keyword (Settings.affiliates_of affiliates_csv).
Proof.
  unfold Settings.affiliates_of. apply Forall_forall. intros k Hk.
  apply in_map_iff in Hk as (x & <- & Hx).
  apply filter_In in Hx as [Hx Hne].
  pose proof (split_char_free "," affiliates_csv) as Hfree.
  rewrite Forall_forall in Hfree. specialize (Hfree x Hx).
  split; [|split; [|split]].
  - destruct (strip x); [discriminate Hne | discriminate].
  - unfold trimmed. rewrite strip_lower. f_equal. apply strip_trimmed.
  - apply lower_idem.
  - intros Hin. apply in_map_iff in Hin as (c & Ec & Hc).
    apply lower_char_comma in Ec. subst c. apply Hfree. now apply strip_In.
Qed.

(** X24. [Settings.from_env] either raises [ValueError] or returns settings
    whose token is not empty, whose texts have no white space at their ends
    and whose keyword list is not empty and holds only non-empty,
    lower-case keywords without commas or white space at their ends; it
    returns whenever the token is not blank, one keyword is not blank and
    the timeout is a number. *)
Theorem from_env_checked (float : Type) (float_of_str : str -> option float)
        (environ : str -> option str) :
  match Settings.from_env float_of_str environ with
  | Ok s =>
      Settings.telegram_bot_token s <> []
      /\ trimmed (Settings.telegram_bot_token s)
      /\ Settings.team_affiliate_keywords s <> []
      /\ Forall clean_keyword (Settings.team_affiliate_keywords s)
      /\ trimmed (Settings.smoothcomp_events_url s)
      /\ trimmed (Settings.smoothcomp_events_fallback_url s)
      /\ trimmed (Settings.smoothcomp_default_country s)
  | Raise e =>
      e = ValueError
      /\ (strip (Settings.getenv environ "TELEGRAM_BOT_TOKEN" []) = []
          \/ Settings.affiliates_of
               (Settings.getenv environ "TEAM_AFFILIATE_KEYWORDS" []) = []
          \/ float_of_str
               (Settings.getenv environ "SMOOTHCOMP_TIMEOUT_SECONDS" "20")
             = None)
  end.
Proof.
  unfold Settings.from_env.
  destruct (strip (Settings.getenv environ "TELEGRAM_BOT_TOKEN" []))
    as [|c token] eqn:Et; cbn [is_empty]; [split; [reflexivity | now left]|].
  destruct (Settings.affiliates_of
              (Settings.getenv environ "TEAM_AFFILIATE_KEYWORDS" []))
    as [|k ks] eqn:Ea; cbn [is_empty];
    [split; [reflexivity | right; now left]|].
  destruct (float_of_str _) as [timeout|] eqn:Ef;
    [|split; [reflexivity | right; now right]].
  cbn [Settings.telegram_bot_token Settings.team_affiliate_keywords
       Settings.smoothcomp_events_url Settings.smoothcomp_events_fallback_url
       Settings.smoothcomp_default_country].
  split; [discriminate|].
  split; [rewrite <- Et; apply strip_trimmed|].
  split; [discriminate|].
  split; [rewrite <- Ea; apply affiliates_clean|].
  split; [apply strip_trimmed|]. split; apply strip_trimmed.
Qed.

(** ** The candidate URLs of an event id *)

Lemma fold_dict_set_keys {A : Type} (f : A -> str) (l : list A) (d : dict unit) :
  NoDup (map fst d) ->
  NoDup (map fst (fold_left (fun d m => dict_set (f m) tt d) l d))
  /\ exists extra,
       map fst (fold_left (fun d m => dict_set (f m) tt d) l d)
       = map fst d ++ extra.
Proof.
  revert d; induction l as [|m l IH]; intros d Hd; cbn [fold_left].
  - split; [exact Hd|]. exists []. now rewrite app_nil_r.
  - assert (Hd' : NoDup (map fst (dict_set (f m) tt d))).
    { rewrite dict_set_keys. destruct (dict_mem (f m) d) eqn:E; [exact Hd|].
      apply NoDup_snoc; [exact Hd|]. rewrite <- dict_mem_In. congruence. }
    destruct (IH _ Hd') as [Hn [extra He]]. split; [exact Hn|].
    rewrite He, dict_set_keys.
    destruct (dict_mem (f m) d); [now exists extra|].
    exists (f m :: extra). now rewrite <- app_assoc.
Qed.

Section Candidates.
Context `{Externals}.

Lemma join_matches_keys (base : str) (ms : list str) :
  forall (d d' : dict unit),
    join_matches base ms d = Ok d' ->
    NoDup (map fst d) ->
    NoDup (map fst d') /\ exists extra, map fst d' = map fst d ++ extra.
Proof.
  induction ms as [|m ms IH]; intros d d'; cbn [join_matches].
  - intros E Hd. injection E as <-. split; [exact Hd|].
    exists []. now rewrite app_nil_r.
  - destruct (join_url base (split1_head "?" m)) as [u|e]; cbn [exc_bind];
      [|discriminate].
    intros E Hd.
    assert (Hd' : NoDup (map fst (dict_set u tt d))).
    { rewrite dict_set_keys. destruct (dict_mem u d) eqn:Em; [exact Hd|].
      apply NoDup_snoc; [exact Hd|]. rewrite <- dict_mem_In. congruence. }
    destruct (IH _ _ E Hd') as [Hn [extra He]]. split; [exact Hn|].
    rewrite He, dict_set_keys.
    destruct (dict_mem u d); [now exists extra|].
    exists (u :: extra). now rewrite <- app_assoc.
Qed.

Lemma candidate_pages_loop_keys (event_id : str) (pages : list str) :
  forall (candidates d : dict unit) (w w' : World),
    candidate_pages_loop event_id pages candidates w = (Ok d, w') ->
    NoDup (map fst candidates) ->
    NoDup (map fst d)
    /\ exists extra, map fst d = map fst candidates ++ extra.
Proof.
  induction pages as [|page rest IH]; intros candidates d w w';
    cbn [candidate_pages_loop].
  - unfold ret. intros E Hc. injection E as <- _. split; [exact Hc|].
    exists []. now rewrite app_nil_r.
  - rewrite bind_eq, try_eq, bind_eq, client_get_eq.
    destruct (http_get page w) as [[f|resp] w1].
    + destruct f; cbn [exn_of_failure is_HTTPError]; try discriminate;
        unfold ret; apply IH.
    + destruct (status_code resp =? 200)%Z; cbn [negb]; unfold ret;
        [|apply IH].
      rewrite bind_eq. unfold lift.
      destruct (join_matches
                  (resp_url resp)
                  (re_findall (pattern_rel event_id) (resp_text resp))
                  (fold_left (fun d m => dict_set (split1_head "?" m) tt d)
                             (re_findall (pattern_abs event_id)
                                         (resp_text resp))
                             candidates)) as [d2|e] eqn:Ej; [|discriminate].
      intros E Hc.
      destruct (fold_dict_set_keys (split1_head "?")
                  (re_findall (pattern_abs event_id) (resp_text resp))
                  candidates Hc) as [Hn1 [e1 E1]].
      destruct (join_matches_keys _ _ _ _ Ej Hn1) as [Hn2 [e2 E2]].
      destruct (IH _ _ _ _ E Hn2) as (Hd & [e3 E3]).
      split; [exact Hd|].
      exists (e1 ++ e2 ++ e3). rewrite E3, E2, E1. now rewrite <- !app_assoc.
Qed.

(** X25. [_candidate_event_urls_for_id] returns whatever the two listing
    pages answer, but for two exceptions: [httpx.InvalidURL], if [httpx]
    refuses the url of a listing page, and the [ValueError] of [urljoin],
    if it fails to join a rooted path to the url of a response. The URLs
    it returns are all different, and the first two are the
    [/en/event/<id>] URL of [event_url_from_id] and the [/event/<id>] URL,
    in this order. *)
Theorem candidate_urls_for_id (self : client) (event_id : str) (w : World) :
  ((exists urls w',
       _candidate_event_urls_for_id self event_id w = (Ok urls, w'))
   \/ (fst (_candidate_event_urls_for_id self event_id w) = Raise InvalidURL
       /\ some_url_refused)
   \/ (fst (_candidate_event_urls_for_id self event_id w) = Raise ValueError
       /\ ~ responses_joinable))
  /\ forall urls w',
       _candidate_event_urls_for_id self event_id w = (Ok urls, w') ->
       NoDup urls
       /\ exists rest,
            urls = event_url_from_id event_id
                   :: (py "https://smoothcomp.com/event/" ++ event_id) :: rest.
Proof.
  unfold _candidate_event_urls_for_id. rewrite bind_eq.
  set (start := dict_set (py "https://smoothcomp.com/event/" ++ event_id) tt
                  (dict_set (py "https://smoothcomp.com/en/event/" ++ event_id)
                            tt [])).
  assert (Es : map fst start
               = [event_url_from_id event_id;
                  py "https://smoothcomp.com/event/" ++ event_id])
    by reflexivity.
  assert (Hs : NoDup (map fst start)).
  { rewrite Es. constructor; [|constructor; [intros [] | constructor]].
    intros [E|[]]. discriminate E. }
  destruct (candidate_pages_loop event_id
              [base_events_url self; fallback_events_url self] start w)
    as [[d|e] w1] eqn:Ed.
  - split; [left; unfold ret; eauto|].
    unfold ret. intros urls w' E. injection E as <- _.
    destruct (candidate_pages_loop_keys _ _ _ _ _ _ Ed Hs) as (Hd & [extra Ee]).
    split; [exact Hd|]. exists extra. now rewrite Ee, Es.
  - split; [|discriminate].
    destruct (candidate_pages_loop_outcome event_id
                [base_events_url self; fallback_events_url self] start w)
      as [(r & w' & E)|[[E Hr]|[E Hj]]]; rewrite Ed in E.
    + discriminate.
    + right. left. cbn [fst] in *. injection E as ->. now split.
    + right. right. cbn [fst] in *. injection E as ->. now split.
Qed.

End Candidates.

(** A listing url that [httpx] refuses: [InvalidURL] passes the
    [except httpx.HTTPError] of the page loop. *)
Example candidate_urls_refused_listing :
  fst (_candidate_event_urls_for_id (H := strict_url_world)
         (mk_client (py "https://smoothcomp.com/en/events/upcoming"
                        ++ ["001"%char])
                    "https://compseek.net/events/smoothcomp")
         "26935" tt)
  = Raise InvalidURL.
Proof. vm_compute. reflexivity. Qed.

(** ** What a plausible name looks like *)

Lemma rmatch_eos_inv (s : str) (g : list str) (rest : str) :
  In (g, rest) (rmatch Eos s) -> rest = s /\ (s = [] \/ s = ["010"%char]).
Proof.
  cbn [rmatch]. destruct s as [|c [|d t]]; [| |intros []].
  - intros [E|[]]. injection E as _ <-. split; [reflexivity | now left].
  - destruct (Ascii.eqb_spec c "010") as [->|]; [|intros []].
    intros [E|[]]. injection E as _ <-. split; [reflexivity | now right].
Qed.

Lemma rmatch_eow_inv (s : str) (g : list str) (rest : str) :
  In (g, rest) (rmatch Eow s) -> rest = s.
Proof.
  cbn [rmatch]. destruct s as [|c t].
  - intros [E|[]]. now injection E as _ <-.
  - destruct (is_word c); [intros []|].
    intros [E|[]]. now injection E as _ <-.
Qed.

Lemma rmatch_within (Q : ascii -> Prop) (r : regex) :
  within Q r ->
  forall s g rest, In (g, rest) (rmatch r s) ->
    exists m, s = m ++ rest /\ Forall Q m.
Proof.
  induction r as [|p|r1 IH1 r2 IH2|r1 IH1 r2 IH2|p lo hi|r IH| |];
    cbn [within]; intros Hw s g rest Hin.
  - destruct Hin as [E|[]]. injection E as _ <-. now exists [].
  - cbn [rmatch] in Hin. destruct s as [|c t]; [destruct Hin|].
    destruct (p c) eqn:Ec; [|destruct Hin].
    destruct Hin as [E|[]]. injection E as _ <-. exists [c].
    split; [reflexivity|]. constructor; [now apply Hw | constructor].
  - destruct Hw as [W1 W2].
    apply rmatch_cat_inv in Hin as (g1 & mid & g2 & H1 & H2 & _).
    destruct (IH1 W1 _ _ _ H1) as (m1 & -> & Q1).
    destruct (IH2 W2 _ _ _ H2) as (m2 & -> & Q2).
    exists (m1 ++ m2). split; [now rewrite app_assoc|].
    apply Forall_app. now split.
  - destruct Hw as [W1 W2]. cbn [rmatch] in Hin.
    apply in_app_or in Hin as [Hin|Hin]; eauto.
  - apply rmatch_rep_inv in Hin as [_ Hin].
    apply rep_rems_sound in Hin as (m & -> & Hm & _).
    exists m. split; [reflexivity|]. apply Forall_forall. intros c Hc.
    apply Hw. rewrite forallb_forall in Hm. now apply Hm.
  - apply rmatch_grp_inv in Hin as (g' & _ & Hin). eauto.
  - apply rmatch_eos_inv in Hin as [-> _]. exists [].
    split; [reflexivity | constructor].
  - apply rmatch_eow_inv in Hin as ->. exists [].
    split; [reflexivity | constructor].
Qed.

(** X26. A name that [_is_plausible_person_name] accepts has, once
    stripped, at least five characters, all of them letters, ['], [`], [.],
    [-] or white space, with white space among them: it is never a single
    word and never holds a digit. *)
Theorem plausible_person_name_shape (name : str) :
  _is_plausible_person_name name = true ->
  5 <= length (strip name)
  /\ Forall name_char (strip name)
  /\ Exists (fun c => is_space c = true) (strip name)
  /\ Forall (fun c => is_digit c = false) (strip name).
Proof.
  unfold _is_plausible_person_name.
  destruct (length (strip name) <? 5)%nat eqn:El; [discriminate|].
  apply Nat.ltb_ge in El.
  destruct (existsb _ _); [discriminate|].
  set (n := strip name) in *.
  destruct (re_match person_name_re n) as [m|] eqn:Em; [|discriminate].
  intros _. apply re_match_inv in Em as [Hin _].
  assert (Hw : within name_char person_name_re).
  { unfold person_name_re, opt, plus, name_char. cbn [within].
    repeat split; intros c Hc; auto. }
  assert (Hall : Forall name_char n).
  { pose proof Hin as Hin'.
    destruct (rmatch_within _ _ Hw _ _ _ Hin) as (mm & En & Hmm).
    unfold person_name_re in Hin'.
    apply rmatch_cat_inv in Hin' as (g1 & t1 & g1' & _ & Hin' & _).
    apply rmatch_cat_inv in Hin' as (g2 & t2 & g2' & _ & Hin' & _).
    apply rmatch_cat_inv in Hin' as (g3 & t3 & g3' & _ & Hin' & _).
    apply rmatch_eos_inv in Hin' as [Er Ht3].
    rewrite En. apply Forall_app. split; [exact Hmm|].
    rewrite Er. destruct Ht3 as [->| ->]; [constructor|].
    constructor; [now right | constructor]. }
  split; [exact El|]. split; [exact Hall|]. split.
  - unfold person_name_re in Hin.
    apply rmatch_cat_inv in Hin as (g1 & t1 & g1' & H1 & Hin & _).
    apply rmatch_suffix in H1 as [m1 E1].
    apply rmatch_cat_inv in Hin as (g2 & t2 & g2' & H2 & _ & _).
    apply rmatch_cat_inv in H2 as (g3 & t3 & g3' & H3 & _ & _).
    unfold plus in H3. apply rmatch_rep_inv in H3 as [_ H3].
    apply rep_rems_sound in H3 as (sp & E3 & Hsp & Hlen & _).
    destruct sp as [|c sp]; [cbn [length] in Hlen; lia|].
    cbn [forallb] in Hsp. apply andb_true_iff in Hsp as [Hc _].
    rewrite E1, E3. apply Exists_app. right. cbn [app]. now constructor.
  - apply Forall_forall. intros c Hc. rewrite Forall_forall in Hall.
    destruct (Hall c Hc) as [Hn|Hs].
    + destruct c as [[] [] [] [] [] [] [] []]; try reflexivity;
        discriminate Hn.
    + destruct c as [[] [] [] [] [] [] [] []]; try reflexivity;
        discriminate Hs.
Qed.

Lemma plausible_person_name_shape_witness :
  _is_plausible_person_name " Alice Santos " = true
  /\ 5 <= length (strip " Alice Santos ")
  /\ Exists (fun c => is_space c = true) (strip " Alice Santos ").
Proof.
  assert (E : _is_plausible_person_name " Alice Santos " = true)
    by reflexivity.
  destruct (plausible_person_name_shape _ E) as (H5 & _ & Hs & _).
  split; [exact E|]. split; assumption.
Defined.

(** ** The quick bracket view *)

Lemma escape_char_tag_free (c : ascii) : tag_free (Formatters.escape_char c).
Proof.
  unfold Formatters.escape_char, tag_free.
  destruct (Ascii.eqb c "&");
    [split; cbn [py In list_ascii_of_string]; intuition discriminate|].
  destruct (Ascii.eqb_spec c "<");
    [split; cbn [py In list_ascii_of_string]; intuition discriminate|].
  destruct (Ascii.eqb_spec c ">");
    [split; cbn [py In list_ascii_of_string]; intuition discriminate|].
  destruct (Ascii.eqb c "034");
    [split; cbn [py In list_ascii_of_string]; intuition discriminate|].
  destruct (Ascii.eqb c "'");
    [split; cbn [py In list_ascii_of_string]; intuition discriminate|].
  split; intros [E|[]]; congruence.
Qed.

Lemma tag_free_app (a b : str) : tag_free a -> tag_free b -> tag_free (a ++ b).
Proof.
  intros [A1 A2] [B1 B2]. split; intros Hin; apply in_app_or in Hin; tauto.
Qed.

Lemma escape_tag_free (s : str) : tag_free (Formatters.escape s).
Proof.
  unfold Formatters.escape. induction s as [|c t IH]; cbn [flat_map].
  - split; intros [].
  - apply tag_free_app; [apply escape_char_tag_free | exact IH].
Qed.

Lemma bracket_line_tag_free (row : CompetitorSchedule.t) :
  tag_free (Formatters.bracket_line row).
Proof.
  unfold Formatters.bracket_line.
  repeat (apply tag_free_app; [try apply escape_tag_free|]);
    try apply escape_tag_free;
    split; cbn [py In list_ascii_of_string]; intuition discriminate.
Qed.

Lemma heading_tag_free (division : str) :
  tag_free (Formatters.heading division).
Proof.
  unfold Formatters.heading.
  change ("010"%char :: Formatters.escape division)
    with (["010"%char] ++ Formatters.escape division).
  apply tag_free_app; [|apply escape_tag_free].
  split; intros [E|[]]; discriminate E.
Qed.

Lemma dict_append_keys {V : Type} (k : str) (v : V) (d : dict (list V)) :
  map fst (Formatters.dict_append k v d)
  = if dict_mem k d then map fst d else map fst d ++ [k].
Proof.
  induction d as [|[k' vs] d IH]; cbn [Formatters.dict_append dict_mem map fst];
    [reflexivity|].
  destruct (str_eqb k' k); cbn [orb map fst app]; [reflexivity|].
  rewrite IH. now destruct (dict_mem k d).
Qed.

Lemma dict_append_In {V : Type} (k : str) (v : V) (d : dict (list V))
      (k0 : str) (vs0 : list V) :
  In (k0, vs0) (Formatters.dict_append k v d) ->
  In (k0, vs0) d
  \/ (k0 = k /\ (vs0 = [v] \/ exists vs, In (k, vs) d /\ vs0 = vs ++ [v])).
Proof.
  induction d as [|[k' vs] d IH]; cbn [Formatters.dict_append].
  - intros [E|[]]. injection E as <- <-. right. split; [reflexivity | now left].
  - destruct (str_eqb k' k) eqn:Ek.
    + apply str_eqb_eq in Ek. subst k'.
      intros [E|Hin]; [|left; now right].
      injection E as <- <-. right. split; [reflexivity|]. right.
      exists vs. split; [now left | reflexivity].
    + intros [E|Hin]; [left; now left|].
      destruct (IH Hin) as [H1|[-> [->|(vs' & H1 & ->)]]].
      * left. now right.
      * right. split; [reflexivity | now left].
      * right. split; [reflexivity|]. right. exists vs'.
        split; [now right | reflexivity].
Qed.

Lemma dict_append_keeps {V : Type} (k : str) (v : V) (d : dict (list V))
      (k0 : str) (vs0 : list V) :
  In (k0, vs0) d ->
  exists vs', In (k0, vs') (Formatters.dict_append k v d) /\ incl vs0 vs'.
Proof.
  induction d as [|[k' vs] d IH]; cbn [Formatters.dict_append]; [intros []|].
  destruct (str_eqb k' k) eqn:Ek.
  - intros [E|Hin].
    + injection E as -> ->. exists (vs0 ++ [v]).
      split; [now left | apply incl_appl, incl_refl].
    + exists vs0. split; [now right | apply incl_refl].
  - intros [E|Hin].
    + injection E as -> ->. exists vs0. split; [now left | apply incl_refl].
    + destruct (IH Hin) as (vs' & H1 & H2). exists vs'.
      split; [now right | exact H2].
Qed.

Lemma dict_append_new {V : Type} (k : str) (v : V) (d : dict (list V)) :
  exists vs', In (k, vs') (Formatters.dict_append k v d) /\ In v vs'.
Proof.
  induction d as [|[k' vs] d (vs' & H1 & H2)]; cbn [Formatters.dict_append].
  - exists [v]. split; now left.
  - destruct (str_eqb k' k) eqn:Ek.
    + apply str_eqb_eq in Ek. subst k'. exists (vs ++ [v]).
      split; [now left | apply in_or_app; right; now left].
    + exists vs'. split; [now right | exact H2].
Qed.

Lemma dict_append_length {V : Type} (k : str) (v : V) (d : dict (list V)) :
  length (concat (map snd (Formatters.dict_append k v d)))
  = S (length (concat (map snd d))).
Proof.
  induction d as [|[k' vs] d IH]; cbn [Formatters.dict_append]; [reflexivity|].
  destruct (str_eqb k' k); cbn [map snd concat]; rewrite !length_app.
  - cbn [length]. lia.
  - rewrite IH. lia.
Qed.

Lemma dict_append_grouped {V : Type} (key : V -> str) (rows : list V)
      (d : dict (list V)) (r : V) :
  grouped key rows d ->
  grouped key (rows ++ [r]) (Formatters.dict_append (key r) r d).
Proof.
  intros (G1 & G2 & G3 & G4 & G5). unfold grouped.
  split; [|split; [|split; [|split]]].
  - rewrite dict_append_keys. destruct (dict_mem (key r) d) eqn:E; [exact G1|].
    apply NoDup_snoc; [exact G1|]. rewrite <- dict_mem_In. congruence.
  - intros k vs x Hin Hx.
    apply dict_append_In in Hin as [Hin|[-> [->|(vs' & Hin & ->)]]].
    + destruct (G2 _ _ _ Hin Hx) as [H1 H2].
      split; [apply in_or_app; now left | exact H2].
    + destruct Hx as [<-|[]]. split; [apply in_or_app; right; now left|].
      reflexivity.
    + apply in_app_or in Hx as [Hx|[<-|[]]].
      * destruct (G2 _ _ _ Hin Hx) as [H1 H2].
        split; [apply in_or_app; now left | exact H2].
      * split; [apply in_or_app; right; now left | reflexivity].
  - intros x Hx. apply in_app_or in Hx as [Hx|[<-|[]]].
    + destruct (G3 x Hx) as (vs & Hin & Hxs).
      destruct (dict_append_keeps (key r) r d _ _ Hin) as (vs' & H1 & H2).
      exists vs'. split; [exact H1 | now apply H2].
    + apply dict_append_new.
  - intros k vs Hin.
    apply dict_append_In in Hin as [Hin|[-> [->|(vs' & Hin & ->)]]].
    + now apply (G4 k).
    + discriminate.
    + destruct vs'; discriminate.
  - rewrite dict_append_length, G5, length_app. cbn [length]. lia.
Qed.

Lemma fold_grouped {V : Type} (key : V -> str) (rest done : list V)
      (d : dict (list V)) :
  grouped key done d ->
  grouped key (done ++ rest)
          (fold_left (fun d row => Formatters.dict_append (key row) row d)
                     rest d).
Proof.
  revert done d; induction rest as [|r rest IH]; intros done d Hd;
    cbn [fold_left]; [now rewrite app_nil_r|].
  replace (done ++ r :: rest) with ((done ++ [r]) ++ rest)
    by (rewrite <- app_assoc; reflexivity).
  apply IH, dict_append_grouped, Hd.
Qed.

Lemma sort_by_length {A K : Type} `{Cmp K} (key : A -> K) (l : list A) :
  length (sort_by key l) = length l.
Proof.
  assert (Q : forall x s, length (insert_by key x s) = S (length s)).
  { intros x s. induction s as [|y s IHs]; cbn [insert_by]; [reflexivity|].
    destruct (ltb (key y) (key x)); cbn [length]; [now rewrite IHs|].
    reflexivity. }
  induction l as [|x l IH]; cbn [sort_by]; [reflexivity|].
  rewrite Q, IH. reflexivity.
Qed.

Lemma sort_by_Permutation {A K : Type} `{Cmp K} (key : A -> K) (l : list A) :
  Permutation (sort_by key l) l.
Proof.
  assert (Q : forall x s, Permutation (insert_by key x s) (x :: s)).
  { intros x s. induction s as [|y s IHs]; cbn [insert_by]; [reflexivity|].
    destruct (ltb (key y) (key x)); [|reflexivity].
    rewrite IHs. apply perm_swap. }
  induction l as [|x l IH]; cbn [sort_by]; [reflexivity|].
  rewrite Q. now constructor.
Qed.

(** X27. The lines of [build_bracket_lines] hold no [<] and no [>],
    whatever the records hold; every division has its heading and every
    record its line; and there are as many lines as divisions and records
    together. *)
Theorem bracket_lines_complete (competitors : list CompetitorSchedule.t) :
  Forall tag_free (Formatters.build_bracket_lines competitors)
  /\ (forall row, In row competitors ->
        In (Formatters.heading (Formatters.division_of row))
           (Formatters.build_bracket_lines competitors)
        /\ In (Formatters.bracket_line row)
              (Formatters.build_bracket_lines competitors))
  /\ exists divisions,
       NoDup divisions
       /\ (forall k, In k divisions <->
             exists row, In row competitors /\ Formatters.division_of row = k)
       /\ length (Formatters.build_bracket_lines competitors)
          = length divisions + length competitors.
Proof.
  unfold Formatters.build_bracket_lines.
  pose proof (fold_grouped Formatters.division_of competitors [] []) as G.
  cbn [app] in G.
  destruct G as (G1 & G2 & G3 & G4 & G5).
  { split; [constructor|]. split; [intros k vs r []|].
    split; [intros r []|]. split; [intros k vs []|]. reflexivity. }
  set (d := fold_left (fun d row =>
                         Formatters.dict_append (Formatters.division_of row)
                                                row d) competitors []) in *.
  set (F := fun division : str =>
              Formatters.heading division
              :: map Formatters.bracket_line
                     (sort_by CompetitorSchedule.competitor_name
                              (match dict_get division d with
                               | Some rows => rows
                               | None => []
                               end))).
  split; [|split].
  - apply Forall_forall. intros line Hin.
    apply in_flat_map in Hin as (k & _ & [<-|Hin]);
      [apply heading_tag_free|].
    apply in_map_iff in Hin as (row & <- & _). apply bracket_line_tag_free.
  - intros row Hrow. destruct (G3 row Hrow) as (vs & Hin & Hvs).
    assert (Hk : In (Formatters.division_of row)
                    (sort_by (fun division : str => division) (map fst d))).
    { apply sort_by_In. apply in_map_iff.
      now exists (Formatters.division_of row, vs). }
    assert (Hget : dict_get (Formatters.division_of row) d = Some vs)
      by now apply dict_get_In.
    split; apply in_flat_map; exists (Formatters.division_of row);
      (split; [exact Hk|]); unfold F; [now left|].
    right. rewrite Hget. apply in_map. now apply sort_by_In.
  - exists (map fst d). split; [exact G1|]. split.
    + intros k. split.
      * intros Hk. apply in_map_iff in Hk as ([k' vs] & <- & Hin).
        cbn [fst]. pose proof (G4 _ _ Hin) as Hne.
        destruct vs as [|r vs]; [contradiction|].
        exists r. apply (G2 k' (r :: vs) r Hin). now left.
      * intros (row & Hrow & <-). destruct (G3 row Hrow) as (vs & Hin & _).
        apply in_map_iff. now exists (Formatters.division_of row, vs).
    + rewrite (Permutation_length
                 (Permutation_flat_map F
                    (sort_by_Permutation (fun division : str => division)
                                         (map fst d)))).
      rewrite <- G5.
      assert (Hsub : forall l,
                 (forall kv, In kv l -> In kv d) ->
                 length (flat_map F (map fst l))
                 = length (map fst l) + length (concat (map snd l))).
      { induction l as [|[k vs] l IH]; intros Hl; [reflexivity|].
        cbn [map fst snd flat_map concat]. rewrite !length_app, IH
          by (intros kv Hkv; apply Hl; now right).
        unfold F at 1.
        rewrite (proj2 (dict_get_In k vs d G1) (Hl _ (or_introl eq_refl))).
        cbn [length]. rewrite length_map, sort_by_length. lia. }
      apply Hsub. auto.
Qed.
